(* ===== verification/_CoqProject ===== *)
-Q . S2P
Prelude.v
Endian.v
Float64.v
Sample.v
SampleCodec.v
RecordCodec.v
RingFile.v
RingCheck.v
TierAggregator.v
TierManager.v
TierQuery.v
HotBuffer.v
MetricSet.v
Scheduler.v
JsonText.v
LoginLimiter.v
TextNum.v
HttpUtil.v
Sha1Base64.v
Session.v
HttpServer.v
WsHub.v
NumText.v
Json.v
Router.v
