(* ===== verification/Prelude.v ===== *)
(** Development header placeholder. *)
From Stdlib Require Import ZArith Lia List Bool.
From stdpp Require Import base numbers list strings.

#[global] Set Default Proof Using "Type".
Open Scope Z_scope.

(** ** Machine integers *)

(** A [w]-bit unsigned value is a [Z] in [0, 2^w); [wrap] is the reduction the
    C++ unsigned arithmetic performs. *)
Definition wrap (w z : Z) : Z := z mod 2 ^ w.
Definition is_uint (w z : Z) : Prop := 0 <= z < 2 ^ w.
Definition u8 (z : Z) : Z := wrap 8 z.
Definition u32 (z : Z) : Z := wrap 32 z.
Definition u64 (z : Z) : Z := wrap 64 z.
Definition UINT32_MAX : Z := 2 ^ 32 - 1.
Definition UINT64_MAX : Z := 2 ^ 64 - 1.

#[export] Instance is_uint_dec w z : Decision (is_uint w z).
Proof. unfold is_uint. apply _. Defined.

(** ** Bytes and byte strings *)

(** A byte is a [Z] in [0, 256); a buffer, a file and a [std::string] are
    lists of bytes. *)
Abbreviation bytes := (list Z).
Definition is_bytes (b : bytes) : Prop := Forall (is_uint 8) b.

#[export] Instance is_bytes_dec b : Decision (is_bytes b).
Proof. unfold is_bytes. apply _. Defined.

(** A string literal of the source, as bytes. *)
Fixpoint str (s : string) : bytes :=
  match s with
  | EmptyString => []
  | String c r => Z.of_N (Ascii.N_of_ascii c) :: str r
  end.

Arguments str s%_string_scope.

(** What a C function sees of a [std::string]: the bytes before the first NUL. *)
Fixpoint c_str (b : bytes) : bytes :=
  match b with
  | [] => []
  | c :: r => if c =? 0 then [] else c :: c_str r
  end.

(** [tolower] in the C locale, and [strcasecmp(a, b) == 0]. *)
Definition tolower (c : Z) : Z := if (65 <=? c) && (c <=? 90) then c + 32 else c.
Definition strcasecmp_eq (a b : bytes) : bool :=
  bool_decide (map tolower (c_str a) = map tolower (c_str b)).

(** ** Z-indexed views of lists *)

(** Offsets and sizes of the source are [size_t] or [off_t]: they stay [Z] and
    are converted only where a list is cut. *)
Definition zlen {A} (l : list A) : Z := Z.of_nat (length l).
Definition ztake {A} (n : Z) (l : list A) : list A := take (Z.to_nat n) l.
Definition zdrop {A} (n : Z) (l : list A) : list A := drop (Z.to_nat n) l.
Definition znth {A} (d : A) (l : list A) (i : Z) : A := nth (Z.to_nat i) l d.

(** [slice off n l]: the [n] elements from offset [off]; [splice off d l]: [l]
    with [d] written over it at [off] (a file write inside the file). *)
Definition slice {A} (off n : Z) (l : list A) : list A := ztake n (zdrop off l).
Definition splice {A} (off : Z) (d l : list A) : list A :=
  ztake off l ++ d ++ zdrop (off + zlen d) l.

(** The logical conditions of the source: [c ? a : b] on a decided test. *)
Definition first_rc (rc r : Z) : Z := if rc =? 0 then r else rc.

(** ** Tactics *)

(** Case analysis on the boolean tests and matches of a goal or hypothesis,
    pruning what the context already excludes. *)
Ltac bool_facts :=
  repeat match goal with
  | H : _ && _ = true |- _ => apply andb_true_iff in H; destruct H
  | H : _ || _ = false |- _ => apply orb_false_iff in H; destruct H
  | H : negb _ = true |- _ => apply negb_true_iff in H
  | H : negb _ = false |- _ => apply negb_false_iff in H
  | H : (_ =? _) = true |- _ => apply Z.eqb_eq in H
  | H : (_ =? _) = false |- _ => apply Z.eqb_neq in H
  | H : (_ <? _) = true |- _ => apply Z.ltb_lt in H
  | H : (_ <? _) = false |- _ => apply Z.ltb_ge in H
  | H : (_ <=? _) = true |- _ => apply Z.leb_le in H
  | H : (_ <=? _) = false |- _ => apply Z.leb_gt in H
  end.

(** Splits the syntactic conjunctions of the context only. *)
Ltac split_hyps := repeat match goal with H : _ /\ _ |- _ => destruct H end.

Ltac bool_solve :=
  bool_facts; repeat (apply andb_true_iff; split);
  rewrite ?negb_true_iff, ?negb_false_iff; first [done | lia | congruence].

Ltac split_ifs :=
  repeat (case_match; bool_facts; simplify_eq/=; try lia).

(** Unfolds the length and range vocabulary for [lia]. *)
Ltac ranges :=
  unfold is_uint, zlen, u8, u32, u64, wrap, UINT32_MAX, UINT64_MAX in *; try lia.

Create HintDb budyk discriminated.
Create Rewrite HintDb zlen.
#[export] Hint Extern 5 (_ <= _) => lia : budyk.
#[export] Hint Extern 5 (_ < _) => lia : budyk.

(** ** Machine-integer lemmas *)

Lemma wrap_range w z : 0 <= w -> is_uint w (wrap w z).
Proof. intros. apply Z.mod_pos_bound. lia. Qed.

Lemma wrap_small w z : is_uint w z -> wrap w z = z.
Proof. intros. by apply Z.mod_small. Qed.

Lemma is_uint_mono w w' z : 0 <= w <= w' -> is_uint w z -> is_uint w' z.
Proof.
  unfold is_uint. intros Hw Hz.
  pose proof (Z.pow_le_mono_r 2 w w' ltac:(lia) ltac:(lia)). lia.
Qed.

Lemma is_uint_testbit w z i : 0 <= w -> is_uint w z -> w <= i -> Z.testbit z i = false.
Proof.
  intros Hw [Hz1 Hz2] Hi. destruct (Z.eq_dec z 0) as [-> | Hn]; [apply Z.bits_0 |].
  apply Z.bits_above_log2; [lia |]. apply Z.log2_lt_pow2 in Hz2; lia.
Qed.

Lemma is_uint_bits w z :
  0 <= w -> 0 <= z -> (forall i, w <= i -> Z.testbit z i = false) -> is_uint w z.
Proof.
  intros Hw Hz Hb. split; [done |].
  destruct (Z.eq_dec z 0) as [-> | Hn]; [lia |].
  apply Z.log2_lt_pow2; [lia |].
  destruct (Z.lt_ge_cases (Z.log2 z) w) as [| Hge]; [done |].
  specialize (Hb _ Hge). rewrite Z.bit_log2 in Hb by lia. done.
Qed.

Lemma is_uint_lxor w a b : 0 <= w -> is_uint w a -> is_uint w b -> is_uint w (Z.lxor a b).
Proof.
  intros Hw Ha Hb. apply is_uint_bits; [done | apply Z.lxor_nonneg; destruct Ha, Hb; lia |].
  intros i Hi. rewrite Z.lxor_spec.
  by rewrite !(is_uint_testbit w) by done.
Qed.

Lemma is_uint_land w a b : 0 <= w -> is_uint w b -> is_uint w (Z.land a b).
Proof.
  intros Hw Hb. apply is_uint_bits; [done | apply Z.land_nonneg; destruct Hb; lia |].
  intros i Hi. rewrite Z.land_spec, (is_uint_testbit w b) by done. apply andb_false_r.
Qed.

Lemma is_uint_lor w a b : 0 <= w -> is_uint w a -> is_uint w b -> is_uint w (Z.lor a b).
Proof.
  intros Hw Ha Hb. apply is_uint_bits; [done | apply Z.lor_nonneg; destruct Ha, Hb; lia |].
  intros i Hi. rewrite Z.lor_spec. by rewrite !(is_uint_testbit w) by done.
Qed.

Lemma is_uint_shiftr w a n : 0 <= n -> is_uint w a -> is_uint w (Z.shiftr a n).
Proof.
  intros Hn [Ha Hb]. rewrite Z.shiftr_div_pow2 by done. split.
  - apply Z.div_pos; lia.
  - apply Z.div_lt_upper_bound; [lia |].
    pose proof (Z.pow_pos_nonneg 2 n ltac:(lia) Hn). nia.
Qed.

#[export] Hint Resolve wrap_range is_uint_lxor is_uint_land is_uint_lor is_uint_shiftr : budyk.

(** ** List lemmas *)

(** Rewriting with this keeps the step function folded. *)
Lemma fold_left_cons {A B} (f : A -> B -> A) x l a :
  fold_left f (x :: l) a = fold_left f l (f a x).
Proof. done. Qed.

Lemma zlen_nonneg {A} (l : list A) : 0 <= zlen l.
Proof. unfold zlen. lia. Qed.

Lemma zlen_app {A} (l k : list A) : zlen (l ++ k) = zlen l + zlen k.
Proof. unfold zlen. rewrite length_app. lia. Qed.

Lemma zlen_cons {A} (x : A) l : zlen (x :: l) = 1 + zlen l.
Proof. unfold zlen. simpl. lia. Qed.

Lemma zlen_replicate {A} n (x : A) : zlen (replicate n x) = Z.of_nat n.
Proof. unfold zlen. by rewrite length_replicate. Qed.

Lemma zlen_map {A B} (f : A -> B) l : zlen (map f l) = zlen l.
Proof. unfold zlen. by rewrite length_map. Qed.

Lemma zlen_slice {A} off n (l : list A) :
  0 <= off -> 0 <= n -> off + n <= zlen l -> zlen (slice off n l) = n.
Proof. unfold slice, ztake, zdrop, zlen. intros. rewrite length_take, length_drop. lia. Qed.

Lemma zlen_splice {A} off (d l : list A) :
  0 <= off -> off + zlen d <= zlen l -> zlen (splice off d l) = zlen l.
Proof.
  unfold splice, ztake, zdrop, zlen. intros.
  rewrite !length_app, length_take, length_drop. lia.
Qed.

Lemma slice_splice_same {A} off (d l : list A) :
  0 <= off -> off + zlen d <= zlen l -> slice off (zlen d) (splice off d l) = d.
Proof.
  unfold slice, splice, ztake, zdrop, zlen. intros.
  rewrite drop_app_length' by (rewrite length_take; lia).
  rewrite Nat2Z.id. by rewrite take_app_length.
Qed.

Lemma slice_splice_before {A} off' n off (d l : list A) :
  0 <= off' -> 0 <= n -> off' + n <= off -> off + zlen d <= zlen l ->
  slice off' n (splice off d l) = slice off' n l.
Proof.
  unfold slice, splice, ztake, zdrop, zlen. intros.
  rewrite drop_app_le by (rewrite length_take; lia).
  rewrite take_app_le by (rewrite length_drop, length_take; lia).
  rewrite skipn_firstn_comm, take_take. f_equal. lia.
Qed.

Lemma slice_splice_after {A} off' n off (d l : list A) :
  0 <= off -> 0 <= n -> off + zlen d <= off' -> off + zlen d <= zlen l ->
  slice off' n (splice off d l) = slice off' n l.
Proof.
  unfold slice, splice, ztake, zdrop, zlen. intros.
  rewrite drop_app_ge by (rewrite length_take; lia).
  rewrite drop_app_ge by (rewrite length_take; lia).
  rewrite drop_drop. f_equal. f_equal. rewrite length_take. lia.
Qed.

Lemma slice_splice_within {A} off' n off (d l : list A) :
  0 <= off -> off <= off' -> 0 <= n -> off' + n <= off + zlen d -> off + zlen d <= zlen l ->
  slice off' n (splice off d l) = slice (off' - off) n d.
Proof.
  unfold slice, splice, ztake, zdrop, zlen. intros.
  rewrite drop_app_ge by (rewrite length_take; lia).
  rewrite length_take, Nat.min_l by lia.
  rewrite drop_app_le by lia. rewrite take_app_le by (rewrite length_drop; lia).
  do 2 f_equal. lia.
Qed.

Lemma slice_app_l {A} n (l k : list A) : zlen l = n -> slice 0 n (l ++ k) = l.
Proof.
  unfold slice, ztake, zdrop, zlen. intros <-.
  change (Z.to_nat 0) with 0%nat. rewrite drop_0, Nat2Z.id. apply take_app_length.
Qed.

Lemma zdrop_app {A} n (l k : list A) : zlen l = n -> zdrop n (l ++ k) = k.
Proof. unfold zdrop, zlen. intros <-. rewrite Nat2Z.id. by rewrite drop_app_length. Qed.

Lemma is_bytes_app a b : is_bytes (a ++ b) <-> is_bytes a /\ is_bytes b.
Proof. apply Forall_app. Qed.

Lemma is_bytes_take n b : is_bytes b -> is_bytes (take n b).
Proof. apply Forall_take. Qed.

Lemma is_bytes_drop n b : is_bytes b -> is_bytes (drop n b).
Proof. apply Forall_drop. Qed.

Lemma is_bytes_slice off n b : is_bytes b -> is_bytes (slice off n b).
Proof. intros. by apply is_bytes_take, is_bytes_drop. Qed.

Lemma is_bytes_splice off d b : is_bytes d -> is_bytes b -> is_bytes (splice off d b).
Proof.
  intros. unfold splice. rewrite !is_bytes_app.
  eauto using is_bytes_take, is_bytes_drop.
Qed.

Lemma is_bytes_replicate n x : is_uint 8 x -> is_bytes (replicate n x).
Proof. intros. by apply Forall_replicate. Qed.

#[export] Hint Resolve is_bytes_take is_bytes_drop is_bytes_slice is_bytes_splice : budyk.
