(* ===== verification/Endian.v ===== *)
(** Little-endian field access (src/core/endian.h): the byte order of every
    on-disk format.  [le_bytes] / [le_value] are the reference byte order; the
    [_on] definitions follow the header's preprocessor branches for a host of
    either byte order, and the theorems show both hosts produce and read the
    same bytes. *)
From Stdlib Require Import ZArith Lia List.
From stdpp Require Import base list.
From S2P Require Import Prelude.
Open Scope Z_scope.

(** [n] bytes of [v], least significant first. *)
Fixpoint le_bytes (n : nat) (v : Z) : bytes :=
  match n with
  | O => []
  | S m => v mod 256 :: le_bytes m (v / 256)
  end.

Fixpoint le_value (b : bytes) : Z :=
  match b with
  | [] => 0
  | x :: r => x + 256 * le_value r
  end.

(** memcpy of an unsigned of [n] bytes to and from memory, on a host that is
    big-endian or not. *)
Definition mem_store (be : bool) (n : nat) (v : Z) : bytes :=
  if be then rev (le_bytes n v) else le_bytes n v.
Definition mem_load (be : bool) (b : bytes) : Z :=
  if be then le_value (rev b) else le_value b.

(** __builtin_bswap32 / __builtin_bswap64. *)
Definition bswap (n : nat) (v : Z) : Z := le_value (rev (le_bytes n v)).

Definition to_le32 (be : bool) (v : Z) : Z := if be then bswap 4 v else v.
Definition to_le64 (be : bool) (v : Z) : Z := if be then bswap 8 v else v.

Definition le_put_u32_on (be : bool) (v : Z) : bytes := mem_store be 4 (to_le32 be v).
Definition le_put_u64_on (be : bool) (v : Z) : bytes := mem_store be 8 (to_le64 be v).
Definition le_get_u32_on (be : bool) (p : bytes) : Z := to_le32 be (mem_load be (take 4 p)).
Definition le_get_u64_on (be : bool) (p : bytes) : Z := to_le64 be (mem_load be (take 8 p)).

(** What the rest of the development uses: the bytes and values themselves. *)
Definition le_put_u32 (v : Z) : bytes := le_bytes 4 v.
Definition le_put_u64 (v : Z) : bytes := le_bytes 8 v.
Definition le_get_u32 (p : bytes) : Z := le_value (take 4 p).
Definition le_get_u64 (p : bytes) : Z := le_value (take 8 p).

Arguments le_put_u32 : simpl never.
Arguments le_put_u64 : simpl never.
Arguments le_get_u32 : simpl never.
Arguments le_get_u64 : simpl never.

Lemma length_le_bytes n v : length (le_bytes n v) = n.
Proof. revert v. induction n; intros; simpl; auto. Qed.

Lemma le_bytes_is_bytes n v : is_bytes (le_bytes n v).
Proof.
  revert v. induction n as [| n IH]; intros v; simpl; constructor; [| apply IH].
  apply Z.mod_pos_bound. lia.
Qed.

Lemma le_value_range b : is_bytes b -> 0 <= le_value b < 256 ^ zlen b.
Proof.
  induction 1 as [| x b Hx Hb IH]; [done |].
  rewrite zlen_cons. unfold is_uint in Hx. simpl le_value.
  rewrite Z.pow_add_r by (unfold zlen; lia). lia.
Qed.

Lemma le_value_bytes n v : le_value (le_bytes n v) = v mod 256 ^ Z.of_nat n.
Proof.
  revert v. induction n as [| n IH]; intros v; simpl le_bytes; simpl le_value.
  - by rewrite Z.mod_1_r.
  - rewrite IH, Nat2Z.inj_succ, Z.pow_succ_r by lia.
    rewrite Z.rem_mul_r by lia. done.
Qed.

Lemma le_value_bytes_small n v : 0 <= v < 256 ^ Z.of_nat n -> le_value (le_bytes n v) = v.
Proof. intros. rewrite le_value_bytes. by apply Z.mod_small. Qed.

Lemma le_bytes_value b : is_bytes b -> le_bytes (length b) (le_value b) = b.
Proof.
  induction 1 as [| x b Hx Hb IH]; [done |]. unfold is_uint in Hx. simpl. f_equal.
  - rewrite Z.mul_comm, Z.mod_add by lia. by apply Z.mod_small.
  - rewrite Z.mul_comm, Z.div_add by lia. rewrite Z.div_small by lia. by rewrite Z.add_0_l.
Qed.

Lemma bswap_bytes n v : le_bytes n (bswap n v) = rev (le_bytes n v).
Proof.
  unfold bswap. rewrite <- (length_le_bytes n v) at 1. rewrite <- length_rev.
  apply le_bytes_value. apply Forall_rev. apply le_bytes_is_bytes.
Qed.

Lemma bswap_load n p :
  is_bytes p -> length p = n -> bswap n (le_value (rev p)) = le_value p.
Proof.
  intros Hp <-. unfold bswap. rewrite <- (length_rev p).
  rewrite le_bytes_value by (by apply Forall_rev). by rewrite rev_involutive.
Qed.

Lemma length_le_put_u32 v : length (le_put_u32 v) = 4%nat.
Proof. apply length_le_bytes. Qed.
Lemma length_le_put_u64 v : length (le_put_u64 v) = 8%nat.
Proof. apply length_le_bytes. Qed.
Lemma zlen_le_put_u32 v : zlen (le_put_u32 v) = 4.
Proof. unfold zlen. by rewrite length_le_put_u32. Qed.
Lemma zlen_le_put_u64 v : zlen (le_put_u64 v) = 8.
Proof. unfold zlen. by rewrite length_le_put_u64. Qed.

Lemma le_put_u32_is_bytes v : is_bytes (le_put_u32 v).
Proof. apply le_bytes_is_bytes. Qed.
Lemma le_put_u64_is_bytes v : is_bytes (le_put_u64 v).
Proof. apply le_bytes_is_bytes. Qed.

Lemma le_get_put_u32 v r : is_uint 32 v -> le_get_u32 (le_put_u32 v ++ r) = v.
Proof.
  intros. unfold le_get_u32. rewrite take_app_length' by (by rewrite length_le_put_u32).
  apply le_value_bytes_small. done.
Qed.
Lemma le_get_put_u64 v r : is_uint 64 v -> le_get_u64 (le_put_u64 v ++ r) = v.
Proof.
  intros. unfold le_get_u64. rewrite take_app_length' by (by rewrite length_le_put_u64).
  apply le_value_bytes_small. done.
Qed.

Lemma le_get_u32_range p : is_bytes p -> is_uint 32 (le_get_u32 p).
Proof.
  intros Hp. pose proof (le_value_range (take 4 p) (is_bytes_take 4 p Hp)) as Hr.
  unfold is_uint, le_get_u32. change (2 ^ 32) with (256 ^ 4).
  pose proof (Z.pow_le_mono_r 256 (zlen (take 4 p)) 4 ltac:(lia)) as Hm.
  unfold zlen in *. rewrite length_take in *. lia.
Qed.
Lemma le_get_u64_range p : is_bytes p -> is_uint 64 (le_get_u64 p).
Proof.
  intros Hp. pose proof (le_value_range (take 8 p) (is_bytes_take 8 p Hp)) as Hr.
  unfold is_uint, le_get_u64. change (2 ^ 64) with (256 ^ 8).
  pose proof (Z.pow_le_mono_r 256 (zlen (take 8 p)) 8 ltac:(lia)) as Hm.
  unfold zlen in *. rewrite length_take in *. lia.
Qed.

#[export] Hint Resolve le_put_u32_is_bytes le_put_u64_is_bytes
  le_get_u32_range le_get_u64_range : budyk.
#[export] Hint Rewrite @zlen_app @zlen_cons @zlen_replicate zlen_le_put_u32 zlen_le_put_u64 : zlen.

(** The encoding does not depend on the host: an integer stored by a
    host of either byte order is read back whole by a host of either byte
    order, and the bytes stored are the same on both. *)
Theorem put_get_any_host be be' v p r :
  is_uint 32 v -> is_uint 64 p ->
  le_get_u32_on be' (le_put_u32_on be v ++ r) = v /\
  le_get_u64_on be' (le_put_u64_on be p ++ r) = p /\
  le_put_u32_on be v = le_put_u32 v /\ le_put_u64_on be p = le_put_u64 p.
Proof.
  intros Hv Hp.
  assert (H32 : forall b w, le_put_u32_on b w = le_put_u32 w).
  { intros [] w; unfold le_put_u32_on, mem_store, to_le32; [| done].
    rewrite bswap_bytes. by rewrite rev_involutive. }
  assert (H64 : forall b w, le_put_u64_on b w = le_put_u64 w).
  { intros [] w; unfold le_put_u64_on, mem_store, to_le64; [| done].
    rewrite bswap_bytes. by rewrite rev_involutive. }
  rewrite H32, H64. split_and!; [| | done | done].
  - unfold le_get_u32_on, mem_load, to_le32.
    rewrite take_app_length' by (by rewrite length_le_put_u32).
    destruct be'; [rewrite bswap_load by (apply length_le_put_u32 || apply le_bytes_is_bytes) |];
      by apply le_value_bytes_small.
  - unfold le_get_u64_on, mem_load, to_le64.
    rewrite take_app_length' by (by rewrite length_le_put_u64).
    destruct be'; [rewrite bswap_load by (apply length_le_put_u64 || apply le_bytes_is_bytes) |];
      by apply le_value_bytes_small.
Qed.

Lemma put_get_any_host_witness :
  is_uint 32 258 /\ le_put_u32_on true 258 = [2; 1; 0; 0] /\ le_get_u32_on true (le_put_u32_on false 258 ++ [7]) = 258.
Proof.
  assert (H1 : is_uint 32 258) by (unfold is_uint; lia). assert (H2 : is_uint 64 5) by (unfold is_uint; lia).
  split; [exact H1 |]. split; [vm_compute; reflexivity |].
  exact (proj1 (put_get_any_host false true 258 5 [7] H1 H2)).
Defined.
