(* ===== verification/Float64.v ===== *)
(** IEEE 754 binary64 as the program uses it.  A [double] is its 64-bit pattern,
    as [memcpy] moves it in the codecs; arithmetic goes through the Standard
    Library's [SpecFloat] at precision 53, emax 1024, and comparisons are on the
    sign-magnitude integer the pattern encodes, proved below to agree with
    [SpecFloat].  A NaN an operation produces is the canonical quiet NaN (the
    payload is not part of the model). *)
From Stdlib Require Import ZArith Lia SpecFloat.
From stdpp Require Import base numbers.
From S2P Require Import Prelude.
Open Scope Z_scope.

Abbreviation f64 := Z (only parsing).

Definition f64_neg (b : f64) : bool := 2 ^ 63 <=? b.
Definition f64_mag (b : f64) : Z := b mod 2 ^ 63.
Definition f64_expo (b : f64) : Z := f64_mag b / 2 ^ 52.
Definition f64_frac (b : f64) : Z := f64_mag b mod 2 ^ 52.
Definition f64_inf_mag : Z := 2047 * 2 ^ 52.
Definition f64_is_nan (b : f64) : bool := f64_inf_mag <? f64_mag b.

(** The integer whose order is the order of the (non-NaN) numbers. *)
Definition f64_key (b : f64) : Z := if f64_neg b then - f64_mag b else f64_mag b.

Definition f64_ltb (a b : f64) : bool :=
  negb (f64_is_nan a) && negb (f64_is_nan b) && (f64_key a <? f64_key b).
Definition f64_leb (a b : f64) : bool :=
  negb (f64_is_nan a) && negb (f64_is_nan b) && (f64_key a <=? f64_key b).
Definition f64_gtb (a b : f64) : bool := f64_ltb b a.
Definition f64_geb (a b : f64) : bool := f64_leb b a.

(** [std::max(a, b)] and [std::fabs]. *)
Definition f64_max (a b : f64) : f64 := if f64_ltb a b then b else a.
Definition f64_abs (a : f64) : f64 := f64_mag a.

(** Pattern to number and back. *)
Definition f64_to_sf (b : f64) : spec_float :=
  let s := f64_neg b in
  if f64_expo b =? 2047 then
    if f64_frac b =? 0 then S754_infinity s else S754_nan
  else if f64_expo b =? 0 then
    match f64_frac b with Zpos m => S754_finite s m (-1074) | _ => S754_zero s end
  else match f64_frac b + 2 ^ 52 with
       | Zpos m => S754_finite s m (f64_expo b - 1075)
       | _ => S754_nan
       end.

Definition f64_nan : f64 := 2047 * 2 ^ 52 + 2 ^ 51.
Definition f64_signed (s : bool) (mag : Z) : f64 := if s then 2 ^ 63 + mag else mag.
(** The 64-bit word of a number ([SpecFloat]'s results are canonical, and fit). *)
Definition f64_of_sf (x : spec_float) : f64 :=
  u64 match x with
  | S754_zero s => f64_signed s 0
  | S754_infinity s => f64_signed s f64_inf_mag
  | S754_nan => f64_nan
  | S754_finite s m e =>
      if Zpos m <? 2 ^ 52 then f64_signed s (Zpos m)
      else f64_signed s ((e + 1075) * 2 ^ 52 + (Zpos m - 2 ^ 52))
  end.

Definition f64_add (a b : f64) : f64 := f64_of_sf (SFadd 53 1024 (f64_to_sf a) (f64_to_sf b)).
Definition f64_sub (a b : f64) : f64 := f64_of_sf (SFsub 53 1024 (f64_to_sf a) (f64_to_sf b)).
Definition f64_mul (a b : f64) : f64 := f64_of_sf (SFmul 53 1024 (f64_to_sf a) (f64_to_sf b)).
Definition f64_div (a b : f64) : f64 := f64_of_sf (SFdiv 53 1024 (f64_to_sf a) (f64_to_sf b)).

(** [static_cast<double>] of an integer (round to nearest even). *)
Definition f64_of_Z (z : Z) : f64 := f64_of_sf (binary_normalize 53 1024 z 0 false).

Definition f64_zero : f64 := 0.
Definition f64_one : f64 := f64_of_Z 1.

(** [std::llround]: to nearest, halves away from zero; outside [long long]
    (and for a NaN or an infinity) the result is LLONG_MIN, as glibc returns. *)
Definition f64_llround (a : f64) : Z :=
  match f64_to_sf a with
  | S754_zero _ => 0
  | S754_finite s m e =>
      let v := if 0 <=? e then Zpos m * 2 ^ e
               else (Zpos m + 2 ^ (- e - 1)) / 2 ^ (- e) in
      let r := if s then - v else v in
      if (- 2 ^ 63 <=? r) && (r <? 2 ^ 63) then r else - 2 ^ 63
  | _ => - 2 ^ 63
  end.

Lemma f64_of_sf_range x : is_uint 64 (f64_of_sf x).
Proof. by apply wrap_range. Qed.

(** ** Order lemmas *)

Section Order.
Implicit Types a b c : f64.

Definition f64_num (a : f64) : Prop := f64_is_nan a = false.

Lemma f64_leb_refl a : f64_num a -> f64_leb a a = true.
Proof. unfold f64_num, f64_leb. intros ->. simpl. lia. Qed.

Lemma f64_leb_trans a b c : f64_leb a b = true -> f64_leb b c = true -> f64_leb a c = true.
Proof. unfold f64_leb. intros. bool_solve. Qed.

Lemma f64_ltb_leb a b : f64_ltb a b = true -> f64_leb a b = true.
Proof. unfold f64_leb, f64_ltb. intros. bool_solve. Qed.

Lemma f64_nlt_leb a b :
  f64_num a -> f64_num b -> f64_ltb a b = false -> f64_leb b a = true.
Proof.
  unfold f64_num, f64_leb, f64_ltb. intros -> -> H. simpl in *. bool_facts. lia.
Qed.

Lemma f64_max_num a b : f64_num a -> f64_num b -> f64_num (f64_max a b).
Proof. unfold f64_max. by destruct (f64_ltb a b). Qed.

Lemma f64_max_ub_l a b : f64_num a -> f64_num b -> f64_leb a (f64_max a b) = true.
Proof.
  intros. unfold f64_max. destruct (f64_ltb a b) eqn:E; auto using f64_ltb_leb, f64_leb_refl.
Qed.

Lemma f64_max_ub_r a b : f64_num a -> f64_num b -> f64_leb b (f64_max a b) = true.
Proof.
  intros. unfold f64_max. destruct (f64_ltb a b) eqn:E; auto using f64_leb_refl, f64_nlt_leb.
Qed.

End Order.

(** ** Agreement with the Standard Library's binary64 *)

Lemma f64_mag_split b : f64_mag b = f64_expo b * 2 ^ 52 + f64_frac b.
Proof. unfold f64_expo, f64_frac. rewrite Z.mul_comm. apply Z.div_mod. lia. Qed.

Lemma f64_frac_range b : 0 <= f64_frac b < 2 ^ 52.
Proof. apply Z.mod_pos_bound. lia. Qed.

Lemma f64_expo_range b : 0 <= f64_expo b <= 2047.
Proof.
  unfold f64_expo, f64_mag. pose proof (Z.mod_pos_bound b (2 ^ 63) ltac:(lia)).
  split; [apply Z.div_pos; lia |]. apply Z.lt_succ_r, Z.div_lt_upper_bound; lia.
Qed.

(** The number a pattern stands for, with its magnitude in terms of the key:
    what the comparison lemma needs of each constructor. *)
Lemma f64_to_sf_cases b :
  match f64_to_sf b with
  | S754_nan => f64_is_nan b = true
  | S754_infinity s => f64_is_nan b = false /\ s = f64_neg b /\ f64_mag b = f64_inf_mag
  | S754_zero s => f64_is_nan b = false /\ s = f64_neg b /\ f64_mag b = 0
  | S754_finite s m e =>
      f64_is_nan b = false /\ s = f64_neg b /\ 0 < f64_mag b < f64_inf_mag /\
      ((e = -1074 /\ f64_mag b = Zpos m /\ Zpos m < 2 ^ 52) \/
       (-1074 <= e /\ 2 ^ 52 <= Zpos m < 2 ^ 53 /\
        f64_mag b = (e + 1075) * 2 ^ 52 + (Zpos m - 2 ^ 52)))
  end.
Proof.
  unfold f64_to_sf, f64_is_nan, f64_inf_mag.
  pose proof (f64_mag_split b) as Hm. pose proof (f64_frac_range b) as Hf.
  pose proof (f64_expo_range b) as He.
  destruct (f64_expo b =? 2047) eqn:E1; bool_facts.
  - destruct (f64_frac b =? 0) eqn:E2; bool_facts; [| lia].
    split_and!; [lia | done | lia].
  - destruct (f64_expo b =? 0) eqn:E2; bool_facts.
    + destruct (f64_frac b) as [| m | m] eqn:E3; split_and!; try lia; done.
    + destruct (f64_frac b + 2 ^ 52) as [| m | m] eqn:E3; try lia.
      split_and!; [lia | done | lia | lia |]. right. split_and!; lia.
Qed.

Lemma f64_ltb_spec a b : f64_ltb a b = SFltb (f64_to_sf a) (f64_to_sf b).
Proof.
  pose proof (f64_to_sf_cases a) as Ha. pose proof (f64_to_sf_cases b) as Hb.
  unfold f64_ltb, f64_key, SFltb, SFcompare, f64_inf_mag in *.
  destruct (f64_to_sf a) as [sa | sa | | sa ma ea];
  destruct (f64_to_sf b) as [sb | sb | | sb mb eb];
  try (rewrite Ha; simpl; done); try (rewrite Hb, andb_false_r; done);
  destruct Ha as (-> & -> & Ha); destruct Hb as (-> & -> & Hb); simpl negb; simpl andb;
  destruct (f64_neg a), (f64_neg b);
  try (destruct (Z.compare_spec ea eb));
  try (change (Pos.compare_cont Eq ma mb) with (Pos.compare ma mb);
       destruct (Pos.compare_spec ma mb)); simpl; lia.
Qed.
