(* ===== verification/Sample.v ===== *)
(** The sample every component exchanges (src/core/sample.h, src/core/sample.cpp):
    one record per struct with the source's fields, integers as [Z] in their
    width, [double] as its bit pattern; the metric-group bits and
    [clear_groups].  [sample_ok] is the type invariant: every field in the range
    of its C++ type. *)
From Stdlib Require Import ZArith Lia.
From stdpp Require Import base numbers list.
From S2P Require Import Prelude Float64.
Open Scope Z_scope.

(** [enum class Level : uint8_t]: the built-in levels are 1..3, a custom level
    is any id from [kFirstCustomLevel]; casts make every byte a value of it. *)
Abbreviation Level := Z (only parsing).
Definition L1 : Level := 1.
Definition L2 : Level := 2.
Definition L3 : Level := 3.
Definition kFirstCustomLevel : Z := 4.
Definition kMaxCustomLevels : Z := 16.
Definition kMaxLevelId : Z := kFirstCustomLevel + kMaxCustomLevels - 1.

Record CpuStats := mkCpuStats {
  cpu_total_percent : Z;
  cpu_count : Z;
  cpu_user_percent : Z;
  cpu_system_percent : Z;
  cpu_iowait_percent : Z;
  cpu_irq_percent : Z;
  cpu_steal_percent : Z;
  cpu_idle_percent : Z
}.

Record MemStats := mkMemStats {
  mem_total : Z;
  mem_available : Z;
  mem_available_percent : Z
}.

Record SwapStats := mkSwapStats {
  swap_total : Z;
  swap_used : Z;
  swap_used_percent : Z
}.

Record LoadStats := mkLoadStats {
  load_avg_1m : Z;
  load_avg_5m : Z;
  load_avg_15m : Z
}.

Record DiskStats := mkDiskStats {
  disk_read_bytes_per_sec : Z;
  disk_write_bytes_per_sec : Z;
  disk_device_count : Z
}.

Record NetStats := mkNetStats {
  net_rx_bytes_per_sec : Z;
  net_tx_bytes_per_sec : Z;
  net_interface_count : Z
}.

Record ProcessStats := mkProcessStats {
  proc_total : Z;
  proc_running : Z;
  proc_sleeping : Z;
  proc_blocked : Z;
  proc_stopped : Z;
  proc_zombie : Z;
  proc_threads : Z
}.

Record EntropyStats := mkEntropyStats {
  entropy_available_bits : Z;
  entropy_present : bool
}.

Record SelfStats := mkSelfStats {
  self_rss_bytes : Z;
  self_peak_rss_bytes : Z;
  self_cpu_user_seconds : Z;
  self_cpu_system_seconds : Z
}.

Record ThermalStats := mkThermalStats {
  thermal_max_celsius : Z;
  thermal_sensor_count : Z;
  thermal_present : bool
}.

Record FileWatchSample := mkFileWatchSample {
  file_watch_events_this_tick : Z;
  file_watch_watched_count : Z;
  file_watch_present : bool
}.

Record TcpStats := mkTcpStats {
  tcp_established : Z;
  tcp_time_wait : Z;
  tcp_active_opens_per_sec : Z;
  tcp_passive_opens_per_sec : Z;
  tcp_retransmits_per_sec : Z;
  tcp_in_segments_per_sec : Z;
  tcp_out_segments_per_sec : Z;
  tcp_in_errors_per_sec : Z;
  tcp_present : bool
}.

Record UdpStats := mkUdpStats {
  udp_in_datagrams_per_sec : Z;
  udp_out_datagrams_per_sec : Z;
  udp_no_port_per_sec : Z;
  udp_in_errors_per_sec : Z;
  udp_present : bool
}.

Record IcmpStats := mkIcmpStats {
  icmp_in_msgs_per_sec : Z;
  icmp_out_msgs_per_sec : Z;
  icmp_in_errors_per_sec : Z;
  icmp_in_dest_unreachs_per_sec : Z;
  icmp_present : bool
}.

Record FsStats := mkFsStats {
  fs_count : Z;
  fs_max_used_percent : Z;
  fs_max_inodes_used_percent : Z;
  fs_present : bool
}.

Record ClockStats := mkClockStats {
  clock_offset_ms : Z;
  clock_max_error_ms : Z;
  clock_synced : bool;
  clock_present : bool
}.

(** [enum MetricGroup : uint32_t] *)
Definition kGroupCpu : Z := Z.shiftl 1 0.
Definition kGroupMem : Z := Z.shiftl 1 1.
Definition kGroupSwap : Z := Z.shiftl 1 2.
Definition kGroupLoad : Z := Z.shiftl 1 3.
Definition kGroupDisk : Z := Z.shiftl 1 4.
Definition kGroupNet : Z := Z.shiftl 1 5.
Definition kGroupProc : Z := Z.shiftl 1 6.
Definition kGroupEntropy : Z := Z.shiftl 1 7.
Definition kGroupSelf : Z := Z.shiftl 1 8.
Definition kGroupThermal : Z := Z.shiftl 1 9.
Definition kGroupFileWatch : Z := Z.shiftl 1 10.
Definition kGroupUptime : Z := Z.shiftl 1 11.
Definition kGroupTcp : Z := Z.shiftl 1 12.
Definition kGroupUdp : Z := Z.shiftl 1 13.
Definition kGroupFs : Z := Z.shiftl 1 14.
Definition kGroupClock : Z := Z.shiftl 1 15.
Definition kGroupIcmp : Z := Z.shiftl 1 16.
Definition kGroupsV7 : Z := Z.shiftl 1 12 - 1.
Definition kGroupsAll : Z := Z.shiftl 1 17 - 1.

Record Sample := mkSample {
  timestamp_nanos : Z;
  level : Level;
  cpu : CpuStats;
  mem : MemStats;
  swap : SwapStats;
  load : LoadStats;
  disk : DiskStats;
  net : NetStats;
  proc : ProcessStats;
  entropy : EntropyStats;
  self_ : SelfStats;
  thermal : ThermalStats;
  file_watch : FileWatchSample;
  tcp : TcpStats;
  udp : UdpStats;
  icmp : IcmpStats;
  fs : FsStats;
  clock : ClockStats;
  groups : Z;
  baseline : Z;
  uptime_seconds : Z;
  folded : bool
}.

(** The value-initialised structs, [CpuStats{}] and so on. *)
Definition zero_CpuStats : CpuStats := mkCpuStats 0 0 0 0 0 0 0 0.
Definition zero_MemStats : MemStats := mkMemStats 0 0 0.
Definition zero_SwapStats : SwapStats := mkSwapStats 0 0 0.
Definition zero_LoadStats : LoadStats := mkLoadStats 0 0 0.
Definition zero_DiskStats : DiskStats := mkDiskStats 0 0 0.
Definition zero_NetStats : NetStats := mkNetStats 0 0 0.
Definition zero_ProcessStats : ProcessStats := mkProcessStats 0 0 0 0 0 0 0.
Definition zero_EntropyStats : EntropyStats := mkEntropyStats 0 false.
Definition zero_SelfStats : SelfStats := mkSelfStats 0 0 0 0.
Definition zero_ThermalStats : ThermalStats := mkThermalStats 0 0 false.
Definition zero_FileWatchSample : FileWatchSample := mkFileWatchSample 0 0 false.
Definition zero_TcpStats : TcpStats := mkTcpStats 0 0 0 0 0 0 0 0 false.
Definition zero_UdpStats : UdpStats := mkUdpStats 0 0 0 0 false.
Definition zero_IcmpStats : IcmpStats := mkIcmpStats 0 0 0 0 false.
Definition zero_FsStats : FsStats := mkFsStats 0 0 0 false.
Definition zero_ClockStats : ClockStats := mkClockStats 0 0 false false.
Definition zero_Sample : Sample :=
  mkSample 0 0 zero_CpuStats zero_MemStats zero_SwapStats zero_LoadStats zero_DiskStats
    zero_NetStats zero_ProcessStats zero_EntropyStats zero_SelfStats zero_ThermalStats
    zero_FileWatchSample zero_TcpStats zero_UdpStats zero_IcmpStats zero_FsStats
    zero_ClockStats 0 0 0 false.

(** Assignment to one member of a sample. *)
Definition set_timestamp_nanos (v : Z) (s : Sample) : Sample :=
  mkSample v (level s) (cpu s) (mem s) (swap s) (load s) (disk s) (net s) (proc s)
    (entropy s) (self_ s) (thermal s) (file_watch s) (tcp s) (udp s) (icmp s) (fs s)
    (clock s) (groups s) (baseline s) (uptime_seconds s) (folded s).
Definition set_level (v : Level) (s : Sample) : Sample :=
  mkSample (timestamp_nanos s) v (cpu s) (mem s) (swap s) (load s) (disk s) (net s)
    (proc s) (entropy s) (self_ s) (thermal s) (file_watch s) (tcp s) (udp s) (icmp s)
    (fs s) (clock s) (groups s) (baseline s) (uptime_seconds s) (folded s).
Definition set_cpu (v : CpuStats) (s : Sample) : Sample :=
  mkSample (timestamp_nanos s) (level s) v (mem s) (swap s) (load s) (disk s) (net s)
    (proc s) (entropy s) (self_ s) (thermal s) (file_watch s) (tcp s) (udp s) (icmp s)
    (fs s) (clock s) (groups s) (baseline s) (uptime_seconds s) (folded s).
Definition set_mem (v : MemStats) (s : Sample) : Sample :=
  mkSample (timestamp_nanos s) (level s) (cpu s) v (swap s) (load s) (disk s) (net s)
    (proc s) (entropy s) (self_ s) (thermal s) (file_watch s) (tcp s) (udp s) (icmp s)
    (fs s) (clock s) (groups s) (baseline s) (uptime_seconds s) (folded s).
Definition set_swap (v : SwapStats) (s : Sample) : Sample :=
  mkSample (timestamp_nanos s) (level s) (cpu s) (mem s) v (load s) (disk s) (net s)
    (proc s) (entropy s) (self_ s) (thermal s) (file_watch s) (tcp s) (udp s) (icmp s)
    (fs s) (clock s) (groups s) (baseline s) (uptime_seconds s) (folded s).
Definition set_load (v : LoadStats) (s : Sample) : Sample :=
  mkSample (timestamp_nanos s) (level s) (cpu s) (mem s) (swap s) v (disk s) (net s)
    (proc s) (entropy s) (self_ s) (thermal s) (file_watch s) (tcp s) (udp s) (icmp s)
    (fs s) (clock s) (groups s) (baseline s) (uptime_seconds s) (folded s).
Definition set_disk (v : DiskStats) (s : Sample) : Sample :=
  mkSample (timestamp_nanos s) (level s) (cpu s) (mem s) (swap s) (load s) v (net s)
    (proc s) (entropy s) (self_ s) (thermal s) (file_watch s) (tcp s) (udp s) (icmp s)
    (fs s) (clock s) (groups s) (baseline s) (uptime_seconds s) (folded s).
Definition set_net (v : NetStats) (s : Sample) : Sample :=
  mkSample (timestamp_nanos s) (level s) (cpu s) (mem s) (swap s) (load s) (disk s) v
    (proc s) (entropy s) (self_ s) (thermal s) (file_watch s) (tcp s) (udp s) (icmp s)
    (fs s) (clock s) (groups s) (baseline s) (uptime_seconds s) (folded s).
Definition set_proc (v : ProcessStats) (s : Sample) : Sample :=
  mkSample (timestamp_nanos s) (level s) (cpu s) (mem s) (swap s) (load s) (disk s)
    (net s) v (entropy s) (self_ s) (thermal s) (file_watch s) (tcp s) (udp s) (icmp s)
    (fs s) (clock s) (groups s) (baseline s) (uptime_seconds s) (folded s).
Definition set_entropy (v : EntropyStats) (s : Sample) : Sample :=
  mkSample (timestamp_nanos s) (level s) (cpu s) (mem s) (swap s) (load s) (disk s)
    (net s) (proc s) v (self_ s) (thermal s) (file_watch s) (tcp s) (udp s) (icmp s) (fs s)
    (clock s) (groups s) (baseline s) (uptime_seconds s) (folded s).
Definition set_self_ (v : SelfStats) (s : Sample) : Sample :=
  mkSample (timestamp_nanos s) (level s) (cpu s) (mem s) (swap s) (load s) (disk s)
    (net s) (proc s) (entropy s) v (thermal s) (file_watch s) (tcp s) (udp s) (icmp s)
    (fs s) (clock s) (groups s) (baseline s) (uptime_seconds s) (folded s).
Definition set_thermal (v : ThermalStats) (s : Sample) : Sample :=
  mkSample (timestamp_nanos s) (level s) (cpu s) (mem s) (swap s) (load s) (disk s)
    (net s) (proc s) (entropy s) (self_ s) v (file_watch s) (tcp s) (udp s) (icmp s) (fs s)
    (clock s) (groups s) (baseline s) (uptime_seconds s) (folded s).
Definition set_file_watch (v : FileWatchSample) (s : Sample) : Sample :=
  mkSample (timestamp_nanos s) (level s) (cpu s) (mem s) (swap s) (load s) (disk s)
    (net s) (proc s) (entropy s) (self_ s) (thermal s) v (tcp s) (udp s) (icmp s) (fs s)
    (clock s) (groups s) (baseline s) (uptime_seconds s) (folded s).
Definition set_tcp (v : TcpStats) (s : Sample) : Sample :=
  mkSample (timestamp_nanos s) (level s) (cpu s) (mem s) (swap s) (load s) (disk s)
    (net s) (proc s) (entropy s) (self_ s) (thermal s) (file_watch s) v (udp s) (icmp s)
    (fs s) (clock s) (groups s) (baseline s) (uptime_seconds s) (folded s).
Definition set_udp (v : UdpStats) (s : Sample) : Sample :=
  mkSample (timestamp_nanos s) (level s) (cpu s) (mem s) (swap s) (load s) (disk s)
    (net s) (proc s) (entropy s) (self_ s) (thermal s) (file_watch s) (tcp s) v (icmp s)
    (fs s) (clock s) (groups s) (baseline s) (uptime_seconds s) (folded s).
Definition set_icmp (v : IcmpStats) (s : Sample) : Sample :=
  mkSample (timestamp_nanos s) (level s) (cpu s) (mem s) (swap s) (load s) (disk s)
    (net s) (proc s) (entropy s) (self_ s) (thermal s) (file_watch s) (tcp s) (udp s) v
    (fs s) (clock s) (groups s) (baseline s) (uptime_seconds s) (folded s).
Definition set_fs (v : FsStats) (s : Sample) : Sample :=
  mkSample (timestamp_nanos s) (level s) (cpu s) (mem s) (swap s) (load s) (disk s)
    (net s) (proc s) (entropy s) (self_ s) (thermal s) (file_watch s) (tcp s) (udp s)
    (icmp s) v (clock s) (groups s) (baseline s) (uptime_seconds s) (folded s).
Definition set_clock (v : ClockStats) (s : Sample) : Sample :=
  mkSample (timestamp_nanos s) (level s) (cpu s) (mem s) (swap s) (load s) (disk s)
    (net s) (proc s) (entropy s) (self_ s) (thermal s) (file_watch s) (tcp s) (udp s)
    (icmp s) (fs s) v (groups s) (baseline s) (uptime_seconds s) (folded s).
Definition set_groups (v : Z) (s : Sample) : Sample :=
  mkSample (timestamp_nanos s) (level s) (cpu s) (mem s) (swap s) (load s) (disk s)
    (net s) (proc s) (entropy s) (self_ s) (thermal s) (file_watch s) (tcp s) (udp s)
    (icmp s) (fs s) (clock s) v (baseline s) (uptime_seconds s) (folded s).
Definition set_baseline (v : Z) (s : Sample) : Sample :=
  mkSample (timestamp_nanos s) (level s) (cpu s) (mem s) (swap s) (load s) (disk s)
    (net s) (proc s) (entropy s) (self_ s) (thermal s) (file_watch s) (tcp s) (udp s)
    (icmp s) (fs s) (clock s) (groups s) v (uptime_seconds s) (folded s).
Definition set_uptime_seconds (v : Z) (s : Sample) : Sample :=
  mkSample (timestamp_nanos s) (level s) (cpu s) (mem s) (swap s) (load s) (disk s)
    (net s) (proc s) (entropy s) (self_ s) (thermal s) (file_watch s) (tcp s) (udp s)
    (icmp s) (fs s) (clock s) (groups s) (baseline s) v (folded s).
Definition set_folded (v : bool) (s : Sample) : Sample :=
  mkSample (timestamp_nanos s) (level s) (cpu s) (mem s) (swap s) (load s) (disk s)
    (net s) (proc s) (entropy s) (self_ s) (thermal s) (file_watch s) (tcp s) (udp s)
    (icmp s) (fs s) (clock s) (groups s) (baseline s) (uptime_seconds s) v.

(** [(g & bit) != 0] *)
Definition has_group (g bit : Z) : bool := negb (Z.land g bit =? 0).

(** [if ((groups & bit) != 0) assignment;] *)
Definition when_group (g bit : Z) (f : Sample -> Sample) (s : Sample) : Sample :=
  if has_group g bit then f s else s.

Definition clear_groups (s : option Sample) (g : Z) : option Sample :=
  match s with
  | None => None
  | Some s =>
      let s := when_group g kGroupCpu (set_cpu zero_CpuStats) s in
      let s := when_group g kGroupMem (set_mem zero_MemStats) s in
      let s := when_group g kGroupSwap (set_swap zero_SwapStats) s in
      let s := when_group g kGroupLoad (set_load zero_LoadStats) s in
      let s := when_group g kGroupDisk (set_disk zero_DiskStats) s in
      let s := when_group g kGroupNet (set_net zero_NetStats) s in
      let s := when_group g kGroupProc (set_proc zero_ProcessStats) s in
      let s := when_group g kGroupEntropy (set_entropy zero_EntropyStats) s in
      let s := when_group g kGroupSelf (set_self_ zero_SelfStats) s in
      let s := when_group g kGroupThermal (set_thermal zero_ThermalStats) s in
      let s := when_group g kGroupFileWatch (set_file_watch zero_FileWatchSample) s in
      let s := when_group g kGroupUptime (set_uptime_seconds 0) s in
      let s := when_group g kGroupTcp (set_tcp zero_TcpStats) s in
      let s := when_group g kGroupUdp (set_udp zero_UdpStats) s in
      let s := when_group g kGroupIcmp (set_icmp zero_IcmpStats) s in
      let s := when_group g kGroupFs (set_fs zero_FsStats) s in
      let s := when_group g kGroupClock (set_clock zero_ClockStats) s in
      Some (set_groups (Z.land (groups s) (u32 (Z.lnot g))) s)
  end.

(** ** Type invariant *)

Definition CpuStats_ok (x : CpuStats) : Prop :=
  is_uint 64 (cpu_total_percent x) /\
  is_uint 32 (cpu_count x) /\
  is_uint 64 (cpu_user_percent x) /\
  is_uint 64 (cpu_system_percent x) /\
  is_uint 64 (cpu_iowait_percent x) /\
  is_uint 64 (cpu_irq_percent x) /\
  is_uint 64 (cpu_steal_percent x) /\
  is_uint 64 (cpu_idle_percent x).

Definition MemStats_ok (x : MemStats) : Prop :=
  is_uint 64 (mem_total x) /\
  is_uint 64 (mem_available x) /\
  is_uint 64 (mem_available_percent x).

Definition SwapStats_ok (x : SwapStats) : Prop :=
  is_uint 64 (swap_total x) /\
  is_uint 64 (swap_used x) /\
  is_uint 64 (swap_used_percent x).

Definition LoadStats_ok (x : LoadStats) : Prop :=
  is_uint 64 (load_avg_1m x) /\
  is_uint 64 (load_avg_5m x) /\
  is_uint 64 (load_avg_15m x).

Definition DiskStats_ok (x : DiskStats) : Prop :=
  is_uint 64 (disk_read_bytes_per_sec x) /\
  is_uint 64 (disk_write_bytes_per_sec x) /\
  is_uint 32 (disk_device_count x).

Definition NetStats_ok (x : NetStats) : Prop :=
  is_uint 64 (net_rx_bytes_per_sec x) /\
  is_uint 64 (net_tx_bytes_per_sec x) /\
  is_uint 32 (net_interface_count x).

Definition ProcessStats_ok (x : ProcessStats) : Prop :=
  is_uint 32 (proc_total x) /\
  is_uint 32 (proc_running x) /\
  is_uint 32 (proc_sleeping x) /\
  is_uint 32 (proc_blocked x) /\
  is_uint 32 (proc_stopped x) /\
  is_uint 32 (proc_zombie x) /\
  is_uint 32 (proc_threads x).

Definition EntropyStats_ok (x : EntropyStats) : Prop :=
  is_uint 32 (entropy_available_bits x).

Definition SelfStats_ok (x : SelfStats) : Prop :=
  is_uint 64 (self_rss_bytes x) /\
  is_uint 64 (self_peak_rss_bytes x) /\
  is_uint 64 (self_cpu_user_seconds x) /\
  is_uint 64 (self_cpu_system_seconds x).

Definition ThermalStats_ok (x : ThermalStats) : Prop :=
  is_uint 64 (thermal_max_celsius x) /\
  is_uint 32 (thermal_sensor_count x).

Definition FileWatchSample_ok (x : FileWatchSample) : Prop :=
  is_uint 32 (file_watch_events_this_tick x) /\
  is_uint 32 (file_watch_watched_count x).

Definition TcpStats_ok (x : TcpStats) : Prop :=
  is_uint 32 (tcp_established x) /\
  is_uint 32 (tcp_time_wait x) /\
  is_uint 64 (tcp_active_opens_per_sec x) /\
  is_uint 64 (tcp_passive_opens_per_sec x) /\
  is_uint 64 (tcp_retransmits_per_sec x) /\
  is_uint 64 (tcp_in_segments_per_sec x) /\
  is_uint 64 (tcp_out_segments_per_sec x) /\
  is_uint 64 (tcp_in_errors_per_sec x).

Definition UdpStats_ok (x : UdpStats) : Prop :=
  is_uint 64 (udp_in_datagrams_per_sec x) /\
  is_uint 64 (udp_out_datagrams_per_sec x) /\
  is_uint 64 (udp_no_port_per_sec x) /\
  is_uint 64 (udp_in_errors_per_sec x).

Definition IcmpStats_ok (x : IcmpStats) : Prop :=
  is_uint 64 (icmp_in_msgs_per_sec x) /\
  is_uint 64 (icmp_out_msgs_per_sec x) /\
  is_uint 64 (icmp_in_errors_per_sec x) /\
  is_uint 64 (icmp_in_dest_unreachs_per_sec x).

Definition FsStats_ok (x : FsStats) : Prop :=
  is_uint 32 (fs_count x) /\
  is_uint 64 (fs_max_used_percent x) /\
  is_uint 64 (fs_max_inodes_used_percent x).

Definition ClockStats_ok (x : ClockStats) : Prop :=
  is_uint 64 (clock_offset_ms x) /\
  is_uint 64 (clock_max_error_ms x).

Definition sample_ok (s : Sample) : Prop :=
  is_uint 64 (timestamp_nanos s) /\ is_uint 8 (level s) /\
  CpuStats_ok (cpu s) /\
  MemStats_ok (mem s) /\
  SwapStats_ok (swap s) /\
  LoadStats_ok (load s) /\
  DiskStats_ok (disk s) /\
  NetStats_ok (net s) /\
  ProcessStats_ok (proc s) /\
  EntropyStats_ok (entropy s) /\
  SelfStats_ok (self_ s) /\
  ThermalStats_ok (thermal s) /\
  FileWatchSample_ok (file_watch s) /\
  TcpStats_ok (tcp s) /\
  UdpStats_ok (udp s) /\
  IcmpStats_ok (icmp s) /\
  FsStats_ok (fs s) /\
  ClockStats_ok (clock s) /\
  is_uint 32 (groups s) /\ is_uint 32 (baseline s) /\ is_uint 64 (uptime_seconds s).

#[export] Instance sample_ok_dec s : Decision (sample_ok s).
Proof.
  unfold sample_ok, CpuStats_ok, MemStats_ok, SwapStats_ok, LoadStats_ok, DiskStats_ok, NetStats_ok, ProcessStats_ok, EntropyStats_ok,
    SelfStats_ok, ThermalStats_ok, FileWatchSample_ok, TcpStats_ok, UdpStats_ok, IcmpStats_ok, FsStats_ok, ClockStats_ok.
  apply _.
Defined.

Ltac unfold_sample_ok :=
  unfold sample_ok, CpuStats_ok, MemStats_ok, SwapStats_ok, LoadStats_ok, DiskStats_ok, NetStats_ok, ProcessStats_ok, EntropyStats_ok,
    SelfStats_ok, ThermalStats_ok, FileWatchSample_ok, TcpStats_ok, UdpStats_ok, IcmpStats_ok, FsStats_ok, ClockStats_ok in *.
