(* ===== verification/SampleCodec.v ===== *)
(** The sample payload codec (src/core/codec.cpp): versions 1 to 9 of the layout,
    each an extension of the one before it.  Writing is a list of bytes; reading
    is a reader over the remaining input in which running off the end of the
    buffer is [None], so that memory safety of [sample_decode] is a theorem. *)
From Stdlib Require Import ZArith Lia List.
From stdpp Require Import base numbers list strings.
From S2P Require Import Prelude Float64 Endian Sample.
Open Scope Z_scope.

(** ** Readers *)

Definition reader (A : Type) : Type := bytes -> option (A * bytes).
Definition rret {A} (a : A) : reader A := fun p => Some (a, p).
Definition rbind {A B} (m : reader A) (f : A -> reader B) : reader B :=
  fun p => match m p with Some (a, r) => f a r | None => None end.

Declare Scope reader_scope.
Delimit Scope reader_scope with reader.
Notation "x <- e ;; k" := (rbind e (fun x => k))
  (at level 100, e at next level, right associativity) : reader_scope.
Notation "e ;; k" := (rbind e (fun _ => k))
  (at level 100, right associativity) : reader_scope.
Open Scope reader_scope.

Definition put_u8 (v : Z) : bytes := [u8 v].
Definition put_u32 (v : Z) : bytes := le_put_u32 v.
Definition put_u64 (v : Z) : bytes := le_put_u64 v.
Definition put_f64 (v : f64) : bytes := put_u64 v.
Definition put_pad (n : nat) : bytes := replicate n 0.
Definition put_bool (b : bool) : bytes := put_u8 (if b then 1 else 0).

Definition get_u8 : reader Z :=
  fun p => match p with x :: r => Some (x, r) | [] => None end.
Definition get_u32 : reader Z :=
  fun p => if (length p <? 4)%nat then None else Some (le_get_u32 p, drop 4 p).
Definition get_u64 : reader Z :=
  fun p => if (length p <? 8)%nat then None else Some (le_get_u64 p, drop 8 p).
Definition get_f64 : reader f64 := get_u64.
Definition skip (n : nat) : reader unit :=
  fun p => if (length p <? n)%nat then None else Some (tt, drop n p).
Definition get_bool : reader bool := v <- get_u8 ;; rret (negb (v =? 0)).

(** ** Layout constants *)

Definition kMagic : bytes := str "BDYKSMPL".
Definition kVersionWrite : Z := 9.

Definition kEncodedSizeV1 : Z :=
  8 + 4 + 4 + (8 + 1 + 7) + (8 + 4 + 4) + (8 + 8 + 8) + (8 + 8 + 8) + (8 + 8 + 8) + 8.
Definition kEncodedSizeV2 : Z := kEncodedSizeV1 + (8 + 8 + 4 + 4) + (8 + 8 + 4 + 4).
Definition kEncodedSizeV3 : Z := kEncodedSizeV2 + 4 + 4.
Definition kEncodedSizeV4 : Z := kEncodedSizeV3 + 4 + 1 + 3.
Definition kEncodedSizeV5 : Z := kEncodedSizeV4 + 8 + 8 + 8 + 8.
Definition kEncodedSizeV6 : Z := kEncodedSizeV5 + 8 + 4 + 1 + 3.
Definition kEncodedSizeV7 : Z := kEncodedSizeV6 + 4 + 4 + 1 + 7.
Definition kEncodedSizeV8 : Z :=
  kEncodedSizeV7 + 6 * 8 + (5 * 4 + 4) + (4 + 4 + 6 * 8 + 1 + 7) + (4 * 8 + 1 + 7)
  + (4 + 1 + 3 + 2 * 8) + (2 * 8 + 1 + 1 + 6) + (4 + 4).
Definition kEncodedSizeV9 : Z := kEncodedSizeV8 + 4 * 8 + 1 + 7.
Definition kMinSize : list Z :=
  [0; kEncodedSizeV1; kEncodedSizeV2; kEncodedSizeV3; kEncodedSizeV4; kEncodedSizeV5;
   kEncodedSizeV6; kEncodedSizeV7; kEncodedSizeV8; kEncodedSizeV9].

Definition sample_max_encoded_size : Z := kEncodedSizeV9.

(** ** Encoding *)

Definition enc_head (version : Z) : bytes := kMagic ++ put_u32 version ++ put_u32 0.

Definition enc_stamp (s : Sample) : bytes :=
  put_u64 (timestamp_nanos s) ++ put_u8 (level s) ++ put_pad 7.

Definition enc_v1 (s : Sample) : bytes :=
  put_f64 (cpu_total_percent (cpu s)) ++ put_u32 (cpu_count (cpu s)) ++ put_pad 4 ++
  put_u64 (mem_total (mem s)) ++ put_u64 (mem_available (mem s)) ++
  put_f64 (mem_available_percent (mem s)) ++
  put_u64 (swap_total (swap s)) ++ put_u64 (swap_used (swap s)) ++
  put_f64 (swap_used_percent (swap s)) ++
  put_f64 (load_avg_1m (load s)) ++ put_f64 (load_avg_5m (load s)) ++
  put_f64 (load_avg_15m (load s)) ++ put_f64 (uptime_seconds s).

Definition enc_v2 (s : Sample) : bytes :=
  put_u64 (disk_read_bytes_per_sec (disk s)) ++ put_u64 (disk_write_bytes_per_sec (disk s)) ++
  put_u32 (disk_device_count (disk s)) ++ put_pad 4 ++
  put_u64 (net_rx_bytes_per_sec (net s)) ++ put_u64 (net_tx_bytes_per_sec (net s)) ++
  put_u32 (net_interface_count (net s)) ++ put_pad 4.

Definition enc_v3 (s : Sample) : bytes :=
  put_u32 (proc_total (proc s)) ++ put_u32 (proc_running (proc s)).

Definition enc_v4 (s : Sample) : bytes :=
  put_u32 (entropy_available_bits (entropy s)) ++ put_bool (entropy_present (entropy s)) ++
  put_pad 3.

Definition enc_v5 (s : Sample) : bytes :=
  put_u64 (self_rss_bytes (self_ s)) ++ put_u64 (self_peak_rss_bytes (self_ s)) ++
  put_f64 (self_cpu_user_seconds (self_ s)) ++ put_f64 (self_cpu_system_seconds (self_ s)).

Definition enc_v6 (s : Sample) : bytes :=
  put_f64 (thermal_max_celsius (thermal s)) ++ put_u32 (thermal_sensor_count (thermal s)) ++
  put_bool (thermal_present (thermal s)) ++ put_pad 3.

Definition enc_v7 (s : Sample) : bytes :=
  put_u32 (file_watch_events_this_tick (file_watch s)) ++
  put_u32 (file_watch_watched_count (file_watch s)) ++
  put_bool (file_watch_present (file_watch s)) ++ put_pad 7.

Definition enc_v8_cpu_proc (s : Sample) : bytes :=
  put_f64 (cpu_user_percent (cpu s)) ++ put_f64 (cpu_system_percent (cpu s)) ++
  put_f64 (cpu_iowait_percent (cpu s)) ++ put_f64 (cpu_irq_percent (cpu s)) ++
  put_f64 (cpu_steal_percent (cpu s)) ++ put_f64 (cpu_idle_percent (cpu s)) ++
  put_u32 (proc_sleeping (proc s)) ++ put_u32 (proc_blocked (proc s)) ++
  put_u32 (proc_stopped (proc s)) ++ put_u32 (proc_zombie (proc s)) ++
  put_u32 (proc_threads (proc s)) ++ put_pad 4.

Definition enc_v8_net (s : Sample) : bytes :=
  put_u32 (tcp_established (tcp s)) ++ put_u32 (tcp_time_wait (tcp s)) ++
  put_f64 (tcp_active_opens_per_sec (tcp s)) ++ put_f64 (tcp_passive_opens_per_sec (tcp s)) ++
  put_f64 (tcp_retransmits_per_sec (tcp s)) ++ put_f64 (tcp_in_segments_per_sec (tcp s)) ++
  put_f64 (tcp_out_segments_per_sec (tcp s)) ++ put_f64 (tcp_in_errors_per_sec (tcp s)) ++
  put_bool (tcp_present (tcp s)) ++ put_pad 7 ++
  put_f64 (udp_in_datagrams_per_sec (udp s)) ++ put_f64 (udp_out_datagrams_per_sec (udp s)) ++
  put_f64 (udp_no_port_per_sec (udp s)) ++ put_f64 (udp_in_errors_per_sec (udp s)) ++
  put_bool (udp_present (udp s)) ++ put_pad 7.

Definition enc_v8_fs (s : Sample) : bytes :=
  put_u32 (fs_count (fs s)) ++ put_bool (fs_present (fs s)) ++ put_pad 3 ++
  put_f64 (fs_max_used_percent (fs s)) ++ put_f64 (fs_max_inodes_used_percent (fs s)) ++
  put_f64 (clock_offset_ms (clock s)) ++ put_f64 (clock_max_error_ms (clock s)) ++
  put_bool (clock_synced (clock s)) ++ put_bool (clock_present (clock s)) ++ put_pad 6 ++
  put_u32 (groups s) ++ put_pad 4.

Definition enc_v8 (s : Sample) : bytes :=
  enc_v8_cpu_proc s ++ enc_v8_net s ++ enc_v8_fs s.

Definition enc_v9 (s : Sample) : bytes :=
  put_f64 (icmp_in_msgs_per_sec (icmp s)) ++ put_f64 (icmp_out_msgs_per_sec (icmp s)) ++
  put_f64 (icmp_in_errors_per_sec (icmp s)) ++ put_f64 (icmp_in_dest_unreachs_per_sec (icmp s)) ++
  put_bool (icmp_present (icmp s)) ++ put_pad 7.

(** [buf_null] and [len_null] say whether the [buf] and [out_len] pointers are
    null; [inl rc] is the error return, [inr b] the bytes written from [buf] on
    (with [*out_len] their number and 0 returned). *)
Definition sample_encode (s : option Sample) (buf_null len_null : bool) (cap : Z) : Z + bytes :=
  match s with
  | None => inl (-1)
  | Some s =>
      if buf_null || len_null then inl (-1)
      else if cap <? kEncodedSizeV9 then inl (-2)
      else inr (enc_head kVersionWrite ++ enc_stamp s ++ enc_v1 s ++ enc_v2 s ++ enc_v3 s ++ enc_v4 s ++
                enc_v5 s ++ enc_v6 s ++ enc_v7 s ++ enc_v8 s ++ enc_v9 s)
  end.

(** ** Decoding *)

(** The block functions assign the fields of [*out] they read, in the source's
    order, and leave the others as they are. *)
Definition dec_stamp (out : Sample) : reader (Z * Sample) :=
  ts <- get_u64 ;;
  lv <- get_u8 ;;
  if (lv <? 1) || (kMaxLevelId <? lv) then rret (-5, set_timestamp_nanos ts out)
  else skip 7 ;; rret (0, set_level lv (set_timestamp_nanos ts out)).

Definition dec_v1 (out : Sample) : reader Sample :=
  tp <- get_f64 ;; cnt <- get_u32 ;; skip 4 ;;
  mt <- get_u64 ;; ma <- get_u64 ;; mp <- get_f64 ;;
  st <- get_u64 ;; su <- get_u64 ;; sp <- get_f64 ;;
  l1 <- get_f64 ;; l5 <- get_f64 ;; l15 <- get_f64 ;;
  up <- get_f64 ;;
  let c := cpu out in
  rret (set_uptime_seconds up (set_load (mkLoadStats l1 l5 l15)
       (set_swap (mkSwapStats st su sp) (set_mem (mkMemStats mt ma mp)
       (set_cpu (mkCpuStats tp cnt (cpu_user_percent c) (cpu_system_percent c)
          (cpu_iowait_percent c) (cpu_irq_percent c) (cpu_steal_percent c)
          (cpu_idle_percent c)) out))))).

Definition dec_v2 (version : Z) (out : Sample) : reader Sample :=
  if 2 <=? version then
    dr <- get_u64 ;; dw <- get_u64 ;; dc <- get_u32 ;; skip 4 ;;
    nr <- get_u64 ;; nt <- get_u64 ;; ni <- get_u32 ;; skip 4 ;;
    rret (set_net (mkNetStats nr nt ni) (set_disk (mkDiskStats dr dw dc) out))
  else rret (set_net zero_NetStats (set_disk zero_DiskStats out)).

Definition dec_v3 (version : Z) (out : Sample) : reader Sample :=
  if 3 <=? version then
    t <- get_u32 ;; r <- get_u32 ;;
    let q := proc out in
    rret (set_proc (mkProcessStats t r (proc_sleeping q) (proc_blocked q) (proc_stopped q)
                      (proc_zombie q) (proc_threads q)) out)
  else rret (set_proc zero_ProcessStats out).

Definition dec_v4 (version : Z) (out : Sample) : reader Sample :=
  if 4 <=? version then
    a <- get_u32 ;; b <- get_bool ;; skip 3 ;;
    rret (set_entropy (mkEntropyStats a b) out)
  else rret (set_entropy zero_EntropyStats out).

Definition dec_v5 (version : Z) (out : Sample) : reader Sample :=
  if 5 <=? version then
    r <- get_u64 ;; k <- get_u64 ;; cu <- get_f64 ;; cs <- get_f64 ;;
    rret (set_self_ (mkSelfStats r k cu cs) out)
  else rret (set_self_ zero_SelfStats out).

Definition dec_v6 (version : Z) (out : Sample) : reader Sample :=
  if 6 <=? version then
    m <- get_f64 ;; c <- get_u32 ;; b <- get_bool ;; skip 3 ;;
    rret (set_thermal (mkThermalStats m c b) out)
  else rret (set_thermal zero_ThermalStats out).

Definition dec_v7 (version : Z) (out : Sample) : reader Sample :=
  if 7 <=? version then
    e <- get_u32 ;; w <- get_u32 ;; b <- get_bool ;; skip 7 ;;
    rret (set_file_watch (mkFileWatchSample e w b) out)
  else rret (set_file_watch zero_FileWatchSample out).

(** What every version clears before the v8 block is looked at. *)
Definition dec_clear (out : Sample) : Sample :=
  let c := cpu out in
  let q := proc out in
  set_icmp zero_IcmpStats
    (set_cpu (mkCpuStats (cpu_total_percent c) (cpu_count c) 0 0 0 0 0 0)
    (set_proc (mkProcessStats (proc_total q) (proc_running q) 0 0 0 0 0)
    (set_clock zero_ClockStats (set_fs zero_FsStats
    (set_udp zero_UdpStats (set_tcp zero_TcpStats out)))))).

(** The groups a record of an old version holds. *)
Definition old_groups (version : Z) : Z :=
  let g := Z.lor (Z.lor (Z.lor (Z.lor kGroupCpu kGroupMem) kGroupSwap) kGroupLoad) kGroupUptime in
  let g := if 2 <=? version then Z.lor g (Z.lor kGroupDisk kGroupNet) else g in
  let g := if 3 <=? version then Z.lor g kGroupProc else g in
  let g := if 4 <=? version then Z.lor g kGroupEntropy else g in
  let g := if 5 <=? version then Z.lor g kGroupSelf else g in
  let g := if 6 <=? version then Z.lor g kGroupThermal else g in
  if 7 <=? version then Z.lor g kGroupFileWatch else g.

Definition dec_v8_cpu_proc (out : Sample) : reader Sample :=
  us <- get_f64 ;; sy <- get_f64 ;; io <- get_f64 ;; ir <- get_f64 ;; sl <- get_f64 ;;
  idl <- get_f64 ;;
  ps <- get_u32 ;; pb <- get_u32 ;; pt <- get_u32 ;; pz <- get_u32 ;; pth <- get_u32 ;;
  skip 4 ;;
  let c := cpu out in
  let q := proc out in
  rret (set_proc (mkProcessStats (proc_total q) (proc_running q) ps pb pt pz pth)
       (set_cpu (mkCpuStats (cpu_total_percent c) (cpu_count c) us sy io ir sl idl) out)).

Definition dec_v8_net (out : Sample) : reader Sample :=
  es <- get_u32 ;; tw <- get_u32 ;;
  ao <- get_f64 ;; po <- get_f64 ;; rt <- get_f64 ;; isg <- get_f64 ;; osg <- get_f64 ;;
  ie <- get_f64 ;; tp <- get_bool ;; skip 7 ;;
  ui <- get_f64 ;; uo <- get_f64 ;; un <- get_f64 ;; ue <- get_f64 ;; upr <- get_bool ;;
  skip 7 ;;
  rret (set_udp (mkUdpStats ui uo un ue upr)
       (set_tcp (mkTcpStats es tw ao po rt isg osg ie tp) out)).

Definition dec_v8_fs (out : Sample) : reader Sample :=
  fc <- get_u32 ;; fp <- get_bool ;; skip 3 ;; fu <- get_f64 ;; fi <- get_f64 ;;
  co <- get_f64 ;; ce <- get_f64 ;; cs <- get_bool ;; cp <- get_bool ;; skip 6 ;;
  gr <- get_u32 ;; skip 4 ;;
  rret (set_groups gr (set_clock (mkClockStats co ce cs cp)
       (set_fs (mkFsStats fc fu fi fp) out))).

Definition dec_v9 (out : Sample) : reader Sample :=
  im <- get_f64 ;; om <- get_f64 ;; ie <- get_f64 ;; du <- get_f64 ;; ip <- get_bool ;; skip 7 ;;
  rret (set_icmp (mkIcmpStats im om ie du ip) out).

Definition dec_fields (version : Z) (out : Sample) : reader Sample :=
  out <- dec_v1 out ;; out <- dec_v2 version out ;; out <- dec_v3 version out ;;
  out <- dec_v4 version out ;; out <- dec_v5 version out ;; out <- dec_v6 version out ;;
  out <- dec_v7 version out ;;
  let out := dec_clear out in
  if version <? 8 then rret (set_groups (old_groups version) out)
  else
    out <- dec_v8_cpu_proc out ;; out <- dec_v8_net out ;; out <- dec_v8_fs out ;;
    if version <? 9 then rret out else dec_v9 out.

Definition dec_body (len : Z) (out : Sample) : reader (Z * Sample) :=
  version <- get_u32 ;;
  if (version <? 1) || (9 <? version) then rret (-4, out)
  else if len <? znth 0 kMinSize version then rret (-2, out)
  else
    get_u32 ;;
    st <- dec_stamp out ;;
    if st.1 =? 0 then o <- dec_fields version st.2 ;; rret (0, o) else rret st.

(** [None] is a read past the end of the buffer. *)
Definition sample_decode (buf : option bytes) (out : option Sample)
    : option (Z * option Sample) :=
  match buf, out with
  | Some b, Some o =>
      let len := zlen b in
      if len <? kEncodedSizeV1 then Some (-2, Some o)
      else if bool_decide (take 8 b = kMagic) then
        match dec_body len o (drop 8 b) with
        | Some ((rc, o'), _) => Some (rc, Some o')
        | None => None
        end
      else Some (-3, Some o)
  | _, _ => Some (-1, out)
  end.

(** ** Reference: what a buffer decodes to *)

(** A record as version [v] of the program wrote it. *)
Definition enc_version (v : Z) (s : Sample) : bytes :=
  enc_head v ++ enc_stamp s ++ enc_v1 s ++
  (if 2 <=? v then enc_v2 s else []) ++ (if 3 <=? v then enc_v3 s else []) ++
  (if 4 <=? v then enc_v4 s else []) ++ (if 5 <=? v then enc_v5 s else []) ++
  (if 6 <=? v then enc_v6 s else []) ++ (if 7 <=? v then enc_v7 s else []) ++
  (if 8 <=? v then enc_v8 s else []) ++ (if 9 <=? v then enc_v9 s else []).

(** The sample such a record stands for: the fields version [v] carries, zeros
    for the others, and the groups those fields make; the two members that are
    not stored ([baseline], [folded]) are the caller's. *)
Definition restrict (v : Z) (s out : Sample) : Sample :=
  let c := cpu s in
  let q := proc s in
  mkSample (timestamp_nanos s) (level s)
    (if 8 <=? v then c else mkCpuStats (cpu_total_percent c) (cpu_count c) 0 0 0 0 0 0)
    (mem s) (swap s) (load s)
    (if 2 <=? v then disk s else zero_DiskStats)
    (if 2 <=? v then net s else zero_NetStats)
    (if 8 <=? v then q
     else if 3 <=? v then mkProcessStats (proc_total q) (proc_running q) 0 0 0 0 0
     else zero_ProcessStats)
    (if 4 <=? v then entropy s else zero_EntropyStats)
    (if 5 <=? v then self_ s else zero_SelfStats)
    (if 6 <=? v then thermal s else zero_ThermalStats)
    (if 7 <=? v then file_watch s else zero_FileWatchSample)
    (if 8 <=? v then tcp s else zero_TcpStats)
    (if 8 <=? v then udp s else zero_UdpStats)
    (if 9 <=? v then icmp s else zero_IcmpStats)
    (if 8 <=? v then fs s else zero_FsStats)
    (if 8 <=? v then clock s else zero_ClockStats)
    (if 8 <=? v then groups s else old_groups v)
    (baseline out) (uptime_seconds s) (folded out).

(** The return code as a function of the header bytes. *)
Definition decode_rc (b : bytes) : Z :=
  let version := le_get_u32 (drop 8 b) in
  let lv := znth 0 b 24 in
  if zlen b <? kEncodedSizeV1 then -2
  else if negb (bool_decide (take 8 b = kMagic)) then -3
  else if (version <? 1) || (9 <? version) then -4
  else if zlen b <? znth 0 kMinSize version then -2
  else if (lv <? 1) || (kMaxLevelId <? lv) then -5
  else 0.

(** ** Round trip *)

Lemma rd_u64 {B} v r (f : Z -> reader B) :
  is_uint 64 v -> rbind get_u64 f (put_u64 v ++ r) = f v r.
Proof.
  intros. unfold rbind, get_u64, put_u64. rewrite length_app, length_le_put_u64.
  simpl Nat.ltb. cbv iota. rewrite le_get_put_u64 by done.
  by rewrite drop_app_length' by (by rewrite length_le_put_u64).
Qed.

Lemma rd_f64 {B} v r (f : Z -> reader B) :
  is_uint 64 v -> rbind get_f64 f (put_f64 v ++ r) = f v r.
Proof. apply rd_u64. Qed.

Lemma rd_u32 {B} v r (f : Z -> reader B) :
  is_uint 32 v -> rbind get_u32 f (put_u32 v ++ r) = f v r.
Proof.
  intros. unfold rbind, get_u32, put_u32. rewrite length_app, length_le_put_u32.
  simpl Nat.ltb. cbv iota. rewrite le_get_put_u32 by done.
  by rewrite drop_app_length' by (by rewrite length_le_put_u32).
Qed.

Lemma rd_u8 {B} v r (f : Z -> reader B) :
  is_uint 8 v -> rbind get_u8 f (put_u8 v ++ r) = f v r.
Proof. intros. unfold rbind, get_u8, put_u8, u8. simpl. by rewrite wrap_small. Qed.

Lemma rd_bool {B} b r (f : bool -> reader B) :
  rbind get_bool f (put_bool b ++ r) = f b r.
Proof. by destruct b. Qed.

Lemma rd_pad {B} n r (f : unit -> reader B) :
  rbind (skip n) f (put_pad n ++ r) = f tt r.
Proof.
  unfold rbind, skip, put_pad. rewrite length_app, length_replicate.
  destruct (Nat.ltb_spec (n + length r) n); [lia |].
  by rewrite drop_app_length' by (by rewrite length_replicate).
Qed.

(** Reads back one written field after another. *)
Ltac read_back :=
  rewrite <- ?app_assoc;
  repeat first
    [ rewrite rd_u64 by assumption | rewrite rd_f64 by assumption
    | rewrite rd_u32 by assumption | rewrite rd_u8 by assumption
    | rewrite rd_bool | rewrite rd_pad ].

Section Blocks.
Implicit Types s out : Sample.

Lemma rd_stamp s out r :
  sample_ok s -> 1 <= level s <= kMaxLevelId ->
  dec_stamp out (enc_stamp s ++ r) =
  Some ((0, set_level (level s) (set_timestamp_nanos (timestamp_nanos s) out)), r).
Proof.
  intros Hs Hl. unfold_sample_ok. split_hyps. unfold dec_stamp, enc_stamp. read_back.
  destruct (level s <? 1) eqn:E1; bool_facts; [lia |].
  destruct (kMaxLevelId <? level s) eqn:E2; bool_facts; [lia |].
  cbn [orb]. by rewrite rd_pad.
Qed.

Lemma rd_v1 s out r :
  sample_ok s -> dec_v1 out (enc_v1 s ++ r) =
  Some (set_uptime_seconds (uptime_seconds s) (set_load (load s) (set_swap (swap s)
    (set_mem (mem s) (set_cpu (mkCpuStats (cpu_total_percent (cpu s)) (cpu_count (cpu s))
       (cpu_user_percent (cpu out)) (cpu_system_percent (cpu out)) (cpu_iowait_percent (cpu out))
       (cpu_irq_percent (cpu out)) (cpu_steal_percent (cpu out)) (cpu_idle_percent (cpu out)))
       out)))), r).
Proof.
  intros Hs. unfold_sample_ok. split_hyps. unfold dec_v1, enc_v1. read_back.
  destruct s as [? ? [] [] [] []]; reflexivity.
Qed.

Lemma rd_v2 s out v r :
  sample_ok s -> dec_v2 v out ((if 2 <=? v then enc_v2 s else []) ++ r) =
  Some (set_net (if 2 <=? v then net s else zero_NetStats)
       (set_disk (if 2 <=? v then disk s else zero_DiskStats) out), r).
Proof.
  intros Hs. unfold_sample_ok. split_hyps. unfold dec_v2, enc_v2.
  destruct (2 <=? v); [read_back | done]. by destruct (disk s), (net s).
Qed.

Lemma rd_v3 s out v r :
  sample_ok s -> dec_v3 v out ((if 3 <=? v then enc_v3 s else []) ++ r) =
  Some (set_proc (if 3 <=? v then
    mkProcessStats (proc_total (proc s)) (proc_running (proc s))
      (proc_sleeping (proc out)) (proc_blocked (proc out)) (proc_stopped (proc out))
      (proc_zombie (proc out)) (proc_threads (proc out)) else zero_ProcessStats) out, r).
Proof.
  intros Hs. unfold_sample_ok. split_hyps. unfold dec_v3, enc_v3.
  destruct (3 <=? v); [by read_back | done].
Qed.

Lemma rd_v4 s out v r :
  sample_ok s -> dec_v4 v out ((if 4 <=? v then enc_v4 s else []) ++ r) =
  Some (set_entropy (if 4 <=? v then entropy s else zero_EntropyStats) out, r).
Proof.
  intros Hs. unfold_sample_ok. split_hyps. unfold dec_v4, enc_v4.
  destruct (4 <=? v); [read_back | done]. by destruct (entropy s).
Qed.

Lemma rd_v5 s out v r :
  sample_ok s -> dec_v5 v out ((if 5 <=? v then enc_v5 s else []) ++ r) =
  Some (set_self_ (if 5 <=? v then self_ s else zero_SelfStats) out, r).
Proof.
  intros Hs. unfold_sample_ok. split_hyps. unfold dec_v5, enc_v5.
  destruct (5 <=? v); [read_back | done]. by destruct (self_ s).
Qed.

Lemma rd_v6 s out v r :
  sample_ok s -> dec_v6 v out ((if 6 <=? v then enc_v6 s else []) ++ r) =
  Some (set_thermal (if 6 <=? v then thermal s else zero_ThermalStats) out, r).
Proof.
  intros Hs. unfold_sample_ok. split_hyps. unfold dec_v6, enc_v6.
  destruct (6 <=? v); [read_back | done]. by destruct (thermal s).
Qed.

Lemma rd_v7 s out v r :
  sample_ok s -> dec_v7 v out ((if 7 <=? v then enc_v7 s else []) ++ r) =
  Some (set_file_watch (if 7 <=? v then file_watch s else zero_FileWatchSample) out, r).
Proof.
  intros Hs. unfold_sample_ok. split_hyps. unfold dec_v7, enc_v7.
  destruct (7 <=? v); [read_back | done]. by destruct (file_watch s).
Qed.

Lemma rd_v8_cpu_proc s out r :
  sample_ok s -> dec_v8_cpu_proc out (enc_v8_cpu_proc s ++ r) =
  Some (set_proc (mkProcessStats (proc_total (proc out)) (proc_running (proc out))
    (proc_sleeping (proc s)) (proc_blocked (proc s)) (proc_stopped (proc s))
    (proc_zombie (proc s)) (proc_threads (proc s)))
    (set_cpu (mkCpuStats (cpu_total_percent (cpu out)) (cpu_count (cpu out))
       (cpu_user_percent (cpu s)) (cpu_system_percent (cpu s)) (cpu_iowait_percent (cpu s))
       (cpu_irq_percent (cpu s)) (cpu_steal_percent (cpu s)) (cpu_idle_percent (cpu s))) out), r).
Proof.
  intros Hs. unfold_sample_ok. split_hyps. unfold dec_v8_cpu_proc, enc_v8_cpu_proc. by read_back.
Qed.

Lemma rd_v8_net s out r :
  sample_ok s -> dec_v8_net out (enc_v8_net s ++ r) = Some (set_udp (udp s) (set_tcp (tcp s) out), r).
Proof.
  intros Hs. unfold_sample_ok. split_hyps. unfold dec_v8_net, enc_v8_net. read_back.
  by destruct (tcp s), (udp s).
Qed.

Lemma rd_v8_fs s out r :
  sample_ok s -> dec_v8_fs out (enc_v8_fs s ++ r) =
  Some (set_groups (groups s) (set_clock (clock s) (set_fs (fs s) out)), r).
Proof.
  intros Hs. unfold_sample_ok. split_hyps. unfold dec_v8_fs, enc_v8_fs. read_back.
  by destruct (fs s), (clock s).
Qed.

Lemma rd_v9 s out r : sample_ok s -> dec_v9 out (enc_v9 s ++ r) = Some (set_icmp (icmp s) out, r).
Proof.
  intros Hs. unfold_sample_ok. split_hyps. unfold dec_v9, enc_v9. read_back. by destruct (icmp s).
Qed.

End Blocks.

Lemma rd_fields s out v r :
  1 <= v <= 9 -> sample_ok s ->
  dec_fields v (set_level (level s) (set_timestamp_nanos (timestamp_nanos s) out))
    (enc_v1 s ++ (if 2 <=? v then enc_v2 s else []) ++ (if 3 <=? v then enc_v3 s else []) ++
     (if 4 <=? v then enc_v4 s else []) ++ (if 5 <=? v then enc_v5 s else []) ++
     (if 6 <=? v then enc_v6 s else []) ++ (if 7 <=? v then enc_v7 s else []) ++
     (if 8 <=? v then enc_v8 s else []) ++ (if 9 <=? v then enc_v9 s else []) ++ r) =
  Some (restrict v s out, r).
Proof.
  intros Hv Hs. unfold dec_fields, rbind.
  rewrite rd_v1, rd_v2, rd_v3, rd_v4, rd_v5, rd_v6, rd_v7 by done.
  unfold restrict, enc_v8. destruct (8 <=? v) eqn:E8; bool_facts.
  - destruct (v <? 8) eqn:E; bool_facts; [lia |]. rewrite <- !app_assoc.
    rewrite rd_v8_cpu_proc, rd_v8_net, rd_v8_fs by done.
    replace (3 <=? v) with true by lia.
    destruct (9 <=? v) eqn:E9; bool_facts.
    + destruct (v <? 9) eqn:E10; bool_facts; [lia |]. rewrite rd_v9 by done.
      by destruct s as [? ? [] ? ? ? ? ? []].
    + destruct (v <? 9) eqn:E10; bool_facts; [| lia]. by destruct s as [? ? [] ? ? ? ? ? []].
  - destruct (v <? 8) eqn:E; bool_facts; [| lia].
    destruct (9 <=? v) eqn:E9; bool_facts; [lia |].
    destruct (3 <=? v); by destruct s.
Qed.

(** ** Sizes *)

Lemma zlen_put_u8 v : zlen (put_u8 v) = 1.
Proof. done. Qed.
Lemma zlen_put_u32 v : zlen (put_u32 v) = 4.
Proof. apply zlen_le_put_u32. Qed.
Lemma zlen_put_u64 v : zlen (put_u64 v) = 8.
Proof. apply zlen_le_put_u64. Qed.
Lemma zlen_put_f64 v : zlen (put_f64 v) = 8.
Proof. apply zlen_le_put_u64. Qed.
Lemma zlen_put_bool b : zlen (put_bool b) = 1.
Proof. done. Qed.
Lemma zlen_put_pad n : zlen (put_pad n) = Z.of_nat n.
Proof. apply zlen_replicate. Qed.

#[export] Hint Rewrite zlen_put_u8 zlen_put_u32 zlen_put_u64 zlen_put_f64 zlen_put_bool
  zlen_put_pad : zlen.

Lemma zlen_enc_version v s : 1 <= v <= 9 -> zlen (enc_version v s) = znth 0 kMinSize v.
Proof.
  intros Hv. unfold enc_version, enc_head, enc_stamp, enc_v1, enc_v2, enc_v3, enc_v4, enc_v5,
    enc_v6, enc_v7, enc_v8, enc_v8_cpu_proc, enc_v8_net, enc_v8_fs, enc_v9.
  assert (v = 1 \/ v = 2 \/ v = 3 \/ v = 4 \/ v = 5 \/ v = 6 \/ v = 7 \/ v = 8 \/ v = 9)
    as Hc by lia.
  repeat (destruct Hc as [-> | Hc]); try subst v;
    cbn [Z.leb Z.compare Pos.compare Pos.compare_cont]; autorewrite with zlen; reflexivity.
Qed.

Lemma put_is_bytes :
  (forall v, is_bytes (put_u8 v)) /\ (forall v, is_bytes (put_u32 v)) /\
  (forall v, is_bytes (put_u64 v)) /\ (forall v, is_bytes (put_f64 v)) /\
  (forall b, is_bytes (put_bool b)) /\ (forall n, is_bytes (put_pad n)).
Proof.
  split_and!; intros; try apply le_bytes_is_bytes.
  - constructor; [apply wrap_range; lia | constructor].
  - by destruct b; vm_compute; constructor.
  - by apply is_bytes_replicate.
Qed.

Lemma enc_version_is_bytes v s : is_bytes (enc_version v s).
Proof.
  destruct put_is_bytes as (H8 & H32 & H64 & Hf & Hb & Hp).
  assert (Hm : is_bytes kMagic) by (by vm_compute; repeat constructor).
  unfold enc_version, enc_head, enc_stamp, enc_v1, enc_v2, enc_v3, enc_v4, enc_v5,
    enc_v6, enc_v7, enc_v8, enc_v8_cpu_proc, enc_v8_net, enc_v8_fs, enc_v9.
  repeat first [ apply is_bytes_app; split | case_match ];
    first [ apply Hm | apply H8 | apply H32 | apply H64 | apply Hf | apply Hb | apply Hp
          | constructor ].
Qed.

Lemma kMinSize_range v : 1 <= v <= 9 -> kEncodedSizeV1 <= znth 0 kMinSize v <= kEncodedSizeV9.
Proof.
  intros Hv.
  assert (v = 1 \/ v = 2 \/ v = 3 \/ v = 4 \/ v = 5 \/ v = 6 \/ v = 7 \/ v = 8 \/ v = 9)
    as Hc by lia.
  repeat (destruct Hc as [-> | Hc]); try subst v; vm_compute; split; discriminate.
Qed.

Lemma decode_enc_version v s out tail :
  1 <= v <= 9 -> sample_ok s -> 1 <= level s <= kMaxLevelId ->
  sample_decode (Some (enc_version v s ++ tail)) (Some out) = Some (0, Some (restrict v s out)).
Proof.
  intros Hv Hs Hl. pose proof (kMinSize_range v Hv) as Hr.
  pose proof (zlen_enc_version v s Hv) as Hlen. pose proof (zlen_nonneg tail) as Ht.
  unfold sample_decode. rewrite zlen_app, Hlen.
  destruct (_ <? kEncodedSizeV1) eqn:E1; bool_facts; [lia |].
  unfold enc_version, enc_head. rewrite <- !app_assoc.
  rewrite (take_app_length' kMagic) by done. rewrite bool_decide_true by done.
  rewrite (drop_app_length' kMagic) by done.
  unfold dec_body. rewrite rd_u32 by (unfold is_uint; lia).
  destruct ((v <? 1) || (9 <? v)) eqn:E2; [apply orb_true_iff in E2; lia |].
  destruct (_ <? znth 0 kMinSize v) eqn:E3; bool_facts; [lia |].
  rewrite rd_u32 by done. unfold rbind. rewrite rd_stamp by done. cbn [fst snd Z.eqb].
  by rewrite rd_fields by done.
Qed.

(** ** Memory safety *)

(** [reads n m]: with at least [n] bytes left, [m] does not run off the end and
    uses at most [n] of them. *)
Definition reads {A} (n : nat) (m : reader A) : Prop :=
  forall p, (n <= length p)%nat ->
  exists a r, m p = Some (a, r) /\ (length p <= n + length r)%nat.

Lemma reads_ret {A} (a : A) : reads 0 (rret a).
Proof. intros p _. eexists _, _. split; [done | lia]. Qed.

Lemma reads_bind {A B} n k (m : reader A) (f : A -> reader B) :
  reads n m -> (forall a, reads k (f a)) -> reads (n + k) (rbind m f).
Proof.
  intros Hm Hf p Hp. destruct (Hm p ltac:(lia)) as (a & r & E & Hr).
  destruct (Hf a r ltac:(lia)) as (b & r' & E' & Hr').
  exists b, r'. unfold rbind. rewrite E. split; [done | lia].
Qed.

Lemma reads_mono {A} n k (m : reader A) : (n <= k)%nat -> reads n m -> reads k m.
Proof.
  intros Hk Hm p Hp. destruct (Hm p ltac:(lia)) as (a & r & E & Hr).
  exists a, r. split; [done | lia].
Qed.

Lemma reads_u8 : reads 1 get_u8.
Proof. intros [| x p] Hp; [simpl in Hp; lia |]. eexists _, _. split; [done | simpl; lia]. Qed.

Lemma reads_cut {A} n (g : bytes -> A) :
  reads n (fun p => if (length p <? n)%nat then None else Some (g p, drop n p)).
Proof.
  intros p Hp. destruct (Nat.ltb_spec (length p) n); [lia |].
  eexists _, _. split; [done | rewrite length_drop; lia].
Qed.

Lemma reads_u32 : reads 4 get_u32.
Proof. apply (reads_cut 4). Qed.
Lemma reads_u64 : reads 8 get_u64.
Proof. apply (reads_cut 8). Qed.
Lemma reads_skip n : reads n (skip n).
Proof. apply (reads_cut n). Qed.
Lemma reads_bool : reads 1 get_bool.
Proof. apply (reads_bind 1 0); [apply reads_u8 | intros; apply reads_ret]. Qed.

Lemma reads_if {A} (c : bool) n k (m m' : reader A) :
  reads n m -> reads k m' -> reads (if c then n else k) (if c then m else m').
Proof. by destruct c. Qed.

(** Walks a reader's code, summing what it reads. *)
Ltac reads_tac :=
  repeat first
    [ eapply reads_bind; [| intros] | apply reads_u32 | apply reads_u64 | apply reads_u8
    | apply reads_skip | apply reads_bool | apply reads_ret | apply reads_if ].

Lemma reads_fields v out : 1 <= v <= 9 ->
  reads (Z.to_nat (znth 0 kMinSize v - 32)) (dec_fields v out).
Proof.
  intros Hv.
  assert (v = 1 \/ v = 2 \/ v = 3 \/ v = 4 \/ v = 5 \/ v = 6 \/ v = 7 \/ v = 8 \/ v = 9)
    as Hc by lia.
  eapply reads_mono; cycle 1.
  - unfold dec_fields, dec_v1, dec_v2, dec_v3, dec_v4, dec_v5, dec_v6, dec_v7, dec_v8_cpu_proc,
      dec_v8_net, dec_v8_fs, dec_v9, get_f64. reads_tac.
  - repeat (destruct Hc as [-> | Hc]); try subst v; vm_compute; lia.
Qed.

Lemma dec_stamp_run out p : (16 <= length p)%nat ->
  exists o r, dec_stamp out p =
    Some ((if (znth 0 p 8 <? 1) || (kMaxLevelId <? znth 0 p 8) then -5 else 0, o), r) /\
    (length p <= 16 + length r)%nat.
Proof.
  intros Hp. unfold dec_stamp, rbind at 1, get_u64.
  destruct (Nat.ltb_spec (length p) 8); [lia |].
  replace (znth 0 p 8) with (nth 0 (drop 8 p) 0) by
    (unfold znth; change (Z.to_nat 8) with (8 + 0)%nat; by rewrite nth_skipn).
  assert (length (drop 8 p) = length p - 8)%nat as Hd by apply length_drop.
  destruct (drop 8 p) as [| x q] eqn:E; simpl in Hd; [lia |].
  unfold rbind at 1, get_u8. cbn [nth].
  destruct ((x <? 1) || (kMaxLevelId <? x)).
  - eexists _, _. split; [done | lia].
  - destruct (reads_skip 7 q ltac:(lia)) as ([] & r & Er & Hr).
    unfold rbind. rewrite Er. eexists _, _. split; [done | lia].
Qed.

Lemma sample_decode_run b out :
  exists o, sample_decode (Some b) (Some out) = Some (decode_rc b, Some o).
Proof.
  unfold sample_decode, decode_rc.
  destruct (zlen b <? kEncodedSizeV1) eqn:E1; [eauto |]. bool_facts.
  destruct (bool_decide (take 8 b = kMagic)) eqn:E2; cbn [negb]; [| eauto].
  assert (Hlen : (128 <= length b)%nat) by (unfold zlen, kEncodedSizeV1 in E1; lia).
  unfold dec_body, rbind at 1, get_u32 at 1. rewrite length_drop.
  destruct (Nat.ltb_spec (length b - 8) 4); [lia |].
  set (v := le_get_u32 (drop 8 b)).
  destruct ((v <? 1) || (9 <? v)) eqn:E3; [eauto |].
  destruct (zlen b <? znth 0 kMinSize v) eqn:E4; [eauto |]. bool_facts.
  unfold rbind at 1, get_u32 at 1. rewrite drop_drop, length_drop.
  destruct (Nat.ltb_spec (length b - (8 + 4)) 4); [lia |]. rewrite drop_drop.
  pose proof (kMinSize_range v ltac:(lia)) as Hr.
  assert (Hb : znth 0 kMinSize v <= Z.of_nat (length b)) by (unfold zlen in *; lia).
  destruct (dec_stamp_run out (drop 16 b)) as (o & r & Es & Hs).
  { rewrite length_drop. lia. }
  replace (znth 0 b 24) with (znth 0 (drop 16 b) 8) by
    (unfold znth; change (Z.to_nat 24) with (16 + 8)%nat; by rewrite nth_skipn).
  simpl Nat.add. unfold rbind at 1. rewrite Es. cbn [fst snd].
  destruct (_ || _); cbn [Z.eqb]; [unfold rret; eauto |].
  rewrite length_drop in Hs.
  destruct (reads_fields v o ltac:(lia) r) as (o' & r' & Ef & _).
  { unfold kEncodedSizeV1 in Hr. lia. }
  unfold rbind. rewrite Ef. unfold rret. eauto.
Qed.

(** ** Theorems *)

(** A sample with every field set, for the witnesses. *)
Definition sample_ex : Sample :=
  mkSample 1700000000000000000 3
    (mkCpuStats 1 8 2 3 4 5 6 7) (mkMemStats 16 9 10) (mkSwapStats 11 12 13)
    (mkLoadStats 14 15 16) (mkDiskStats 17 18 19) (mkNetStats 20 21 22)
    (mkProcessStats 23 24 25 26 27 28 29) (mkEntropyStats 256 true)
    (mkSelfStats 30 31 32 33) (mkThermalStats 34 35 true) (mkFileWatchSample 36 37 true)
    (mkTcpStats 38 39 40 41 42 43 44 45 true) (mkUdpStats 46 47 48 49 true)
    (mkIcmpStats 50 51 52 53 true) (mkFsStats 54 55 56 true) (mkClockStats 57 58 true true)
    kGroupsAll 0 59 false.

Lemma sample_ex_ok : sample_ok sample_ex.
Proof. apply (bool_decide_unpack _). vm_compute. exact I. Defined.

(** C6: a sample whose fields fit their types and whose level byte is one of
    1..kMaxLevelId encodes, in any buffer of at least sample_max_encoded_size()
    bytes, to exactly that many bytes, and decoding them gives back every stored
    field: [*out] is the sample, except for the two members the payload does not
    carry (baseline, folded), which stay the caller's. *)
Theorem sample_codec_roundtrip s out cap :
  sample_ok s -> 1 <= level s <= kMaxLevelId -> sample_max_encoded_size <= cap ->
  exists b, sample_encode (Some s) false false cap = inr b /\
    is_bytes b /\ zlen b = sample_max_encoded_size /\
    sample_decode (Some b) (Some out) =
      Some (0, Some (set_folded (folded out) (set_baseline (baseline out) s))).
Proof.
  intros Hs Hl Hc. unfold sample_encode, sample_max_encoded_size in *. cbn [orb].
  destruct (cap <? kEncodedSizeV9) eqn:E; bool_facts; [lia |].
  eexists. split; [reflexivity |]. rewrite <- (app_nil_r (enc_head _ ++ _)).
  change (enc_head kVersionWrite ++ enc_stamp s ++ enc_v1 s ++ enc_v2 s ++ enc_v3 s ++
    enc_v4 s ++ enc_v5 s ++ enc_v6 s ++ enc_v7 s ++ enc_v8 s ++ enc_v9 s)
    with (enc_version 9 s).
  rewrite decode_enc_version by (done || lia). rewrite app_nil_r.
  split_and!; [apply enc_version_is_bytes | by apply zlen_enc_version |].
  by destruct s, out.
Qed.

Lemma sample_codec_roundtrip_witness :
  exists b, sample_encode (Some sample_ex) false false 1010 = inr b /\
    is_bytes b /\ zlen b = sample_max_encoded_size /\
    sample_decode (Some b) (Some zero_Sample) = Some (0, Some sample_ex).
Proof.
  apply (sample_codec_roundtrip sample_ex zero_Sample 1010 sample_ex_ok);
    vm_compute; intuition discriminate.
Defined.

(** compatibility with older records.  Whatever version 1..9 of the layout a
    record was written in, and whatever follows it in the buffer, decoding
    succeeds and yields the fields that version carries, zeros for the ones it
    does not, and a group mask that claims exactly the groups it carries. *)
Theorem sample_decode_old_versions v s out tail :
  1 <= v <= 9 -> sample_ok s -> 1 <= level s <= kMaxLevelId ->
  zlen (enc_version v s) = znth 0 kMinSize v /\
  sample_decode (Some (enc_version v s ++ tail)) (Some out) = Some (0, Some (restrict v s out)).
Proof. intros. split; [by apply zlen_enc_version | by apply decode_enc_version]. Qed.

Lemma sample_decode_old_versions_witness :
  zlen (enc_version 3 sample_ex) = 184 /\
  sample_decode (Some (enc_version 3 sample_ex ++ [1; 2])) (Some zero_Sample) =
    Some (0, Some (restrict 3 sample_ex zero_Sample)) /\
  entropy (restrict 3 sample_ex zero_Sample) = zero_EntropyStats.
Proof.
  destruct (sample_decode_old_versions 3 sample_ex zero_Sample [1; 2]) as [H1 H2];
    [lia | apply sample_ex_ok | vm_compute; intuition discriminate |].
  split; [exact H1 | split; [exact H2 | reflexivity]].
Defined.

(** sample_decode is total and memory safe on arbitrary input.  For every
    buffer it returns without reading past the end, and the return code is the
    one the header bytes determine: -2 for a buffer shorter than its version's
    layout, -3 bad magic, -4 unknown version, -5 a level byte out of range. *)
Theorem sample_decode_total b out :
  exists o, sample_decode (Some b) (Some out) = Some (decode_rc b, Some o).
Proof. apply sample_decode_run. Qed.
