(* ===== verification/RecordCodec.v ===== *)
(** The on-disk record (src/storage/codec.h, src/storage/codec.cpp): the sample
    payload behind a 14-byte frame with a CRC-32C over everything but the CRC
    itself.  The table-driven CRC is proved equal to the bitwise one, and the
    frame to detect any damage confined to four consecutive bytes. *)
From Stdlib Require Import ZArith Lia List Btauto.
From stdpp Require Import base numbers list strings.
From S2P Require Import Prelude Float64 Endian Sample SampleCodec.
Open Scope Z_scope.

(** ** CRC-32C *)

Definition kCrc32cPolyReflected : Z := 0x82F63B78.

(** [c = (c >> 1) ^ (kCrc32cPolyReflected & (0U - (c & 1U)))] *)
Definition crc_bit (c : Z) : Z :=
  Z.lxor (Z.shiftr c 1) (Z.land kCrc32cPolyReflected (u32 (0 - Z.land c 1))).

Definition make_crc32c_table : list Z := map (fun i => Nat.iter 8 crc_bit i) (seqZ 0 256).
Definition kCrc32cTable : list Z := Eval vm_compute in make_crc32c_table.

Definition crc_step (c b : Z) : Z :=
  Z.lxor (Z.shiftr c 8) (znth 0 kCrc32cTable (Z.land (Z.lxor c b) 0xFF)).

Definition crc32c (data : bytes) (seed : Z) : Z :=
  u32 (Z.lnot (fold_left crc_step data (u32 (Z.lnot seed)))).

(** ** Records *)

Definition kRecordHeaderSize : Z := 14.
Definition kRecordFolded : Z := 0x01.
Definition record_size_for_sample : Z := kRecordHeaderSize + sample_max_encoded_size.

(** The two runs over a record's bytes: [crc32c(base, 10)], then the payload. *)
Definition record_crc (hdr payload : bytes) : Z := crc32c payload (crc32c hdr 0).

Definition record_encode (s : Sample) (buf_null len_null : bool) (cap : Z) : Z + bytes :=
  if buf_null || len_null then inl (-1)
  else if cap <? record_size_for_sample then inl (-2)
  else
    let hdr := le_put_u64 (timestamp_nanos s) ++ [u8 (level s)] ++
               [if folded s then kRecordFolded else 0] in
    match sample_encode (Some s) false false (cap - kRecordHeaderSize) with
    | inl _ => inl (-3)
    | inr payload =>
        if negb (zlen payload =? sample_max_encoded_size) then inl (-4)
        else inr (hdr ++ le_put_u32 (record_crc hdr payload) ++ payload)
    end.

(** [None] is a read past the end of the buffer. *)
Definition record_decode (buf : option bytes) (out : option Sample)
    : option (Z * option Sample) :=
  match buf, out with
  | Some base, Some o =>
      if zlen base <=? kRecordHeaderSize then Some (-2, out)
      else
        let payload := drop 14 base in
        let stored := le_get_u32 (drop 10 base) in
        if negb (record_crc (take 10 base) payload =? stored) then Some (-3, out)
        else match sample_decode (Some payload) (Some o) with
             | None => None
             | Some (rc, Some o) =>
                 if negb (rc =? 0) then Some (-4, Some o)
                 else
                   let o := set_timestamp_nanos (le_get_u64 base) o in
                   let lv := znth 0 base 8 in
                   if (lv <? 1) || (kMaxLevelId <? lv) then Some (-5, Some o)
                   else Some (0, Some (set_folded
                          (negb (Z.land (znth 0 base 9) kRecordFolded =? 0)) (set_level lv o)))
             | Some (_, None) => None
             end
  | _, _ => Some (-1, out)
  end.

(** ** References *)

(** One message byte, bit by bit, as the CRC is defined. *)
Definition crc_byte_bitwise (c b : Z) : Z := Nat.iter 8 crc_bit (Z.lxor c b).
Definition crc32c_bitwise (data : bytes) (seed : Z) : Z :=
  u32 (Z.lnot (fold_left crc_byte_bitwise data (u32 (Z.lnot seed)))).

Definition record_rc (b : bytes) : Z :=
  let lv := znth 0 b 8 in
  if zlen b <=? kRecordHeaderSize then -2
  else if negb (record_crc (take 10 b) (drop 14 b) =? le_get_u32 (drop 10 b)) then -3
  else if negb (decode_rc (drop 14 b) =? 0) then -4
  else if (lv <? 1) || (kMaxLevelId <? lv) then -5
  else 0.

(** ** The bitwise step *)

Lemma crc_bit_alt c :
  crc_bit c = Z.lxor (Z.shiftr c 1) (if Z.testbit c 0 then kCrc32cPolyReflected else 0).
Proof.
  unfold crc_bit. f_equal. change (Z.land c 1) with (Z.land c (Z.ones 1)).
  rewrite Z.land_ones by lia. change (2 ^ 1) with 2.
  rewrite <- Z.bit0_mod. by destruct (Z.testbit c 0).
Qed.

Lemma crc_bit_lxor a b : crc_bit (Z.lxor a b) = Z.lxor (crc_bit a) (crc_bit b).
Proof.
  rewrite !crc_bit_alt, Z.shiftr_lxor, Z.lxor_spec.
  destruct (Z.testbit a 0), (Z.testbit b 0); cbn [xorb]; apply Z.bits_inj'; intros i Hi;
    rewrite !Z.lxor_spec, ?Z.bits_0; btauto.
Qed.

Lemma iter_crc_lxor n a b :
  Nat.iter n crc_bit (Z.lxor a b) = Z.lxor (Nat.iter n crc_bit a) (Nat.iter n crc_bit b).
Proof. induction n as [| n IH]; [done |]. simpl. by rewrite IH, crc_bit_lxor. Qed.

Lemma crc_bit_range c : is_uint 32 c -> is_uint 32 (crc_bit c).
Proof.
  intros Hc. rewrite crc_bit_alt. apply is_uint_lxor; [lia | by apply is_uint_shiftr |].
  by destruct (Z.testbit c 0).
Qed.

Lemma iter_crc_range n c : is_uint 32 c -> is_uint 32 (Nat.iter n crc_bit c).
Proof. intros. induction n; simpl; auto using crc_bit_range. Qed.

(** The reflected polynomial has its top bit set, so a step loses nothing. *)
Lemma crc_bit_inj c c' : is_uint 32 c -> is_uint 32 c' -> crc_bit c = crc_bit c' -> c = c'.
Proof.
  intros Hc Hc'. rewrite !crc_bit_alt. intros E.
  assert (Hb : Z.testbit c 0 = Z.testbit c' 0).
  { apply (f_equal (fun x => Z.testbit x 31)) in E. rewrite !Z.lxor_spec, !Z.shiftr_spec in E by lia.
    rewrite !(is_uint_testbit 32 _ (31 + 1)) in E by (done || lia).
    by destruct (Z.testbit c 0), (Z.testbit c' 0). }
  rewrite Hb in E. apply (f_equal (fun x => Z.lxor x (if Z.testbit c' 0 then kCrc32cPolyReflected else 0))) in E.
  rewrite !Z.lxor_assoc, !Z.lxor_nilpotent, !Z.lxor_0_r in E.
  apply Z.bits_inj'. intros i Hi. destruct (Z.eq_dec i 0) as [-> | Hn]; [done |].
  replace i with ((i - 1) + 1) by lia. rewrite <- !Z.shiftr_spec by lia. by rewrite E.
Qed.

Lemma iter_crc_inj n c c' :
  is_uint 32 c -> is_uint 32 c' -> Nat.iter n crc_bit c = Nat.iter n crc_bit c' -> c = c'.
Proof.
  intros Hc Hc'. induction n as [| n IH]; [done |]. simpl. intros E.
  apply IH, crc_bit_inj; auto using iter_crc_range.
Qed.

(** On a value with [n] low zero bits, [n] steps are a shift. *)
Lemma iter_crc_high n c :
  (forall i, 0 <= i < Z.of_nat n -> Z.testbit c i = false) ->
  Nat.iter n crc_bit c = Z.shiftr c (Z.of_nat n).
Proof.
  induction n as [| n IH]; intros Hz; [by rewrite Z.shiftr_0_r |]. simpl.
  rewrite IH by (intros; apply Hz; lia). rewrite crc_bit_alt, Z.shiftr_spec by lia.
  rewrite Z.add_0_l, Hz by lia. rewrite Z.lxor_0_r, Z.shiftr_shiftr by lia. f_equal. lia.
Qed.

Lemma crc_table_entry i : 0 <= i < 256 -> znth 0 kCrc32cTable i = Nat.iter 8 crc_bit i.
Proof.
  intros Hi. change kCrc32cTable with make_crc32c_table. unfold znth, make_crc32c_table.
  rewrite nth_lookup. change (map ?f ?l) with (f <$> l). rewrite list_lookup_fmap, lookup_seqZ_lt by lia. simpl.
  by rewrite Z2Nat.id by lia.
Qed.

(** ** Table-driven equals bitwise *)

#[local] Opaque crc_bit Nat.iter kCrc32cTable.
Arguments crc_step : simpl never.
Arguments crc_byte_bitwise : simpl never.

Lemma land_ff_split x : Z.lxor (Z.ldiff x 0xFF) (Z.land x 0xFF) = x.
Proof.
  apply Z.bits_inj'. intros i Hi. rewrite Z.lxor_spec, Z.ldiff_spec, Z.land_spec.
  destruct (Z.testbit x i), (Z.testbit 0xFF i); done.
Qed.

Lemma crc_step_bitwise c b :
  is_uint 32 c -> is_uint 8 b -> crc_step c b = crc_byte_bitwise c b.
Proof.
  intros Hc Hb. unfold crc_step, crc_byte_bitwise.
  rewrite crc_table_entry.
  2: { change 0xFF with (Z.ones 8). rewrite Z.land_ones by lia. apply Z.mod_pos_bound. lia. }
  rewrite <- (land_ff_split (Z.lxor c b)) at 2. rewrite iter_crc_lxor. f_equal.
  change 0xFF with (Z.ones 8). rewrite iter_crc_high.
  - change (Z.of_nat 8) with 8. apply Z.bits_inj'. intros i Hi.
    rewrite !Z.shiftr_spec, Z.ldiff_spec, Z.ones_spec_high, Z.lxor_spec by lia.
    rewrite (is_uint_testbit 8 b) by (done || lia). btauto.
  - intros i Hi. rewrite Z.ldiff_spec, Z.ones_spec_low by lia. apply andb_false_r.
Qed.

Lemma crc_byte_range c b : is_uint 32 c -> is_uint 8 b -> is_uint 32 (crc_byte_bitwise c b).
Proof.
  intros. apply iter_crc_range, is_uint_lxor; [lia | done |]. by apply (is_uint_mono 8).
Qed.

Lemma crc_fold_bitwise data c : is_uint 32 c -> is_bytes data ->
  fold_left crc_step data c = fold_left crc_byte_bitwise data c /\
  is_uint 32 (fold_left crc_byte_bitwise data c).
Proof.
  revert c. induction data as [| b data IH]; intros c Hc Hd; [done |].
  apply Forall_cons in Hd as [Hb Hd]. rewrite !fold_left_cons.
  rewrite (crc_step_bitwise c b Hc Hb). apply (IH _ (crc_byte_range c b Hc Hb) Hd).
Qed.

Lemma u32_lnot_range z : is_uint 32 (u32 (Z.lnot z)).
Proof. by apply wrap_range. Qed.

Lemma u32_lnot_inj a b : is_uint 32 a -> is_uint 32 b ->
  u32 (Z.lnot a) = u32 (Z.lnot b) -> a = b.
Proof.
  unfold is_uint, u32, wrap, Z.lnot. intros Ha Hb E.
  rewrite <- (Z.mod_add (Z.pred (- a)) 1), <- (Z.mod_add (Z.pred (- b)) 1) in E by lia.
  rewrite !Z.mod_small in E by lia. lia.
Qed.

Lemma u32_lnot_lnot z : is_uint 32 z -> u32 (Z.lnot (u32 (Z.lnot z))) = z.
Proof.
  unfold is_uint, u32, wrap, Z.lnot. intros Hz.
  rewrite <- (Z.mod_add (Z.pred (- z)) 1) by lia.
  rewrite (Z.mod_small (_ + _)) by lia. rewrite <- (Z.mod_add _ 1) by lia.
  rewrite Z.mod_small; lia.
Qed.

Lemma crc32c_range data seed : is_uint 32 (crc32c data seed).
Proof. apply u32_lnot_range. Qed.

(** Feeding a block in two runs, the second seeded with the first's result. *)
Lemma crc32c_app a b seed : is_bytes a -> crc32c b (crc32c a seed) = crc32c (a ++ b) seed.
Proof.
  intros Ha. unfold crc32c. rewrite u32_lnot_lnot.
  - by rewrite fold_left_app.
  - destruct (crc_fold_bitwise a (u32 (Z.lnot seed))) as [-> H]; auto using u32_lnot_range.
Qed.

(** ** Damage detection *)

(** Up to four bytes enter the state as one XOR before the shifts. *)
Lemma crc_fold_block d c :
  is_bytes d -> (length d <= 4)%nat -> is_uint 32 c ->
  fold_left crc_byte_bitwise d c = Nat.iter (8 * length d) crc_bit (Z.lxor c (le_value d)).
Proof.
  revert c. induction d as [| b d IH]; intros c Hd Hl Hc.
  - cbn [le_value]. by rewrite Z.lxor_0_r.
  - inversion Hd as [| ? ? Hb Hd']; subst. cbn [length] in Hl. rewrite fold_left_cons. cbn [length le_value].
    rewrite IH by (auto using crc_byte_range; lia). unfold crc_byte_bitwise.
    replace (8 * S (length d))%nat with (8 * length d + 8)%nat by lia.
    rewrite Nat.iter_add. f_equal.
    assert (E : b + 256 * le_value d = Z.lxor b (Z.shiftl (le_value d) 8)).
    { rewrite Z.shiftl_mul_pow2 by lia. rewrite <- Z.add_nocarry_lxor; [lia |].
      apply Z.bits_inj'. intros i Hi. rewrite Z.land_spec, Z.bits_0.
      rewrite <- Z.shiftl_mul_pow2 by lia.
      destruct (Z.lt_ge_cases i 8).
      - rewrite (Z.shiftl_spec_low _ 8 i) by lia. apply andb_false_r.
      - by rewrite (is_uint_testbit 8 b) by (done || lia). }
    rewrite E, <- Z.lxor_assoc, (iter_crc_lxor 8 (Z.lxor c b)). f_equal.
    rewrite (iter_crc_high 8 (Z.shiftl _ 8)).
    + change (Z.of_nat 8) with 8. rewrite Z.shiftr_shiftl_l by lia. by rewrite Z.shiftl_0_r.
    + intros i Hi. apply Z.shiftl_spec_low. lia.
Qed.

Lemma le_value_inj a b : is_bytes a -> is_bytes b -> length a = length b ->
  le_value a = le_value b -> a = b.
Proof.
  intros Ha Hb Hl E. rewrite <- (le_bytes_value a), <- (le_bytes_value b) by done. by rewrite Hl, E.
Qed.

Lemma le_value_u32 d : is_bytes d -> (length d <= 4)%nat -> is_uint 32 (le_value d).
Proof.
  intros Hd Hl. pose proof (le_value_range d Hd) as H. unfold is_uint. change (2 ^ 32) with (256 ^ 4).
  pose proof (Z.pow_le_mono_r 256 (zlen d) 4). unfold zlen in *. lia.
Qed.

Lemma crc_fold_inj data c c' : is_bytes data -> is_uint 32 c -> is_uint 32 c' ->
  fold_left crc_byte_bitwise data c = fold_left crc_byte_bitwise data c' -> c = c'.
Proof.
  intros Hd. revert c c'. induction Hd as [| b data Hb Hd IH]; intros c c' Hc Hc' E; [done |].
  rewrite !fold_left_cons in E. apply IH in E; auto using crc_byte_range.
  apply iter_crc_inj in E; [| apply is_uint_lxor; [lia | done | by apply (is_uint_mono 8)] ..].
  apply (f_equal (fun x => Z.lxor x b)) in E.
  by rewrite !Z.lxor_assoc, !Z.lxor_nilpotent, !Z.lxor_0_r in E.
Qed.

Lemma crc32c_burst pre d d' post seed :
  is_bytes pre -> is_bytes d -> is_bytes d' -> is_bytes post ->
  length d = length d' -> (length d <= 4)%nat -> d <> d' ->
  crc32c (pre ++ d ++ post) seed <> crc32c (pre ++ d' ++ post) seed.
Proof.
  intros Hp Hd Hd' Hq Hl H4 Hne E. apply Hne. unfold crc32c in E.
  set (c0 := u32 (Z.lnot seed)) in *.
  assert (H0 : is_uint 32 c0) by apply u32_lnot_range.
  assert (Hall : is_bytes (pre ++ d ++ post)) by (rewrite !is_bytes_app; done).
  assert (Hall' : is_bytes (pre ++ d' ++ post)) by (rewrite !is_bytes_app; done).
  destruct (crc_fold_bitwise _ c0 H0 Hall) as [E1 R1].
  destruct (crc_fold_bitwise _ c0 H0 Hall') as [E2 R2].
  rewrite E1, E2 in E. apply u32_lnot_inj in E; [| done ..].
  rewrite !fold_left_app in E. destruct (crc_fold_bitwise pre c0 H0 Hp) as [_ Rp].
  set (c1 := fold_left crc_byte_bitwise pre c0) in *.
  destruct (crc_fold_bitwise d c1 Rp Hd) as [_ Rd].
  destruct (crc_fold_bitwise d' c1 Rp Hd') as [_ Rd'].
  apply crc_fold_inj in E; [| done ..].
  rewrite !crc_fold_block, Hl in E by (done || lia).
  apply iter_crc_inj in E;
    [| apply is_uint_lxor; [lia | done | apply le_value_u32; [done | lia]] ..].
  apply le_value_inj; [done .. |].
  apply (f_equal (fun x => Z.lxor c1 x)) in E.
  by rewrite <- !Z.lxor_assoc, !Z.lxor_nilpotent, !Z.lxor_0_l in E.
Qed.

(** ** Records *)

Lemma record_crc_app hdr payload : is_bytes hdr -> record_crc hdr payload = crc32c (hdr ++ payload) 0.
Proof. intros. by apply crc32c_app. Qed.

Lemma record_decode_run b out :
  exists o, record_decode (Some b) (Some out) = Some (record_rc b, Some o) /\
    (record_rc b = -3 -> o = out).
Proof.
  unfold record_decode, record_rc.
  destruct (sample_decode_run (drop 14 b) out) as [o ->].
  repeat case_match; eexists; (split; [reflexivity | done]).
Qed.

(** The two parts of a record around the window [d]. *)
Lemma window_header (pre d post : bytes) :
  (length pre + length d <= 10)%nat ->
  take 10 (pre ++ d ++ post) = pre ++ d ++ take (10 - length pre - length d) post /\
  drop 10 (pre ++ d ++ post) = drop (10 - length pre - length d) post /\
  drop 14 (pre ++ d ++ post) = drop (14 - length pre - length d) post.
Proof.
  intros H. split_and!.
  - rewrite take_app_ge, take_app_ge by lia. done.
  - rewrite !drop_app_ge by lia. done.
  - rewrite !drop_app_ge by lia. done.
Qed.

Lemma window_payload (pre d post : bytes) :
  (14 <= length pre)%nat ->
  take 10 (pre ++ d ++ post) = take 10 pre /\
  take 4 (drop 10 (pre ++ d ++ post)) = take 4 (drop 10 pre) /\
  drop 14 (pre ++ d ++ post) = drop 14 pre ++ d ++ post.
Proof.
  intros H. split_and!.
  - by rewrite take_app_le by lia.
  - rewrite drop_app_le by lia. rewrite take_app_le; [done | rewrite length_drop; lia].
  - by rewrite drop_app_le by lia.
Qed.

Lemma window_crc (pre d post : bytes) :
  (10 <= length pre)%nat -> (length pre + length d <= 14)%nat ->
  take 10 (pre ++ d ++ post) = take 10 pre /\
  take 4 (drop 10 (pre ++ d ++ post)) =
    drop 10 pre ++ d ++ take (14 - length pre - length d) post /\
  drop 14 (pre ++ d ++ post) = drop (14 - length pre - length d) post.
Proof.
  intros H H'. split_and!.
  - by rewrite take_app_le by lia.
  - rewrite drop_app_le by lia. rewrite take_app_ge by (rewrite length_drop; lia).
    rewrite take_app_ge by (rewrite length_drop; lia). do 2 f_equal. rewrite length_drop. f_equal. lia.
  - rewrite !drop_app_ge by lia. done.
Qed.

(** The CRC and the stored value cannot both survive the damage. *)
Lemma damage_breaks_crc (pre d d' post : bytes) :
  is_bytes pre -> is_bytes d -> is_bytes d' -> is_bytes post ->
  length d = length d' -> (length d <= 4)%nat -> d <> d' ->
  (length pre + length d <= 10 \/ 10 <= length pre /\ length pre + length d <= 14 \/
   14 <= length pre)%nat ->
  record_crc (take 10 (pre ++ d ++ post)) (drop 14 (pre ++ d ++ post)) =
    le_get_u32 (drop 10 (pre ++ d ++ post)) ->
  record_crc (take 10 (pre ++ d' ++ post)) (drop 14 (pre ++ d' ++ post)) <>
    le_get_u32 (drop 10 (pre ++ d' ++ post)).
Proof.
  intros Hp Hd Hd' Hq Hl H4 Hne Hw E E'. unfold le_get_u32 in E, E'.
  destruct Hw as [Hw | [[Hw1 Hw2] | Hw]].
  - destruct (window_header pre d post Hw) as (A1 & A2 & A3).
    destruct (window_header pre d' post) as (B1 & B2 & B3); [lia |].
    rewrite A1, A2, A3 in E. rewrite B1, B2, B3, <- Hl, <- E in E'.
    rewrite !record_crc_app, <- !app_assoc in E'
      by (rewrite !is_bytes_app; eauto using is_bytes_take).
    revert E'. apply not_eq_sym, crc32c_burst; [done .. | | done | done | done].
    rewrite is_bytes_app. eauto using is_bytes_take, is_bytes_drop.
  - destruct (window_crc pre d post) as (A1 & A2 & A3); [lia .. |].
    destruct (window_crc pre d' post) as (B1 & B2 & B3); [lia .. |].
    rewrite A1, A2, A3 in E. rewrite B1, B2, B3, <- Hl, E in E'. apply Hne.
    apply le_value_inj in E'.
    + apply app_inv_head in E'. by apply app_inv_tail in E'.
    + rewrite !is_bytes_app. eauto using is_bytes_take, is_bytes_drop.
    + rewrite !is_bytes_app. eauto using is_bytes_take, is_bytes_drop.
    + rewrite !length_app. lia.
  - destruct (window_payload pre d post Hw) as (A1 & A2 & A3).
    destruct (window_payload pre d' post Hw) as (B1 & B2 & B3).
    rewrite A1, A2, A3 in E. rewrite B1, B2, B3, <- E in E'.
    rewrite !record_crc_app, !app_assoc in E' by eauto using is_bytes_take.
    rewrite <- !app_assoc in E'. rewrite !(app_assoc (take 10 pre)) in E'.
    revert E'. apply not_eq_sym, crc32c_burst; [| done ..].
    rewrite is_bytes_app. eauto using is_bytes_take, is_bytes_drop.
Qed.

Lemma record_encode_shape s cap :
  record_size_for_sample <= cap ->
  record_encode s false false cap =
  inr ((le_put_u64 (timestamp_nanos s) ++ [u8 (level s)] ++ [if folded s then kRecordFolded else 0])
    ++ le_put_u32 (record_crc (le_put_u64 (timestamp_nanos s) ++ [u8 (level s)] ++
                     [if folded s then kRecordFolded else 0]) (enc_version 9 s))
    ++ enc_version 9 s).
Proof.
  intros Hc. unfold record_encode. cbn [orb].
  destruct (cap <? _) eqn:E; bool_facts; [lia |]. unfold sample_encode. cbn [orb].
  unfold record_size_for_sample, sample_max_encoded_size in *.
  destruct (cap - kRecordHeaderSize <? kEncodedSizeV9) eqn:E2; bool_facts; [lia |].
  change (enc_head kVersionWrite ++ enc_stamp s ++ enc_v1 s ++ enc_v2 s ++ enc_v3 s ++
    enc_v4 s ++ enc_v5 s ++ enc_v6 s ++ enc_v7 s ++ enc_v8 s ++ enc_v9 s)
    with (enc_version 9 s).
  rewrite zlen_enc_version by lia. reflexivity.
Qed.

Lemma take10_record h c (p : bytes) : length h = 10%nat -> take 10 (h ++ c ++ p) = h.
Proof. intros. by rewrite take_app_length'. Qed.
Lemma drop10_record h c (p : bytes) : length h = 10%nat -> drop 10 (h ++ c ++ p) = c ++ p.
Proof. intros. by rewrite drop_app_length'. Qed.
Lemma drop14_record h c (p : bytes) :
  length h = 10%nat -> length c = 4%nat -> drop 14 (h ++ c ++ p) = p.
Proof. intros. rewrite app_assoc. rewrite drop_app_length'; [done |]. rewrite length_app. lia. Qed.

(** What the frame adds to the payload's round trip. *)
Lemma record_decode_encoded s out cap b :
  sample_ok s -> 1 <= level s <= kMaxLevelId ->
  record_encode s false false cap = inr b ->
  is_bytes b /\ zlen b = record_size_for_sample /\
  record_decode (Some b) (Some out) = Some (0, Some (set_baseline (baseline out) s)).
Proof.
  intros Hs Hl He.
  assert (Hcap : record_size_for_sample <= cap).
  { unfold record_encode in He. cbn [orb] in He. destruct (cap <? _) eqn:E; bool_facts; [done | lia]. }
  rewrite record_encode_shape in He by done. apply (inj inr) in He. subst b.
  set (flag := if folded s then kRecordFolded else 0).
  assert (Hlv : u8 (level s) = level s).
  { apply wrap_small. split; [lia |]. unfold kMaxLevelId, kFirstCustomLevel, kMaxCustomLevels in *. lia. }
  rewrite Hlv. set (hdr := le_put_u64 (timestamp_nanos s) ++ [level s] ++ [flag]).
  assert (Hh : length hdr = 10%nat) by (unfold hdr; rewrite length_app, length_le_put_u64; done).
  assert (Hhb : is_bytes hdr).
  { unfold hdr. rewrite !is_bytes_app. split_and!; [apply le_bytes_is_bytes | |].
    - constructor; [| constructor]. unfold kMaxLevelId, kFirstCustomLevel, kMaxCustomLevels in *.
      split; lia.
    - unfold flag. destruct (folded s); repeat constructor; done. }
  split_and!.
  - rewrite !is_bytes_app. split_and!; [done | apply le_bytes_is_bytes | apply enc_version_is_bytes].
  - rewrite !zlen_app, zlen_le_put_u32, zlen_enc_version by lia. unfold zlen. by rewrite Hh.
  - unfold record_decode. rewrite drop14_record, take10_record, drop10_record
      by (done || by rewrite length_le_put_u32).
    destruct (_ <=? kRecordHeaderSize) eqn:E; bool_facts.
    { rewrite !zlen_app, zlen_le_put_u32, zlen_enc_version in E by lia.
      unfold zlen in E at 1. rewrite Hh in E. vm_compute in E. by exfalso; apply E. }
    rewrite le_get_put_u32 by apply crc32c_range. rewrite Z.eqb_refl. cbn [negb].
    rewrite <- (app_nil_r (enc_version 9 s)) at 1.
    rewrite decode_enc_version by (done || lia). cbn [Z.eqb negb].
    unfold hdr. rewrite <- !app_assoc. rewrite le_get_put_u64 by (by unfold_sample_ok; split_hyps).
    unfold znth. rewrite !app_nth2, !length_le_put_u64 by (rewrite length_le_put_u64; lia).
    cbn [Z.to_nat Pos.to_nat]. simpl nth.
    destruct ((level s <? 1) || (kMaxLevelId <? level s)) eqn:E2;
      [apply orb_true_iff in E2; lia |].
    unfold flag. by destruct s as [? ? ? ? ? ? ? ? ? ? ? ? ? ? ? ? ? ? ? ? ? []].
Qed.

(** ** Theorems *)

(** the table-driven CRC-32C (one byte per step) computes the bitwise
    CRC-32C with the reflected Castagnoli polynomial, for every seed and every
    byte string; and running it over two blocks, the second seeded with the
    first's result, as record_encode() does around the CRC slot, is running it
    over their concatenation. *)
Theorem crc32c_is_bitwise a b seed :
  is_bytes a -> is_bytes b ->
  crc32c a seed = crc32c_bitwise a seed /\
  crc32c b (crc32c a seed) = crc32c_bitwise (a ++ b) seed.
Proof.
  intros Ha Hb.
  assert (H : forall d, is_bytes d -> crc32c d seed = crc32c_bitwise d seed).
  { intros d Hd. unfold crc32c, crc32c_bitwise.
    by rewrite (proj1 (crc_fold_bitwise d _ (u32_lnot_range seed) Hd)). }
  split; [auto |]. rewrite crc32c_app by done. apply H. by rewrite is_bytes_app.
Qed.

Lemma crc32c_is_bitwise_witness :
  crc32c (str "123456789") 0 = 0xE3069283 /\
  crc32c (str "6789") (crc32c (str "12345") 0) = crc32c_bitwise (str "123456789") 0.
Proof.
  split; [vm_compute; reflexivity |].
  apply (crc32c_is_bitwise (str "12345") (str "6789") 0);
    apply (bool_decide_unpack _); vm_compute; exact I.
Defined.

(** C7: a record written for a sample reads back as that sample: record_encode
    succeeds in any buffer of record_size_for_sample() bytes or more, writes
    exactly that many, and record_decode returns 0 with every stored member of
    the sample, the timestamp, level and folded flag of the frame included. *)
Theorem record_codec_roundtrip s out cap :
  sample_ok s -> 1 <= level s <= kMaxLevelId -> record_size_for_sample <= cap ->
  exists b, record_encode s false false cap = inr b /\
    is_bytes b /\ zlen b = record_size_for_sample /\
    record_decode (Some b) (Some out) = Some (0, Some (set_baseline (baseline out) s)).
Proof.
  intros Hs Hl Hc. eexists. split; [by apply record_encode_shape |].
  eapply record_decode_encoded; [done .. | by apply record_encode_shape].
Qed.

Lemma record_codec_roundtrip_witness :
  exists b, record_encode sample_ex false false 1024 = inr b /\
    is_bytes b /\ zlen b = 542 /\
    record_decode (Some b) (Some zero_Sample) = Some (0, Some sample_ex).
Proof.
  apply (record_codec_roundtrip sample_ex zero_Sample 1024 sample_ex_ok);
    vm_compute; intuition discriminate.
Defined.

(** record_decode never reads outside the record and its verdict is a
    function of the record's bytes: -2 for no payload, -3 when the CRC does not
    match, -4 when the payload does not decode, -5 for a level byte out of range,
    0 otherwise; on a CRC mismatch [*out] is untouched. *)
Theorem record_decode_total b out :
  exists o, record_decode (Some b) (Some out) = Some (record_rc b, Some o) /\
    (record_rc b = -3 -> o = out).
Proof. apply record_decode_run. Qed.

(** C8: damage detection.  If a record decodes, then the same record with
    up to four consecutive bytes changed, anywhere in the part before the CRC,
    in the CRC or in the payload, is refused with -3 and leaves [*out] alone. *)
Theorem record_damage_detected pre d d' post out s :
  is_bytes (pre ++ d ++ post) -> is_bytes d' -> d <> d' -> zlen d' = zlen d ->
  zlen d <= 4 ->
  zlen pre + zlen d <= 10 \/ 10 <= zlen pre /\ zlen pre + zlen d <= 14 \/ 14 <= zlen pre ->
  record_decode (Some (pre ++ d ++ post)) (Some out) = Some (0, Some s) ->
  record_decode (Some (pre ++ d' ++ post)) (Some out) = Some (-3, Some out).
Proof.
  unfold zlen. intros Hb Hd' Hne Hl H4 Hw E. rewrite !is_bytes_app in Hb. destruct Hb as (Hp & Hd & Hq).
  destruct (record_decode_run (pre ++ d ++ post) out) as (o1 & E1 & _).
  destruct (record_decode_run (pre ++ d' ++ post) out) as (o2 & E2 & Ho).
  rewrite E1 in E. injection E as E _. rewrite E2.
  assert (Hrc : record_rc (pre ++ d' ++ post) = -3); [| rewrite Hrc in *; by rewrite Ho].
  unfold record_rc in *.
  replace (zlen (pre ++ d' ++ post)) with (zlen (pre ++ d ++ post))
    by (unfold zlen; rewrite !length_app; lia).
  destruct (zlen (pre ++ d ++ post) <=? kRecordHeaderSize); [done |].
  destruct (record_crc (take 10 (pre ++ d ++ post)) _ =? _) eqn:Ec; [| done]. bool_facts.
  destruct (record_crc (take 10 (pre ++ d' ++ post)) _ =? _) eqn:Ec'; [| done]. bool_facts.
  exfalso. revert Ec'. apply (damage_breaks_crc pre d d' post); try done; lia.
Qed.

Lemma record_damage_detected_witness :
  exists b, record_encode sample_ex false false 1024 = inr b /\
    record_decode (Some (take 20 b ++ [9; 9; 9] ++ drop 23 b)) (Some zero_Sample) =
      Some (-3, Some zero_Sample).
Proof.
  eexists. split; [vm_compute; reflexivity |].
  match goal with |- record_decode (Some (take 20 ?l ++ _ ++ drop 23 ?l)) _ = _ =>
    apply (record_damage_detected (take 20 l) (take 3 (drop 20 l)) [9; 9; 9] (drop 23 l)
             zero_Sample sample_ex) end.
  - apply (bool_decide_unpack _). vm_compute. exact I.
  - apply (bool_decide_unpack _). vm_compute. exact I.
  - vm_compute. discriminate.
  - reflexivity.
  - vm_compute. discriminate.
  - right. right. vm_compute. discriminate.
  - vm_compute. reflexivity.
Defined.
