(* ===== verification/RingFile.v ===== *)
(** The on-disk ring buffer (src/storage/ring_file.h, src/storage/ring_file.cpp).
    The file is its bytes; what the operating system answers to each call the
    code makes (open, fstat, ftruncate, pread, pwrite, mmap) is an argument, so
    every error branch is a branch of the model.  The mapped header is the
    file's own first 64 bytes.  The refinement is to a log: the sequence of all
    records ever appended, of which the file holds the newest [capacity]. *)
From Stdlib Require Import ZArith Lia List.
From stdpp Require Import base numbers list strings.
From S2P Require Import Prelude Endian.
Open Scope Z_scope.

Definition kCustomRingTier : Z := 0x80.
Definition kHeaderSize : Z := 64.
Definition kFormatVersion : Z := 1.
Definition kMagicBytes : bytes := str "BDYKRB" ++ [0; 1].
Definition kWriteIdxOffset : Z := 28.
Definition ENOSPC : Z := 28.
Definition ENOENT : Z := 2.

(** ** The operating system's answers *)

Inductive wr_result := WrOk (n : Z) | WrErr (err : Z).

(** [None] / [false]: the call succeeds. *)
Record OpenSys := mkOpenSys {
  sys_open : option Z;
  sys_fstat : option Z;
  sys_ftruncate : option Z;
  sys_pread_fails : bool;
  sys_pwrite : wr_result;
  sys_undo_truncate : option Z;
  sys_mmap : option Z
}.
Definition sys_ok : OpenSys := mkOpenSys None None None false (WrOk kHeaderSize) None None.

(** The bytes of a file after a pwrite of [data] at [off] that wrote [n] of them. *)
Definition file_pwrite (f : bytes) (off : Z) (data : bytes) (res : wr_result) : bytes :=
  match res with
  | WrOk n => splice off (ztake n data) f
  | WrErr _ => f
  end.

(** ** State *)

(** [fd_] is whether the descriptor is open; [mmap_base_] whether the header is
    mapped.  [reads_], a counter for the tests, is left out. *)
Record RingFile := mkRingFile {
  fd_ : bool;
  read_only_ : bool;
  tier_ : Z;
  last_errno_ : Z;
  mmap_base_ : bool;
  record_size_ : Z;
  capacity_ : Z;
  widx_ : Z;
  begun_ : Z
}.
Definition new_RingFile : RingFile := mkRingFile false false 0 0 false 0 0 0 0.

Definition set_last_errno (e : Z) (r : RingFile) : RingFile :=
  mkRingFile (fd_ r) (read_only_ r) (tier_ r) e (mmap_base_ r) (record_size_ r) (capacity_ r)
    (widx_ r) (begun_ r).
Definition set_widx (w : Z) (r : RingFile) : RingFile :=
  mkRingFile (fd_ r) (read_only_ r) (tier_ r) (last_errno_ r) (mmap_base_ r) (record_size_ r)
    (capacity_ r) w (begun_ r).
Definition set_begun (b : Z) (r : RingFile) : RingFile :=
  mkRingFile (fd_ r) (read_only_ r) (tier_ r) (last_errno_ r) (mmap_base_ r) (record_size_ r)
    (capacity_ r) (widx_ r) b.

(** Fields of a header. *)
Definition hdr_magic (f : bytes) : bytes := slice 0 8 f.
Definition hdr_version (f : bytes) : Z := le_get_u32 (slice 8 4 f).
Definition hdr_tier (f : bytes) : Z := znth 0 (slice 12 1 f) 0.
Definition hdr_record_size (f : bytes) : Z := le_get_u32 (slice 16 4 f).
Definition hdr_capacity (f : bytes) : Z := le_get_u64 (slice 20 8 f).
Definition hdr_write_idx (f : bytes) : Z := le_get_u64 (slice kWriteIdxOffset 8 f).

Definition header_is_blank (f : bytes) (pread_fails : bool) : bool :=
  if pread_fails || (zlen f <? kHeaderSize) then false
  else forallb (fun b => b =? 0) (ztake kHeaderSize f).

(** The 64 bytes a new ring starts with. *)
Definition new_header (tier record_size capacity : Z) : bytes :=
  kMagicBytes ++ le_put_u32 kFormatVersion ++ [u8 tier] ++ replicate 3 0 ++
  le_put_u32 record_size ++ le_put_u64 capacity ++ le_put_u64 0 ++ replicate 28 0.

(** ** open *)

(** [file]: the file at the path, [None] when there is none; the result is the
    return code, the object and the file. *)
Definition open_impl (sys : OpenSys) (file : option bytes) (r : RingFile)
    (tier record_size capacity : Z) (read_only : bool) : Z * RingFile * option bytes :=
  let r := set_last_errno 0 r in
  let fail (rc err : Z) (file : option bytes) := (rc, set_last_errno err r, file) in
  if fd_ r then fail (-1) 0 file
  else if (record_size =? 0) || (capacity =? 0) then fail (-2) 0 file
  else
    let file_bytes := u64 (kHeaderSize + u64 (record_size * capacity)) in
    match (match sys_open sys, file with
           | Some e, _ => inl e
           | None, Some f => inr f
           | None, None => if read_only then inl ENOENT else inr []
           end) with
    | inl e => fail (-3) e file
    | inr f =>
    match sys_fstat sys with
    | Some e => fail (-4) e (Some f)
    | None =>
    let empty := zlen f =? 0 in
    if empty && read_only then fail (-6) 0 (Some f)
    else
    match (if empty then sys_ftruncate sys else None) with
    | Some e => fail (-5) e (Some f)
    | None =>
    if negb empty && negb (zlen f =? file_bytes) then fail (-6) 0 (Some f)
    else
    let f := if empty then replicate (Z.to_nat file_bytes) 0 else f in
    let fresh := empty || (negb read_only && header_is_blank f (sys_pread_fails sys)) in
    let hdr := new_header tier record_size capacity in
    let written := if fresh then file_pwrite f 0 hdr (sys_pwrite sys) else f in
    match (if fresh then
             match sys_pwrite sys with
             | WrErr e => Some e
             | WrOk n => if n =? kHeaderSize then None else Some ENOSPC
             end
           else None) with
    | Some e =>
        fail (-14) e (Some (match sys_undo_truncate sys with None => [] | Some _ => written end))
    | None =>
    let f := written in
    match sys_mmap sys with
    | Some e => fail (-7) e (Some f)
    | None =>
    if negb fresh && negb (bool_decide (hdr_magic f = kMagicBytes)) then fail (-8) 0 (Some f)
    else if negb fresh && negb (hdr_version f =? kFormatVersion) then fail (-9) 0 (Some f)
    else if negb fresh && negb (hdr_tier f =? tier) then fail (-10) 0 (Some f)
    else if negb fresh && negb (hdr_record_size f =? record_size) then fail (-11) 0 (Some f)
    else if negb fresh && negb (hdr_capacity f =? capacity) then fail (-12) 0 (Some f)
    else
      (0, mkRingFile true read_only tier (last_errno_ r) true record_size capacity
            (hdr_write_idx f) (hdr_write_idx f), Some f)
    end end end end end.

Definition open (sys : OpenSys) (file : option bytes) (r : RingFile)
    (tier record_size capacity : Z) : Z * RingFile * option bytes :=
  open_impl sys file r tier record_size capacity false.
Definition open_read_only (sys : OpenSys) (file : option bytes) (r : RingFile)
    (tier record_size capacity : Z) : Z * RingFile * option bytes :=
  open_impl sys file r tier record_size capacity true.

(** ** read_header *)

Record Header := mkHeader { h_tier : Z; h_record_size : Z; h_capacity : Z; h_write_idx : Z }.
Definition zero_Header : Header := mkHeader 0 0 0 0.

(** [null]: a null [path] or [out]; the result is the code, [*err] and [*out]. *)
Definition read_header (sys : OpenSys) (null : bool) (file : option bytes) (out : Header)
    : Z * Z * Header :=
  if null then (-2, 0, out)
  else match (match sys_open sys with Some e => inl e
              | None => match file with None => inl ENOENT | Some f => inr f end end) with
  | inl e => (-3, e, out)
  | inr f =>
  match sys_fstat sys with
  | Some e => (-4, e, out)
  | None =>
  if zlen f =? 0 then (-15, 0, out)
  else if (zlen f <? kHeaderSize) || sys_pread_fails sys then (-13, 0, out)
  else if forallb (fun b => b =? 0) (ztake kHeaderSize f) then (-16, 0, out)
  else if negb (bool_decide (hdr_magic f = kMagicBytes)) then (-8, 0, out)
  else if negb (hdr_version f =? kFormatVersion) then (-9, 0, out)
  else
    let h := mkHeader (hdr_tier f) (hdr_record_size f) (hdr_capacity f) (hdr_write_idx f) in
    if (h_record_size h =? 0) || (h_capacity h =? 0) ||
       ((zlen f - kHeaderSize) / h_record_size h <? h_capacity h) ||
       negb (zlen f =? u64 (kHeaderSize + u64 (h_record_size h * h_capacity h)))
    then (-6, 0, h)
    else (0, 0, h)
  end end.

(** ** The other operations *)

Definition close (r : RingFile) : RingFile :=
  mkRingFile false false 0 (last_errno_ r) false 0 0 0 0.

Definition slot_offset (rsize slot : Z) : Z := kHeaderSize + slot * rsize.

(** append() as its memory effects in order, so that a crash or a reader between
    two of them can be stated: the announcement, the record, the header's index,
    the index the threads of this process read. *)
Definition append_begin (r : RingFile) : RingFile := set_begun (u64 (widx_ r + 1)) r.
Definition append_pwrite (res : wr_result) (record : bytes) (r : RingFile) (f : bytes) : bytes :=
  file_pwrite f (slot_offset (record_size_ r) (widx_ r mod capacity_ r)) record res.
Definition store_header_index (idx : Z) (f : bytes) : bytes :=
  splice kWriteIdxOffset (le_put_u64 idx) f.

(** [record = None] is a null pointer. *)
Definition append (res : wr_result) (record : option bytes) (r : RingFile) (f : bytes)
    : Z * RingFile * bytes :=
  match record with
  | None => (-1, r, f)
  | Some rec =>
  if negb (fd_ r) || read_only_ r then (-1, r, f)
  else if negb (zlen rec =? record_size_ r) then (-2, r, f)
  else
    let idx := widx_ r in
    let r1 := append_begin r in
    let f1 := append_pwrite res rec r f in
    match res with
    | WrOk n =>
        if n =? record_size_ r then
          (0, set_widx (u64 (idx + 1)) r1, store_header_index (u64 (idx + 1)) f1)
        else (-3, set_begun idx (set_last_errno ENOSPC r1), f1)
    | WrErr e => (-3, set_begun idx (set_last_errno e r1), f1)
    end
  end.

(** [io_fails off]: the pread at file offset [off] fails. *)
Definition read_at (io_fails : Z -> bool) (r : RingFile) (f : bytes) (index : Z)
    (out_null : bool) (len : Z) : Z + bytes :=
  if negb (fd_ r) || out_null then inl (-1)
  else if negb (len =? record_size_ r) then inl (-2)
  else if capacity_ r <=? index then inl (-3)
  else
    let off := slot_offset (record_size_ r) index in
    if io_fails off || (zlen f <? off + record_size_ r) then inl (-4)
    else inr (slice off (record_size_ r) f).

Definition advance_write_index (n : Z) (r : RingFile) (f : bytes) : Z * RingFile * bytes :=
  if negb (fd_ r) || read_only_ r then (-1, r, f)
  else
    let idx := u64 (widx_ r + n) in
    (0, set_widx idx (set_begun idx r), store_header_index idx f).

Definition write_index (r : RingFile) (f : bytes) : Z :=
  if negb (fd_ r) then 0
  else if read_only_ r then hdr_write_idx f
  else widx_ r.

Definition write_begun (r : RingFile) (f : bytes) : Z :=
  if negb (fd_ r) then 0
  else if read_only_ r then write_index r f
  else begun_ r.

Definition count (r : RingFile) (f : bytes) : Z :=
  let idx := write_index r f in
  if idx <? capacity_ r then idx else capacity_ r.

(** [const char* RingFile::describe(int rc)] *)
Definition describe (rc : Z) : string :=
  if rc =? 0 then "ok"
  else if rc =? -1 then "already open"
  else if rc =? -2 then "record size or capacity is zero"
  else if rc =? -3 then "open failed"
  else if rc =? -4 then "fstat failed"
  else if rc =? -5 then "ftruncate failed"
  else if rc =? -6 then "file size does not match record size x capacity"
  else if rc =? -7 then "mmap failed"
  else if rc =? -8 then "not a budyk ring file (bad magic)"
  else if rc =? -9 then "ring format version mismatch"
  else if rc =? -10 then "ring was written for another tier"
  else if rc =? -11 then "record size in the header differs"
  else if rc =? -12 then "capacity in the header differs"
  else if rc =? -13 then "file is shorter than a ring header"
  else if rc =? -14 then "writing the header failed"
  else if rc =? -15 then "empty file"
  else if rc =? -16 then "blank header (all zero bytes)"
  else "unknown error".

(** ** The invariant and the log *)

(** A ring file of [rs]-byte records for [tier], [cap] slots, [w] records counted. *)
Record file_ok (tier rs cap w : Z) (f : bytes) : Prop := mkFileOk {
  fo_rs : 0 < rs < 2 ^ 32;
  fo_cap : 0 < cap < 2 ^ 64;
  fo_tier : is_uint 8 tier;
  fo_widx : is_uint 64 w;
  fo_len : zlen f = kHeaderSize + rs * cap;
  fo_size : kHeaderSize + rs * cap < 2 ^ 63;
  fo_bytes : is_bytes f;
  fo_magic : hdr_magic f = kMagicBytes;
  fo_version : hdr_version f = kFormatVersion;
  fo_htier : hdr_tier f = tier;
  fo_hrs : hdr_record_size f = rs;
  fo_hcap : hdr_capacity f = cap;
  fo_hwidx : hdr_write_idx f = w
}.

(** The object open on such a file, between two operations. *)
Definition ring_ok (r : RingFile) (f : bytes) : Prop :=
  fd_ r = true /\ mmap_base_ r = true /\ begun_ r = widx_ r /\
  file_ok (tier_ r) (record_size_ r) (capacity_ r) (widx_ r) f.

(** The record in the slot of logical index [i]. *)
Definition record_in_slot (rs cap : Z) (f : bytes) (i : Z) : bytes :=
  slice (slot_offset rs (i mod cap)) rs f.

(** [log]: every record ever counted, oldest first; the file holds those from
    logical index [lo] on, each in slot [i mod cap]. *)
Definition holds_from (rs cap : Z) (f : bytes) (log : list bytes) (lo : Z) : Prop :=
  Forall (fun rec => zlen rec = rs /\ is_bytes rec) log /\
  forall i rec, log !! Z.to_nat i = Some rec -> 0 <= i -> lo <= i ->
    record_in_slot rs cap f i = rec.

(** The file holds the newest [capacity - lost] records of [log]: [lost] is 0
    but after a write that failed in a full ring. *)
Definition ring_log_but (lost : Z) (r : RingFile) (f : bytes) (log : list bytes) : Prop :=
  ring_ok r f /\ widx_ r = zlen log /\
  holds_from (record_size_ r) (capacity_ r) f log (zlen log - capacity_ r + lost).

Definition ring_log (r : RingFile) (f : bytes) (log : list bytes) : Prop := ring_log_but 0 r f log.

(** ** Layout lemmas *)

Lemma slot_offset_range rs cap slot :
  0 < rs -> 0 <= slot < cap ->
  kHeaderSize <= slot_offset rs slot /\ slot_offset rs slot + rs <= kHeaderSize + rs * cap.
Proof. unfold slot_offset, kHeaderSize. nia. Qed.

Lemma slot_offset_apart rs i j :
  0 < rs -> 0 <= i -> 0 <= j -> i <> j ->
  slot_offset rs i + rs <= slot_offset rs j \/ slot_offset rs j + rs <= slot_offset rs i.
Proof. unfold slot_offset, kHeaderSize. intros. destruct (Z.lt_total i j) as [|[|]]; nia. Qed.

Lemma mod_slot_range i cap : 0 < cap -> 0 <= i mod cap < cap.
Proof. intros. by apply Z.mod_pos_bound. Qed.

(** Logical indices less than [cap] apart share no slot. *)
Lemma mod_slot_inj cap i j :
  0 < cap -> i < j -> j < i + cap -> i mod cap <> j mod cap.
Proof.
  intros Hc Hij Hd E.
  assert (Hdiv : (j - i) mod cap = 0).
  { rewrite Zminus_mod, E, Z.sub_diag. apply Z.mod_0_l. lia. }
  rewrite Z.mod_small in Hdiv by lia. lia.
Qed.

(** The header fields other than the index. *)
Lemma hdr_same f f' :
  (forall off n, 0 <= off -> 0 <= n -> off + n <= 28 -> slice off n f' = slice off n f) ->
  hdr_magic f' = hdr_magic f /\ hdr_version f' = hdr_version f /\ hdr_tier f' = hdr_tier f /\
  hdr_record_size f' = hdr_record_size f /\ hdr_capacity f' = hdr_capacity f.
Proof.
  intros H. unfold hdr_magic, hdr_version, hdr_tier, hdr_record_size, hdr_capacity.
  rewrite !H by lia. done.
Qed.

Lemma file_ok_write_slot tier rs cap w f slot d :
  file_ok tier rs cap w f -> 0 <= slot < cap -> zlen d <= rs -> is_bytes d ->
  file_ok tier rs cap w (splice (slot_offset rs slot) d f).
Proof.
  intros Hf Hs Hd Hb. pose proof (zlen_nonneg d). destruct Hf.
  destruct (slot_offset_range rs cap slot) as [H1 H2]; [lia .. |].
  unfold kHeaderSize in *.
  destruct (hdr_same f (splice (slot_offset rs slot) d f)) as (E1 & E2 & E3 & E4 & E5).
  { intros. apply slice_splice_before; lia. }
  split; rewrite ?E1, ?E2, ?E3, ?E4, ?E5; try done.
  - rewrite zlen_splice; unfold kHeaderSize; lia.
  - eauto with budyk.
  - unfold hdr_write_idx, kWriteIdxOffset in *. rewrite slice_splice_before by lia. done.
Qed.

Lemma store_header_index_slice idx f off n :
  kHeaderSize <= zlen f -> 0 <= off -> 0 <= n -> off + n <= 28 \/ 36 <= off ->
  slice off n (store_header_index idx f) = slice off n f.
Proof.
  intros. unfold store_header_index, kWriteIdxOffset, kHeaderSize in *.
  pose proof (zlen_le_put_u64 idx). destruct H2.
  - apply slice_splice_before; lia.
  - apply slice_splice_after; lia.
Qed.

Lemma file_ok_store_index tier rs cap w f w' :
  file_ok tier rs cap w f -> is_uint 64 w' -> file_ok tier rs cap w' (store_header_index w' f).
Proof.
  intros Hf Hw. destruct Hf. pose proof (zlen_le_put_u64 w').
  assert (Hl : kHeaderSize <= zlen f) by (unfold kHeaderSize in *; nia).
  destruct (hdr_same f (store_header_index w' f)) as (E1 & E2 & E3 & E4 & E5).
  { intros. apply store_header_index_slice; lia. }
  unfold kHeaderSize in *.
  split; rewrite ?E1, ?E2, ?E3, ?E4, ?E5; try done.
  - unfold store_header_index. rewrite zlen_splice; unfold kWriteIdxOffset, kHeaderSize; lia.
  - unfold store_header_index. eauto with budyk.
  - unfold hdr_write_idx, store_header_index, kWriteIdxOffset.
    rewrite slice_splice_within by lia. rewrite Z.sub_diag.
    rewrite <- (app_nil_r (le_put_u64 w')), slice_app_l by lia.
    rewrite <- (app_nil_r (le_put_u64 w')). by apply le_get_put_u64.
Qed.

Lemma record_in_slot_store_index rs cap idx f i :
  0 < rs -> 0 < cap -> kHeaderSize <= zlen f ->
  record_in_slot rs cap (store_header_index idx f) i = record_in_slot rs cap f i.
Proof.
  intros. pose proof (mod_slot_range i cap ltac:(lia)).
  apply store_header_index_slice; [done | | lia |]; unfold slot_offset, kHeaderSize; nia.
Qed.

Lemma record_in_slot_write_other rs cap f i j d :
  0 < rs -> 0 < cap -> zlen f = kHeaderSize + rs * cap -> zlen d <= rs ->
  i mod cap <> j mod cap ->
  record_in_slot rs cap (splice (slot_offset rs (j mod cap)) d f) i = record_in_slot rs cap f i.
Proof.
  intros Hrs Hc Hl Hd Hne. pose proof (zlen_nonneg d).
  pose proof (mod_slot_range i cap Hc) as Hi. pose proof (mod_slot_range j cap Hc) as Hj.
  destruct (slot_offset_range rs cap (i mod cap) Hrs Hi) as [Hi1 Hi2].
  destruct (slot_offset_range rs cap (j mod cap) Hrs Hj) as [Hj1 Hj2].
  unfold kHeaderSize in *. unfold record_in_slot.
  destruct (slot_offset_apart rs (i mod cap) (j mod cap)) as [Ha | Ha]; [lia .. | |].
  - apply slice_splice_before; lia.
  - apply slice_splice_after; lia.
Qed.

Lemma record_in_slot_write rs cap f j d :
  0 < rs -> 0 < cap -> zlen f = kHeaderSize + rs * cap -> zlen d = rs ->
  record_in_slot rs cap (splice (slot_offset rs (j mod cap)) d f) j = d.
Proof.
  intros Hrs Hc Hl Hd. pose proof (mod_slot_range j cap Hc) as Hj.
  destruct (slot_offset_range rs cap (j mod cap) Hrs Hj). unfold kHeaderSize in *.
  unfold record_in_slot. rewrite <- Hd at 2. apply slice_splice_same; lia.
Qed.

(** ** append *)

Lemma ztake_all {A} n (l : list A) : zlen l <= n -> ztake n l = l.
Proof. unfold zlen, ztake. intros. apply take_ge. lia. Qed.

(** The step the writer makes on the log. *)
Lemma holds_from_append rs cap f log rec lo :
  0 < rs -> 0 < cap -> zlen f = kHeaderSize + rs * cap -> zlen rec = rs -> is_bytes rec ->
  zlen log + 1 - cap <= lo -> holds_from rs cap f log lo ->
  holds_from rs cap (splice (slot_offset rs (zlen log mod cap)) rec f) (log ++ [rec]) lo.
Proof.
  intros Hrs Hc Hl Hr Hb Hlo [Hall Hslots]. split; [apply Forall_app; auto |].
  intros i rec' Hi H0 Hge.
  apply lookup_app_Some in Hi as [Hi | [Hle Hi]].
  - pose proof (lookup_lt_Some _ _ _ Hi).
    rewrite record_in_slot_write_other; [apply Hslots; (done || lia) | done .. | lia |].
    apply mod_slot_inj; unfold zlen in *; lia.
  - apply list_lookup_singleton_Some in Hi as [Hi <-].
    replace i with (zlen log) by (unfold zlen in *; lia). by apply record_in_slot_write.
Qed.

(** Whatever reaches the slot of the next record, the others stay. *)
Lemma holds_from_overwrite rs cap f log d lo :
  0 < rs -> 0 < cap -> zlen f = kHeaderSize + rs * cap -> zlen d <= rs ->
  zlen log + 1 - cap <= lo -> holds_from rs cap f log lo ->
  holds_from rs cap (splice (slot_offset rs (zlen log mod cap)) d f) log lo.
Proof.
  intros Hrs Hc Hl Hd Hlo [Hall Hslots]. split; [done |]. intros i rec Hi H0 Hge.
  pose proof (lookup_lt_Some _ _ _ Hi).
  rewrite record_in_slot_write_other; [apply Hslots; (done || lia) | done .. |].
  apply mod_slot_inj; unfold zlen in *; lia.
Qed.

Lemma holds_from_mono rs cap f log lo lo' :
  lo <= lo' -> holds_from rs cap f log lo -> holds_from rs cap f log lo'.
Proof. intros Hlo [Hall Hslots]. split; [done |]. intros. apply Hslots; (done || lia). Qed.

Lemma holds_from_store_index rs cap f log idx lo :
  0 < rs -> 0 < cap -> kHeaderSize <= zlen f ->
  holds_from rs cap f log lo -> holds_from rs cap (store_header_index idx f) log lo.
Proof.
  intros Hrs Hc Hl [Hall Hslots]. split; [done |]. intros.
  rewrite record_in_slot_store_index by done. by apply Hslots.
Qed.

Lemma append_log lost r f log rec :
  lost <= 1 -> ring_log_but lost r f log -> read_only_ r = false ->
  zlen rec = record_size_ r -> is_bytes rec -> zlen log + 1 < 2 ^ 64 ->
  exists r' f', append (WrOk (record_size_ r)) (Some rec) r f = (0, r', f') /\
    ring_log r' f' (log ++ [rec]) /\ read_only_ r' = false /\
    record_size_ r' = record_size_ r /\ capacity_ r' = capacity_ r /\ tier_ r' = tier_ r.
Proof.
  intros Hlost [(Hfd & Hmm & Hbg & Hf) [Hw Hlog]] Hro Hr Hb Hmax. pose proof Hf as Hf'. destruct Hf'.
  pose proof (mod_slot_range (widx_ r) (capacity_ r) ltac:(lia)) as Hslot.
  pose proof (zlen_nonneg log).
  unfold append. rewrite Hfd, Hro, Hr, !Z.eqb_refl. cbn [negb orb].
  eexists _, _. split; [reflexivity |].
  assert (Hu : u64 (widx_ r + 1) = widx_ r + 1) by (apply wrap_small; split; lia).
  rewrite Hu. unfold append_pwrite, file_pwrite. rewrite ztake_all by lia.
  assert (Hf2 : file_ok (tier_ r) (record_size_ r) (capacity_ r) (widx_ r)
     (splice (slot_offset (record_size_ r) (widx_ r mod capacity_ r)) rec f))
    by (apply file_ok_write_slot; (done || lia)).
  split; [| done]. split; [| split]; simpl.
  - split_and!; [done .. |]. apply (file_ok_store_index _ _ _ (widx_ r)); [done | split; lia].
  - rewrite zlen_app, Hw. done.
  - destruct Hf2. apply holds_from_store_index; [lia .. | unfold kHeaderSize in *; nia |].
    rewrite Hw. apply holds_from_append; try (done || lia).
    + rewrite zlen_app. change (zlen [rec]) with 1. lia.
    + eapply holds_from_mono; [| done]. rewrite zlen_app. change (zlen [rec]) with 1. lia.
Qed.

(** A write that fails, or that wrote part of the record, moves no index. *)
Definition wr_full (res : wr_result) (n : Z) : bool :=
  match res with WrOk k => k =? n | WrErr _ => false end.

Lemma append_failed lost res r f log rec :
  lost <= 1 -> ring_log_but lost r f log -> read_only_ r = false ->
  zlen rec = record_size_ r -> is_bytes rec -> wr_full res (record_size_ r) = false ->
  exists r' f', append res (Some rec) r f = (-3, r', f') /\
    ring_log_but 1 r' f' log /\ read_only_ r' = false /\
    record_size_ r' = record_size_ r /\ capacity_ r' = capacity_ r /\ tier_ r' = tier_ r.
Proof.
  intros Hlost [(Hfd & Hmm & Hbg & Hf) [Hw Hlog]] Hro Hr Hb Hfull. pose proof Hf as Hf'. destruct Hf'.
  pose proof (mod_slot_range (widx_ r) (capacity_ r) ltac:(lia)) as Hslot.
  assert (Hkeep : forall d, zlen d <= record_size_ r -> is_bytes d ->
    file_ok (tier_ r) (record_size_ r) (capacity_ r) (widx_ r)
      (splice (slot_offset (record_size_ r) (widx_ r mod capacity_ r)) d f) /\
    holds_from (record_size_ r) (capacity_ r)
      (splice (slot_offset (record_size_ r) (widx_ r mod capacity_ r)) d f) log
      (zlen log - capacity_ r + 1)).
  { intros d Hd Hdb. split; [by apply file_ok_write_slot |]. rewrite Hw.
    apply holds_from_overwrite; try (done || lia). eapply holds_from_mono; [| done]. lia. }
  unfold append. rewrite Hfd, Hro, Hr, Z.eqb_refl. cbn [negb orb].
  destruct res as [n | e]; simpl in Hfull; rewrite ?Hfull.
  - destruct (Hkeep (ztake n rec)) as [H1 H2];
      [unfold ztake, zlen; rewrite length_take; unfold zlen in Hr; lia | by apply is_bytes_take |].
    eexists _, _. split; [reflexivity |]. done.
  - eexists _, _. split; [reflexivity |]. split; [| done]. split; [done |]. split; [done |].
    eapply holds_from_mono; [| done]. simpl. lia.
Qed.

(** ** Reading back *)

Lemma read_at_log lost r f log i rec io :
  ring_log_but lost r f log -> 0 <= lost -> log !! Z.to_nat i = Some rec ->
  0 <= i -> zlen log - capacity_ r + lost <= i ->
  io (slot_offset (record_size_ r) (i mod capacity_ r)) = false ->
  read_at io r f (i mod capacity_ r) false (record_size_ r) = inr rec.
Proof.
  intros [(Hfd & Hmm & Hbg & Hf) [Hw [Hall Hslots]]] Hlost Hi H0 Hge Hio. destruct Hf.
  pose proof (mod_slot_range i (capacity_ r) ltac:(lia)) as Hslot.
  destruct (slot_offset_range (record_size_ r) (capacity_ r) (i mod capacity_ r)) as [H1 H2]; [lia .. |].
  unfold read_at. rewrite Hfd, Z.eqb_refl, Hio. cbn [negb orb].
  destruct (capacity_ r <=? i mod capacity_ r) eqn:E; bool_facts; [lia |].
  destruct (zlen f <? _) eqn:E2; bool_facts; [lia |].
  f_equal. by apply Hslots.
Qed.

(** ** open *)

(** What [open] may be asked for: sizes that fit the file offsets. *)
Definition ring_params (tier rs cap : Z) : Prop :=
  is_uint 8 tier /\ 0 < rs < 2 ^ 32 /\ 0 < cap < 2 ^ 64 /\ kHeaderSize + rs * cap < 2 ^ 63.

Lemma zlen_new_header tier rs cap : zlen (new_header tier rs cap) = kHeaderSize.
Proof. reflexivity. Qed.

Lemma new_header_is_bytes tier rs cap : is_bytes (new_header tier rs cap).
Proof.
  unfold new_header. rewrite !is_bytes_app. split_and!;
    try apply le_bytes_is_bytes; try (by apply is_bytes_replicate).
  - by apply (bool_decide_unpack _).
  - constructor; [by apply wrap_range | constructor].
Qed.

Lemma le_get_put_u32' v : is_uint 32 v -> le_get_u32 (le_put_u32 v) = v.
Proof. intros. rewrite <- (app_nil_r (le_put_u32 v)). by apply le_get_put_u32. Qed.
Lemma le_get_put_u64' v : is_uint 64 v -> le_get_u64 (le_put_u64 v) = v.
Proof. intros. rewrite <- (app_nil_r (le_put_u64 v)). by apply le_get_put_u64. Qed.

Lemma new_file_ok tier rs cap f :
  ring_params tier rs cap -> zlen f = kHeaderSize + rs * cap -> is_bytes f ->
  file_ok tier rs cap 0 (splice 0 (new_header tier rs cap) f).
Proof.
  intros (Ht & Hrs & Hc & Hsz) Hl Hb.
  assert (Hlen : kHeaderSize <= zlen f) by nia.
  assert (Hin : forall off n, 0 <= off -> 0 <= n -> off + n <= 64 ->
    slice off n (splice 0 (new_header tier rs cap) f) = slice off n (new_header tier rs cap)).
  { intros off n H1 H2 H3. rewrite slice_splice_within; rewrite ?zlen_new_header;
      unfold kHeaderSize in *; try lia. f_equal. lia. }
  constructor; [done | done | done | done | | done | ..].
  - rewrite zlen_splice; rewrite ?zlen_new_header; lia.
  - apply is_bytes_splice; [apply new_header_is_bytes | done].
  - unfold hdr_magic. by rewrite Hin by lia.
  - unfold hdr_version. rewrite Hin by lia. by apply (le_get_put_u32' kFormatVersion).
  - unfold hdr_tier. rewrite Hin by lia.
    change (wrap 8 tier = tier). by apply wrap_small.
  - unfold hdr_record_size. rewrite Hin by lia.
    change (le_get_u32 (le_put_u32 rs) = rs). apply le_get_put_u32'; split; lia.
  - unfold hdr_capacity. rewrite Hin by lia.
    change (le_get_u64 (le_put_u64 cap) = cap). apply le_get_put_u64'; split; lia.
  - unfold hdr_write_idx, kWriteIdxOffset. rewrite Hin by lia.
    change (le_get_u64 (le_put_u64 0) = 0). by apply le_get_put_u64'.
Qed.

Lemma file_bytes_exact tier rs cap :
  ring_params tier rs cap -> u64 (kHeaderSize + u64 (rs * cap)) = kHeaderSize + rs * cap.
Proof.
  intros (Ht & Hrs & Hc & Hsz). unfold kHeaderSize in *.
  unfold u64. rewrite (wrap_small 64 (rs * cap)) by (split; nia).
  apply wrap_small. split; nia.
Qed.

(** An absent, an empty and a blank file are all made into an empty ring. *)
Definition unwritten (rs cap : Z) (file : option bytes) : Prop :=
  match file with
  | None => True
  | Some f => f = [] \/ f = replicate (Z.to_nat (kHeaderSize + rs * cap)) 0
  end.

Lemma blank_replicate n : (64 <= n)%nat -> header_is_blank (replicate n 0) false = true.
Proof.
  intros Hn. unfold header_is_blank. rewrite zlen_replicate. cbn [orb].
  destruct (Z.of_nat n <? kHeaderSize) eqn:E; bool_facts; [unfold kHeaderSize in E; lia |].
  unfold ztake. rewrite take_replicate.
  generalize (Z.to_nat kHeaderSize `min` n)%nat. intros k. by induction k.
Qed.

Lemma open_fresh file tier rs cap :
  ring_params tier rs cap -> unwritten rs cap file ->
  exists r f, open sys_ok file new_RingFile tier rs cap = (0, r, Some f) /\
    ring_log r f [] /\ read_only_ r = false /\ tier_ r = tier /\
    record_size_ r = rs /\ capacity_ r = cap /\
    f = splice 0 (new_header tier rs cap) (replicate (Z.to_nat (kHeaderSize + rs * cap)) 0).
Proof.
  intros Hp Hu. pose proof Hp as (Ht & Hrs & Hc & Hsz).
  set (z := replicate (Z.to_nat (kHeaderSize + rs * cap)) 0).
  assert (Hz : zlen z = kHeaderSize + rs * cap) by (unfold z; rewrite zlen_replicate, Z2Nat.id; unfold kHeaderSize; nia).
  assert (Hok : file_ok tier rs cap 0 (splice 0 (new_header tier rs cap) z)).
  { apply new_file_ok; [done .. |]. by apply is_bytes_replicate. }
  exists (mkRingFile true false tier 0 true rs cap 0 0), (splice 0 (new_header tier rs cap) z).
  split; [| by split_and!].
  unfold open, open_impl. cbn [fd_ new_RingFile set_last_errno sys_ok sys_open sys_fstat].
  replace (rs =? 0) with false by lia. replace (cap =? 0) with false by lia. cbn [orb].
  rewrite (file_bytes_exact tier) by done. fold z.
  assert (Hw : file_pwrite z 0 (new_header tier rs cap) (WrOk kHeaderSize) =
               splice 0 (new_header tier rs cap) z) by done.
  assert (Hblank : header_is_blank z false = true)
    by (apply blank_replicate; unfold kHeaderSize in *; nia).
  destruct Hok.
  assert (Hcase : match file with Some f => f = [] \/ f = z | None => True end) by (by destruct file).
  destruct file as [f |]; [destruct Hcase as [-> | ->] |]; cbn [andb negb orb]; fold z.
  - change (zlen [] =? 0) with true. cbn [andb negb orb sys_ok sys_ftruncate sys_pread_fails sys_pwrite sys_mmap].
    rewrite Hw, Z.eqb_refl. cbn [andb negb]. by rewrite fo_hwidx0.
  - rewrite Hz, Z.eqb_refl. replace (_ =? 0) with false by (unfold kHeaderSize; nia).
    cbn [andb negb orb sys_ok sys_ftruncate sys_pread_fails sys_pwrite sys_mmap].
    rewrite Hblank, Hw, Z.eqb_refl. cbn [andb negb]. by rewrite fo_hwidx0.
  - change (zlen [] =? 0) with true. cbn [andb negb orb sys_ok sys_ftruncate sys_pread_fails sys_pwrite sys_mmap].
    rewrite Hw, Z.eqb_refl. cbn [andb negb]. by rewrite fo_hwidx0.
Qed.

(** A ring's own header is never taken for a blank one. *)
Lemma file_ok_not_blank tier rs cap w f b :
  file_ok tier rs cap w f -> header_is_blank f b = false.
Proof.
  intros []. unfold header_is_blank. destruct (b || _); [done |].
  destruct f as [| x f]; [unfold kHeaderSize in *; change (zlen []) with 0 in *; nia |].
  unfold hdr_magic in fo_magic0.
  assert (x = 66) as -> by (by injection fo_magic0). done.
Qed.

Lemma open_existing tier rs cap w f ro :
  file_ok tier rs cap w f ->
  open_impl sys_ok (Some f) new_RingFile tier rs cap ro =
  (0, mkRingFile true ro tier 0 true rs cap w w, Some f).
Proof.
  intros Hf. pose proof (file_ok_not_blank _ _ _ _ _ false Hf) as Hb. pose proof Hf as [].
  assert (Hp : ring_params tier rs cap) by (split_and!; lia || done).
  unfold open_impl. cbn [fd_ new_RingFile set_last_errno sys_ok sys_open sys_fstat].
  replace (rs =? 0) with false by lia. replace (cap =? 0) with false by lia. cbn [orb].
  rewrite (file_bytes_exact tier), fo_len0, Z.eqb_refl by done.
  replace (_ =? 0) with false by (unfold kHeaderSize; nia).
  cbn [andb negb orb sys_ok sys_pread_fails]. rewrite Hb, andb_false_r. cbn [sys_ok sys_mmap andb negb].
  rewrite fo_magic0, bool_decide_true by done.
  rewrite fo_version0, fo_htier0, fo_hrs0, fo_hcap0, !Z.eqb_refl, fo_hwidx0. done.
Qed.

(** Nothing open() does changes a file that already has something in its header. *)
Lemma open_keeps sys f r tier rs cap ro :
  f <> [] -> forallb (fun b => b =? 0) (ztake kHeaderSize f) = false ->
  (open_impl sys (Some f) r tier rs cap ro).2 = Some f.
Proof.
  intros Hne Hb.
  assert (Hz : (zlen f =? 0) = false) by (destruct f; [done | apply Z.eqb_neq; unfold zlen; simpl; lia]).
  assert (Hh : header_is_blank f (sys_pread_fails sys) = false)
    by (unfold header_is_blank; rewrite Hb; by case_match).
  unfold open_impl. cbn zeta. destruct (fd_ _); [done |]. destruct (_ || _); [done |].
  destruct (sys_open sys); [done |]. destruct (sys_fstat sys); [done |].
  rewrite Hz. cbn [andb negb orb]. rewrite Hh, andb_false_r. cbn [andb negb].
  repeat case_match; done.
Qed.

Lemma open_result_cases sys file r tier rs cap ro rc r' file' :
  open_impl sys file r tier rs cap ro = (rc, r', file') ->
  (rc <> 0 /\ exists e, r' = set_last_errno e r) \/
  (rc = 0 /\ fd_ r = false /\ exists f, file' = Some f /\
   r' = mkRingFile true ro tier 0 true rs cap (hdr_write_idx f) (hdr_write_idx f)).
Proof.
  unfold open_impl. cbn zeta. intros H.
  repeat (case_match; [idtac .. |]); simplify_eq; try (left; split; [done | by eexists]);
    right; (split; [done |]); (split; [done |]); by eexists.
Qed.



(** A header that cannot be written (a full disk) is undone: open() on a
    path with no ring yet returns -14 with the write's errno (ENOSPC for a
    short write) and leaves an empty file, which the next open() turns into an
    empty ring. *)
Theorem failed_header_write_recovers (file : option bytes) (res : wr_result) (tier rs cap : Z) :
  ring_params tier rs cap -> unwritten rs cap file -> wr_full res kHeaderSize = false ->
  let sys := mkOpenSys None None None false res None None in
  open sys file new_RingFile tier rs cap =
    (-14, set_last_errno (match res with WrErr e => e | WrOk _ => ENOSPC end) new_RingFile, Some []) /\
  exists r f, open sys_ok (Some []) new_RingFile tier rs cap = (0, r, Some f) /\ ring_log r f [].
Proof.
  intros Hp Hu Hres. cbv zeta. pose proof Hp as (Ht & Hrs & Hc & Hsz). split.
  - unfold open, open_impl. cbn [fd_ new_RingFile set_last_errno sys_open sys_fstat].
    replace (rs =? 0) with false by lia. replace (cap =? 0) with false by lia. cbn [orb].
    rewrite (file_bytes_exact tier) by done.
    assert (Hlen : zlen (replicate (Z.to_nat (kHeaderSize + rs * cap)) 0) = kHeaderSize + rs * cap)
      by (rewrite zlen_replicate; unfold kHeaderSize; nia).
    assert (Hz : (kHeaderSize + rs * cap =? 0) = false) by (unfold kHeaderSize; nia).
    assert (Hblank : header_is_blank (replicate (Z.to_nat (kHeaderSize + rs * cap)) 0) false = true)
      by (apply blank_replicate; unfold kHeaderSize in *; nia).
    assert (Hw : match res with WrOk n => if n =? kHeaderSize then None else Some ENOSPC
                 | WrErr e => Some e end = Some (match res with WrErr e => e | WrOk _ => ENOSPC end))
      by (destruct res as [n |]; [simpl in Hres; by rewrite Hres | done]).
    destruct file as [f |]; [destruct Hu as [-> | ->] |];
      rewrite ?Hlen, ?Hz, ?Z.eqb_refl;
      cbn [negb andb orb zlen length Z.of_nat Z.eqb sys_pwrite sys_ftruncate sys_pread_fails sys_undo_truncate];
      rewrite ?Hblank; cbn [negb andb orb]; by rewrite Hw.
  - destruct (open_fresh (Some []) tier rs cap) as (r & f & E & H & _); [done | by left |]. by exists r, f.
Qed.

Lemma failed_header_write_recovers_witness :
  open (mkOpenSys None None None false (WrErr 28) None None) None new_RingFile 1 542 10 =
    (-14, set_last_errno 28 new_RingFile, Some []) /\
  exists r f, open sys_ok (Some []) new_RingFile 1 542 10 = (0, r, Some f) /\ ring_log r f [].
Proof.
  apply (failed_header_write_recovers None (WrErr 28) 1 542 10).
  - split; [split; lia |]. split; [lia |]. split; [lia |]. unfold kHeaderSize. lia.
  - exact I.
  - reflexivity.
Defined.

(** ** The ring as a log: a simulation *)

(** What a writer does to a ring it has open: append, with what the write
    answered, or close it and open it again (a restart). *)
Inductive ring_op := OpAppend (res : wr_result) (rec : bytes) | OpReopen.

Definition ring_op_ok (rs : Z) (op : ring_op) : Prop :=
  match op with
  | OpAppend _ rec => zlen rec = rs /\ is_bytes rec
  | OpReopen => True
  end.

Definition run_op (op : ring_op) (r : RingFile) (f : bytes) : Z * RingFile * bytes :=
  match op with
  | OpAppend res rec => append res (Some rec) r f
  | OpReopen =>
      let '(rc, r', f') := open sys_ok (Some f) (close r) (tier_ r) (record_size_ r) (capacity_ r) in
      (rc, r', default [] f')
  end.

Fixpoint run_ops (ops : list ring_op) (r : RingFile) (f : bytes) : list Z * RingFile * bytes :=
  match ops with
  | [] => ([], r, f)
  | op :: ops =>
      let '(rc, r, f) := run_op op r f in
      let '(rcs, r, f) := run_ops ops r f in (rc :: rcs, r, f)
  end.

(** The same on the log: the records counted, and how many of the newest
    [capacity] a failed write cost. *)
Definition log_op (rs : Z) (op : ring_op) (st : list bytes * Z) : Z * (list bytes * Z) :=
  let '(log, lost) := st in
  match op with
  | OpAppend res rec => if wr_full res rs then (0, (log ++ [rec], 0)) else (-3, (log, 1))
  | OpReopen => (0, (log, lost))
  end.

Fixpoint log_ops (rs : Z) (ops : list ring_op) (st : list bytes * Z) : list Z * (list bytes * Z) :=
  match ops with
  | [] => ([], st)
  | op :: ops =>
      let '(rc, st) := log_op rs op st in
      let '(rcs, st) := log_ops rs ops st in (rc :: rcs, st)
  end.

(** The two states agree, at parameters [tier], [rs], [cap]. *)
Definition ring_sim (tier rs cap : Z) (r : RingFile) (f : bytes) (st : list bytes * Z) : Prop :=
  ring_log_but st.2 r f st.1 /\ 0 <= st.2 <= 1 /\ read_only_ r = false /\
  tier_ r = tier /\ record_size_ r = rs /\ capacity_ r = cap.

Lemma reopen_log lost r f log :
  ring_log_but lost r f log -> read_only_ r = false ->
  open sys_ok (Some f) (close r) (tier_ r) (record_size_ r) (capacity_ r) =
  (0, mkRingFile true false (tier_ r) 0 true (record_size_ r) (capacity_ r) (widx_ r) (widx_ r), Some f) .
Proof.
  intros [(Hfd & Hmm & Hbg & Hf) _] _. unfold open.
  rewrite <- (open_existing _ _ _ _ _ false Hf). done.
Qed.

Lemma run_op_sim tier rs cap op r f st :
  ring_sim tier rs cap r f st -> ring_op_ok rs op -> zlen st.1 + 1 < 2 ^ 64 ->
  exists r' f', run_op op r f = ((log_op rs op st).1, r', f') /\
    ring_sim tier rs cap r' f' (log_op rs op st).2.
Proof.
  destruct st as [log lost]. intros (Hl & Hlost & Hro & <- & <- & <-) Hop Hmax.
  cbn [fst snd] in *. destruct op as [res rec |]; cbn [run_op log_op ring_op_ok] in *.
  - destruct Hop as [Hz Hb]. destruct (wr_full res (record_size_ r)) eqn:Hfull.
    + destruct res as [n |]; [| done]. apply Z.eqb_eq in Hfull as ->.
      destruct (append_log lost r f log rec) as (r' & f' & -> & ? & ? & ? & ? & ?);
        [done || lia .. |].
      exists r', f'. split; [done |]. by split_and!.
    + destruct (append_failed lost res r f log rec) as (r' & f' & -> & ? & ? & ? & ? & ?);
        [done || lia .. |].
      exists r', f'. split; [done |]. by split_and!.
  - rewrite (reopen_log lost r f log) by done. eexists _, _. split; [reflexivity |].
    destruct Hl as [(Hfd & Hmm & Hbg & Hf) [Hw Hh]]. split; [| by destruct Hlost; split_and!].
    split; [by split_and! |]. by split.
Qed.

Lemma log_op_growth rs op st :
  zlen st.1 <= zlen (log_op rs op st).2.1 <= zlen st.1 + 1.
Proof.
  destruct st as [log lost], op as [res rec |]; simpl; [destruct (wr_full _ _) |]; simpl;
    rewrite ?zlen_app, ?zlen_cons; change (zlen (@nil bytes)) with 0; lia.
Qed.

Lemma run_ops_sim tier rs cap ops r f st :
  ring_sim tier rs cap r f st -> Forall (ring_op_ok rs) ops -> zlen st.1 + zlen ops < 2 ^ 64 ->
  exists r' f', run_ops ops r f = ((log_ops rs ops st).1, r', f') /\
    ring_sim tier rs cap r' f' (log_ops rs ops st).2.
Proof.
  revert r f st. induction ops as [| op ops IH]; intros r f st Hs Hok Hmax; [by exists r, f |].
  inversion Hok as [| ? ? Hop Hops]; subst.
  rewrite zlen_cons in Hmax. pose proof (zlen_nonneg ops).
  destruct (run_op_sim tier rs cap op r f st) as (r1 & f1 & E1 & Hs1); [done | done | lia |].
  pose proof (log_op_growth rs op st) as Hg.
  simpl. rewrite E1. destruct (log_op rs op st) as [rc st1]. simpl in *.
  destruct (IH r1 f1 st1) as (r2 & f2 & E2 & Hs2); [done | done | lia |].
  rewrite E2. destruct (log_ops rs ops st1) as [rcs st2]. simpl in *. by exists r2, f2.
Qed.

(** C2: A ring is a log of records.  From a path with no file, an empty file or
    a file whose header was never written, open() succeeds, and then whatever
    sequence of appends (each fully written, cut short or failed) and restarts
    follows, every return code is the log's, the index counts exactly the
    records the log holds, and each of the newest [capacity] of them (less the
    oldest one, after a failed write over its slot) reads back unchanged from
    its slot. *)
Theorem ring_file_refines_log (file : option bytes) (tier rs cap : Z) (ops : list ring_op) :
  ring_params tier rs cap -> unwritten rs cap file -> Forall (ring_op_ok rs) ops ->
  zlen ops < 2 ^ 64 ->
  let '(codes, (log, lost)) := log_ops rs ops ([], 0) in
  exists r0 f0 r f,
    open sys_ok file new_RingFile tier rs cap = (0, r0, Some f0) /\
    run_ops ops r0 f0 = (codes, r, f) /\ file_ok tier rs cap (zlen log) f /\
    write_index r f = zlen log /\ count r f = Z.min (zlen log) cap /\
    forall i rec, log !! Z.to_nat i = Some rec -> 0 <= i -> zlen log - cap + lost <= i ->
      read_at (fun _ => false) r f (i mod cap) false rs = inr rec.
Proof.
  intros Hp Hu Hops Hmax.
  destruct (open_fresh file tier rs cap Hp Hu) as (r0 & f0 & Hopen & Hlog & Hro & Ht & Hr & Hc & _).
  destruct (run_ops_sim tier rs cap ops r0 f0 ([], 0)) as (r & f & Hrun & Hs); [by split_and! | done | done |].
  destruct (log_ops rs ops ([], 0)) as [codes [log lost]]. simpl in *.
  exists r0, f0, r, f. split; [done |]. split; [done |].
  destruct Hs as (Hl & Hlost & Hro' & <- & <- & <-). simpl in *.
  pose proof Hl as [(Hfd & Hmm & Hbg & Hf) [Hw Hh]].
  split; [by rewrite <- Hw |].
  assert (Hwi : write_index r f = zlen log) by (unfold write_index; by rewrite Hfd, Hro').
  split; [done |]. split; [unfold count; rewrite Hwi; destruct (_ <? _) eqn:E; bool_facts; lia |].
  intros i rec Hi H0 Hge. eapply read_at_log; try done. lia.
Qed.

Lemma ring_file_refines_log_witness :
  exists r0 f0 r f,
    open sys_ok None new_RingFile 1 2 2 = (0, r0, Some f0) /\
    run_ops [OpAppend (WrOk 2) [1; 2]; OpAppend (WrOk 1) [9; 9]; OpReopen;
             OpAppend (WrOk 2) [3; 4]; OpAppend (WrOk 2) [5; 6]] r0 f0 = ([0; -3; 0; 0; 0], r, f) /\
    read_at (fun _ => false) r f (1 mod 2) false 2 = inr [3; 4] /\
    read_at (fun _ => false) r f (2 mod 2) false 2 = inr [5; 6].
Proof.
  pose proof (ring_file_refines_log None 1 2 2
    [OpAppend (WrOk 2) [1; 2]; OpAppend (WrOk 1) [9; 9]; OpReopen;
     OpAppend (WrOk 2) [3; 4]; OpAppend (WrOk 2) [5; 6]]) as H.
  destruct H as (r0 & f0 & r & f & H1 & H2 & _ & _ & _ & H3).
  - split; [split; lia |]. split; [lia |]. split; [lia |]. unfold kHeaderSize. lia.
  - exact I.
  - repeat constructor; lia.
  - reflexivity.
  - exists r0, f0, r, f. split; [exact H1 |]. split; [exact H2 |]. split.
    + apply (H3 1 [3; 4]); [reflexivity | lia | vm_compute; discriminate].
    + apply (H3 2 [5; 6]); [reflexivity | lia | vm_compute; discriminate].
Defined.
