(* ===== verification/RingCheck.v ===== *)
(** Checking, converting and recovering ring files
    (src/storage/ring_check.h, src/storage/ring_check.cpp): the records a crash
    left unindexed, the conversion of a ring an older version wrote, and the
    walk of [budyk fsck]. *)
From Stdlib Require Import ZArith Lia List Sorted.
From stdpp Require Import base numbers list.
From S2P Require Import Prelude Endian Sample SampleCodec RecordCodec RingFile.
Open Scope Z_scope.

Definition kDayNs : Z := 86400 * 1000000000.
Definition kMaxListedSlots : Z := 8.
Definition EIO : Z := 5.
Definition EINVAL : Z := 22.

Definition level_fits_ring (tier lv : Z) : bool :=
  if tier =? 1 then lv =? L3
  else if tier =? 2 then lv =? L2
  else if tier =? 3 then lv =? L1
  else if tier =? kCustomRingTier then (kFirstCustomLevel <=? lv) && (lv <=? kMaxLevelId)
  else false.

(** [Sample s{}; record_decode(buf, len, &s) == 0] *)
Definition decode_record (b : bytes) : option Sample :=
  match record_decode (Some b) (Some zero_Sample) with
  | Some (rc, Some s) => if rc =? 0 then Some s else None
  | _ => None
  end.

(** ** count_unindexed *)

(** The lambda [read] of count_unindexed. *)
Definition unindexed_read (io : Z -> bool) (r : RingFile) (f : bytes) (logical : Z) : option Sample :=
  let len := if record_size_ r =? 0 then record_size_for_sample else record_size_ r in
  match read_at io r f (logical mod capacity_ r) false len with
  | inl _ => None
  | inr b =>
      match decode_record b with
      | Some s => if level_fits_ring (tier_ r) (level s) then Some s else None
      | None => None
      end
  end.

(** The two loops, over any [read]; [n] bounds the iterations left. *)
Fixpoint newest_indexed_ts (rd : Z -> option Sample) (widx : Z) (n : nat) (k : Z) : Z :=
  match n with
  | O => 0
  | S n =>
      match rd (u64 (widx - 1 - k)) with
      | Some s => timestamp_nanos s
      | None => newest_indexed_ts rd widx n (k + 1)
      end
  end.

Fixpoint unindexed_run (rd : Z -> option Sample) (widx now_ns : Z) (n : nat) (count prev_ts : Z) : Z :=
  match n with
  | O => count
  | S n =>
      match rd (u64 (widx + count)) with
      | None => count
      | Some s =>
          if (timestamp_nanos s <=? prev_ts) || (now_ns <? timestamp_nanos s) then count
          else unindexed_run rd widx now_ns n (count + 1) (timestamp_nanos s)
      end
  end.

(** [clock]: what now_realtime_ns() answers. *)
Definition count_unindexed (io : Z -> bool) (clock : Z) (r : RingFile) (f : bytes) (now_ns : Z) : Z :=
  let cap := capacity_ r in
  let widx := write_index r f in
  if cap =? 0 then 0
  else
    let now_ns := if now_ns =? 0 then clock else now_ns in
    let rd := unindexed_read io r f in
    let indexed := if widx <? cap then widx else cap in
    let prev_ts := newest_indexed_ts rd widx (Z.to_nat indexed) 0 in
    unindexed_run rd widx now_ns (Z.to_nat cap) 0 prev_ts.

(** ** convert_ring *)

(** What the operating system answers during a conversion: opening the old ring
    and the new one, each record's write, the two syncs and the rename. *)
Record ConvertSys := mkConvertSys {
  cv_header : OpenSys;
  cv_old : OpenSys;
  cv_new : OpenSys;
  cv_read_fails : Z -> bool;
  cv_write : Z -> wr_result;
  cv_sync_tmp : Z;
  cv_rename : Z;
  cv_sync_dir : Z
}.
Definition convert_ok : ConvertSys :=
  mkConvertSys sys_ok sys_ok sys_ok (fun _ => false) (fun _ => WrOk record_size_for_sample) 0 0 0.

(** The copy loop over the logical indices left; [i] counts the appends made. *)
Fixpoint convert_loop (sys : ConvertSys) (old : RingFile) (old_f : bytes) (cap : Z) (n : nat)
    (logical i : Z) (out : RingFile) (out_f : bytes) (kept dropped : Z)
    : Z * bytes * Z * Z :=
  match n with
  | O => (0, out_f, kept, dropped)
  | S n =>
      match (match read_at (cv_read_fails sys) old old_f (logical mod cap) false (record_size_ old) with
             | inl _ => None | inr b => decode_record b end) with
      | None => convert_loop sys old old_f cap n (logical + 1) i out out_f kept (dropped + 1)
      | Some s =>
          match record_encode s false false 1024 with
          | inl _ => (- EIO, out_f, kept, dropped)
          | inr enc =>
              let '(rc, out', out_f') := append (cv_write sys i) (Some enc) out out_f in
              if negb (rc =? 0) then
                (if negb (last_errno_ out' =? 0) then - last_errno_ out' else - EIO,
                 out_f', kept, dropped)
              else convert_loop sys old old_f cap n (logical + 1) (i + 1) out' out_f' (kept + 1) dropped
          end
      end
  end.

(** The result: the code, the ring file at the path, and the kept and dropped
    counts.  The temporary file next to it is not part of the result: it was
    unlinked before, and is renamed or unlinked after the copy. *)
Definition convert_ring (sys : ConvertSys) (clock : Z) (file : option bytes)
    (tier record_size capacity : Z) : Z * option bytes * Z * Z :=
  let '(hrc, err, h) := read_header (cv_header sys) false file zero_Header in
  if negb (hrc =? 0) then (if negb (err =? 0) then - err else - EINVAL, file, 0, 0)
  else
    let '(orc, old, _) := open_read_only (cv_old sys) file new_RingFile
                            (h_tier h) (h_record_size h) (h_capacity h) in
    if negb (orc =? 0) then
      (if negb (last_errno_ old =? 0) then - last_errno_ old else - EINVAL, file, 0, 0)
    else
      let '(nrc, out, out_file) := open (cv_new sys) None new_RingFile tier record_size capacity in
      if negb (nrc =? 0) then
        (- (if negb (last_errno_ out =? 0) then last_errno_ out else EIO), file, 0, 0)
      else
        let old_f := default [] file in
        let widx := write_index old old_f in
        let unidx := count_unindexed (cv_read_fails sys) clock old old_f 0 in
        let count0 := if widx <? h_capacity h then widx else h_capacity h in
        let over := h_capacity h <? count0 + unidx in
        let first := if over then widx - count0 + (count0 + unidx - h_capacity h)
                     else widx - count0 in
        let count := if over then h_capacity h - unidx else count0 in
        let total := count + unidx in
        let skip := if capacity <? total then total - capacity else 0 in
        let '(rc, out_f, kept, dropped) :=
          convert_loop sys old old_f (h_capacity h) (Z.to_nat (widx + unidx - (first + skip)))
            (first + skip) 0 out (default [] out_file) 0 0 in
        let dropped := dropped + skip in
        let rc := first_rc rc (cv_sync_tmp sys) in
        let rc := first_rc rc (cv_rename sys) in
        if rc =? 0 then (cv_sync_dir sys, Some out_f, kept, dropped)
        else (rc, file, kept, dropped).

(** ** check_ring *)

Record RingCheck := mkRingCheck {
  header_rc : Z;
  header_errno : Z;
  header : Header;
  unknown_tier : bool;
  older_format : bool;
  newer_format : bool;
  open_rc : Z;
  records : Z;
  valid : Z;
  rc_folded : Z;
  damaged : Z;
  wrong_level : Z;
  out_of_order : Z;
  future : Z;
  read_errors : Z;
  first_ts : Z;
  last_ts : Z;
  damaged_slots : list Z;
  unindexed : Z;
  recovered : Z
}.
Definition zero_RingCheck : RingCheck :=
  mkRingCheck 0 0 zero_Header false false false 0 0 0 0 0 0 0 0 0 0 0 [] 0 0.

Definition errors_but_unindexed (c : RingCheck) : bool :=
  if negb (header_rc c =? 0) || unknown_tier c || newer_format c || negb (open_rc c =? 0) then true
  else (0 <? damaged c) || (0 <? wrong_level c) || (0 <? read_errors c).
Definition errors (c : RingCheck) : bool :=
  errors_but_unindexed c || (recovered c <? unindexed c).

(** One indexed record; [max_ts] is the newest time seen so far. *)
Definition check_record (io : Z -> bool) (r : RingFile) (f : bytes) (tier rs cap now_ns logical : Z)
    (st : RingCheck * Z) : RingCheck * Z :=
  let '(c, max_ts) := st in
  let slot := logical mod cap in
  match read_at io r f slot false rs with
  | inl _ =>
      (mkRingCheck (header_rc c) (header_errno c) (header c) (unknown_tier c) (older_format c)
         (newer_format c) (open_rc c) (records c + 1) (valid c) (rc_folded c) (damaged c)
         (wrong_level c) (out_of_order c) (future c) (read_errors c + 1) (first_ts c) (last_ts c)
         (damaged_slots c) (unindexed c) (recovered c), max_ts)
  | inr b =>
      match decode_record b with
      | None =>
          (mkRingCheck (header_rc c) (header_errno c) (header c) (unknown_tier c) (older_format c)
             (newer_format c) (open_rc c) (records c + 1) (valid c) (rc_folded c) (damaged c + 1)
             (wrong_level c) (out_of_order c) (future c) (read_errors c) (first_ts c) (last_ts c)
             (if zlen (damaged_slots c) <? kMaxListedSlots then damaged_slots c ++ [slot]
              else damaged_slots c) (unindexed c) (recovered c), max_ts)
      | Some s =>
          let ts := timestamp_nanos s in
          (mkRingCheck (header_rc c) (header_errno c) (header c) (unknown_tier c) (older_format c)
             (newer_format c) (open_rc c) (records c + 1) (valid c + 1)
             (if folded s then rc_folded c + 1 else rc_folded c) (damaged c)
             (if negb (level_fits_ring tier (level s)) then wrong_level c + 1 else wrong_level c)
             (if ts <? max_ts then out_of_order c + 1 else out_of_order c)
             (if negb (now_ns =? 0) && (u64 (now_ns + kDayNs) <? ts) then future c + 1 else future c)
             (read_errors c)
             (if (valid c =? 0) || (ts <? first_ts c) then ts else first_ts c)
             (if last_ts c <? ts then ts else last_ts c)
             (damaged_slots c) (unindexed c) (recovered c),
           if max_ts <? ts then ts else max_ts)
      end
  end.

Fixpoint check_records (io : Z -> bool) (r : RingFile) (f : bytes) (tier rs cap now_ns : Z)
    (n : nat) (logical : Z) (st : RingCheck * Z) : RingCheck * Z :=
  match n with
  | O => st
  | S n => check_records io r f tier rs cap now_ns n (logical + 1)
             (check_record io r f tier rs cap now_ns logical st)
  end.

(** The result: the return code, [*out], and the file. *)
Definition check_ring (hsys sys : OpenSys) (io : Z -> bool) (clock : Z) (file : option bytes)
    (repair : bool) (now_ns : Z) : Z * RingCheck * option bytes :=
  let '(hrc, herr, h) := read_header hsys false file zero_Header in
  let found ut ol nw orc := mkRingCheck hrc herr h ut ol nw orc 0 0 0 0 0 0 0 0 0 0 [] 0 0 in
  if negb (hrc =? 0) then (0, found false false false 0, file)
  else if negb (h_tier h =? 1) && negb (h_tier h =? 2) && negb (h_tier h =? 3) &&
          negb (h_tier h =? kCustomRingTier) then (0, found true false false 0, file)
  else if negb (h_record_size h =? record_size_for_sample) then
    (0, (if h_record_size h <? record_size_for_sample then found false true false 0
         else found false false true 0), file)
  else
    let '(orc, ring, file') := open_impl sys file new_RingFile (h_tier h) (h_record_size h)
                                 (h_capacity h) (negb repair) in
    if negb (orc =? 0) then
      (if repair && negb (last_errno_ ring =? 0) then - last_errno_ ring else 0,
       found false false false orc, file')
    else
      let f := default [] file' in
      let cap := capacity_ ring in
      let widx := write_index ring f in
      let count := if widx <? cap then widx else cap in
      let oldest := widx - count in
      let '(c, _) := check_records io ring f (h_tier h) (h_record_size h) cap now_ns
                       (Z.to_nat (widx - oldest)) oldest (found false false false 0, 0) in
      let unidx := count_unindexed io clock ring f 0 in
      let '(arc, _, f') := if repair && (0 <? unidx) then advance_write_index unidx ring f
                           else (-1, ring, f) in
      (0, mkRingCheck (header_rc c) (header_errno c) (header c) (unknown_tier c) (older_format c)
            (newer_format c) (open_rc c) (records c) (valid c) (rc_folded c) (damaged c)
            (wrong_level c) (out_of_order c) (future c) (read_errors c) (first_ts c) (last_ts c)
            (damaged_slots c) unidx (if arc =? 0 then unidx else 0), Some f').

(** ** The unindexed run *)

(** [ss]: consecutive readable records from logical index [i] on, each newer
    than the one before it and none stamped after [now_ns]. *)
Fixpoint unindexed_chain (rd : Z -> option Sample) (now_ns i prev_ts : Z) (ss : list Sample) : Prop :=
  match ss with
  | [] => True
  | s :: ss => rd (u64 i) = Some s /\ prev_ts < timestamp_nanos s <= now_ns /\
               unindexed_chain rd now_ns (i + 1) (timestamp_nanos s) ss
  end.

(** The time of the last record of a run that follows a record of time [prev]. *)
Definition last_time (prev : Z) (ss : list Sample) : Z :=
  default prev (timestamp_nanos <$> last ss).

Lemma last_time_cons prev s ss : last_time prev (s :: ss) = last_time (timestamp_nanos s) ss.
Proof.
  unfold last_time. rewrite last_cons. by destruct (last ss).
Qed.

Lemma unindexed_run_spec rd widx now_ns n count prev :
  exists ss, unindexed_run rd widx now_ns n count prev = count + zlen ss /\
    (length ss <= n)%nat /\ unindexed_chain rd now_ns (widx + count) prev ss /\
    (length ss = n \/ forall s, rd (u64 (widx + count + zlen ss)) = Some s ->
      timestamp_nanos s <= last_time prev ss \/ now_ns < timestamp_nanos s).
Proof.
  revert count prev. induction n as [| n IH]; intros count prev; simpl.
  { exists []. unfold zlen. simpl. split_and!; [lia | lia | done | by left]. }
  destruct (rd (u64 (widx + count))) as [s |] eqn:Hrd.
  - destruct (_ || _) eqn:Hc.
    + exists []. change (zlen (@nil Sample)) with 0. rewrite !Z.add_0_r.
      split_and!; [done | simpl; lia | done |]. right. intros s' Hs'. unfold last_time. simpl.
      apply orb_true_iff in Hc as [Hc | Hc]; bool_facts; simplify_eq; lia.
    + apply orb_false_iff in Hc as [Hc1 Hc2]. bool_facts.
      destruct (IH (count + 1) (timestamp_nanos s)) as (ss & E & Hl & Hch & Hmax).
      exists (s :: ss). rewrite zlen_cons, E. rewrite last_time_cons.
      replace (widx + count + (1 + zlen ss)) with (widx + (count + 1) + zlen ss) by lia.
      replace (widx + (count + 1)) with (widx + count + 1) in * by lia.
      simpl. split_and!; try (done || lia). destruct Hmax; [left; lia | by right].
  - exists []. change (zlen (@nil Sample)) with 0. rewrite !Z.add_0_r.
    split_and!; [done | simpl; lia | done |]. right. intros. congruence.
Qed.

(** count_unindexed() finds exactly the maximal run of records past
    write_idx that were written but not counted: the records it counts are
    consecutive, each readable at the ring's own record size, of the ring's
    level, newer than the one before (the newest indexed record first) and not
    stamped after now; and the run stops only at the ring's capacity, at a slot
    that does not read, or at a record that is not newer or lies in the future. *)
Theorem count_unindexed_maximal (io : Z -> bool) (clock : Z) (r : RingFile) (f : bytes) (now_ns : Z) :
  0 < capacity_ r ->
  let rd := unindexed_read io r f in
  let widx := write_index r f in
  let now := if now_ns =? 0 then clock else now_ns in
  let prev := newest_indexed_ts rd widx
                (Z.to_nat (if widx <? capacity_ r then widx else capacity_ r)) 0 in
  let n := count_unindexed io clock r f now_ns in
  exists ss, n = zlen ss /\ n <= capacity_ r /\ unindexed_chain rd now widx prev ss /\
    (n = capacity_ r \/ forall s, rd (u64 (widx + n)) = Some s ->
      timestamp_nanos s <= last_time prev ss \/ now < timestamp_nanos s).
Proof.
  intros Hc. cbv zeta. unfold count_unindexed.
  replace (capacity_ r =? 0) with false by lia. cbv zeta.
  match goal with |- context [unindexed_run ?rd ?w ?now ?n 0 ?p] =>
    destruct (unindexed_run_spec rd w now n 0 p) as (ss & E & Hl & Hch & Hmax) end.
  exists ss. rewrite E, !Z.add_0_r in *. rewrite !Z.add_0_l.
  unfold zlen in *. split_and!; [done | lia | done |].
  destruct Hmax as [Hm | Hm]; [left; lia | by right].
Qed.

(** ** Rings of samples *)

(** The record record_encode() makes of a sample. *)
Definition encode_record (s : Sample) : bytes :=
  match record_encode s false false 1024 with inr b => b | inl _ => [] end.

(** A sample such as the daemon stores in a ring of header tier [tier]; the
    baseline is not part of a record. *)
Definition storable (tier : Z) (s : Sample) : Prop :=
  sample_ok s /\ 1 <= level s <= kMaxLevelId /\ level_fits_ring tier (level s) = true /\
  baseline s = baseline zero_Sample.

Lemma record_encode_some s :
  record_encode s false false 1024 = inr (encode_record s).
Proof. unfold encode_record. rewrite record_encode_shape; [done |]. vm_compute. discriminate. Qed.

Lemma encode_record_ok tier s :
  storable tier s ->
  is_bytes (encode_record s) /\ zlen (encode_record s) = record_size_for_sample /\
  decode_record (encode_record s) = Some s.
Proof.
  intros (Hs & Hl & _ & Hb).
  destruct (record_decode_encoded s zero_Sample 1024 (encode_record s)) as (H1 & H2 & H3);
    [done | done | apply record_encode_some |].
  rewrite <- Hb in H3. replace (set_baseline (baseline s) s) with s in H3 by (by destruct s).
  split; [done |]. split; [done |]. unfold decode_record. by rewrite H3.
Qed.

Definition zero_record : bytes := replicate (Z.to_nat record_size_for_sample) 0.

Lemma zero_record_invalid : decode_record zero_record = None.
Proof. vm_compute. reflexivity. Qed.

(** The ring holds the samples [ss], oldest first; its other slots were never
    written. *)
Definition ring_samples (r : RingFile) (f : bytes) (ss : list Sample) : Prop :=
  ring_log r f (map encode_record ss) /\ record_size_ r = record_size_for_sample /\
  Forall (storable (tier_ r)) ss /\
  forall i, zlen ss <= i < capacity_ r ->
    record_in_slot record_size_for_sample (capacity_ r) f i = zero_record.

(** Strictly increasing times, all after [t]. *)
Definition times_after (t : Z) (ss : list Sample) : Prop :=
  StronglySorted Z.lt (t :: map timestamp_nanos ss).

Definition no_io : Z -> bool := fun _ => false.

Lemma ring_samples_facts r f ss :
  ring_samples r f ss ->
  fd_ r = true /\ widx_ r = zlen ss /\ record_size_ r = record_size_for_sample /\
  0 < capacity_ r < 2 ^ 63 /\
  file_ok (tier_ r) record_size_for_sample (capacity_ r) (zlen ss) f.
Proof.
  intros ([(Hfd & Hmm & Hbg & Hf) [Hw Hh]] & Hrs & _ & _). rewrite zlen_map in Hw.
  rewrite Hrs, Hw in Hf. pose proof Hf as []. split_and!; try (done || lia).
  change record_size_for_sample with 542 in *. unfold kHeaderSize in *. lia.
Qed.

Lemma record_in_slot_read rs cap f io r i :
  fd_ r = true -> record_size_ r = rs -> capacity_ r = cap -> 0 < rs -> 0 < cap ->
  zlen f = kHeaderSize + rs * cap -> io (slot_offset rs (i mod cap)) = false ->
  read_at io r f (i mod cap) false rs = inr (record_in_slot rs cap f i).
Proof.
  intros Hfd <- <- Hrs Hc Hl Hio. pose proof (mod_slot_range i (capacity_ r) Hc) as Hs.
  destruct (slot_offset_range (record_size_ r) (capacity_ r) (i mod capacity_ r)) as [H1 H2]; [lia .. |].
  unfold read_at. rewrite Hfd, Z.eqb_refl, Hio. cbn [negb orb].
  destruct (capacity_ r <=? i mod capacity_ r) eqn:E; bool_facts; [lia |].
  destruct (zlen f <? _) eqn:E2; bool_facts; [lia |]. done.
Qed.

(** What the lambda reads at any logical index of an open ring. *)
Lemma unindexed_read_slot r f w i :
  fd_ r = true -> record_size_ r = record_size_for_sample ->
  file_ok (tier_ r) record_size_for_sample (capacity_ r) w f ->
  unindexed_read no_io r f i =
  match decode_record (record_in_slot record_size_for_sample (capacity_ r) f i) with
  | Some s => if level_fits_ring (tier_ r) (level s) then Some s else None
  | None => None
  end.
Proof.
  intros Hfd Hrs Hf. pose proof Hf as []. unfold unindexed_read. rewrite Hrs.
  change (record_size_for_sample =? 0) with false. cbn [negb].
  rewrite (record_in_slot_read record_size_for_sample (capacity_ r)); (done || lia).
Qed.

Lemma times_after_app t ss ss' :
  times_after t (ss ++ ss') ->
  forall s s', s ∈ ss -> s' ∈ ss' -> timestamp_nanos s < timestamp_nanos s'.
Proof.
  unfold times_after. rewrite map_app. intros H. inversion H as [| ? ? Hs _]; subst. clear H.
  revert Hs. induction ss as [| x ss IH]; simpl; intros Hs s s' Hi Hi'; [by apply elem_of_nil in Hi |].
  inversion Hs as [| ? ? Hs' Hx]; subst. apply elem_of_cons in Hi as [-> | Hi]; [| by apply IH].
  rewrite List.Forall_forall in Hx. apply Hx, in_app_iff. right. apply in_map_iff. exists s'.
  by rewrite <- list_elem_of_In.
Qed.

Lemma times_after_all t ss s : times_after t ss -> s ∈ ss -> t < timestamp_nanos s.
Proof.
  unfold times_after. intros H Hi. inversion H as [| ? ? _ Hx]; subst.
  rewrite List.Forall_forall in Hx. apply Hx, in_map_iff. exists s. by rewrite <- list_elem_of_In.
Qed.

(** The record of logical index [i], while the ring still holds it. *)
Lemma ring_samples_slot r f ss i s :
  ring_samples r f ss -> ss !! Z.to_nat i = Some s -> 0 <= i -> zlen ss - capacity_ r <= i ->
  record_in_slot record_size_for_sample (capacity_ r) f i = encode_record s.
Proof.
  intros ([_ [_ [_ Hslots]]] & Hrs & _ & _) Hi H0 Hge. rewrite Hrs in Hslots.
  apply Hslots; [| done | rewrite zlen_map; lia].
  change (map encode_record ss) with (encode_record <$> ss). by rewrite list_lookup_fmap, Hi.
Qed.

(** The file between append()'s record write and its index update. *)
Definition crashed_file (r : RingFile) (f : bytes) (s : Sample) : bytes :=
  append_pwrite (WrOk record_size_for_sample) (encode_record s) r f.

Section Crash.
Context (r : RingFile) (f : bytes) (ss : list Sample) (s : Sample).
Hypothesis Hring : ring_samples r f ss.
Hypothesis Hs : storable (tier_ r) s.
Hypothesis Hcap : 1 < capacity_ r.
Hypothesis Hmax : zlen ss + 2 < 2 ^ 64.

Let rs := record_size_for_sample.
Let f1 := crashed_file r f s.
Let r1 := mkRingFile true false (tier_ r) 0 true rs (capacity_ r) (zlen ss) (zlen ss).

Lemma crashed_file_eq : f1 = splice (slot_offset rs (zlen ss mod capacity_ r)) (encode_record s) f.
Proof using Hring Hs.
  destruct (ring_samples_facts _ _ _ Hring) as (_ & Hw & Hrs & _).
  destruct (encode_record_ok _ _ Hs) as (_ & Hl & _).
  unfold f1, crashed_file, append_pwrite, file_pwrite. rewrite Hw, Hrs, ztake_all by lia. done.
Qed.

Lemma crashed_file_ok : file_ok (tier_ r) rs (capacity_ r) (zlen ss) f1.
Proof using Hring Hs Hcap.
  destruct (ring_samples_facts _ _ _ Hring) as (_ & _ & _ & Hc & Hf).
  destruct (encode_record_ok _ _ Hs) as (Hb & Hl & _).
  rewrite crashed_file_eq. apply file_ok_write_slot; [done | apply mod_slot_range | unfold rs |]; (done || lia).
Qed.

Lemma crashed_slot_other i :
  i mod capacity_ r <> zlen ss mod capacity_ r ->
  record_in_slot rs (capacity_ r) f1 i = record_in_slot rs (capacity_ r) f i.
Proof using Hring Hs Hcap.
  intros Hi. destruct (ring_samples_facts _ _ _ Hring) as (_ & _ & _ & Hc & []).
  destruct (encode_record_ok _ _ Hs) as (_ & Hl & _).
  rewrite crashed_file_eq. apply record_in_slot_write_other; (done || unfold rs; lia).
Qed.

(** What a reader of the crashed file finds past, at and before the index. *)
Lemma crashed_read i :
  unindexed_read no_io r1 f1 i =
  match decode_record (record_in_slot rs (capacity_ r) f1 i) with
  | Some s => if level_fits_ring (tier_ r) (level s) then Some s else None
  | None => None
  end.
Proof using Hring Hs Hcap. apply (unindexed_read_slot r1 f1 (zlen ss)); [done | done | apply crashed_file_ok]. Qed.

Lemma crashed_read_new : unindexed_read no_io r1 f1 (zlen ss) = Some s.
Proof using Hring Hs Hcap.
  destruct (ring_samples_facts _ _ _ Hring) as (_ & _ & _ & Hc & []).
  destruct (encode_record_ok _ _ Hs) as (Hb & Hl & Hd). destruct Hs as (_ & _ & Hfit & _).
  rewrite crashed_read, crashed_file_eq, record_in_slot_write, Hd, Hfit by (done || lia). done.
Qed.

Lemma crashed_read_old i s' :
  ss !! Z.to_nat i = Some s' -> 0 <= i -> zlen ss - capacity_ r < i ->
  unindexed_read no_io r1 f1 i = Some s'.
Proof using Hring Hs Hcap.
  intros Hi H0 Hge. pose proof (lookup_lt_Some _ _ _ Hi).
  rewrite crashed_read, crashed_slot_other by (apply mod_slot_inj; unfold zlen in *; lia).
  unfold rs. rewrite (ring_samples_slot _ _ _ _ s' Hring) by (done || lia).
  destruct Hring as (_ & _ & Hall & _). rewrite Forall_lookup in Hall. specialize (Hall _ _ Hi).
  destruct (encode_record_ok _ _ Hall) as (_ & _ & ->). by destruct Hall as (_ & _ & -> & _).
Qed.

(** The slot after the crashed record: blank, or the oldest record kept. *)
Lemma crashed_read_next :
  unindexed_read no_io r1 f1 (zlen ss + 1) = None \/
  exists s', (s' ∈ ss) /\ unindexed_read no_io r1 f1 (zlen ss + 1) = Some s'.
Proof using Hring Hs Hcap.
  destruct (Z.lt_ge_cases (zlen ss + 1) (capacity_ r)) as [Hlt | Hge].
  - left. rewrite crashed_read, crashed_slot_other
      by (apply not_eq_sym, mod_slot_inj; unfold zlen in *; lia).
    destruct Hring as (_ & _ & _ & Hz). unfold rs.
    rewrite Hz by lia. by rewrite zero_record_invalid.
  - set (i := zlen ss + 1 - capacity_ r).
    destruct (lookup_lt_is_Some_2 ss (Z.to_nat i)) as [s' Hs']; [unfold i, zlen in *; lia |].
    right. exists s'. split; [by eapply list_elem_of_lookup_2 |].
    rewrite crashed_read. unfold record_in_slot.
    replace ((zlen ss + 1) mod capacity_ r) with (i mod capacity_ r)
      by (unfold i; rewrite <- (Z.mod_add (zlen ss + 1 - _) 1) by lia; f_equal; lia).
    rewrite <- (crashed_read_old i s' Hs') by (unfold i in *; lia). by rewrite crashed_read.
Qed.

Lemma crashed_newest :
  newest_indexed_ts (unindexed_read no_io r1 f1) (zlen ss)
    (Z.to_nat (if zlen ss <? capacity_ r then zlen ss else capacity_ r)) 0 = last_time 0 ss.
Proof using Hring Hs Hcap Hmax.
  destruct (decide (ss = [])) as [E | Hne].
  { rewrite E. change (zlen (@nil Sample)) with 0. replace (0 <? capacity_ r) with true by lia. done. }
  assert (Hlast : last ss = ss !! Z.to_nat (zlen ss - 1)).
  { rewrite last_lookup. f_equal. unfold zlen. lia. }
  assert (Hpos : 0 < zlen ss) by (unfold zlen; destruct ss; [done | simpl; lia]).
  destruct (lookup_lt_is_Some_2 ss (Z.to_nat (zlen ss - 1))) as [l Hl]; [unfold zlen in *; lia |].
  destruct (Z.to_nat (if zlen ss <? capacity_ r then zlen ss else capacity_ r)) eqn:En;
    [destruct (_ <? _); lia |].
  simpl. unfold last_time. rewrite Hlast, Hl. rewrite Z.sub_0_r.
  unfold u64. rewrite wrap_small by (split; lia). by rewrite (crashed_read_old _ l) by (done || lia).
Qed.

Lemma crashed_count now clock :
  times_after 0 (ss ++ [s]) -> timestamp_nanos s <= now -> 0 < now ->
  count_unindexed no_io clock r1 f1 now = 1.
Proof using Hring Hs Hcap Hmax.
  intros Ht Hnow Hpos. unfold count_unindexed.
  change (capacity_ r1) with (capacity_ r). change (write_index r1 f1) with (zlen ss).
  replace (capacity_ r =? 0) with false by lia. replace (now =? 0) with false by lia. cbv zeta.
  rewrite crashed_newest. pose proof (zlen_nonneg ss).
  destruct (Z.to_nat (capacity_ r)) as [| [| n]] eqn:En; [lia | lia |].
  cbn [unindexed_run]. rewrite Z.add_0_r, Z.add_0_l. unfold u64. rewrite !wrap_small by (split; lia).
  rewrite crashed_read_new.
  assert (Hlt : last_time 0 ss < timestamp_nanos s).
  { unfold last_time. destruct (last ss) as [l |] eqn:El; simpl.
    - apply (times_after_app 0 ss [s]); [done | | by apply list_elem_of_singleton].
      by apply last_Some_elem_of.
    - apply (times_after_all 0 (ss ++ [s])); [done |]. apply elem_of_app. right.
      by apply list_elem_of_singleton. }
  replace (_ <=? _) with false by lia. replace (_ <? _) with false by lia. cbn [orb].
  destruct crashed_read_next as [-> | (s' & Hin & ->)]; [done |].
  assert (timestamp_nanos s' < timestamp_nanos s)
    by (apply (times_after_app 0 ss [s]); [done | done | by apply list_elem_of_singleton]).
  by replace (timestamp_nanos s' <=? timestamp_nanos s) with true by lia.
Qed.

(** Counting the crashed record in gives the ring the append would have given. *)
Lemma crashed_advance :
  exists r2 f2, advance_write_index 1 r1 f1 = (0, r2, f2) /\ ring_samples r2 f2 (ss ++ [s]).
Proof using Hring Hs Hcap Hmax.
  eexists _, _. split; [reflexivity |]. unfold r1. cbn [widx_].
  pose proof (zlen_nonneg ss). pose proof crashed_file_ok as Hf1. pose proof Hf1 as [].
  assert (Hu : u64 (zlen ss + 1) = zlen ss + 1) by (apply wrap_small; split; lia).
  rewrite Hu. destruct (encode_record_ok _ _ Hs) as (Hb & Hl & Hd).
  destruct (ring_samples_facts _ _ _ Hring) as (_ & _ & Hrsz & Hc & [_ _ _ _ Hlen _ _ _ _ _ _ _ _]).
  pose proof Hring as ([_ [_ Hold]] & _ & Hall & Hz). rewrite zlen_map in Hold.
  assert (Hz1 : zlen (ss ++ [s]) = zlen ss + 1) by (by rewrite zlen_app).
  split; [| split_and!; [done | by apply Forall_app; split; [| constructor] |]].
  - split; [| split]; cbn [widx_ set_widx record_size_ capacity_ set_begun].
    + split_and!; [done .. |]. apply (file_ok_store_index _ _ _ (zlen ss)); [done | split; lia].
    + by rewrite zlen_map, Hz1.
    + apply holds_from_store_index; [lia .. | unfold kHeaderSize in *; nia |].
      rewrite map_app, crashed_file_eq, <- (zlen_map encode_record ss). simpl map.
      apply holds_from_append; try (done || lia).
      * rewrite zlen_app, zlen_map. change (zlen [_]) with 1. lia.
      * rewrite Hrsz in Hold. eapply holds_from_mono; [| exact Hold].
        rewrite zlen_app, zlen_map. change (zlen [_]) with 1. lia.
  - cbn [capacity_ set_widx set_begun]. intros i Hi. rewrite Hz1 in Hi.
    rewrite record_in_slot_store_index by (unfold kHeaderSize in *; nia).
    rewrite crashed_slot_other by (apply not_eq_sym, mod_slot_inj; lia). apply Hz. lia.
Qed.
End Crash.

(** C5: A crash between a record's write and the index update loses nothing.
    In a ring (of two slots or more) that holds samples in time order, kill the
    daemon after append()'s pwrite and before it moves write_idx: the next
    start opens the file with the old index, count_unindexed() finds exactly
    the one record, and advance_write_index() leaves the ring holding all the
    samples, the crashed one last. *)
Theorem crash_before_index_recovered (r : RingFile) (f : bytes) (ss : list Sample) (s : Sample)
    (now clock : Z) :
  ring_samples r f ss -> storable (tier_ r) s -> 1 < capacity_ r -> zlen ss + 2 < 2 ^ 64 ->
  times_after 0 (ss ++ [s]) -> timestamp_nanos s <= now -> 0 < now ->
  let f1 := append_pwrite (WrOk record_size_for_sample) (encode_record s) r f in
  exists r1, open sys_ok (Some f1) new_RingFile (tier_ r) record_size_for_sample (capacity_ r) =
      (0, r1, Some f1) /\
    write_index r1 f1 = zlen ss /\ count_unindexed no_io clock r1 f1 now = 1 /\
    exists r2 f2, advance_write_index 1 r1 f1 = (0, r2, f2) /\ ring_samples r2 f2 (ss ++ [s]).
Proof.
  intros Hr Hs Hc Hm Ht Hnow Hpos. cbv zeta. eexists. split_and!.
  - apply open_existing. by apply crashed_file_ok.
  - done.
  - by apply crashed_count.
  - by apply crashed_advance.
Qed.

(** ** A new ring holds no samples *)

Lemma slice_replicate {A} off n k (x : A) :
  0 <= off -> 0 <= n -> off + n <= Z.of_nat k ->
  slice off n (replicate k x) = replicate (Z.to_nat n) x.
Proof.
  intros. unfold slice, ztake, zdrop. rewrite drop_replicate, take_replicate. f_equal. lia.
Qed.

Lemma fresh_ring_samples file tier cap :
  ring_params tier record_size_for_sample cap -> unwritten record_size_for_sample cap file ->
  exists r f, open sys_ok file new_RingFile tier record_size_for_sample cap = (0, r, Some f) /\
    ring_samples r f [] /\ read_only_ r = false /\ tier_ r = tier /\ capacity_ r = cap.
Proof.
  intros Hp Hu. destruct (open_fresh file tier _ cap Hp Hu) as (r & f & E & Hl & Hro & Ht & Hr & Hc & Hf).
  exists r, f. split_and!; try done. split_and!; try done.
  rewrite Hc. change (zlen (@nil Sample)) with 0. intros i Hi.
  pose proof Hp as (_ & Hrs & _ & _). unfold record_in_slot. rewrite Z.mod_small by lia.
  destruct (slot_offset_range record_size_for_sample cap i) as [H1 H2]; [lia .. |].
  unfold kHeaderSize in *. rewrite Hf.
  rewrite slice_splice_after; rewrite ?zlen_new_header, ?zlen_replicate; unfold kHeaderSize; try lia.
  apply slice_replicate; lia.
Qed.

Lemma storable_ex : storable 1 sample_ex.
Proof. split; [apply sample_ex_ok |]. split; [vm_compute; intuition discriminate |]. done. Defined.

Lemma crash_before_index_recovered_witness :
  exists r f, ring_samples r f [] /\
  let f1 := append_pwrite (WrOk record_size_for_sample) (encode_record sample_ex) r f in
  exists r1, open sys_ok (Some f1) new_RingFile (tier_ r) record_size_for_sample (capacity_ r) =
      (0, r1, Some f1) /\
    write_index r1 f1 = 0 /\ count_unindexed no_io 0 r1 f1 1700000000000000001 = 1 /\
    exists r2 f2, advance_write_index 1 r1 f1 = (0, r2, f2) /\ ring_samples r2 f2 [sample_ex].
Proof.
  destruct (fresh_ring_samples None 1 4) as (r & f & _ & Hr & _ & Ht & Hc).
  - split; [split; lia |]. split; [vm_compute; intuition discriminate |]. split; [lia |]. vm_compute. reflexivity.
  - exact I.
  - exists r, f. split; [exact Hr |].
    apply (crash_before_index_recovered r f [] sample_ex 1700000000000000001 0).
    + exact Hr.
    + rewrite Ht. apply storable_ex.
    + rewrite Hc. lia.
    + reflexivity.
    + repeat constructor.
    + vm_compute. discriminate.
    + lia.
Defined.

Lemma count_unindexed_maximal_witness :
  let r := mkRingFile true false 1 0 true 542 2 0 0 in
  exists ss : list Sample, count_unindexed no_io 0 r [] 5 = zlen ss /\ zlen ss <= 2.
Proof.
  cbv zeta.
  destruct (count_unindexed_maximal no_io 0 (mkRingFile true false 1 0 true 542 2 0 0) [] 5)
    as (ss & H1 & H2 & _); [reflexivity |].
  exists ss. split; [exact H1 |]. rewrite <- H1. exact H2.
Defined.

(** ** The walk of fsck *)

(** A run of healthy records in time order: each one is counted, none of the
    trouble counters moves, the newest time is tracked. *)
Lemma check_records_healthy io r f tier rs cap now ks :
  forall logical c max,
  (forall j s, ks !! j = Some s ->
     read_at io r f ((logical + Z.of_nat j) mod cap) false rs = inr (encode_record s)) ->
  Forall (storable tier) ks -> times_after max ks -> last_ts c = max -> 0 <= valid c ->
  (valid c = 0 \/ first_ts c <= max) ->
  exists c' max', check_records io r f tier rs cap now (length ks) logical (c, max) = (c', max') /\
    header_rc c' = header_rc c /\ unknown_tier c' = unknown_tier c /\
    newer_format c' = newer_format c /\ open_rc c' = open_rc c /\
    records c' = records c + zlen ks /\ valid c' = valid c + zlen ks /\
    damaged c' = damaged c /\ wrong_level c' = wrong_level c /\ read_errors c' = read_errors c /\
    out_of_order c' = out_of_order c /\ damaged_slots c' = damaged_slots c /\
    last_ts c' = last_time max ks /\
    first_ts c' = (if valid c =? 0 then default (first_ts c) (timestamp_nanos <$> head ks)
                   else first_ts c).
Proof.
  induction ks as [| s ks IH]; intros logical c max Hrd Hall Ht Hlast Hv Hfirst.
  { exists c, max. change (zlen (@nil Sample)) with 0. rewrite !Z.add_0_r.
    split_and!; try done. by destruct (_ =? 0). }
  inversion Hall as [| ? ? Hs Hall']; subst.
  assert (Hmax : last_ts c < timestamp_nanos s) by (eapply times_after_all; [done |]; left).
  destruct (encode_record_ok _ _ Hs) as (_ & _ & Hd).
  pose proof (Hrd 0%nat s eq_refl) as H0. rewrite Z.add_0_r in H0.
  cbn [length check_records]. unfold check_record at 1. rewrite H0, Hd.
  assert (Hlv : level_fits_ring tier (level s) = true) by apply Hs. rewrite Hlv. cbn [negb].
  replace (timestamp_nanos s <? last_ts c) with false by lia.
  replace (last_ts c <? timestamp_nanos s) with true by lia.
  match goal with |- context [check_records _ _ _ _ _ _ _ _ _ (?c1, ?m)] =>
    destruct (IH (logical + 1) c1 m) as (c' & max' & E & H) end; try done.
  - intros j s' Hj. rewrite <- (Hrd (S j) s' Hj). do 2 f_equal. lia.
  - unfold times_after in *. simpl in Ht. by inversion Ht.
  - simpl. lia.
  - right. cbn [first_ts]. destruct ((valid c =? 0) || _) eqn:E; [lia |]. bool_facts. lia.
  - exists c', max'. split; [exact E |]. cbn in H. rewrite zlen_cons, last_time_cons.
    destruct H as (?&?&?&?& Hr & Hva &?&?&?&?&?&?& Hfi). split_and!; try done; try lia.
    rewrite Hfi. replace (valid c + 1 =? 0) with false by lia.
    destruct (valid c =? 0) eqn:Ev; bool_facts; [done |]. cbn [orb].
    destruct Hfirst; [lia |]. by replace (timestamp_nanos s <? first_ts c) with false by lia.
Qed.

(** A closed ring of samples is read by fsck as it is. *)
Lemma read_header_existing tier rs cap w f :
  file_ok tier rs cap w f -> read_header sys_ok false (Some f) zero_Header = (0, 0, mkHeader tier rs cap w).
Proof.
  intros Hf. pose proof (file_ok_not_blank _ _ _ _ _ false Hf) as Hb. pose proof Hf as [Hrs Hcap ? ? Hlen0 ? ? Hmg Hver Htier Hhrs Hhcap Hwx].
  unfold header_is_blank in Hb. unfold read_header. cbn [sys_ok sys_open sys_fstat sys_pread_fails].
  assert (Hlen : kHeaderSize <= zlen f) by (unfold kHeaderSize in *; nia).
  replace (zlen f =? 0) with false by (unfold kHeaderSize in *; lia).
  assert (Hlt : (zlen f <? kHeaderSize) = false) by lia.
  rewrite Hlt in Hb |- *. cbn [orb] in Hb |- *. rewrite Hb.
  rewrite Hmg, bool_decide_true by done. rewrite Hver, Z.eqb_refl. cbn [negb].
  rewrite Htier, Hhrs, Hhcap, Hwx. cbn [h_record_size h_capacity].
  replace (rs =? 0) with false by lia. replace (cap =? 0) with false by lia. cbn [orb].
  rewrite (file_bytes_exact tier) by (split_and!; (done || lia)).
  replace (zlen f =? kHeaderSize + rs * cap) with true by lia.
  rewrite Hlen0. replace ((kHeaderSize + rs * cap - kHeaderSize) / rs) with cap
    by (rewrite Z.add_simpl_l, Z.mul_comm, Z.div_mul; lia).
  by rewrite Z.ltb_irrefl.
Qed.

(** With the index up to date nothing is found past it: the slot there is
    blank, or holds the oldest record. *)
Lemma count_unindexed_none r f ss clock now :
  ring_samples r f ss -> zlen ss + 1 < 2 ^ 64 -> times_after 0 ss -> write_index r f = zlen ss ->
  count_unindexed no_io clock r f now = 0.
Proof.
  intros Hr Hm Ht Hwi. destruct (ring_samples_facts _ _ _ Hr) as (Hfd & Hw & Hrs & Hc & Hf).
  pose proof (zlen_nonneg ss) as Hpos.
  unfold count_unindexed. rewrite Hwi. replace (capacity_ r =? 0) with false by lia. cbv zeta.
  set (cap := capacity_ r) in *.
  assert (Hread : forall i s, ss !! Z.to_nat i = Some s -> 0 <= i -> zlen ss - cap <= i ->
    unindexed_read no_io r f i = Some s).
  { intros i s Hi H0 Hge. rewrite (unindexed_read_slot r f (zlen ss)) by done.
    rewrite (ring_samples_slot _ _ _ _ s Hr) by done.
    destruct Hr as (_ & _ & Hall & _). rewrite Forall_lookup in Hall. specialize (Hall _ _ Hi).
    destruct (encode_record_ok _ _ Hall) as (_ & _ & ->). by destruct Hall as (_ & _ & -> & _). }
  destruct (Z.to_nat cap) as [| n] eqn:En; [lia |]. cbn [unindexed_run].
  rewrite Z.add_0_r. unfold u64 at 1. rewrite wrap_small by (split; lia).
  destruct (Z.lt_ge_cases (zlen ss) cap) as [Hlt | Hge].
  - rewrite (unindexed_read_slot r f (zlen ss)) by done.
    destruct Hr as (_ & _ & _ & Hz). fold cap in Hz. rewrite Hz by lia. by rewrite zero_record_invalid.
  - assert (Hmod : forall i, unindexed_read no_io r f i = unindexed_read no_io r f (i - cap)).
    { intros i. unfold unindexed_read. fold cap. do 2 f_equal.
      rewrite <- (Z.mod_add (i - cap) 1) by lia. by replace (i - cap + 1 * cap) with i by lia. }
    destruct (lookup_lt_is_Some_2 ss (Z.to_nat (zlen ss - cap))) as [s Hs]; [unfold zlen in *; lia |].
    destruct (lookup_lt_is_Some_2 ss (Z.to_nat (zlen ss - 1))) as [l Hl]; [unfold zlen in *; lia |].
    rewrite Hmod, (Hread _ s Hs) by lia.
    replace (zlen ss <? cap) with false by lia. rewrite En. cbn [newest_indexed_ts].
    rewrite Z.sub_0_r. unfold u64. rewrite wrap_small by (split; lia).
    rewrite (Hread _ l Hl) by lia.
    assert (timestamp_nanos s <= timestamp_nanos l).
    { destruct (decide (zlen ss - cap = zlen ss - 1)) as [E | Hne]; [rewrite E in Hs; simplify_eq; lia |].
      pose proof (take_drop (Z.to_nat (zlen ss - 1)) ss) as Hsplit.
      apply Z.lt_le_incl. rewrite <- Hsplit in Ht.
      eapply (times_after_app 0 _ _ Ht).
      - apply (list_elem_of_lookup_2 _ (Z.to_nat (zlen ss - cap))). rewrite lookup_take_lt by lia. done.
      - apply (list_elem_of_lookup_2 _ 0). rewrite lookup_drop, Nat.add_0_r. done. }
    by replace (timestamp_nanos s <=? timestamp_nanos l) with true by lia.
Qed.

Lemma times_after_drop t n ss : times_after t ss -> times_after t (drop n ss).
Proof.
  unfold times_after. intros H. inversion H as [| ? ? Hs Ha]; subst. rewrite <- skipn_map. constructor.
  - clear H Ha. revert ss Hs. induction n as [| n IH]; intros ss Hs; [by rewrite drop_0 |].
    destruct ss; [done |]. simpl in *. inversion Hs. by apply IH.
  - by apply Forall_drop.
Qed.

Lemma last_time_drop t n ss : (n < length ss)%nat -> last_time t (drop n ss) = last_time t ss.
Proof.
  intros Hn. unfold last_time. rewrite !last_lookup, length_drop, lookup_drop. do 3 f_equal. lia.
Qed.

(** The ring as fsck has it open. *)
Lemma ring_samples_reopen r f ss ro :
  ring_samples r f ss ->
  ring_samples (mkRingFile true ro (tier_ r) 0 true record_size_for_sample (capacity_ r) (zlen ss) (zlen ss))
    f ss.
Proof.
  intros Hr. destruct (ring_samples_facts _ _ _ Hr) as (_ & Hw & Hrs & Hc & Hf).
  destruct Hr as ([_ [_ Hh]] & _ & Hall & Hz). rewrite Hrs in Hh.
  split; [| by split_and!]. split; [by split_and! |]. split; [by rewrite zlen_map | done].
Qed.

(** fsck accepts every ring the daemon writes.  On a ring that holds
    samples in time order (one that has wrapped or one that has not),
    check_ring() returns 0, counts each of the newest [capacity] records once
    as valid, finds no damaged, misplaced, out-of-order or unindexed record,
    reports the oldest and the newest time kept, says there are no errors, and
    leaves the file's bytes alone, with and without --repair. *)
Theorem check_ring_accepts_healthy (r : RingFile) (f : bytes) (ss : list Sample)
    (clock now : Z) (repair : bool) :
  ring_samples r f ss -> tier_ r ∈ [1; 2; 3; kCustomRingTier] -> zlen ss + 1 < 2 ^ 64 ->
  times_after 0 ss ->
  let count := Z.min (zlen ss) (capacity_ r) in
  exists c, check_ring sys_ok sys_ok no_io clock (Some f) repair now = (0, c, Some f) /\
    errors c = false /\ records c = count /\ valid c = count /\ out_of_order c = 0 /\
    unindexed c = 0 /\ damaged_slots c = [] /\ last_ts c = last_time 0 ss /\
    first_ts c = default 0 (timestamp_nanos <$> ss !! Z.to_nat (zlen ss - count)).
Proof.
  intros Hr Htier Hm Ht count.
  destruct (ring_samples_facts _ _ _ Hr) as (_ & Hw & Hrs & Hc & Hf).
  pose proof (ring_samples_reopen r f ss (negb repair) Hr) as Hr1.
  set (r1 := mkRingFile true (negb repair) (tier_ r) 0 true record_size_for_sample (capacity_ r)
               (zlen ss) (zlen ss)) in *.
  assert (Hwi : write_index r1 f = zlen ss).
  { unfold write_index, r1. simpl. destruct repair; [done |]. simpl. apply Hf. }
  pose proof (zlen_nonneg ss) as Hnn. pose proof Hf as [_ _ _ _ Hlen _ _ _ _ _ _ _ _].
  set (ks := drop (Z.to_nat (zlen ss - count)) ss).
  assert (Hks : zlen ks = count) by (unfold ks, zlen; rewrite length_drop; unfold zlen in *; lia).
  unfold check_ring. rewrite (read_header_existing _ _ _ _ _ Hf). cbn [h_tier h_record_size h_capacity].
  rewrite !Z.eqb_refl. cbn [negb].
  replace (_ && _) with false
    by (symmetry; rewrite !elem_of_cons in Htier; destruct Htier as [-> | [-> | [-> | [-> | Hn]]]];
        [done .. | by apply elem_of_nil in Hn]).
  rewrite (open_existing _ _ _ _ _ (negb repair) Hf). fold r1. rewrite Z.eqb_refl. cbn [negb].
  change (default [] (Some f)) with f.
  change (capacity_ r1) with (capacity_ r). rewrite Hwi. cbv zeta.
  replace (if zlen ss <? capacity_ r then zlen ss else capacity_ r) with count
    by (unfold count; destruct (zlen ss <? capacity_ r) eqn:E; bool_facts; lia).
  replace (Z.to_nat (zlen ss - (zlen ss - count))) with (length ks) by (unfold zlen in *; lia).
  match goal with |- context [check_records _ _ _ _ _ _ _ _ ?l (?c, 0)] =>
    destruct (check_records_healthy no_io r1 f (tier_ r) record_size_for_sample (capacity_ r) now ks l c 0)
      as (c' & max' & E & H) end; try done.
  - intros j s Hj. unfold ks in Hj. rewrite lookup_drop in Hj.
    rewrite (record_in_slot_read record_size_for_sample (capacity_ r)); try (done || lia).
    f_equal. apply (ring_samples_slot r1 f ss); [done | | lia | unfold r1; simpl; lia].
    rewrite <- Hj. f_equal. lia.
  - apply Forall_drop. apply Hr.
  - by apply times_after_drop.
  - by left.
  - rewrite E. rewrite (count_unindexed_none r1 f ss clock 0) by done.
    rewrite andb_false_r. cbn in H. rewrite Hks in H.
    destruct H as (Hh & Hu & Hn & Ho & Hrec & Hval & Hdm & Hwl & Hre & Hoo & Hds & Hlt & Hft).
    eexists. split; [reflexivity |]. unfold errors, errors_but_unindexed. cbn.
    rewrite Hh, Hu, Hn, Ho, Hdm, Hwl, Hre, Hlt, Hft, Hoo. split_and!; try (done || lia).
    + destruct (decide (ss = [])) as [E0 | Hne]; [unfold ks; by rewrite E0, drop_nil |]. apply last_time_drop.
      destruct ss; [done |]. unfold count, zlen in *. simpl in *. lia.
    + unfold ks. rewrite head_lookup, lookup_drop, Nat.add_0_r. done.
Qed.

(** ** The conversion *)

Lemma encode_record_bytes s :
  is_bytes (encode_record s) /\ zlen (encode_record s) = record_size_for_sample.
Proof.
  unfold encode_record. rewrite record_encode_shape by (vm_compute; discriminate). split.
  - rewrite !is_bytes_app. split_and!; try apply le_bytes_is_bytes; try apply enc_version_is_bytes.
    + constructor; [by apply wrap_range | constructor].
    + by destruct (folded s); apply (bool_decide_unpack _).
  - rewrite !zlen_app, zlen_le_put_u64, zlen_le_put_u32, zlen_enc_version by lia. reflexivity.
Qed.

(** The records of the old ring the loop goes over, as they lie in its slots. *)
Definition raw_records (rs cap : Z) (f : bytes) (first : Z) (n : nat) : list bytes :=
  map (record_in_slot rs cap f) (seqZ first (Z.of_nat n)).

Lemma raw_records_cons rs cap f first n :
  raw_records rs cap f first (S n) =
  record_in_slot rs cap f first :: raw_records rs cap f (first + 1) n.
Proof.
  unfold raw_records. rewrite seqZ_cons by lia. simpl.
  do 3 f_equal; lia.
Qed.

Lemma convert_loop_log old old_f tier rs cap w n :
  fd_ old = true -> record_size_ old = rs -> capacity_ old = cap -> file_ok tier rs cap w old_f ->
  forall logical i out out_f log kept dropped,
  ring_log out out_f log -> read_only_ out = false -> record_size_ out = record_size_for_sample ->
  zlen log + Z.of_nat n < 2 ^ 64 ->
  let ds := omap decode_record (raw_records rs cap old_f logical n) in
  exists out' out_f',
    convert_loop convert_ok old old_f cap n logical i out out_f kept dropped =
      (0, out_f', kept + zlen ds, dropped + (Z.of_nat n - zlen ds)) /\
    ring_log out' out_f' (log ++ map encode_record ds) /\
    tier_ out' = tier_ out /\ capacity_ out' = capacity_ out /\
    record_size_ out' = record_size_for_sample.
Proof.
  intros Hfd Hrs Hcap Hf. pose proof Hf as [Hr0 Hc0 _ _ Hlen _ _ _ _ _ _ _ _].
  induction n as [| n IH]; intros logical i out out_f log kept dropped Hl Hro Hsz Hm ds.
  { exists out, out_f. unfold ds, raw_records. rewrite seqZ_nil by lia. simpl.
    change (zlen []) with 0. rewrite app_nil_r. split_and!; try done. f_equal; first [lia | f_equal; lia]. }
  unfold ds. rewrite raw_records_cons. cbn [omap list_omap convert_loop].
  rewrite Hrs. change (cv_read_fails convert_ok) with no_io.
  rewrite (record_in_slot_read rs cap) by (done || lia).
  destruct (decode_record (record_in_slot rs cap old_f logical)) as [s |] eqn:Hd.
  - rewrite record_encode_some. destruct (encode_record_bytes s) as [Hb Hz].
    destruct (append_log 0 out out_f log (encode_record s))
      as (o1 & f1 & Ha & Hl1 & Hro1 & Hs1 & Hc1 & Ht1); [lia | done | done | lia | done | lia |].
    rewrite Hsz in Ha. change (cv_write convert_ok i) with (WrOk record_size_for_sample). rewrite Ha, Z.eqb_refl. cbn [negb].
    destruct (IH (logical + 1) (i + 1) o1 f1 (log ++ [encode_record s]) (kept + 1) dropped)
      as (o2 & f2 & E2 & Hl2 & H2); [done | done | lia | rewrite zlen_app; change (zlen [_]) with 1; lia |].
    exists o2, f2. rewrite E2. rewrite zlen_cons. cbn [map].
    rewrite <- app_assoc in Hl2. destruct H2 as (-> & -> & ->).
    split_and!; try done. f_equal; first [lia | f_equal; lia].
  - destruct (IH (logical + 1) i out out_f log kept (dropped + 1)) as (o2 & f2 & E2 & Hl2 & H2);
      [done | done | done | lia |].
    exists o2, f2. rewrite E2. split; [| by split]. f_equal; first [lia | f_equal; lia].
Qed.

(** C17: convert_ring() keeps the newest records.  On any ring file with a valid
    header (whatever its record size and capacity), when nothing fails, the
    file at the path becomes a ring of this version's records at the new
    capacity which holds, in order and re-encoded, exactly those records among
    the newest that fit (records a crash left unindexed included) which decode;
    every record is accounted for as kept or dropped. *)
Theorem convert_ring_keeps_newest (f : bytes) (otier rs cap w tier capacity clock : Z) :
  file_ok otier rs cap w f -> ring_params tier record_size_for_sample capacity -> w + cap < 2 ^ 64 ->
  let old := mkRingFile true true otier 0 true rs cap w w in
  let unidx := count_unindexed no_io clock old f 0 in
  let total := Z.min (Z.min w cap + unidx) cap in
  let n := Z.min total capacity in
  let ds := omap decode_record (raw_records rs cap f (w + unidx - n) (Z.to_nat n)) in
  exists r f', convert_ring convert_ok clock (Some f) tier record_size_for_sample capacity =
      (0, Some f', zlen ds, total - zlen ds) /\
    ring_log r f' (map encode_record ds) /\ tier_ r = tier /\ capacity_ r = capacity /\
    record_size_ r = record_size_for_sample.
Proof.
  intros Hf Hp Hw old unidx total n ds.
  pose proof Hf as [Hr0 Hc0 _ [Hw0 Hw1] Hlen _ _ _ _ _ _ _ Hwx].
  assert (Hwi : write_index old f = w) by exact Hwx.
  assert (Hun : 0 <= unidx <= cap).
  { unfold unidx, count_unindexed. change (capacity_ old) with cap. rewrite Hwi.
    replace (cap =? 0) with false by lia. cbv zeta.
    match goal with |- context [unindexed_run ?a ?b ?c ?d 0 ?e] =>
      destruct (unindexed_run_spec a b c d 0 e) as (ss & -> & Hl & _) end.
    unfold zlen. lia. }
  unfold convert_ring. change (cv_header convert_ok) with sys_ok.
  change (cv_old convert_ok) with sys_ok. change (cv_new convert_ok) with sys_ok.
  rewrite (read_header_existing _ _ _ _ _ Hf). cbn [h_tier h_record_size h_capacity Z.eqb negb].
  unfold open_read_only. rewrite (open_existing _ _ _ _ _ true Hf). cbn [Z.eqb negb]. fold old.
  destruct (fresh_ring_samples None tier capacity Hp I) as (out & fo & -> & [Hl0 [Hrs0 _]] & Hro & Hto & Hco).
  cbn [Z.eqb negb]. change (default [] (Some f)) with f. change (default [] (Some fo)) with fo.
  rewrite Hwi. change (cv_read_fails convert_ok) with no_io. fold unidx. cbv zeta.
  set (count0 := if w <? cap then w else cap).
  assert (Hcnt : count0 = Z.min w cap) by (unfold count0; destruct (w <? cap) eqn:E; bool_facts; lia).
  set (first := if cap <? count0 + unidx then w - count0 + (count0 + unidx - cap) else w - count0).
  set (count := if cap <? count0 + unidx then cap - unidx else count0).
  assert (Htot : count + unidx = total /\ first = w + unidx - total).
  { unfold count, first, total. rewrite <- Hcnt.
    destruct (cap <? count0 + unidx) eqn:E; bool_facts; lia. }
  destruct Htot as [Htot Hfirst]. rewrite Htot.
  set (skip := if capacity <? total then total - capacity else 0).
  assert (Hskip : skip = total - n) by (unfold skip, n; destruct (capacity <? total) eqn:E; bool_facts; lia).
  assert (Hn : 0 <= n <= cap) by (destruct Hp as (_ & _ & ? & _); lia).
  replace (first + skip) with (w + unidx - n) by lia.
  replace (w + unidx - (w + unidx - n)) with n by lia.
  destruct (convert_loop_log old f otier rs cap w (Z.to_nat n) eq_refl eq_refl eq_refl Hf
    (w + unidx - n) 0 out fo [] 0 0) as (o & f' & E & Hl & H); [done | done | done | change (zlen []) with 0; lia |].
  fold ds in E, Hl. exists o, f'. rewrite E.
  cbn [first_rc Z.eqb cv_sync_tmp cv_rename cv_sync_dir convert_ok].
  split; [| rewrite Hto, Hco in H; by split]. f_equal; first [lia | f_equal; lia].
Qed.


(** append() keeps a ring of samples one. *)
Lemma ring_samples_append r f ss s :
  ring_samples r f ss -> read_only_ r = false -> storable (tier_ r) s -> zlen ss + 1 < 2 ^ 64 ->
  exists r' f', append (WrOk record_size_for_sample) (Some (encode_record s)) r f = (0, r', f') /\
    ring_samples r' f' (ss ++ [s]) /\ read_only_ r' = false /\
    capacity_ r' = capacity_ r /\ tier_ r' = tier_ r.
Proof.
  intros Hr Hro Hs Hm. destruct (encode_record_ok _ _ Hs) as (Hb & Hl & _).
  destruct (ring_samples_facts _ _ _ Hr) as (Hfd & Hw & Hrs & Hc & Hf).
  pose proof Hr as (Hlog & _ & Hall & Hz).
  destruct (append_log 0 r f _ (encode_record s) ltac:(lia) Hlog Hro)
    as (r' & f' & Ha & Hlog' & Hro' & Hrs' & Hc' & Ht'); [congruence | done | rewrite zlen_map; lia |].
  rewrite Hrs in Ha. exists r', f'. split; [done |]. split; [| done].
  split; [by rewrite map_app |]. split; [congruence |]. split.
  - rewrite Ht'. apply Forall_app. split; [done |]. by constructor.
  - intros i Hi. rewrite zlen_app in Hi. change (zlen [s]) with 1 in Hi. rewrite Hc' in Hi |- *.
    pose proof (zlen_nonneg ss). unfold append in Ha. rewrite Hfd, Hro, Hl, Hrs, Z.eqb_refl in Ha.
    cbn [negb orb] in Ha. rewrite ?Z.eqb_refl in Ha. injection Ha as _ <-.
    unfold append_pwrite, file_pwrite. rewrite ztake_all, Hw, Hrs by lia.
    pose proof Hf as [_ _ _ _ Hlen _ _ _ _ _ _ _ _].
    pose proof (mod_slot_range (zlen ss) (capacity_ r) ltac:(lia)).
    destruct (slot_offset_range record_size_for_sample (capacity_ r) (zlen ss mod capacity_ r)) as [H1 H2];
      [reflexivity | lia |].
    assert (Hpos : 0 < record_size_for_sample) by reflexivity.
    rewrite record_in_slot_store_index; [| reflexivity | lia | rewrite zlen_splice; unfold kHeaderSize in *; lia].
    rewrite record_in_slot_write_other; [apply Hz; lia | reflexivity | lia | done | lia |].
    apply not_eq_sym, mod_slot_inj; lia.
Qed.

(** A ring of four slots with one sample in it, for the witnesses. *)
Lemma ring_ex : exists r f, ring_samples r f [sample_ex] /\ tier_ r = 1 /\ capacity_ r = 4.
Proof.
  destruct (fresh_ring_samples None 1 4) as (r & f & _ & Hr & Hro & Ht & Hc).
  - split; [split; lia |]. split; [vm_compute; intuition discriminate |]. split; [lia |]. vm_compute. reflexivity.
  - exact I.
  - destruct (ring_samples_append r f [] sample_ex) as (r' & f' & _ & H & _ & Hc' & Ht');
      [exact Hr | exact Hro | rewrite Ht; apply storable_ex | reflexivity |].
    exists r', f'. split; [exact H |]. split; congruence.
Defined.

Lemma check_ring_accepts_healthy_witness :
  exists r f, ring_samples r f [sample_ex] /\
  exists c, check_ring sys_ok sys_ok no_io 0 (Some f) true 0 = (0, c, Some f) /\
    errors c = false /\ records c = 1 /\ valid c = 1.
Proof.
  destruct ring_ex as (r & f & Hr & Ht & Hc). exists r, f. split; [exact Hr |].
  destruct (check_ring_accepts_healthy r f [sample_ex] 0 0 true) as (c & H1 & H2 & H3 & H4 & _).
  - exact Hr.
  - rewrite Ht. left.
  - reflexivity.
  - repeat constructor.
  - rewrite Hc in H3, H4. exists c. split; [exact H1 |]. split; [exact H2 |]. split; [exact H3 | exact H4].
Defined.

Lemma convert_ring_keeps_newest_witness :
  exists f, file_ok 1 record_size_for_sample 4 1 f /\
  exists r f' kept dropped,
    convert_ring convert_ok 0 (Some f) 1 record_size_for_sample 2 = (0, Some f', kept, dropped) /\
    capacity_ r = 2 /\ ring_ok r f'.
Proof.
  destruct ring_ex as (r0 & f & Hr & Ht & Hc).
  destruct (ring_samples_facts r0 f [sample_ex] Hr) as (_ & _ & _ & _ & Hf).
  rewrite Ht, Hc in Hf. change (zlen [sample_ex]) with 1 in Hf.
  exists f. split; [exact Hf |].
  destruct (convert_ring_keeps_newest f 1 record_size_for_sample 4 1 1 2 0) as (r & f' & E & Hl & _ & Hc' & _).
  - exact Hf.
  - split; [split; lia |]. split; [vm_compute; intuition discriminate |]. split; [lia |]. vm_compute. reflexivity.
  - reflexivity.
  - exists r, f'. eexists _, _. split; [exact E |]. split; [exact Hc' |]. exact (proj1 Hl).
Defined.
