(* ===== verification/TierAggregator.v ===== *)
(** Folding a window of samples into one coarser record
    (src/storage/tier_aggregator.h, src/storage/tier_aggregator.cpp).  The
    accumulator is the class's fields; the reference is a function of the whole
    window that says, per field, mean, maximum, minimum, sum, any, all or last,
    each over the samples that carry the field's group. *)
From Stdlib Require Import ZArith Lia List Bool.
From stdpp Require Import base numbers list.
From S2P Require Import Prelude Float64 Sample SampleCodec.
Open Scope Z_scope.

Definition kGroupCount : Z := 17.

(** [static_cast<uint64_t>(std::llround(sum * inv_n))] *)
Definition mean_u64 (sum inv_n : f64) : Z := u64 (f64_llround (f64_mul sum inv_n)).

Record TierAggregator := mkTierAggregator {
  out_level_ : Level;
  n_ : Z;
  first_ts_ : Z;
  group_n_ : list Z;
  cpu_total_percent_sum_ : f64;
  mem_available_sum_ : f64;
  mem_available_percent_sum_ : f64;
  swap_used_sum_ : f64;
  swap_used_percent_sum_ : f64;
  load_1m_sum_ : f64;
  load_5m_sum_ : f64;
  load_15m_sum_ : f64;
  disk_read_sum_ : f64;
  disk_write_sum_ : f64;
  net_rx_sum_ : f64;
  net_tx_sum_ : f64;
  cpu_part_sum_ : list f64;
  tcp_rate_sum_ : list f64;
  udp_rate_sum_ : list f64;
  icmp_rate_sum_ : list f64;
  proc_total_max_ : Z;
  proc_running_max_ : Z;
  thermal_max_ : f64;
  rss_max_ : Z;
  entropy_min_ : Z;
  file_events_sum_ : Z;
  entropy_present_ : bool;
  thermal_present_ : bool;
  file_watch_present_ : bool;
  proc_max_ : ProcessStats;
  tcp_ : TcpStats;
  udp_present_ : bool;
  icmp_present_ : bool;
  fs_max_ : FsStats;
  clock_ : ClockStats;
  last_ : Sample
}.

Definition reset (out_level : Level) : TierAggregator :=
  mkTierAggregator out_level 0 0 (replicate (Z.to_nat kGroupCount) 0)
    0 0 0 0 0 0 0 0 0 0 0 0
    (replicate 6 0) (replicate 6 0) (replicate 4 0) (replicate 4 0)
    0 0 0 0 UINT32_MAX 0 false false false
    zero_ProcessStats zero_TcpStats false false zero_FsStats
    (mkClockStats 0 0 true false) zero_Sample.

(** [for (i < k) acc[i] += parts[i];] *)
Definition add_each (acc parts : list f64) : list f64 :=
  map (fun p => f64_add p.1 p.2) (combine acc parts).

Definition count_groups (g : Z) (counts : list Z) : list Z :=
  map (fun p => if has_group g (Z.shiftl 1 p.1) then u32 (p.2 + 1) else p.2)
    (combine (seqZ 0 kGroupCount) counts).

Definition cpu_parts (c : CpuStats) : list f64 :=
  [cpu_user_percent c; cpu_system_percent c; cpu_iowait_percent c;
   cpu_irq_percent c; cpu_steal_percent c; cpu_idle_percent c].
Definition tcp_rates (t : TcpStats) : list f64 :=
  [tcp_active_opens_per_sec t; tcp_passive_opens_per_sec t; tcp_retransmits_per_sec t;
   tcp_in_segments_per_sec t; tcp_out_segments_per_sec t; tcp_in_errors_per_sec t].
Definition udp_rates (u : UdpStats) : list f64 :=
  [udp_in_datagrams_per_sec u; udp_out_datagrams_per_sec u;
   udp_no_port_per_sec u; udp_in_errors_per_sec u].
Definition icmp_rates (i : IcmpStats) : list f64 :=
  [icmp_in_msgs_per_sec i; icmp_out_msgs_per_sec i;
   icmp_in_errors_per_sec i; icmp_in_dest_unreachs_per_sec i].

(** add()'s blocks for the groups that keep a struct. *)
Definition add_proc (m : ProcessStats) (p : ProcessStats) : ProcessStats :=
  mkProcessStats (proc_total m) (proc_running m)
    (Z.max (proc_sleeping m) (proc_sleeping p)) (Z.max (proc_blocked m) (proc_blocked p))
    (Z.max (proc_stopped m) (proc_stopped p)) (Z.max (proc_zombie m) (proc_zombie p))
    (Z.max (proc_threads m) (proc_threads p)).
Definition add_tcp (m t : TcpStats) : TcpStats :=
  mkTcpStats (Z.max (tcp_established m) (tcp_established t))
    (Z.max (tcp_time_wait m) (tcp_time_wait t))
    (tcp_active_opens_per_sec m) (tcp_passive_opens_per_sec m) (tcp_retransmits_per_sec m)
    (tcp_in_segments_per_sec m) (tcp_out_segments_per_sec m) (tcp_in_errors_per_sec m)
    (tcp_present m || tcp_present t).
Definition add_fs (m x : FsStats) : FsStats :=
  mkFsStats (fs_count m) (f64_max (fs_max_used_percent m) (fs_max_used_percent x))
    (f64_max (fs_max_inodes_used_percent m) (fs_max_inodes_used_percent x))
    (fs_present m || fs_present x).
Definition add_clock (m c : ClockStats) : ClockStats :=
  mkClockStats
    (if negb (clock_present m) || f64_gtb (f64_abs (clock_offset_ms c)) (f64_abs (clock_offset_ms m))
     then clock_offset_ms c else clock_offset_ms m)
    (f64_max (clock_max_error_ms m) (clock_max_error_ms c))
    (clock_synced m && clock_synced c) true.

(** The [last_] fields each group sets. *)
Definition add_last (s : Sample) (l : Sample) : Sample :=
  let g := groups s in
  let l := set_timestamp_nanos (timestamp_nanos s) l in
  let l := when_group g kGroupCpu (set_cpu (cpu s)) l in
  let l := when_group g kGroupMem (set_mem (mem s)) l in
  let l := when_group g kGroupSwap (set_swap (swap s)) l in
  let l := when_group g kGroupDisk (set_disk (disk s)) l in
  let l := when_group g kGroupNet (set_net (net s)) l in
  let l := when_group g kGroupSelf (set_self_ (self_ s)) l in
  let l := when_group g kGroupThermal (set_thermal (thermal s)) l in
  let l := when_group g kGroupFileWatch (set_file_watch (file_watch s)) l in
  let l := when_group g kGroupUptime (set_uptime_seconds (uptime_seconds s)) l in
  when_group g kGroupFs (set_fs (fs s)) l.

Definition add (s : Sample) (a : TierAggregator) : TierAggregator :=
  let has bit := has_group (groups s) bit in
  let sum bit acc x := if has bit then f64_add acc x else acc in
  let thermal_on := has kGroupThermal && thermal_present (thermal s) in
  let entropy_on := has kGroupEntropy && entropy_present (entropy s) in
  mkTierAggregator (out_level_ a)
    (u64 (n_ a + 1))
    (if n_ a =? 0 then timestamp_nanos s else first_ts_ a)
    (count_groups (groups s) (group_n_ a))
    (sum kGroupCpu (cpu_total_percent_sum_ a) (cpu_total_percent (cpu s)))
    (sum kGroupMem (mem_available_sum_ a) (f64_of_Z (mem_available (mem s))))
    (sum kGroupMem (mem_available_percent_sum_ a) (mem_available_percent (mem s)))
    (sum kGroupSwap (swap_used_sum_ a) (f64_of_Z (swap_used (swap s))))
    (sum kGroupSwap (swap_used_percent_sum_ a) (swap_used_percent (swap s)))
    (sum kGroupLoad (load_1m_sum_ a) (load_avg_1m (load s)))
    (sum kGroupLoad (load_5m_sum_ a) (load_avg_5m (load s)))
    (sum kGroupLoad (load_15m_sum_ a) (load_avg_15m (load s)))
    (sum kGroupDisk (disk_read_sum_ a) (f64_of_Z (disk_read_bytes_per_sec (disk s))))
    (sum kGroupDisk (disk_write_sum_ a) (f64_of_Z (disk_write_bytes_per_sec (disk s))))
    (sum kGroupNet (net_rx_sum_ a) (f64_of_Z (net_rx_bytes_per_sec (net s))))
    (sum kGroupNet (net_tx_sum_ a) (f64_of_Z (net_tx_bytes_per_sec (net s))))
    (if has kGroupCpu then add_each (cpu_part_sum_ a) (cpu_parts (cpu s)) else cpu_part_sum_ a)
    (if has kGroupTcp then add_each (tcp_rate_sum_ a) (tcp_rates (tcp s)) else tcp_rate_sum_ a)
    (if has kGroupUdp then add_each (udp_rate_sum_ a) (udp_rates (udp s)) else udp_rate_sum_ a)
    (if has kGroupIcmp then add_each (icmp_rate_sum_ a) (icmp_rates (icmp s)) else icmp_rate_sum_ a)
    (if has kGroupProc then Z.max (proc_total_max_ a) (proc_total (proc s)) else proc_total_max_ a)
    (if has kGroupProc then Z.max (proc_running_max_ a) (proc_running (proc s)) else proc_running_max_ a)
    (if thermal_on then
       if thermal_present_ a then f64_max (thermal_max_ a) (thermal_max_celsius (thermal s))
       else thermal_max_celsius (thermal s)
     else thermal_max_ a)
    (if has kGroupSelf then Z.max (rss_max_ a) (self_rss_bytes (self_ s)) else rss_max_ a)
    (if entropy_on then Z.min (entropy_min_ a) (entropy_available_bits (entropy s)) else entropy_min_ a)
    (if has kGroupFileWatch
     then u64 (file_events_sum_ a + file_watch_events_this_tick (file_watch s)) else file_events_sum_ a)
    (if entropy_on then true else entropy_present_ a)
    (if thermal_on then true else thermal_present_ a)
    (if has kGroupFileWatch then file_watch_present_ a || file_watch_present (file_watch s)
     else file_watch_present_ a)
    (if has kGroupProc then add_proc (proc_max_ a) (proc s) else proc_max_ a)
    (if has kGroupTcp then add_tcp (tcp_ a) (tcp s) else tcp_ a)
    (if has kGroupUdp then udp_present_ a || udp_present (udp s) else udp_present_ a)
    (if has kGroupIcmp then icmp_present_ a || icmp_present (icmp s) else icmp_present_ a)
    (if has kGroupFs then add_fs (fs_max_ a) (fs s) else fs_max_ a)
    (if has kGroupClock && clock_present (clock s) then add_clock (clock_ a) (clock s) else clock_ a)
    (add_last s (last_ a)).

Definition size (a : TierAggregator) : Z := n_ a.
Definition first_timestamp (a : TierAggregator) : Z := first_ts_ a.

(** [while ((bit >> i) != 1u) ++i;] *)
Fixpoint bit_index (fuel : nat) (bit i : Z) : Z :=
  match fuel with
  | O => i
  | S fuel => if Z.shiftr bit i =? 1 then i else bit_index fuel bit (i + 1)
  end.

Definition group_inverses (counts : list Z) : list f64 :=
  map (fun c => if 0 <? c then f64_div f64_one (f64_of_Z c) else f64_zero) counts.
Definition groups_seen (counts : list Z) : Z :=
  fold_left (fun g p => if 0 <? p.2 then Z.lor g (Z.shiftl 1 p.1) else g)
    (combine (seqZ 0 kGroupCount) counts) 0.

Definition fold (out_null : bool) (a : TierAggregator) : option Sample * TierAggregator :=
  if out_null || (n_ a =? 0) then (None, reset (out_level_ a))
  else
    let inv := group_inverses (group_n_ a) in
    let inv_n bit := znth 0 inv (bit_index 32 bit 0) in
    let l := last_ a in
    let part i := f64_mul (znth 0 (cpu_part_sum_ a) i) (inv_n kGroupCpu) in
    let tcp_rate i := f64_mul (znth 0 (tcp_rate_sum_ a) i) (inv_n kGroupTcp) in
    let udp_rate i := f64_mul (znth 0 (udp_rate_sum_ a) i) (inv_n kGroupUdp) in
    let icmp_rate i := f64_mul (znth 0 (icmp_rate_sum_ a) i) (inv_n kGroupIcmp) in
    let r := mkSample (timestamp_nanos l) (out_level_ a)
      (mkCpuStats (f64_mul (cpu_total_percent_sum_ a) (inv_n kGroupCpu)) (cpu_count (cpu l))
         (part 0) (part 1) (part 2) (part 3) (part 4) (part 5))
      (mkMemStats (mem_total (mem l)) (mean_u64 (mem_available_sum_ a) (inv_n kGroupMem))
         (f64_mul (mem_available_percent_sum_ a) (inv_n kGroupMem)))
      (mkSwapStats (swap_total (swap l)) (mean_u64 (swap_used_sum_ a) (inv_n kGroupSwap))
         (f64_mul (swap_used_percent_sum_ a) (inv_n kGroupSwap)))
      (mkLoadStats (f64_mul (load_1m_sum_ a) (inv_n kGroupLoad))
         (f64_mul (load_5m_sum_ a) (inv_n kGroupLoad)) (f64_mul (load_15m_sum_ a) (inv_n kGroupLoad)))
      (mkDiskStats (mean_u64 (disk_read_sum_ a) (inv_n kGroupDisk))
         (mean_u64 (disk_write_sum_ a) (inv_n kGroupDisk)) (disk_device_count (disk l)))
      (mkNetStats (mean_u64 (net_rx_sum_ a) (inv_n kGroupNet))
         (mean_u64 (net_tx_sum_ a) (inv_n kGroupNet)) (net_interface_count (net l)))
      (mkProcessStats (proc_total_max_ a) (proc_running_max_ a) (proc_sleeping (proc_max_ a))
         (proc_blocked (proc_max_ a)) (proc_stopped (proc_max_ a)) (proc_zombie (proc_max_ a))
         (proc_threads (proc_max_ a)))
      (mkEntropyStats (if entropy_present_ a then entropy_min_ a else 0) (entropy_present_ a))
      (mkSelfStats (rss_max_ a) (self_peak_rss_bytes (self_ l)) (self_cpu_user_seconds (self_ l))
         (self_cpu_system_seconds (self_ l)))
      (mkThermalStats (if thermal_present_ a then thermal_max_ a else 0)
         (thermal_sensor_count (thermal l)) (thermal_present_ a))
      (mkFileWatchSample (u32 (Z.min (file_events_sum_ a) UINT32_MAX))
         (file_watch_watched_count (file_watch l)) (file_watch_present_ a))
      (mkTcpStats (tcp_established (tcp_ a)) (tcp_time_wait (tcp_ a)) (tcp_rate 0) (tcp_rate 1)
         (tcp_rate 2) (tcp_rate 3) (tcp_rate 4) (tcp_rate 5) (tcp_present (tcp_ a)))
      (mkUdpStats (udp_rate 0) (udp_rate 1) (udp_rate 2) (udp_rate 3) (udp_present_ a))
      (mkIcmpStats (icmp_rate 0) (icmp_rate 1) (icmp_rate 2) (icmp_rate 3) (icmp_present_ a))
      (mkFsStats (fs_count (fs l)) (fs_max_used_percent (fs_max_ a))
         (fs_max_inodes_used_percent (fs_max_ a)) (fs_present (fs_max_ a)))
      (if clock_present (clock_ a) then clock_ a
       else mkClockStats (clock_offset_ms (clock_ a)) (clock_max_error_ms (clock_ a)) false false)
      (groups_seen (group_n_ a)) (baseline l) (uptime_seconds l) true in
    (Some r, reset (out_level_ a)).

(** ** The reference: what a window of samples amounts to *)

Definition having (bit : Z) (ss : list Sample) : list Sample :=
  List.filter (fun s => has_group (groups s) bit) ss.
Definition fsum (l : list f64) : f64 := fold_left f64_add l 0.
Definition fmax (l : list f64) : f64 := fold_left f64_max l 0.
Definition zmax (l : list Z) : Z := fold_right Z.max 0 l.
Definition zsum (l : list Z) : Z := fold_right Z.add 0 l.

(** 1 / (samples that had the group). *)
Definition group_inv (bit : Z) (ss : list Sample) : f64 :=
  let n := zlen (having bit ss) in if 0 <? n then f64_div f64_one (f64_of_Z n) else f64_zero.

Definition mean (bit : Z) (field : Sample -> f64) (ss : list Sample) : f64 :=
  f64_mul (fsum (map field (having bit ss))) (group_inv bit ss).
(** A byte count's mean, rounded. *)
Definition mean_count (bit : Z) (field : Sample -> Z) (ss : list Sample) : Z :=
  u64 (f64_llround (mean bit (fun s => f64_of_Z (field s)) ss)).
Definition highest (bit : Z) (field : Sample -> Z) (ss : list Sample) : Z :=
  zmax (map field (having bit ss)).
Definition any (bit : Z) (field : Sample -> bool) (ss : list Sample) : bool :=
  existsb field (having bit ss).
Definition newest {A} (bit : Z) (field : Sample -> A) (d : A) (ss : list Sample) : A :=
  default d (field <$> last (having bit ss)).

(** The hottest of the sensors present; the clock's largest deviation. *)
Definition hottest (l : list f64) : f64 :=
  match l with [] => 0 | x :: l => fold_left f64_max l x end.
Definition farther (o x : f64) : f64 := if f64_gtb (f64_abs x) (f64_abs o) then x else o.
Definition farthest (l : list f64) : f64 :=
  match l with [] => 0 | x :: l => fold_left farther l x end.

Definition thermals (ss : list Sample) : list ThermalStats :=
  List.filter thermal_present (map thermal (having kGroupThermal ss)).
Definition entropies (ss : list Sample) : list EntropyStats :=
  List.filter entropy_present (map entropy (having kGroupEntropy ss)).
Definition clocks (ss : list Sample) : list ClockStats :=
  List.filter clock_present (map clock (having kGroupClock ss)).
Definition nonempty {A} (l : list A) : bool := match l with [] => false | _ => true end.

Definition window_summary (lv : Level) (ss : list Sample) : Sample :=
  let cpu_mean f := mean kGroupCpu (fun s => f (cpu s)) ss in
  let proc_max f := highest kGroupProc (fun s => f (proc s)) ss in
  let tcp_mean f := mean kGroupTcp (fun s => f (tcp s)) ss in
  let udp_mean f := mean kGroupUdp (fun s => f (udp s)) ss in
  let icmp_mean f := mean kGroupIcmp (fun s => f (icmp s)) ss in
  mkSample (default 0 (timestamp_nanos <$> last ss)) lv
    (mkCpuStats (cpu_mean cpu_total_percent) (newest kGroupCpu (fun s => cpu_count (cpu s)) 0 ss)
       (cpu_mean cpu_user_percent) (cpu_mean cpu_system_percent) (cpu_mean cpu_iowait_percent)
       (cpu_mean cpu_irq_percent) (cpu_mean cpu_steal_percent) (cpu_mean cpu_idle_percent))
    (mkMemStats (newest kGroupMem (fun s => mem_total (mem s)) 0 ss)
       (mean_count kGroupMem (fun s => mem_available (mem s)) ss)
       (mean kGroupMem (fun s => mem_available_percent (mem s)) ss))
    (mkSwapStats (newest kGroupSwap (fun s => swap_total (swap s)) 0 ss)
       (mean_count kGroupSwap (fun s => swap_used (swap s)) ss)
       (mean kGroupSwap (fun s => swap_used_percent (swap s)) ss))
    (mkLoadStats (mean kGroupLoad (fun s => load_avg_1m (load s)) ss)
       (mean kGroupLoad (fun s => load_avg_5m (load s)) ss)
       (mean kGroupLoad (fun s => load_avg_15m (load s)) ss))
    (mkDiskStats (mean_count kGroupDisk (fun s => disk_read_bytes_per_sec (disk s)) ss)
       (mean_count kGroupDisk (fun s => disk_write_bytes_per_sec (disk s)) ss)
       (newest kGroupDisk (fun s => disk_device_count (disk s)) 0 ss))
    (mkNetStats (mean_count kGroupNet (fun s => net_rx_bytes_per_sec (net s)) ss)
       (mean_count kGroupNet (fun s => net_tx_bytes_per_sec (net s)) ss)
       (newest kGroupNet (fun s => net_interface_count (net s)) 0 ss))
    (mkProcessStats (proc_max proc_total) (proc_max proc_running) (proc_max proc_sleeping)
       (proc_max proc_blocked) (proc_max proc_stopped) (proc_max proc_zombie) (proc_max proc_threads))
    (mkEntropyStats
       (if nonempty (entropies ss)
        then fold_right Z.min UINT32_MAX (map entropy_available_bits (entropies ss)) else 0)
       (nonempty (entropies ss)))
    (mkSelfStats (highest kGroupSelf (fun s => self_rss_bytes (self_ s)) ss)
       (newest kGroupSelf (fun s => self_peak_rss_bytes (self_ s)) 0 ss)
       (newest kGroupSelf (fun s => self_cpu_user_seconds (self_ s)) 0 ss)
       (newest kGroupSelf (fun s => self_cpu_system_seconds (self_ s)) 0 ss))
    (mkThermalStats (hottest (map thermal_max_celsius (thermals ss)))
       (newest kGroupThermal (fun s => thermal_sensor_count (thermal s)) 0 ss) (nonempty (thermals ss)))
    (mkFileWatchSample
       (Z.min (zsum (map (fun s => file_watch_events_this_tick (file_watch s)) (having kGroupFileWatch ss)))
          UINT32_MAX)
       (newest kGroupFileWatch (fun s => file_watch_watched_count (file_watch s)) 0 ss)
       (any kGroupFileWatch (fun s => file_watch_present (file_watch s)) ss))
    (mkTcpStats (highest kGroupTcp (fun s => tcp_established (tcp s)) ss)
       (highest kGroupTcp (fun s => tcp_time_wait (tcp s)) ss)
       (tcp_mean tcp_active_opens_per_sec) (tcp_mean tcp_passive_opens_per_sec)
       (tcp_mean tcp_retransmits_per_sec) (tcp_mean tcp_in_segments_per_sec)
       (tcp_mean tcp_out_segments_per_sec) (tcp_mean tcp_in_errors_per_sec)
       (any kGroupTcp (fun s => tcp_present (tcp s)) ss))
    (mkUdpStats (udp_mean udp_in_datagrams_per_sec) (udp_mean udp_out_datagrams_per_sec)
       (udp_mean udp_no_port_per_sec) (udp_mean udp_in_errors_per_sec)
       (any kGroupUdp (fun s => udp_present (udp s)) ss))
    (mkIcmpStats (icmp_mean icmp_in_msgs_per_sec) (icmp_mean icmp_out_msgs_per_sec)
       (icmp_mean icmp_in_errors_per_sec) (icmp_mean icmp_in_dest_unreachs_per_sec)
       (any kGroupIcmp (fun s => icmp_present (icmp s)) ss))
    (mkFsStats (newest kGroupFs (fun s => fs_count (fs s)) 0 ss)
       (fmax (map (fun s => fs_max_used_percent (fs s)) (having kGroupFs ss)))
       (fmax (map (fun s => fs_max_inodes_used_percent (fs s)) (having kGroupFs ss)))
       (any kGroupFs (fun s => fs_present (fs s)) ss))
    (mkClockStats (farthest (map clock_offset_ms (clocks ss))) (fmax (map clock_max_error_ms (clocks ss)))
       (nonempty (clocks ss) && forallb clock_synced (clocks ss)) (nonempty (clocks ss)))
    (Z.land (fold_right Z.lor 0 (map groups ss)) kGroupsAll) 0
    (newest kGroupUptime uptime_seconds 0 ss) true.

Definition add_all (lv : Level) (ss : list Sample) : TierAggregator :=
  fold_left (fun a s => add s a) ss (reset lv).

(** ** Each accumulator as a fold of its own *)

Lemma fold_field {B} (proj : TierAggregator -> B) (h : B -> Sample -> B) ss a :
  (forall a s, proj (add s a) = h (proj a) s) ->
  proj (fold_left (fun a s => add s a) ss a) = fold_left h ss (proj a).
Proof.
  intros H. revert a. induction ss as [| s ss IH]; intros a; [done |].
  rewrite !fold_left_cons, IH, H. done.
Qed.

Lemma fold_left_filter {A B} (p : A -> bool) (f : B -> A -> B) l b :
  fold_left (fun b x => if p x then f b x else b) l b = fold_left f (List.filter p l) b.
Proof.
  revert b. induction l as [| x l IH]; intros b; [done |]. simpl. by destruct (p x).
Qed.

Lemma fold_left_map {A B C} (g : A -> B) (f : C -> B -> C) l c :
  fold_left (fun c x => f c (g x)) l c = fold_left f (map g l) c.
Proof. revert c. induction l as [| x l IH]; intros c; [done |]. apply IH. Qed.

Lemma fold_group {B} (proj : TierAggregator -> B) bit (f : B -> Sample -> B) lv ss :
  (forall a s, proj (add s a) = if has_group (groups s) bit then f (proj a) s else proj a) ->
  proj (add_all lv ss) = fold_left f (having bit ss) (proj (reset lv)).
Proof.
  intros H. unfold add_all, having.
  rewrite (fold_field proj (fun b s => if has_group (groups s) bit then f b s else b)) by done.
  apply (fold_left_filter (fun s => has_group (groups s) bit)).
Qed.

(** A sum kept for the samples of one group. *)
Lemma fold_group_sum (proj : TierAggregator -> f64) bit field lv ss :
  (forall a s, proj (add s a) = if has_group (groups s) bit then f64_add (proj a) (field s) else proj a) ->
  proj (reset lv) = 0 ->
  proj (add_all lv ss) = fsum (map field (having bit ss)).
Proof.
  intros H H0. rewrite (fold_group proj bit (fun b s => f64_add b (field s))), H0 by done.
  apply (fold_left_map field f64_add).
Qed.

Lemma fold_left_zmax l : forall acc, 0 <= acc -> fold_left Z.max l acc = Z.max acc (zmax l).
Proof.
  induction l as [| x l IH]; intros acc Ha; simpl; [lia |]. rewrite IH by lia. lia.
Qed.

Lemma zmax_nonneg l : 0 <= zmax l.
Proof. induction l; simpl; lia. Qed.

Lemma fold_group_max (proj : TierAggregator -> Z) bit field lv ss :
  (forall a s, proj (add s a) = if has_group (groups s) bit then Z.max (proj a) (field s) else proj a) ->
  proj (reset lv) = 0 ->
  proj (add_all lv ss) = highest bit field ss.
Proof.
  intros H H0. rewrite (fold_group proj bit (fun b s => Z.max b (field s))), H0 by done.
  rewrite (fold_left_map field Z.max), fold_left_zmax by done. unfold highest.
  pose proof (zmax_nonneg (map field (having bit ss))). lia.
Qed.

Lemma fold_group_any (proj : TierAggregator -> bool) bit field lv ss :
  (forall a s, proj (add s a) = if has_group (groups s) bit then proj a || field s else proj a) ->
  proj (reset lv) = false ->
  proj (add_all lv ss) = any bit field ss.
Proof.
  intros H H0. rewrite (fold_group proj bit (fun b s => b || field s)), H0 by done. unfold any.
  change (existsb field (having bit ss)) with (false || existsb field (having bit ss)).
  generalize false. induction (having bit ss) as [| x l IH]; intros b; simpl; [by rewrite orb_false_r |].
  by rewrite IH, orb_assoc.
Qed.

(** A field of [last_] that one group sets. *)
Lemma fold_group_last {A} (field : Sample -> A) bit lv ss :
  (forall a s, field (last_ (add s a)) = if has_group (groups s) bit then field s else field (last_ a)) ->
  field (last_ (add_all lv ss)) = newest bit field (field zero_Sample) ss.
Proof.
  intros H. rewrite (fold_group (fun a => field (last_ a)) bit (fun _ s => field s)) by done.
  unfold newest. change (last_ (reset lv)) with zero_Sample. generalize (field zero_Sample).
  induction (having bit ss) as [| x l IH]; intros b; [done |].
  rewrite last_cons. simpl. rewrite IH. by destruct (last l).
Qed.

(** A list of rates summed together, and each of them on its own. *)
Lemma znth_add_each acc parts i :
  length acc = length parts -> 0 <= i < zlen acc ->
  znth 0 (add_each acc parts) i = f64_add (znth 0 acc i) (znth 0 parts i).
Proof.
  unfold znth, add_each, zlen. intros Hl Hi. remember (Z.to_nat i) as k eqn:Hk.
  assert (Hk' : (k < length acc)%nat) by lia. clear Hi Hk. revert acc parts Hl Hk'.
  induction k as [| k IH]; intros [| x acc] [| y parts] Hl Hk; simpl in *; try lia; try done.
  apply IH; lia.
Qed.

Lemma length_add_each acc parts : length acc = length parts -> length (add_each acc parts) = length parts.
Proof. intros H. unfold add_each. rewrite length_map, length_combine. lia. Qed.

Lemma fold_group_rates (proj : TierAggregator -> list f64) bit (rates : Sample -> list f64) (k : nat) lv ss i :
  (forall a s, proj (add s a) = if has_group (groups s) bit then add_each (proj a) (rates s) else proj a) ->
  proj (reset lv) = replicate k 0 -> (forall s, length (rates s) = k) -> 0 <= i < Z.of_nat k ->
  znth 0 (proj (add_all lv ss)) i = fsum (map (fun s => znth 0 (rates s) i) (having bit ss)).
Proof.
  intros H H0 Hl Hi. rewrite (fold_group proj bit (fun b s => add_each b (rates s))), H0 by done.
  unfold fsum. rewrite <- (fold_left_map (fun s => znth 0 (rates s) i) f64_add).
  assert (Hz : znth 0 (replicate k 0) i = 0).
  { unfold znth. rewrite nth_lookup. destruct (_ !! _) eqn:E; [| done].
    by apply lookup_replicate_1 in E as [-> _]. }
  assert (Hgen : forall l acc z, znth 0 acc i = z -> length acc = k ->
    znth 0 (fold_left (fun b s => add_each b (rates s)) l acc) i =
    fold_left (fun c s => f64_add c (znth 0 (rates s) i)) l z).
  { induction l as [| s l IH]; intros acc z Hacc Hlen; [done |].
    rewrite !fold_left_cons. apply IH.
    - rewrite znth_add_each by (rewrite ?Hl; unfold zlen; lia). by rewrite Hacc.
    - by rewrite length_add_each by (by rewrite Hl). }
  apply Hgen; [done | apply length_replicate].
Qed.

(** ** Counters, extremes and the group bits *)

Lemma n_add_all lv ss : zlen ss < 2 ^ 64 -> n_ (add_all lv ss) = zlen ss.
Proof.
  intros H. unfold add_all. rewrite (fold_field n_ (fun n _ => u64 (n + 1))) by done.
  change (n_ (reset lv)) with 0.
  assert (Hgen : forall l n, 0 <= n -> n + zlen l < 2 ^ 64 ->
    fold_left (fun n (_ : Sample) => u64 (n + 1)) l n = n + zlen l).
  { induction l as [| s l IH]; intros n Hn Hm; simpl; [unfold zlen; simpl; lia |].
    rewrite zlen_cons in *. pose proof (zlen_nonneg l).
    unfold u64. rewrite wrap_small by (split; lia). rewrite IH; lia. }
  rewrite Hgen; lia.
Qed.

Lemma zlen_having_le bit ss : 0 <= zlen (having bit ss) <= zlen ss.
Proof.
  unfold having, zlen. pose proof (List.filter_length_le (fun s => has_group (groups s) bit) ss). lia.
Qed.

Definition group_counts (ss : list Sample) : list Z :=
  map (fun i => zlen (having (Z.shiftl 1 i) ss)) (seqZ 0 kGroupCount).

Lemma having_app bit a b : having bit (a ++ b) = having bit a ++ having bit b.
Proof. apply List.filter_app. Qed.

Lemma combine_seq_map (f : Z -> Z) l : combine l (map f l) = map (fun i => (i, f i)) l.
Proof. induction l as [| x l IH]; [done |]. simpl. by rewrite IH. Qed.

Lemma count_groups_step ss s :
  zlen ss + 1 < 2 ^ 32 -> count_groups (groups s) (group_counts ss) = group_counts (ss ++ [s]).
Proof.
  intros Hm. unfold count_groups, group_counts. rewrite combine_seq_map, map_map.
  apply map_ext. intros i. cbn [fst snd]. rewrite having_app, zlen_app.
  pose proof (zlen_having_le (Z.shiftl 1 i) ss).
  assert (Hs : having (Z.shiftl 1 i) [s] = if has_group (groups s) (Z.shiftl 1 i) then [s] else [])
    by done.
  rewrite Hs. destruct (has_group (groups s) (Z.shiftl 1 i)).
  - unfold u32. rewrite wrap_small by (split; lia). reflexivity.
  - change (zlen []) with 0. lia.
Qed.

Lemma add_all_app lv ss s : add_all lv (ss ++ [s]) = add s (add_all lv ss).
Proof. unfold add_all. by rewrite fold_left_app. Qed.

Lemma group_n_add_all lv ss : zlen ss < 2 ^ 32 -> group_n_ (add_all lv ss) = group_counts ss.
Proof.
  induction ss as [| s ss IH] using rev_ind; intros Hm; [reflexivity |].
  rewrite zlen_app in Hm. change (zlen [s]) with 1 in Hm.
  rewrite add_all_app. cbn [group_n_ add]. rewrite IH by lia. apply count_groups_step. lia.
Qed.

Lemma znth_map_seqZ {A} (d : A) (f : Z -> A) n i : 0 <= i < n -> znth d (map f (seqZ 0 n)) i = f i.
Proof.
  intros Hi. unfold znth. rewrite nth_lookup. change (map f (seqZ 0 n)) with (f <$> seqZ 0 n).
  rewrite list_lookup_fmap, lookup_seqZ_lt by lia. simpl. f_equal. lia.
Qed.

(** [inv_n] finds the group's own count, for each of the 17 bits. *)
Lemma group_inverse_at ss i :
  0 <= i < kGroupCount ->
  znth 0 (group_inverses (group_counts ss)) i = group_inv (Z.shiftl 1 i) ss.
Proof.
  intros Hi. unfold group_inverses, group_counts. rewrite map_map.
  by rewrite (znth_map_seqZ 0 (fun x => if 0 <? zlen (having (Z.shiftl 1 x) ss)
     then f64_div f64_one (f64_of_Z (zlen (having (Z.shiftl 1 x) ss))) else f64_zero)).
Qed.

Lemma land_pow2_testbit g i : 0 <= i -> has_group g (Z.shiftl 1 i) = Z.testbit g i.
Proof.
  intros Hi. unfold has_group. rewrite Z.shiftl_1_l.
  destruct (Z.testbit g i) eqn:E.
  - apply negb_true_iff, Z.eqb_neq. intros H0.
    assert (Z.testbit (Z.land g (2 ^ i)) i = true) by (rewrite Z.land_spec, E, Z.pow2_bits_true; done).
    rewrite H0, Z.bits_0 in *. done.
  - apply negb_false_iff, Z.eqb_eq. apply Z.bits_inj'. intros j Hj. rewrite Z.land_spec, Z.bits_0.
    destruct (Z.eq_dec i j) as [-> | Hne]; [by rewrite E |]. by rewrite Z.pow2_bits_false, andb_false_r by done.
Qed.

Lemma having_nonempty i ss : 0 <= i ->
  (0 <? zlen (having (Z.shiftl 1 i) ss)) = Z.testbit (fold_right Z.lor 0 (map groups ss)) i.
Proof.
  intros Hi. induction ss as [| s ss IH]; [by rewrite Z.bits_0 |]. cbn [map fold_right].
  rewrite Z.lor_spec, <- IH. unfold having. cbn [List.filter]. rewrite land_pow2_testbit by done.
  destruct (Z.testbit (groups s) i); [| done]. rewrite zlen_cons. cbn [orb].
  pose proof (zlen_nonneg (List.filter (fun s => has_group (groups s) (Z.shiftl 1 i)) ss)).
  apply Z.ltb_lt. lia.
Qed.

Lemma groups_seen_testbit (c : Z -> bool) l g j :
  0 <= j -> Forall (fun i => 0 <= i) l ->
  Z.testbit (fold_left (fun g i => if c i then Z.lor g (Z.shiftl 1 i) else g) l g) j =
  Z.testbit g j || (bool_decide (j ∈ l) && c j).
Proof.
  intros Hj Hl. revert g. induction Hl as [| i l Hi Hl IH]; intros g; cbn [fold_left].
  { rewrite bool_decide_false by apply not_elem_of_nil. by rewrite orb_false_r. }
  rewrite IH. destruct (decide (i = j)) as [-> | Hne].
  - rewrite (bool_decide_true (j ∈ j :: l)) by left. destruct (c j).
    + rewrite Z.lor_spec, Z.shiftl_1_l, Z.pow2_bits_true by done. by destruct (Z.testbit g j).
    + by rewrite !andb_false_r.
  - replace (bool_decide (j ∈ i :: l)) with (bool_decide (j ∈ l))
      by (apply bool_decide_ext; rewrite elem_of_cons; clear -Hne; split; [by right | intros [-> | ?]; done]).
    destruct (c i); [| done].
    by rewrite Z.lor_spec, Z.shiftl_1_l, Z.pow2_bits_false, orb_false_r by done.
Qed.

Lemma groups_seen_spec ss :
  groups_seen (group_counts ss) = Z.land (fold_right Z.lor 0 (map groups ss)) kGroupsAll.
Proof.
  unfold groups_seen, group_counts. rewrite combine_seq_map, <- fold_left_map. cbn [fst snd].
  apply Z.bits_inj'. intros j Hj.
  rewrite (groups_seen_testbit (fun i => 0 <? zlen (having (Z.shiftl 1 i) ss))); [| done |].
  2: { apply Forall_forall. intros x Hx. apply elem_of_seqZ in Hx. lia. }
  rewrite Z.bits_0, Z.land_spec, having_nonempty by done. cbn [orb].
  change kGroupsAll with (Z.ones 17). rewrite andb_comm. f_equal.
  destruct (Z.lt_ge_cases j 17).
  - rewrite Z.ones_spec_low by lia. apply bool_decide_true, elem_of_seqZ. unfold kGroupCount. lia.
  - rewrite Z.ones_spec_high by lia. apply bool_decide_false. rewrite elem_of_seqZ. unfold kGroupCount. lia.
Qed.

Lemma filter_map_filter {A B} (f : A -> B) p q l :
  List.filter p (map f (List.filter q l)) = map f (List.filter (fun x => q x && p (f x)) l).
Proof.
  induction l as [| x l IH]; [done |]. simpl. destruct (q x); [| done]. simpl.
  destruct (p (f x)); simpl; by rewrite IH.
Qed.

(** An accumulator over the structs of one group that say they are present. *)
Lemma fold_present {B X} (proj : TierAggregator -> B) bit (field : Sample -> X) pres (f : B -> X -> B) lv ss :
  (forall a s, proj (add s a) =
     if has_group (groups s) bit && pres (field s) then f (proj a) (field s) else proj a) ->
  proj (add_all lv ss) =
  fold_left f (List.filter pres (map field (having bit ss))) (proj (reset lv)).
Proof.
  intros H. unfold add_all, having. rewrite filter_map_filter, <- fold_left_map.
  rewrite (fold_field proj (fun b s => if has_group (groups s) bit && pres (field s)
                                      then f b (field s) else b)) by done.
  apply (fold_left_filter (fun s => has_group (groups s) bit && pres (field s))).
Qed.

Lemma thermal_add_all lv ss :
  (thermal_present_ (add_all lv ss), thermal_max_ (add_all lv ss)) =
  (nonempty (thermals ss), hottest (map thermal_max_celsius (thermals ss))).
Proof.
  rewrite (fold_present (fun a => (thermal_present_ a, thermal_max_ a)) kGroupThermal thermal thermal_present
    (fun p t => (true, if p.1 then f64_max p.2 (thermal_max_celsius t) else thermal_max_celsius t))).
  2: { intros a s. simpl. by destruct (_ && _). }
  fold (thermals ss). simpl. destruct (thermals ss) as [| t l]; [done |]. simpl.
  generalize (thermal_max_celsius t). induction l as [| u l IH]; intros m; [done |]. apply IH.
Qed.

Lemma entropy_add_all lv ss :
  (entropy_present_ (add_all lv ss), entropy_min_ (add_all lv ss)) =
  (nonempty (entropies ss), fold_right Z.min UINT32_MAX (map entropy_available_bits (entropies ss))).
Proof.
  rewrite (fold_present (fun a => (entropy_present_ a, entropy_min_ a)) kGroupEntropy entropy entropy_present
    (fun p e => (true, Z.min p.2 (entropy_available_bits e)))).
  2: { intros a s. simpl. by destruct (_ && _). }
  fold (entropies ss). simpl.
  rewrite <- (fold_symmetric Z.min) by (intros; lia).
  assert (Hgen : forall l p m, fold_left (fun p e => (true, Z.min p.2 (entropy_available_bits e))) l (p, m) =
    (p || nonempty l, fold_left Z.min (map entropy_available_bits l) m)).
  { induction l as [| e l IH]; intros p m; simpl; [by rewrite orb_false_r |].
    rewrite IH. by rewrite orb_true_r. }
  apply Hgen.
Qed.

Lemma clock_add_all lv ss :
  clock_ (add_all lv ss) =
  mkClockStats (farthest (map clock_offset_ms (clocks ss))) (fmax (map clock_max_error_ms (clocks ss)))
    (forallb clock_synced (clocks ss)) (nonempty (clocks ss)).
Proof.
  rewrite (fold_present clock_ kGroupClock clock clock_present add_clock) by done.
  fold (clocks ss). change (clock_ (reset lv)) with (mkClockStats 0 0 true false).
  destruct (clocks ss) as [| c l]; [done |].
  rewrite fold_left_cons. unfold add_clock at 2. cbn [clock_present clock_max_error_ms clock_synced negb orb].
  assert (Hgen : forall l o m y, fold_left add_clock l (mkClockStats o m y true) =
    mkClockStats (fold_left farther (map clock_offset_ms l) o) (fold_left f64_max (map clock_max_error_ms l) m)
      (y && forallb clock_synced l) true).
  { clear. induction l as [| c l IH]; intros o m y.
    - simpl. by rewrite andb_true_r.
    - cbn [map fold_left forallb].
      unfold add_clock at 2. cbn [clock_present clock_max_error_ms clock_synced clock_offset_ms negb orb].
      rewrite IH, andb_assoc. done. }
  rewrite Hgen. done.
Qed.

Lemma file_events_add_all lv ss :
  Forall sample_ok ss -> zlen ss < 2 ^ 32 ->
  file_events_sum_ (add_all lv ss) =
    zsum (map (fun s => file_watch_events_this_tick (file_watch s)) (having kGroupFileWatch ss)) /\
  0 <= file_events_sum_ (add_all lv ss).
Proof.
  intros Hok Hn.
  rewrite (fold_group file_events_sum_ kGroupFileWatch
    (fun b s => u64 (b + file_watch_events_this_tick (file_watch s)))) by done.
  change (file_events_sum_ (reset lv)) with 0.
  assert (Hall : Forall (fun s => is_uint 32 (file_watch_events_this_tick (file_watch s)))
                   (having kGroupFileWatch ss)).
  { apply Forall_forall. intros s Hs. apply list_elem_of_In, filter_In in Hs as [Hs _].
    rewrite Forall_forall in Hok. apply list_elem_of_In, Hok in Hs. unfold_sample_ok. tauto. }
  pose proof (zlen_having_le kGroupFileWatch ss) as Hl.
  assert (Hgen : forall l n, Forall (fun s => is_uint 32 (file_watch_events_this_tick (file_watch s))) l ->
    0 <= n -> n + zlen l * 2 ^ 32 < 2 ^ 64 ->
    fold_left (fun b s => u64 (b + file_watch_events_this_tick (file_watch s))) l n =
      n + zsum (map (fun s => file_watch_events_this_tick (file_watch s)) l) /\
    0 <= zsum (map (fun s => file_watch_events_this_tick (file_watch s)) l)).
  { clear. induction l as [| s l IH]; intros n Hall H0 Hm; simpl; [lia |].
    inversion Hall as [| ? ? [Hs1 Hs2] Hall']; subst. rewrite zlen_cons in Hm. pose proof (zlen_nonneg l).
    unfold u64 at 2. rewrite wrap_small by (split; lia).
    destruct (IH (n + file_watch_events_this_tick (file_watch s))) as [-> H1]; [done | lia | lia |]. lia. }
  destruct (Hgen (having kGroupFileWatch ss) 0) as [-> H]; [done | lia | nia |]. lia.
Qed.

Lemma timestamp_add_all lv ss :
  timestamp_nanos (last_ (add_all lv ss)) = default 0 (timestamp_nanos <$> last ss).
Proof.
  destruct ss as [| s ss _] using rev_ind; [done |]. rewrite add_all_app, last_snoc.
  cbn [last_ add]. unfold add_last, when_group. by repeat destruct (has_group _ _).
Qed.

(** ** The [last_] fields *)

Lemma when_group_other {A} (fld : Sample -> A) g bit h s :
  (forall s, fld (h s) = fld s) -> fld (when_group g bit h s) = fld s.
Proof. intros H. unfold when_group. by destruct (has_group g bit). Qed.

Lemma when_group_at {A} (fld : Sample -> A) g bit h s :
  fld (when_group g bit h s) = if has_group g bit then fld (h s) else fld s.
Proof. unfold when_group. by destruct (has_group g bit). Qed.

(** [fld] of add_last(): the groups that do not touch it drop out. *)
Ltac last_step fld :=
  let a := fresh in let s := fresh in
  intros a s; cbn [last_ add]; unfold add_last; cbv zeta;
  repeat (rewrite (when_group_other fld) by done);
  rewrite (when_group_at fld); destruct (has_group _ _); [done |];
  repeat (rewrite (when_group_other fld) by done); done.

Lemma last_fields lv ss :
  let l := last_ (add_all lv ss) in
  cpu l = newest kGroupCpu cpu zero_CpuStats ss /\ mem l = newest kGroupMem mem zero_MemStats ss /\
  swap l = newest kGroupSwap swap zero_SwapStats ss /\ disk l = newest kGroupDisk disk zero_DiskStats ss /\
  net l = newest kGroupNet net zero_NetStats ss /\ self_ l = newest kGroupSelf self_ zero_SelfStats ss /\
  thermal l = newest kGroupThermal thermal zero_ThermalStats ss /\
  file_watch l = newest kGroupFileWatch file_watch zero_FileWatchSample ss /\
  uptime_seconds l = newest kGroupUptime uptime_seconds 0 ss /\
  fs l = newest kGroupFs fs zero_FsStats ss.
Proof.
  cbv zeta. split_and!.
  - apply (fold_group_last cpu). last_step cpu.
  - apply (fold_group_last mem). last_step mem.
  - apply (fold_group_last swap). last_step swap.
  - apply (fold_group_last disk). last_step disk.
  - apply (fold_group_last net). last_step net.
  - apply (fold_group_last self_). last_step self_.
  - apply (fold_group_last thermal). last_step thermal.
  - apply (fold_group_last file_watch). last_step file_watch.
  - apply (fold_group_last uptime_seconds). last_step uptime_seconds.
  - apply (fold_group_last fs). last_step fs.
Qed.

Lemma baseline_add_all lv ss : baseline (last_ (add_all lv ss)) = 0.
Proof.
  unfold add_all. rewrite (fold_field (fun a => baseline (last_ a)) (fun b _ => b)).
  - by induction ss.
  - intros a s. cbn [last_ add]. unfold add_last. cbv zeta.
    by repeat (rewrite (when_group_other baseline) by done).
Qed.

Lemma newest_compose {A B} bit (f : Sample -> A) (g : A -> B) d ss :
  g (newest bit f d ss) = newest bit (fun s => g (f s)) (g d) ss.
Proof. unfold newest. by destruct (last (having bit ss)). Qed.

(** The accumulators of the means, group by group. *)
Ltac group_step := intros ? ?; cbn; by repeat destruct (has_group _ _).

Lemma sums_add_all lv ss :
  let a := add_all lv ss in
  let sum bit field := fsum (map field (having bit ss)) in
  cpu_total_percent_sum_ a = sum kGroupCpu (fun s => cpu_total_percent (cpu s)) /\
  mem_available_sum_ a = sum kGroupMem (fun s => f64_of_Z (mem_available (mem s))) /\
  mem_available_percent_sum_ a = sum kGroupMem (fun s => mem_available_percent (mem s)) /\
  swap_used_sum_ a = sum kGroupSwap (fun s => f64_of_Z (swap_used (swap s))) /\
  swap_used_percent_sum_ a = sum kGroupSwap (fun s => swap_used_percent (swap s)) /\
  load_1m_sum_ a = sum kGroupLoad (fun s => load_avg_1m (load s)) /\
  load_5m_sum_ a = sum kGroupLoad (fun s => load_avg_5m (load s)) /\
  load_15m_sum_ a = sum kGroupLoad (fun s => load_avg_15m (load s)) /\
  disk_read_sum_ a = sum kGroupDisk (fun s => f64_of_Z (disk_read_bytes_per_sec (disk s))) /\
  disk_write_sum_ a = sum kGroupDisk (fun s => f64_of_Z (disk_write_bytes_per_sec (disk s))) /\
  net_rx_sum_ a = sum kGroupNet (fun s => f64_of_Z (net_rx_bytes_per_sec (net s))) /\
  net_tx_sum_ a = sum kGroupNet (fun s => f64_of_Z (net_tx_bytes_per_sec (net s))).
Proof. cbv zeta. split_and!; apply fold_group_sum; try done; reflexivity. Qed.

Lemma rates_add_all lv ss :
  let a := add_all lv ss in
  let sum bit field := fsum (map field (having bit ss)) in
  (forall i, 0 <= i < 6 -> znth 0 (cpu_part_sum_ a) i = sum kGroupCpu (fun s => znth 0 (cpu_parts (cpu s)) i)) /\
  (forall i, 0 <= i < 6 -> znth 0 (tcp_rate_sum_ a) i = sum kGroupTcp (fun s => znth 0 (tcp_rates (tcp s)) i)) /\
  (forall i, 0 <= i < 4 -> znth 0 (udp_rate_sum_ a) i = sum kGroupUdp (fun s => znth 0 (udp_rates (udp s)) i)) /\
  (forall i, 0 <= i < 4 -> znth 0 (icmp_rate_sum_ a) i = sum kGroupIcmp (fun s => znth 0 (icmp_rates (icmp s)) i)).
Proof.
  cbv zeta. split_and!; intros i Hi.
  - by apply (fold_group_rates cpu_part_sum_ _ (fun s => cpu_parts (cpu s)) 6).
  - by apply (fold_group_rates tcp_rate_sum_ _ (fun s => tcp_rates (tcp s)) 6).
  - by apply (fold_group_rates udp_rate_sum_ _ (fun s => udp_rates (udp s)) 4).
  - by apply (fold_group_rates icmp_rate_sum_ _ (fun s => icmp_rates (icmp s)) 4).
Qed.

Lemma maxima_add_all lv ss :
  let a := add_all lv ss in
  proc_total_max_ a = highest kGroupProc (fun s => proc_total (proc s)) ss /\
  proc_running_max_ a = highest kGroupProc (fun s => proc_running (proc s)) ss /\
  proc_sleeping (proc_max_ a) = highest kGroupProc (fun s => proc_sleeping (proc s)) ss /\
  proc_blocked (proc_max_ a) = highest kGroupProc (fun s => proc_blocked (proc s)) ss /\
  proc_stopped (proc_max_ a) = highest kGroupProc (fun s => proc_stopped (proc s)) ss /\
  proc_zombie (proc_max_ a) = highest kGroupProc (fun s => proc_zombie (proc s)) ss /\
  proc_threads (proc_max_ a) = highest kGroupProc (fun s => proc_threads (proc s)) ss /\
  rss_max_ a = highest kGroupSelf (fun s => self_rss_bytes (self_ s)) ss /\
  tcp_established (tcp_ a) = highest kGroupTcp (fun s => tcp_established (tcp s)) ss /\
  tcp_time_wait (tcp_ a) = highest kGroupTcp (fun s => tcp_time_wait (tcp s)) ss.
Proof.
  cbv zeta. split_and!;
    match goal with |- ?t = _ =>
      match eval pattern (add_all lv ss) in t with ?f _ => apply (fold_group_max f) end end;
    first [reflexivity | group_step].
Qed.

Lemma flags_add_all lv ss :
  let a := add_all lv ss in
  file_watch_present_ a = any kGroupFileWatch (fun s => file_watch_present (file_watch s)) ss /\
  tcp_present (tcp_ a) = any kGroupTcp (fun s => tcp_present (tcp s)) ss /\
  udp_present_ a = any kGroupUdp (fun s => udp_present (udp s)) ss /\
  icmp_present_ a = any kGroupIcmp (fun s => icmp_present (icmp s)) ss /\
  fs_present (fs_max_ a) = any kGroupFs (fun s => fs_present (fs s)) ss.
Proof.
  cbv zeta. split_and!;
    match goal with |- ?t = _ =>
      match eval pattern (add_all lv ss) in t with ?f _ => apply (fold_group_any f) end end;
    first [reflexivity | group_step].
Qed.

Lemma fs_add_all lv ss :
  let a := add_all lv ss in
  fs_max_used_percent (fs_max_ a) = fmax (map (fun s => fs_max_used_percent (fs s)) (having kGroupFs ss)) /\
  fs_max_inodes_used_percent (fs_max_ a) =
    fmax (map (fun s => fs_max_inodes_used_percent (fs s)) (having kGroupFs ss)).
Proof.
  cbv zeta. unfold fmax. split; rewrite <- (fold_left_map _ f64_max).
  - apply (fold_group (fun a => fs_max_used_percent (fs_max_ a)) kGroupFs
      (fun b s => f64_max b (fs_max_used_percent (fs s)))). group_step.
  - apply (fold_group (fun a => fs_max_inodes_used_percent (fs_max_ a)) kGroupFs
      (fun b s => f64_max b (fs_max_inodes_used_percent (fs s)))). group_step.
Qed.

Lemma clock_summary lv ss :
  (let c := clock_ (add_all lv ss) in
   if clock_present c then c
   else mkClockStats (clock_offset_ms c) (clock_max_error_ms c) false false) =
  mkClockStats (farthest (map clock_offset_ms (clocks ss))) (fmax (map clock_max_error_ms (clocks ss)))
    (nonempty (clocks ss) && forallb clock_synced (clocks ss)) (nonempty (clocks ss)).
Proof. rewrite clock_add_all. cbn. by destruct (clocks ss). Qed.

Lemma inverse_lookup ss :
  let inv_n bit := znth 0 (group_inverses (group_counts ss)) (bit_index 32 bit 0) in
  inv_n kGroupCpu = group_inv kGroupCpu ss /\ inv_n kGroupMem = group_inv kGroupMem ss /\
  inv_n kGroupSwap = group_inv kGroupSwap ss /\ inv_n kGroupLoad = group_inv kGroupLoad ss /\
  inv_n kGroupDisk = group_inv kGroupDisk ss /\ inv_n kGroupNet = group_inv kGroupNet ss /\
  inv_n kGroupTcp = group_inv kGroupTcp ss /\ inv_n kGroupUdp = group_inv kGroupUdp ss /\
  inv_n kGroupIcmp = group_inv kGroupIcmp ss.
Proof.
  cbv zeta. split_and!;
    match goal with |- context [bit_index 32 ?b 0] =>
      let i := eval vm_compute in (bit_index 32 b 0) in
      change (bit_index 32 b 0) with i; apply (group_inverse_at ss i); unfold kGroupCount; lia end.
Qed.

Lemma fold_window (lv : Level) (ss : list Sample) :
  ss <> [] -> Forall sample_ok ss -> zlen ss < 2 ^ 32 ->
  fold false (add_all lv ss) = (Some (window_summary lv ss), reset lv) /\
  size (add_all lv ss) = zlen ss.
Proof.
  intros Hne Hok Hn. pose proof (n_add_all lv ss ltac:(lia)) as Hcount. split; [| done].
  assert (Hpos : 0 < zlen ss) by (destruct ss; [done | rewrite zlen_cons; pose proof (zlen_nonneg ss); lia]).
  assert (Hlv : out_level_ (add_all lv ss) = lv)
    by (unfold add_all; rewrite (fold_field out_level_ (fun b _ => b)) by done; clear; by induction ss).
  unfold fold, mean_u64. rewrite Hcount, group_n_add_all by done.
  replace (zlen ss =? 0) with false by lia. cbn [orb].
  destruct (inverse_lookup ss) as (E1 & E2 & E3 & E4 & E5 & E6 & E7 & E8 & E9).
  cbv zeta in *. rewrite E1, E2, E3, E4, E5, E6, E7, E8, E9. clear E1 E2 E3 E4 E5 E6 E7 E8 E9.
  destruct (sums_add_all lv ss) as (-> & -> & -> & -> & -> & -> & -> & -> & -> & -> & -> & ->).
  destruct (rates_add_all lv ss) as (R1 & R2 & R3 & R4). rewrite !R1, !R2, !R3, !R4 by lia.
  destruct (maxima_add_all lv ss) as (-> & -> & -> & -> & -> & -> & -> & -> & -> & ->).
  destruct (flags_add_all lv ss) as (-> & -> & -> & -> & ->).
  destruct (fs_add_all lv ss) as (-> & ->).
  pose proof (clock_summary lv ss) as Hclock. cbv zeta in Hclock. rewrite Hclock. clear Hclock.
  destruct (last_fields lv ss) as (-> & -> & -> & -> & -> & -> & -> & -> & -> & ->).
  injection (thermal_add_all lv ss) as -> ->. injection (entropy_add_all lv ss) as -> ->.
  destruct (file_events_add_all lv ss Hok Hn) as [Hev Hev0].
  unfold u32. rewrite wrap_small by (unfold is_uint, UINT32_MAX; lia). rewrite Hev.
  rewrite baseline_add_all, groups_seen_spec, timestamp_add_all, Hlv.
  rewrite (newest_compose _ cpu cpu_count), (newest_compose _ mem mem_total),
    (newest_compose _ swap swap_total), (newest_compose _ disk disk_device_count),
    (newest_compose _ net net_interface_count), (newest_compose _ self_ self_peak_rss_bytes),
    (newest_compose _ self_ self_cpu_user_seconds), (newest_compose _ self_ self_cpu_system_seconds),
    (newest_compose _ thermal thermal_sensor_count),
    (newest_compose _ file_watch file_watch_watched_count), (newest_compose _ fs fs_count).
  unfold window_summary, mean_count, mean. cbv zeta.
  by destruct (thermals ss).
Qed.

(** C12: Folding is the window's summary.  Whatever samples (one or more, with
    any sets of groups) were add()ed since the window began, fold() returns
    the record the summary defines: per field the mean, maximum, minimum, sum
    (capped at UINT32_MAX), any, all or last over exactly the samples that
    carry the field's group, the union of their groups, the time of the last
    sample, the coarser level and the folded mark; and the accumulator is
    empty again. *)
Theorem fold_is_window_summary (lv : Level) (ss : list Sample) :
  ss <> [] -> Forall sample_ok ss -> zlen ss < 2 ^ 32 ->
  fold false (add_all lv ss) = (Some (window_summary lv ss), reset lv) /\
  size (add_all lv ss) = zlen ss.
Proof. apply fold_window. Qed.

Lemma fold_is_window_summary_witness :
  fold false (add_all L2 [sample_ex; sample_ex]) =
    (Some (window_summary L2 [sample_ex; sample_ex]), reset L2) /\
  size (add_all L2 [sample_ex; sample_ex]) = 2.
Proof.
  apply (fold_is_window_summary L2 [sample_ex; sample_ex]).
  - discriminate.
  - repeat constructor; apply sample_ex_ok.
  - reflexivity.
Defined.

(** ** Extremes *)

Lemma fold_max_ub l : forall m, f64_num m -> Forall f64_num l ->
  f64_num (fold_left f64_max l m) /\ f64_leb m (fold_left f64_max l m) = true /\
  forall x, In x l -> f64_leb x (fold_left f64_max l m) = true.
Proof.
  induction l as [| y l IH]; intros m Hm Hl; cbn [fold_left].
  { split_and!; [done | by apply f64_leb_refl | done]. }
  inversion Hl as [| ? ? Hy Hl']; subst.
  destruct (IH (f64_max m y)) as (H1 & H2 & H3); [by apply f64_max_num | done |]. split_and!; [done | |].
  - apply (f64_leb_trans _ (f64_max m y)); [by apply f64_max_ub_l | done].
  - intros x [-> | Hx]; [| by apply H3]. apply (f64_leb_trans _ (f64_max m x)); [by apply f64_max_ub_r | done].
Qed.

Lemma hottest_ub l x : Forall f64_num l -> In x l -> f64_leb x (hottest l) = true.
Proof.
  intros Hl Hx. destruct l as [| y l]; [done |]. inversion Hl as [| ? ? Hy Hl']; subst.
  destruct (fold_max_ub l y Hy Hl') as (_ & H1 & H2). destruct Hx as [-> | Hx]; [done | by apply H2].
Qed.

Lemma fmax_ub l x : Forall f64_num l -> In x l -> f64_leb x (fmax l) = true.
Proof. intros Hl Hx. by apply (fold_max_ub l 0 eq_refl Hl). Qed.

Lemma f64_abs_num x : f64_num x -> f64_num (f64_abs x).
Proof.
  unfold f64_num, f64_is_nan, f64_abs, f64_mag. intros H. by rewrite Zmod_mod.
Qed.

Lemma farthest_ub l x : Forall f64_num l -> In x l -> f64_leb (f64_abs x) (f64_abs (farthest l)) = true.
Proof.
  intros Hl Hx. destruct l as [| y l]; [done |]. inversion Hl as [| ? ? Hy Hl']; subst. simpl.
  assert (Hgen : forall l o, f64_num o -> Forall f64_num l ->
    f64_leb (f64_abs o) (f64_abs (fold_left farther l o)) = true /\
    forall x, In x l -> f64_leb (f64_abs x) (f64_abs (fold_left farther l o)) = true).
  { clear. induction l as [| z l IH]; intros o Ho Hl; cbn [fold_left].
    { split; [by apply f64_leb_refl, f64_abs_num | done]. }
    inversion Hl as [| ? ? Hz Hl']; subst.
    destruct (IH (farther o z)) as [H1 H2]; [by unfold farther; destruct (f64_gtb _ _) | done |].
    assert (Hm : f64_leb (f64_abs o) (f64_abs (farther o z)) = true /\
                 f64_leb (f64_abs z) (f64_abs (farther o z)) = true).
    { unfold farther, f64_gtb. destruct (f64_ltb (f64_abs o) (f64_abs z)) eqn:E; split;
        auto using f64_ltb_leb, f64_leb_refl, f64_nlt_leb, f64_abs_num. }
    destruct Hm as [Hm1 Hm2]. split; [by eapply f64_leb_trans |].
    intros x [-> | Hx]; [by eapply f64_leb_trans | by apply H2]. }
  destruct (Hgen l y Hy Hl') as [H1 H2]. destruct Hx as [-> | Hx]; [done | by apply H2].
Qed.

Lemma zmax_ub l x : In x l -> x <= zmax l.
Proof. induction l as [| y l IH]; simpl; [done |]. intros [-> | H]; [lia |]. specialize (IH H). lia. Qed.

Lemma zmin_lb l x m : In x l -> fold_right Z.min m l <= x.
Proof. induction l as [| y l IH]; simpl; [done |]. intros [-> | H]; [lia |]. specialize (IH H). lia. Qed.

(** A spike inside the window stays visible: for every sample of the
    window, the folded record's process count, temperature, clock deviation
    and clock error are at least the sample's own (where the sample carries
    the group and, for the last three, has a reading), its entropy at most the
    sample's own, and each group of the sample is a group of the record. *)
Theorem fold_keeps_spikes (lv : Level) (ss : list Sample) (s : Sample) :
  Forall (fun s => f64_num (thermal_max_celsius (thermal s)) /\ f64_num (clock_offset_ms (clock s)) /\
                   f64_num (clock_max_error_ms (clock s))) ss ->
  Forall sample_ok ss -> zlen ss < 2 ^ 32 -> In s ss ->
  exists r, fold false (add_all lv ss) = (Some r, reset lv) /\
  (has_group (groups s) kGroupProc = true -> proc_total (proc s) <= proc_total (proc r)) /\
  (has_group (groups s) kGroupThermal && thermal_present (thermal s) = true ->
     thermal_present (thermal r) = true /\
     f64_leb (thermal_max_celsius (thermal s)) (thermal_max_celsius (thermal r)) = true) /\
  (has_group (groups s) kGroupClock && clock_present (clock s) = true ->
     clock_present (clock r) = true /\
     f64_leb (f64_abs (clock_offset_ms (clock s))) (f64_abs (clock_offset_ms (clock r))) = true /\
     f64_leb (clock_max_error_ms (clock s)) (clock_max_error_ms (clock r)) = true) /\
  (has_group (groups s) kGroupEntropy && entropy_present (entropy s) = true ->
     entropy_present (entropy r) = true /\
     entropy_available_bits (entropy r) <= entropy_available_bits (entropy s)) /\
  (forall i, 0 <= i < kGroupCount -> Z.testbit (groups s) i = true -> Z.testbit (groups r) i = true).
Proof.
  intros Hnum Hok Hlen Hin. exists (window_summary lv ss).
  split; [apply fold_window; [by intros -> | done | done] |].
  assert (Hhave : forall bit, has_group (groups s) bit = true -> In s (having bit ss))
    by (intros bit Hb; by apply filter_In).
  assert (Hpres : forall {X} (field : Sample -> X) pres bit,
    has_group (groups s) bit && pres (field s) = true ->
    In (field s) (List.filter pres (map field (having bit ss)))).
  { intros X field pres bit Hb. apply andb_true_iff in Hb as [Hb Hp].
    apply filter_In. split; [| done]. apply in_map. by apply Hhave. }
  assert (Hsub : forall {X} (field : Sample -> X) pres bit (P : X -> Prop),
    Forall (fun s => P (field s)) ss -> Forall P (List.filter pres (map field (having bit ss)))).
  { intros X field pres bit P HP. apply List.Forall_forall. intros x Hx.
    apply filter_In in Hx as [Hx _]. apply in_map_iff in Hx as (y & <- & Hy).
    apply filter_In in Hy as [Hy _]. rewrite List.Forall_forall in HP. by apply HP. }
  assert (Hne : forall {X} (x : X) l, In x l -> nonempty l = true) by (by intros X x []).
  split_and!.
  - intros Hb. apply zmax_ub. apply (in_map (fun s => proc_total (proc s))). by apply Hhave.
  - intros Hb. pose proof (Hpres _ thermal thermal_present _ Hb) as Ht. split; [by eapply Hne |].
    apply hottest_ub; [| by apply in_map]. apply Forall_fmap, Hsub.
    eapply Forall_impl; [exact Hnum |]. intros x [Hx _]. exact Hx.
  - intros Hb. pose proof (Hpres _ clock clock_present _ Hb) as Ht. split; [by eapply Hne |]. split.
    + apply farthest_ub; [| by apply in_map]. apply Forall_fmap, Hsub.
      eapply Forall_impl; [exact Hnum |]. intros x (_ & Hx & _). exact Hx.
    + apply fmax_ub; [| by apply in_map]. apply Forall_fmap, Hsub.
      eapply Forall_impl; [exact Hnum |]. intros x (_ & _ & Hx). exact Hx.
  - intros Hb. pose proof (Hpres _ entropy entropy_present _ Hb) as Ht.
    assert (He : nonempty (entropies ss) = true) by (by eapply Hne). split; [done |].
    unfold window_summary. cbn [entropy entropy_available_bits]. rewrite He. apply zmin_lb. by apply in_map.
  - intros i Hi Hb. unfold window_summary. cbn [groups]. rewrite Z.land_spec.
    change kGroupsAll with (Z.ones 17). rewrite Z.ones_spec_low by (unfold kGroupCount in Hi; lia).
    rewrite andb_true_r. clear -Hin Hb. induction ss as [| x l IH]; [done |]. cbn [map fold_right].
    rewrite Z.lor_spec. destruct Hin as [-> | Hin]; [by rewrite Hb |]. by rewrite IH, orb_true_r.
Qed.

Lemma fold_keeps_spikes_witness :
  exists r, fold false (add_all L2 [sample_ex]) = (Some r, reset L2) /\
    proc_total (proc sample_ex) <= proc_total (proc r) /\ thermal_present (thermal r) = true.
Proof.
  destruct (fold_keeps_spikes L2 [sample_ex] sample_ex) as (r & Hr & H1 & H2 & _).
  - repeat constructor.
  - constructor; [exact sample_ex_ok | constructor].
  - vm_compute. reflexivity.
  - left. reflexivity.
  - exists r. split; [exact Hr |]. split; [apply H1; reflexivity | apply H2; reflexivity].
Defined.

(** ** The summary is a well-formed sample *)

Lemma mean_range bit field ss : is_uint 64 (mean bit field ss).
Proof. apply f64_of_sf_range. Qed.

Lemma mean_count_range bit field ss : is_uint 64 (mean_count bit field ss).
Proof. by apply wrap_range. Qed.

Lemma zmax_range w l : 0 <= w -> Forall (is_uint w) l -> is_uint w (zmax l).
Proof.
  intros Hw Hl. induction Hl as [| x l [Hx1 Hx2] Hl [IH1 IH2]]; [split; simpl; lia |].
  unfold is_uint in *. simpl. lia.
Qed.

Lemma fold_f64_max_in l m : fold_left f64_max l m = m \/ In (fold_left f64_max l m) l.
Proof.
  revert m. induction l as [| x l IH]; intros m; [by left |]. cbn [fold_left].
  destruct (IH (f64_max m x)) as [-> | H]; [| by right; right].
  unfold f64_max. destruct (f64_ltb m x); [by right; left | by left].
Qed.

Lemma fold_farther_in l m : fold_left farther l m = m \/ In (fold_left farther l m) l.
Proof.
  revert m. induction l as [| x l IH]; intros m; [by left |]. cbn [fold_left].
  destruct (IH (farther m x)) as [-> | H]; [| by right; right].
  unfold farther. destruct (f64_gtb _ _); [by right; left | by left].
Qed.

Lemma extreme_range (g : list Z -> Z) l :
  g l = 0 \/ In (g l) l -> Forall (is_uint 64) l -> is_uint 64 (g l).
Proof. intros [-> | H] Hl; [split; lia |]. rewrite List.Forall_forall in Hl. by apply Hl. Qed.

Lemma fmax_range l : Forall (is_uint 64) l -> is_uint 64 (fmax l).
Proof. apply (extreme_range fmax), fold_f64_max_in. Qed.
Lemma hottest_range l : Forall (is_uint 64) l -> is_uint 64 (hottest l).
Proof.
  apply (extreme_range hottest). destruct l as [| x l]; [by left |]. right. simpl.
  destruct (fold_f64_max_in l x) as [-> | H]; auto.
Qed.
Lemma farthest_range l : Forall (is_uint 64) l -> is_uint 64 (farthest l).
Proof.
  apply (extreme_range farthest). destruct l as [| x l]; [by left |]. right. simpl.
  destruct (fold_farther_in l x) as [-> | H]; auto.
Qed.

Lemma zmin_range w l m : Forall (is_uint w) l -> is_uint w m -> is_uint w (fold_right Z.min m l).
Proof. intros Hl Hm. induction Hl as [| x l [Hx1 Hx2] Hl [IH1 IH2]]; [done |]. unfold is_uint in *. simpl. lia. Qed.

Lemma highest_range w bit field ss :
  0 <= w -> Forall (fun s => is_uint w (field s)) ss -> is_uint w (highest bit field ss).
Proof.
  intros Hw H. apply zmax_range; [done |]. apply Forall_fmap, List.Forall_forall. intros s Hs.
  apply filter_In in Hs as [Hs _]. rewrite List.Forall_forall in H. by apply H.
Qed.

Lemma newest_range w bit field ss :
  0 <= w -> Forall (fun s => is_uint w (field s)) ss -> is_uint w (newest bit field 0 ss).
Proof.
  intros Hw H. unfold newest. destruct (last (having bit ss)) as [s |] eqn:E; simpl; [| split; lia].
  apply last_Some_elem_of, list_elem_of_In, filter_In in E as [E _].
  rewrite List.Forall_forall in H. by apply H.
Qed.

Lemma present_range {X} w bit (field : Sample -> X) pres (g : X -> Z) ss :
  Forall (fun s => is_uint w (g (field s))) ss ->
  Forall (is_uint w) (map g (List.filter pres (map field (having bit ss)))).
Proof.
  intros H. apply Forall_fmap, List.Forall_forall. intros x Hx. apply filter_In in Hx as [Hx _].
  apply in_map_iff in Hx as (s & <- & Hs). apply filter_In in Hs as [Hs _].
  rewrite List.Forall_forall in H. by apply H.
Qed.

Lemma window_summary_ok lv ss : is_uint 8 lv -> Forall sample_ok ss -> sample_ok (window_summary lv ss).
Proof.
  intros Hlv Hok.
  assert (Hf : forall w (field : Sample -> Z), (forall s, sample_ok s -> is_uint w (field s)) ->
    Forall (fun s => is_uint w (field s)) ss) by (intros; by eapply Forall_impl).
  assert (Hhv : forall bit w (field : Sample -> Z), (forall s, sample_ok s -> is_uint w (field s)) ->
    Forall (is_uint w) (map field (having bit ss))).
  { intros bit w field H. apply Forall_fmap, List.Forall_forall. intros s Hs.
    apply filter_In in Hs as [Hs _]. apply H. rewrite List.Forall_forall in Hok. by apply Hok. }
  assert (Hst : forall s, sample_ok s -> sample_ok s) by done. unfold_sample_ok.
  unfold window_summary; cbn -[Z.land Z.min is_uint].
  repeat match goal with |- _ /\ _ => split end;
    try (first [apply mean_range | apply mean_count_range]);
    try (apply highest_range; [lia | apply Hf; intros; tauto]);
    try (apply newest_range; [lia | apply Hf; intros; tauto]);
    try (apply fmax_range, Hhv; intros; tauto);
    try done.
  - destruct (last ss) as [s |] eqn:E; simpl; [| split; lia].
    apply last_Some_elem_of in E. rewrite Forall_forall in Hok. specialize (Hok _ E). tauto.
  - destruct (nonempty _); [| split; lia]. apply zmin_range; [| by apply (bool_decide_unpack _)].
    apply present_range, Hf. intros; tauto.
  - apply hottest_range, present_range, Hf. intros; tauto.
  - split; [apply Z.min_glb; [| unfold UINT32_MAX; lia] | unfold UINT32_MAX; lia].
    specialize (Hhv kGroupFileWatch 32 (fun s => file_watch_events_this_tick (file_watch s)) ltac:(intros; tauto)).
    induction Hhv as [| x l [Hx _] _ IH]; simpl; lia.
  - apply farthest_range, present_range, Hf. intros; tauto.
  - apply fmax_range, present_range, Hf. intros; tauto.
  - apply (is_uint_land 32); [lia |]. by apply (bool_decide_unpack _).
Qed.
