(* ===== verification/TierManager.v ===== *)
(** The multi-tier store, its writing side (src/storage/tier_manager.h,
    src/storage/tier_manager.cpp): opening, converting and recovering the ring
    files of a data directory, routing each sample to its ring and folding it
    into the coarser ones.  The directory is one map from file names to bytes,
    so two rings over one file would share it; a ring pointer of the source is
    a [ring_ref]. *)
From Stdlib Require Import ZArith Lia List.
From stdpp Require Import base numbers list strings gmap pretty.
From S2P Require Import Prelude Sample SampleCodec RecordCodec RingFile RingCheck TierAggregator.
Open Scope Z_scope.

Record LevelRingSpec := mkLevelRingSpec {
  spec_level_id : Z;
  spec_name : string;
  spec_max_mb : Z
}.

Record Recovered := mkRecovered { rcv_ring : string; rcv_records : Z }.
Record Converted := mkConverted {
  cnv_ring : string;
  cnv_from_record_size : Z;
  cnv_kept : Z;
  cnv_dropped : Z
}.
Record CustomRing := mkCustomRing { c_level_id : Z; c_ring : RingFile; c_leaf : string }.

Record TierManager := mkTierManager {
  last_error_ : string;
  recovered_ : list Recovered;
  converted_ : list Converted;
  tier1_ : RingFile;
  tier2_ : RingFile;
  tier3_ : RingFile;
  custom_ : list CustomRing;
  ready_ : bool;
  store_error_ : string;
  fold_l2_ns_ : Z;
  fold_l1_ns_ : Z;
  fold_l2_ : TierAggregator;
  fold_l1_ : TierAggregator
}.
Definition new_TierManager : TierManager :=
  mkTierManager "" [] [] new_RingFile new_RingFile new_RingFile [] false "" 0 0 (reset L2) (reset L1).

(** The data directory, and what the writes still to come will answer (a full
    write once the list is used up). *)
Record World := mkWorld { disk : gmap string (list Z); answers : list wr_result }.

Definition next_answer (w : World) : wr_result * World :=
  match answers w with
  | [] => (WrOk record_size_for_sample, w)
  | a :: rest => (a, mkWorld (disk w) rest)
  end.
Definition file_of (leaf : string) (w : World) : list Z := default [] (disk w !! leaf).
Definition set_file (leaf : string) (f : list Z) (w : World) : World :=
  mkWorld (<[leaf := f]> (disk w)) (answers w).

(** What the system answers while one ring is opened. *)
Record RingSys := mkRingSys {
  rs_header : OpenSys;
  rs_convert : ConvertSys;
  rs_open : OpenSys;
  rs_io : Z -> bool;
  rs_clock : Z
}.
Definition ring_sys_ok (clock : Z) : RingSys := mkRingSys sys_ok convert_ok sys_ok no_io clock.

(** *** Field updates *)

Definition set_last_error (e : string) (m : TierManager) : TierManager :=
  mkTierManager e (recovered_ m) (converted_ m) (tier1_ m) (tier2_ m) (tier3_ m) (custom_ m)
    (ready_ m) (store_error_ m) (fold_l2_ns_ m) (fold_l1_ns_ m) (fold_l2_ m) (fold_l1_ m).
Definition set_recovered (r : list Recovered) (m : TierManager) : TierManager :=
  mkTierManager (last_error_ m) r (converted_ m) (tier1_ m) (tier2_ m) (tier3_ m) (custom_ m)
    (ready_ m) (store_error_ m) (fold_l2_ns_ m) (fold_l1_ns_ m) (fold_l2_ m) (fold_l1_ m).
Definition set_converted (c : list Converted) (m : TierManager) : TierManager :=
  mkTierManager (last_error_ m) (recovered_ m) c (tier1_ m) (tier2_ m) (tier3_ m) (custom_ m)
    (ready_ m) (store_error_ m) (fold_l2_ns_ m) (fold_l1_ns_ m) (fold_l2_ m) (fold_l1_ m).
Definition set_rings (r1 r2 r3 : RingFile) (cs : list CustomRing) (m : TierManager) : TierManager :=
  mkTierManager (last_error_ m) (recovered_ m) (converted_ m) r1 r2 r3 cs
    (ready_ m) (store_error_ m) (fold_l2_ns_ m) (fold_l1_ns_ m) (fold_l2_ m) (fold_l1_ m).
Definition set_ready (b : bool) (m : TierManager) : TierManager :=
  mkTierManager (last_error_ m) (recovered_ m) (converted_ m) (tier1_ m) (tier2_ m) (tier3_ m)
    (custom_ m) b (store_error_ m) (fold_l2_ns_ m) (fold_l1_ns_ m) (fold_l2_ m) (fold_l1_ m).
Definition set_store_error (e : string) (m : TierManager) : TierManager :=
  mkTierManager (last_error_ m) (recovered_ m) (converted_ m) (tier1_ m) (tier2_ m) (tier3_ m)
    (custom_ m) (ready_ m) e (fold_l2_ns_ m) (fold_l1_ns_ m) (fold_l2_ m) (fold_l1_ m).
Definition set_fold_l2 (a : TierAggregator) (m : TierManager) : TierManager :=
  mkTierManager (last_error_ m) (recovered_ m) (converted_ m) (tier1_ m) (tier2_ m) (tier3_ m)
    (custom_ m) (ready_ m) (store_error_ m) (fold_l2_ns_ m) (fold_l1_ns_ m) a (fold_l1_ m).
Definition set_fold_l1 (a : TierAggregator) (m : TierManager) : TierManager :=
  mkTierManager (last_error_ m) (recovered_ m) (converted_ m) (tier1_ m) (tier2_ m) (tier3_ m)
    (custom_ m) (ready_ m) (store_error_ m) (fold_l2_ns_ m) (fold_l1_ns_ m) (fold_l2_ m) a.

Definition set_fold_windows (l2_ns l1_ns : Z) (m : TierManager) : TierManager :=
  mkTierManager (last_error_ m) (recovered_ m) (converted_ m) (tier1_ m) (tier2_ m) (tier3_ m)
    (custom_ m) (ready_ m) (store_error_ m) l2_ns l1_ns (fold_l2_ m) (fold_l1_ m).

(** ** Opening *)

Definition records_from_mb (mb record_size : Z) : Z :=
  if (mb <=? 0) || (record_size =? 0) then 1
  else let cap := u64 (mb * (1024 * 1024)) / record_size in
       if cap =? 0 then 1 else cap.

(** Whether [snprintf(out, 1024, '%s/%s', dir, leaf)] fits. *)
Definition join_path (dir leaf : string) : bool :=
  let n := Z.of_nat (String.length dir) + 1 + Z.of_nat (String.length leaf) in
  (0 <? n) && (n <? 1024).

Section Messages.
Context (strerror : Z -> string).

Definition ring_failed (leaf : string) (ring : RingFile) (rc : Z) (m : TierManager) : TierManager :=
  set_last_error
    (leaf +:+ ": " +:+ describe rc +:+
     (if negb (last_errno_ ring =? 0) then ": " +:+ strerror (last_errno_ ring) else "") +:+
     (if (rc =? -6) || (rc =? -11) || (rc =? -12)
      then " (storage_mb / tierN_max_mb changed? move the file aside or restore the old size)"
      else "")) m.
Definition path_failed (leaf : string) (m : TierManager) : TierManager :=
  set_last_error (leaf +:+ ": data_dir path too long") m.

Definition convert_if_older (sys : RingSys) (leaf : string) (tier record_size capacity : Z)
    (m : TierManager) (w : World) : bool * TierManager * World :=
  let '(hrc, _, h) := read_header (rs_header sys) false (disk w !! leaf) zero_Header in
  if negb (hrc =? 0) || negb (h_tier h =? tier) || (h_record_size h =? record_size) then (true, m, w)
  else if record_size <? h_record_size h then
    (false, set_last_error
       (leaf +:+ ": " +:+ pretty (h_record_size h) +:+
        "-byte records, written by a newer budyk (this one writes " +:+ pretty record_size +:+
        "): move the file aside, or run the newer budyk") m, w)
  else
    let '(rc, file', kept, dropped) :=
      convert_ring (rs_convert sys) (rs_clock sys) (disk w !! leaf) tier record_size capacity in
    let w := match file' with Some f => set_file leaf f w | None => w end in
    if negb (rc =? 0) then
      (false, set_last_error
         (leaf +:+ ": converting it from " +:+ pretty (h_record_size h) +:+
          "-byte records (an older budyk) failed: " +:+ strerror (- rc)) m, w)
    else (true, set_converted (converted_ m ++ [mkConverted leaf (h_record_size h) kept dropped]) m, w).

(** On the ring just opened; the ring's new state is returned beside the manager. *)
Definition recover (sys : RingSys) (leaf : string) (ring : RingFile) (m : TierManager) (w : World)
    : RingFile * TierManager * World :=
  let n := count_unindexed (rs_io sys) (rs_clock sys) ring (file_of leaf w) 0 in
  if 0 <? n then
    let '(rc, ring', f') := advance_write_index n ring (file_of leaf w) in
    if rc =? 0 then (ring', set_recovered (recovered_ m ++ [mkRecovered leaf n]) m, set_file leaf f' w)
    else (ring, m, w)
  else (ring, m, w).

(** One ring's share of init(): the path, the conversion, open(), recover().
    The code is 1 for a path too long, 2 for a failure to convert or open. *)
Definition open_ring (sys : RingSys) (data_dir leaf : string) (tier cap : Z) (ring : RingFile)
    (m : TierManager) (w : World) : Z * RingFile * TierManager * World :=
  if negb (join_path data_dir leaf) then (1, ring, path_failed leaf m, w)
  else
    let '(ok, m, w) := convert_if_older sys leaf tier record_size_for_sample cap m w in
    if negb ok then (2, ring, m, w)
    else
      let '(rc, ring, file') := open (rs_open sys) (disk w !! leaf) ring tier record_size_for_sample cap in
      let w := match file' with Some f => set_file leaf f w | None => w end in
      if negb (rc =? 0) then (2, ring, ring_failed leaf ring rc m, w)
      else let '(ring, m, w) := recover sys leaf ring m w in (0, ring, m, w).

Definition level_leaf (name : string) : string := "level-" +:+ name +:+ ".ring".

(** The loop over the custom levels; [false]: one of them failed. *)
Fixpoint open_customs (sys : string -> RingSys) (data_dir : string) (specs : list LevelRingSpec)
    (cs : list CustomRing) (m : TierManager) (w : World) : bool * list CustomRing * TierManager * World :=
  match specs with
  | [] => (true, cs, m, w)
  | sp :: specs =>
      let leaf := level_leaf (spec_name sp) in
      let '(rc, ring, m, w) := open_ring (sys leaf) data_dir leaf kCustomRingTier
        (records_from_mb (spec_max_mb sp) record_size_for_sample) new_RingFile m w in
      if negb (rc =? 0) then (false, [], m, w)
      else open_customs sys data_dir specs (cs ++ [mkCustomRing (spec_level_id sp) ring leaf]) m w
  end.

Definition init (sys : string -> RingSys) (data_dir : option string) (mb1 mb2 mb3 : Z)
    (custom : list LevelRingSpec) (m : TierManager) (w : World) : Z * TierManager * World :=
  let m := set_last_error "" (set_recovered [] (set_converted [] m)) in
  match data_dir with
  | None => (-1, set_last_error "data_dir is null" m, w)
  | Some dir =>
  if ready_ m then (-2, set_last_error "already initialised" m, w)
  else
    let cap mb := records_from_mb mb record_size_for_sample in
    let '(rc, r1, m, w) := open_ring (sys "tier1.ring") dir "tier1.ring" 1 (cap mb1) (tier1_ m) m w in
    if negb (rc =? 0) then
      (if rc =? 1 then -3 else -4, set_rings r1 (tier2_ m) (tier3_ m) (custom_ m) m, w)
    else
    let '(rc, r2, m, w) := open_ring (sys "tier2.ring") dir "tier2.ring" 2 (cap mb2) (tier2_ m) m w in
    if negb (rc =? 0) then
      (if rc =? 1 then -5 else -6, set_rings (RingFile.close r1) r2 (tier3_ m) (custom_ m) m, w)
    else
    let '(rc, r3, m, w) := open_ring (sys "tier3.ring") dir "tier3.ring" 3 (cap mb3) (tier3_ m) m w in
    if negb (rc =? 0) then
      (if rc =? 1 then -7 else -8, set_rings (RingFile.close r1) (RingFile.close r2) r3 (custom_ m) m, w)
    else
    let '(ok, cs, m, w) := open_customs sys dir custom (custom_ m) m w in
    if negb ok then (-9, set_rings (RingFile.close r1) (RingFile.close r2) (RingFile.close r3) [] m, w)
    else (0, set_ready true (set_rings r1 r2 r3 cs m), w)
  end.

(** ** Writing *)

(** [RingFile*]: the ring a pointer of the source points at. *)
Inductive ring_ref := Tier1 | Tier2 | Tier3 | Custom (i : nat).

Definition ring_at (r : ring_ref) (m : TierManager) : option (RingFile * string) :=
  match r with
  | Tier1 => Some (tier1_ m, "tier1.ring")
  | Tier2 => Some (tier2_ m, "tier2.ring")
  | Tier3 => Some (tier3_ m, "tier3.ring")
  | Custom i => c ← custom_ m !! i; Some (c_ring c, c_leaf c)
  end.

Definition set_ring (r : ring_ref) (ring : RingFile) (m : TierManager) : TierManager :=
  match r with
  | Tier1 => set_rings ring (tier2_ m) (tier3_ m) (custom_ m) m
  | Tier2 => set_rings (tier1_ m) ring (tier3_ m) (custom_ m) m
  | Tier3 => set_rings (tier1_ m) (tier2_ m) ring (custom_ m) m
  | Custom i =>
      set_rings (tier1_ m) (tier2_ m) (tier3_ m)
        (alter (fun c => mkCustomRing (c_level_id c) ring (c_leaf c)) i (custom_ m)) m
  end.

Fixpoint find_custom (lv : Z) (cs : list CustomRing) (i : nat) : option ring_ref :=
  match cs with
  | [] => None
  | c :: cs => if c_level_id c =? lv then Some (Custom i) else find_custom lv cs (S i)
  end.

Definition ring_for (lv : Level) (m : TierManager) : option ring_ref :=
  if lv =? L3 then Some Tier1
  else if lv =? L2 then Some Tier2
  else if lv =? L1 then Some Tier3
  else find_custom (u8 lv) (custom_ m) 0.

Definition append (r : ring_ref) (s : Sample) (m : TierManager) (w : World) : Z * TierManager * World :=
  match ring_at r m with
  | None => (-4, m, w)
  | Some (ring, leaf) =>
      match record_encode s false false 1024 with
      | inl _ => (-3, m, w)
      | inr buf =>
          let '(ans, w) := next_answer w in
          let '(rc, ring', f') := RingFile.append ans (Some buf) ring (file_of leaf w) in
          let m := set_ring r ring' m in
          let w := set_file leaf f' w in
          if negb (rc =? 0) then
            (-4, set_store_error
               (leaf +:+ ": writing a record failed: " +:+
                strerror (if negb (last_errno_ ring' =? 0) then last_errno_ ring' else EIO)) m, w)
          else (0, m, w)
      end
  end.

(** A fold window: which aggregator it is. *)
Inductive fold_ref := FoldL2 | FoldL1.
Definition agg_at (a : fold_ref) (m : TierManager) : TierAggregator :=
  match a with FoldL2 => fold_l2_ m | FoldL1 => fold_l1_ m end.
Definition set_agg (a : fold_ref) (g : TierAggregator) (m : TierManager) : TierManager :=
  match a with FoldL2 => set_fold_l2 g m | FoldL1 => set_fold_l1 g m end.

Definition flush (a : fold_ref) (r : ring_ref) (m : TierManager) (w : World) : Z * TierManager * World :=
  let '(folded, agg) := fold false (agg_at a m) in
  let m := set_agg a agg m in
  match folded with
  | None => (0, m, w)
  | Some s => append r s m w
  end.

Definition feed (a : fold_ref) (r : ring_ref) (window_ns : Z) (s : Sample) (m : TierManager) (w : World)
    : Z * TierManager * World :=
  if window_ns =? 0 then (0, m, w)
  else
    let agg := agg_at a m in
    let ends := (0 <? size agg) &&
      ((timestamp_nanos s <? first_timestamp agg) ||
       (window_ns <=? u64 (timestamp_nanos s - first_timestamp agg))) in
    let '(rc, m, w) := if ends then flush a r m w else (0, m, w) in
    (rc, set_agg a (add s (agg_at a m)) m, w).

Definition store (s : Sample) (m : TierManager) (w : World) : Z * TierManager * World :=
  if negb (ready_ m) then (-1, m, w)
  else match ring_for (level s) m with
  | None => (-2, m, w)
  | Some target =>
      let '(rc1, m, w) :=
        if level s =? L1 then flush FoldL2 Tier2 m w
        else if level s =? L2 then flush FoldL2 Tier2 m w
        else feed FoldL2 Tier2 (fold_l2_ns_ m) s m w in
      let '(rc2, m, w) :=
        if level s =? L1 then flush FoldL1 Tier3 m w
        else feed FoldL1 Tier3 (fold_l1_ns_ m) s m w in
      let '(direct, m, w) := append target s m w in
      (if negb (direct =? 0) then direct else first_rc rc1 rc2, m, w)
  end.

Definition close (m : TierManager) (w : World) : TierManager * World :=
  if negb (ready_ m) then (m, w)
  else
    let '(_, m, w) := flush FoldL2 Tier2 m w in
    let '(_, m, w) := flush FoldL1 Tier3 m w in
    (set_ready false (set_rings (RingFile.close (tier1_ m)) (RingFile.close (tier2_ m))
       (RingFile.close (tier3_ m)) [] m), w).
End Messages.

Definition tier1_count (m : TierManager) (w : World) : Z := count (tier1_ m) (file_of "tier1.ring" w).
Definition tier2_count (m : TierManager) (w : World) : Z := count (tier2_ m) (file_of "tier2.ring" w).
Definition tier3_count (m : TierManager) (w : World) : Z := count (tier3_ m) (file_of "tier3.ring" w).

(** ** The specification: one log per ring, one list per open fold window *)

#[export] Instance ring_ref_eq_dec : EqDecision ring_ref.
Proof. solve_decision. Defined.
#[export] Instance fold_ref_eq_dec : EqDecision fold_ref.
Proof. solve_decision. Defined.

Record Store := mkStore { logs : ring_ref -> list Sample; windows : fold_ref -> list Sample }.
Definition empty_store : Store := mkStore (fun _ => []) (fun _ => []).

Definition tier_of (r : ring_ref) : Z :=
  match r with Tier1 => 1 | Tier2 => 2 | Tier3 => 3 | Custom _ => kCustomRingTier end.
Definition level_of (a : fold_ref) : Level := match a with FoldL2 => L2 | FoldL1 => L1 end.
Definition ring_of (a : fold_ref) : ring_ref := match a with FoldL2 => Tier2 | FoldL1 => Tier3 end.

(** A record keeps all of a sample but the tick's baseline. *)
Definition stored (s : Sample) : Sample := set_baseline (baseline zero_Sample) s.

Definition spec_append (r : ring_ref) (s : Sample) (st : Store) : Store :=
  mkStore (fun r' => if decide (r' = r) then logs st r ++ [stored s] else logs st r') (windows st).
Definition spec_window (a : fold_ref) (w : list Sample) (st : Store) : Store :=
  mkStore (logs st) (fun a' => if decide (a' = a) then w else windows st a').
Definition spec_flush (a : fold_ref) (st : Store) : Store :=
  match windows st a with
  | [] => spec_window a [] st
  | w => spec_append (ring_of a) (window_summary (level_of a) w) (spec_window a [] st)
  end.
(** Whether [s] falls outside the window that [first] began. *)
Definition window_over (window_ns : Z) (first s : Sample) : bool :=
  (timestamp_nanos s <? timestamp_nanos first) ||
  (window_ns <=? timestamp_nanos s - timestamp_nanos first).
Definition spec_feed (a : fold_ref) (window_ns : Z) (s : Sample) (st : Store) : Store :=
  if window_ns =? 0 then st
  else
    let over := match windows st a with [] => false | first :: _ => window_over window_ns first s end in
    let st := if over then spec_flush a st else st in
    spec_window a (windows st a ++ [s]) st.
Definition spec_store (l2_ns l1_ns : Z) (target : ring_ref) (s : Sample) (st : Store) : Store :=
  let st := if (level s =? L1) || (level s =? L2) then spec_flush FoldL2 st
            else spec_feed FoldL2 l2_ns s st in
  let st := if level s =? L1 then spec_flush FoldL1 st else spec_feed FoldL1 l1_ns s st in
  spec_append target s st.

(** *** The relation *)

(** What routing depends on. *)
Definition shape (m : TierManager) : bool * Z * Z * list (Z * string) :=
  (ready_ m, fold_l2_ns_ m, fold_l1_ns_ m, map (fun c => (c_level_id c, c_leaf c)) (custom_ m)).

Definition rings_hold (m : TierManager) (w : World) (st : Store) : Prop :=
  forall r ring leaf, ring_at r m = Some (ring, leaf) ->
    ring_samples ring (file_of leaf w) (logs st r) /\ tier_ ring = tier_of r /\ read_only_ ring = false.
Definition leaves_distinct (m : TierManager) : Prop :=
  forall r r' ring ring' leaf, ring_at r m = Some (ring, leaf) -> ring_at r' m = Some (ring', leaf) -> r = r'.
Definition windows_hold (m : TierManager) (st : Store) : Prop :=
  forall a, agg_at a m = add_all (level_of a) (windows st a) /\ Forall sample_ok (windows st a).
(** No more than [k] samples were stored. *)
Definition store_bound (k : Z) (st : Store) : Prop :=
  (forall r, zlen (logs st r) <= 2 * k) /\ (forall a, zlen (windows st a) <= k).

Definition manager_sim (m : TierManager) (w : World) (st : Store) : Prop :=
  rings_hold m w st /\ leaves_distinct m /\ windows_hold m st /\ answers w = [].

(** *** Lemmas *)

Lemma ring_at_set_ring r r' ring m :
  ring_at r' (set_ring r ring m) =
  if decide (r' = r) then (fun p => (ring, p.2)) <$> ring_at r m else ring_at r' m.
Proof.
  destruct r as [| | | i], r' as [| | | j]; try reflexivity; unfold ring_at, set_ring, set_rings;
    cbn [custom_]. rewrite list_lookup_alter.
  destruct (decide (i = j)) as [-> | Hne].
  - rewrite decide_True by done. by destruct (custom_ m !! j).
  - rewrite decide_False by congruence. done.
Qed.

Lemma shape_set_ring r ring m : shape (set_ring r ring m) = shape m.
Proof.
  destruct r as [| | | i]; try reflexivity. unfold shape. cbn [set_ring set_rings ready_ fold_l2_ns_ fold_l1_ns_ custom_].
  f_equal. change (map ?f ?l) with (f <$> l). apply list_eq. intros j. rewrite !list_lookup_fmap, list_lookup_alter.
  destruct (decide (i = j)) as [-> |]; [| done]. by destruct (custom_ m !! j).
Qed.

Lemma find_custom_shape lv cs cs' i :
  map (fun c => (c_level_id c, c_leaf c)) cs = map (fun c => (c_level_id c, c_leaf c)) cs' ->
  find_custom lv cs i = find_custom lv cs' i.
Proof.
  revert cs' i. induction cs as [| c cs IH]; intros [| c' cs'] i H; try done.
  injection H as H1 H2 H3. simpl. rewrite H1. destruct (_ =? _); [done | by apply IH].
Qed.

Lemma ring_for_shape lv m m' : shape m = shape m' -> ring_for lv m = ring_for lv m'.
Proof. unfold shape, ring_for. intros [= _ _ _ H]. by rewrite (find_custom_shape _ _ _ _ H). Qed.

Lemma encode_stored s : encode_record (stored s) = encode_record s.
Proof. by destruct s. Qed.

(** The record a flush writes, if any, and what the steps do to logs and windows. *)
Definition flushed (a : fold_ref) (st : Store) : list Sample :=
  match windows st a with [] => [] | w => [stored (window_summary (level_of a) w)] end.
Definition feed_over (a : fold_ref) (window_ns : Z) (s : Sample) (st : Store) : bool :=
  negb (window_ns =? 0) &&
  match windows st a with [] => false | first :: _ => window_over window_ns first s end.

Lemma logs_append r s st r' :
  logs (spec_append r s st) r' = logs st r' ++ (if decide (r' = r) then [stored s] else []).
Proof. cbn. destruct (decide (r' = r)) as [-> |]; [done | by rewrite app_nil_r]. Qed.

Lemma logs_flush a st r :
  logs (spec_flush a st) r = logs st r ++ (if decide (r = ring_of a) then flushed a st else []).
Proof.
  unfold spec_flush, flushed. destruct (windows st a) as [| x l]; [| apply (logs_append _ _ (spec_window a [] st))].
  destruct (decide _); by rewrite app_nil_r.
Qed.

Lemma windows_flush a st a' : windows (spec_flush a st) a' = if decide (a' = a) then [] else windows st a'.
Proof. unfold spec_flush. by destruct (windows st a). Qed.

Lemma logs_feed a ns s st r :
  logs (spec_feed a ns s st) r =
  logs st r ++ (if decide (r = ring_of a) then (if feed_over a ns s st then flushed a st else []) else []).
Proof.
  unfold spec_feed, feed_over. destruct (ns =? 0); cbn [negb andb].
  { destruct (decide _); by rewrite app_nil_r. }
  cbn [logs spec_window]. destruct (match windows st a with [] => _ | _ => _ end); [apply logs_flush |].
  destruct (decide _); by rewrite app_nil_r.
Qed.

Lemma windows_feed a ns s st a' :
  windows (spec_feed a ns s st) a' =
  if decide (a' = a) then
    if ns =? 0 then windows st a
    else if feed_over a ns s st then [s] else windows st a ++ [s]
  else windows st a'.
Proof.
  unfold spec_feed, feed_over. destruct (ns =? 0); cbn [negb andb].
  { by destruct (decide (a' = a)) as [-> |]. }
  cbn [windows spec_window].
  destruct (match windows st a with [] => _ | _ => _ end); destruct (decide (a' = a)) as [-> |]; try done.
  - by rewrite windows_flush, decide_True.
  - by rewrite windows_flush, decide_False.
Qed.

Lemma zlen_flushed a st : zlen (flushed a st) <= 1.
Proof. unfold flushed. by destruct (windows st a). Qed.

(** Two states with the same rings, whatever is in them. *)
Definition ring_id (p : RingFile * string) : Z * string := (capacity_ p.1, p.2).
Definition same_rings (m m' : TierManager) : Prop :=
  shape m = shape m' /\ forall r, ring_id <$> ring_at r m = ring_id <$> ring_at r m'.

Lemma same_rings_trans m1 m2 m3 : same_rings m1 m2 -> same_rings m2 m3 -> same_rings m1 m3.
Proof.
  intros [H1 H2] [H3 H4]. split; [congruence |]. intros r. by rewrite H2.
Qed.

Lemma same_rings_at m m' r : same_rings m m' -> is_Some (ring_at r m) -> is_Some (ring_at r m').
Proof.
  intros [_ H] [p Hp]. specialize (H r). rewrite Hp in H. destruct (ring_at r m'); [by eexists | done].
Qed.

Lemma file_of_set_file leaf leaf' f w :
  file_of leaf' (set_file leaf f w) = if decide (leaf' = leaf) then f else file_of leaf' w.
Proof.
  unfold file_of, set_file. cbn [disk]. destruct (decide (leaf' = leaf)) as [-> |].
  - by rewrite lookup_insert_eq.
  - by rewrite lookup_insert_ne.
Qed.

Section Simulation.
Context (strerror : Z -> string).

Lemma append_sim m w st r s :
  manager_sim m w st -> is_Some (ring_at r m) -> storable (tier_of r) (stored s) ->
  zlen (logs st r) + 1 < 2 ^ 64 ->
  exists m' w', append strerror r s m w = (0, m', w') /\
    manager_sim m' w' (spec_append r s st) /\ same_rings m m'.
Proof.
  intros (Hr & Hd & Hw & Ha) [[ring leaf] Hat] Hs Hm. destruct (Hr _ _ _ Hat) as (Hring & Htier & Hro).
  unfold append. rewrite Hat. rewrite record_encode_some. unfold next_answer. rewrite Ha.
  rewrite <- Htier in Hs.
  destruct (ring_samples_append _ _ _ _ Hring Hro Hs Hm) as (ring' & f' & E & Hring' & Hro' & Hcap' & Ht').
  rewrite encode_stored in E. rewrite E. rewrite Z.eqb_refl. cbn [negb].
  eexists _, _. split; [reflexivity |].
  assert (Hat' : forall r', ring_at r' (set_ring r ring' m) =
    if decide (r' = r) then Some (ring', leaf) else ring_at r' m)
    by (intros r'; rewrite ring_at_set_ring, Hat; done).
  split; [split_and! |].
  - intros r' ring2 leaf2. rewrite Hat', file_of_set_file. cbn [logs spec_append].
    destruct (decide (r' = r)) as [-> | Hne].
    + intros [= <- <-]. rewrite decide_True by done. split_and!; [done | congruence | done].
    + intros H2. rewrite decide_False; [by apply Hr |]. intros ->. by apply Hne, (Hd _ _ _ _ _ H2 Hat).
  - intros r1 r2 ring1 ring2 leaf2. rewrite !Hat'.
    destruct (decide (r1 = r)) as [-> |], (decide (r2 = r)) as [-> |]; intros H1 H2; simplify_eq; try done.
    + by apply (Hd _ _ _ _ _ Hat H2).
    + by apply (Hd _ _ _ _ _ H1 Hat).
    + by apply (Hd _ _ _ _ _ H1 H2).
  - intros a. change (windows (spec_append r s st)) with (windows st).
    destruct (Hw a) as [H1 H2]. split; [| done]. rewrite <- H1. by destruct r, a.
  - done.
  - split; [symmetry; apply shape_set_ring |]. intros r'. rewrite Hat'.
    destruct (decide (r' = r)) as [-> |]; [| done]. rewrite Hat. cbn. unfold ring_id. simpl. by rewrite Hcap'.
Qed.

Lemma set_agg_sim m w st a g l :
  manager_sim m w st -> g = add_all (level_of a) l -> Forall sample_ok l ->
  manager_sim (set_agg a g m) w (spec_window a l st) /\ same_rings m (set_agg a g m).
Proof.
  intros (Hr & Hd & Hw & Ha) -> Hl.
  assert (Hat : forall r, ring_at r (set_agg a (add_all (level_of a) l) m) = ring_at r m) by (by destruct a).
  split; [split_and! |].
  - intros r ring leaf. rewrite Hat. apply Hr.
  - intros r1 r2 ring1 ring2 leaf. rewrite !Hat. apply Hd.
  - intros a'. cbn [windows spec_window]. destruct (decide (a' = a)) as [-> | Hne].
    + by destruct a.
    + rewrite <- (proj1 (Hw a')). split; [by destruct a, a' | apply Hw].
  - done.
  - split; [by destruct a |]. intros r. by rewrite Hat.
Qed.

Lemma first_timestamp_add_all lv ss :
  zlen ss < 2 ^ 64 ->
  first_timestamp (add_all lv ss) = match ss with [] => 0 | s :: _ => timestamp_nanos s end.
Proof.
  induction ss as [| s ss IH] using rev_ind; intros Hn; [done |].
  rewrite zlen_app in Hn. change (zlen [s]) with 1 in Hn. rewrite add_all_app.
  unfold first_timestamp in *. cbn [first_ts_ add]. rewrite n_add_all by lia.
  destruct ss as [| s' ss]; [done |]. rewrite zlen_cons in *. pose proof (zlen_nonneg ss).
  replace (1 + zlen ss =? 0) with false by lia. apply IH. lia.
Qed.

(** The folded record fits its ring. *)
Lemma summary_storable a l :
  Forall sample_ok l -> storable (tier_of (ring_of a)) (stored (window_summary (level_of a) l)).
Proof.
  intros Hl. assert (Hok : sample_ok (window_summary (level_of a) l)) by (apply window_summary_ok; [by destruct a | done]).
  split_and!; [| by destruct a | by destruct a | by destruct a | done].
  unfold_sample_ok. by cbn -[is_uint] in *.
Qed.

Lemma flush_sim m w st a :
  manager_sim m w st -> is_Some (ring_at (ring_of a) m) ->
  zlen (logs st (ring_of a)) + 1 < 2 ^ 64 -> zlen (windows st a) < 2 ^ 32 ->
  exists m' w', flush strerror a (ring_of a) m w = (0, m', w') /\
    manager_sim m' w' (spec_flush a st) /\ same_rings m m'.
Proof.
  intros Hsim Hat Hm Hn. pose proof Hsim as (_ & _ & Hw & _). destruct (Hw a) as [Hagg Hok].
  unfold flush, spec_flush. rewrite Hagg.
  destruct (windows st a) as [| s l] eqn:Ewin.
  - change (fold false (add_all (level_of a) [])) with (@None Sample, reset (level_of a)).
    destruct (set_agg_sim m w st a (reset (level_of a)) [] Hsim eq_refl ltac:(constructor)) as [H1 H2].
    by eexists _, _.
  - destruct (fold_window (level_of a) (s :: l)) as [Hf _]; [done | done | done |].
    rewrite Hf.
    destruct (set_agg_sim m w st a (reset (level_of a)) [] Hsim eq_refl ltac:(constructor)) as [H1 H2].
    destruct (append_sim _ _ _ (ring_of a) (window_summary (level_of a) (s :: l)) H1) as (m' & w' & E & H3 & H4).
    + by eapply same_rings_at.
    + by apply summary_storable.
    + done.
    + exists m', w'. split; [done |]. split; [done |]. by eapply same_rings_trans.
Qed.

Lemma feed_sim m w st a ns s :
  manager_sim m w st -> is_Some (ring_at (ring_of a) m) -> sample_ok s ->
  zlen (logs st (ring_of a)) + 1 < 2 ^ 64 -> zlen (windows st a) < 2 ^ 32 ->
  exists m' w', feed strerror a (ring_of a) ns s m w = (0, m', w') /\
    manager_sim m' w' (spec_feed a ns s st) /\ same_rings m m'.
Proof.
  intros Hsim Hat Hs Hm Hn. unfold feed, spec_feed.
  destruct (ns =? 0); [by exists m, w |].
  pose proof Hsim as (_ & _ & Hw & _). destruct (Hw a) as [Hagg Hok].
  set (over := match windows st a with [] => false | first :: _ => window_over ns first s end).
  assert (Hover : ((0 <? size (agg_at a m)) &&
      ((timestamp_nanos s <? first_timestamp (agg_at a m)) ||
       (ns <=? u64 (timestamp_nanos s - first_timestamp (agg_at a m))))) = over).
  { rewrite Hagg. unfold size. rewrite n_add_all, first_timestamp_add_all by lia. unfold over, window_over.
    destruct (windows st a) as [| f l] eqn:E; [done |].
    rewrite zlen_cons. pose proof (zlen_nonneg l). replace (0 <? 1 + zlen l) with true by lia. cbn [andb].
    destruct (timestamp_nanos s <? timestamp_nanos f) eqn:Elt; [done |]. bool_facts. cbn [orb].
    inversion Hok as [| ? ? Hf _]; subst. unfold u64. rewrite wrap_small; [done |].
    unfold_sample_ok. unfold is_uint in *. lia. }
  rewrite Hover. destruct over.
  - destruct (flush_sim m w st a Hsim Hat Hm Hn) as (m1 & w1 & -> & H1 & H2).
    pose proof H1 as (_ & _ & Hw1 & _). destruct (Hw1 a) as [Hagg1 Hok1].
    destruct (set_agg_sim m1 w1 _ a (add s (agg_at a m1)) (windows (spec_flush a st) a ++ [s]) H1) as [H3 H4].
    + by rewrite Hagg1, add_all_app.
    + apply Forall_app. split; [done |]. by constructor.
    + eexists _, _. split; [reflexivity |]. split; [done |]. by eapply same_rings_trans.
  - destruct (set_agg_sim m w st a (add s (agg_at a m)) (windows st a ++ [s]) Hsim) as [H3 H4].
    + by rewrite Hagg, add_all_app.
    + apply Forall_app. split; [done |]. by constructor.
    + by eexists _, _.
Qed.

(** The three rings every manager has, and the one the sample goes to. *)
Lemma store_sim m w st s target k :
  manager_sim m w st -> ready_ m = true -> ring_for (level s) m = Some target ->
  is_Some (ring_at target m) -> sample_ok s -> storable (tier_of target) (stored s) ->
  store_bound k st -> 0 <= k -> k + 1 < 2 ^ 32 ->
  exists m' w', store strerror s m w = (0, m', w') /\
    manager_sim m' w' (spec_store (fold_l2_ns_ m) (fold_l1_ns_ m) target s st) /\ same_rings m m'.
Proof.
  intros Hsim Hrd Hrf Hat Hs Hst [Hb1 Hb2] Hk Hmax.
  unfold store. rewrite Hrd, Hrf. cbn [negb].
  assert (Hlog : forall st' r, zlen (logs st' r) <= zlen (logs st r) + 1 -> zlen (logs st' r) + 1 < 2 ^ 64)
    by (intros st' r H; specialize (Hb1 r); lia).
  set (st1 := if (level s =? L1) || (level s =? L2) then spec_flush FoldL2 st
              else spec_feed FoldL2 (fold_l2_ns_ m) s st).
  assert (Hst1 : exists m1 w1,
    (if level s =? L1 then flush strerror FoldL2 Tier2 m w
     else if level s =? L2 then flush strerror FoldL2 Tier2 m w
     else feed strerror FoldL2 Tier2 (fold_l2_ns_ m) s m w) = (0, m1, w1) /\
    manager_sim m1 w1 st1 /\ same_rings m m1).
  { pose proof (Hb1 Tier2). pose proof (Hb2 FoldL2). unfold st1.
    destruct (level s =? L1); [| destruct (level s =? L2)]; cbn [orb].
    - apply (flush_sim m w st FoldL2); (done || (simpl; lia)).
    - apply (flush_sim m w st FoldL2); (done || (simpl; lia)).
    - apply (feed_sim m w st FoldL2); (done || (simpl; lia)). }
  destruct Hst1 as (m1 & w1 & -> & Hsim1 & Hsame1).
  assert (Hns : fold_l1_ns_ m1 = fold_l1_ns_ m) by (destruct Hsame1 as [[= _ _ Hns _] _]; done). rewrite Hns.
  assert (Hw1 : windows st1 FoldL1 = windows st FoldL1 /\ forall r, zlen (logs st1 r) <= zlen (logs st r) + 1).
  { unfold st1. destruct (_ || _); rewrite ?windows_flush, ?windows_feed; (split; [done |]); intros r;
      rewrite ?logs_flush, ?logs_feed, zlen_app; pose proof (zlen_flushed FoldL2 st);
      destruct (decide (r = _)); try destruct (feed_over _ _ _ _); change (zlen []) with 0; lia. }
  destruct Hw1 as [Hwin1 Hlen1].
  assert (Hlog3 : logs st1 Tier3 = logs st Tier3)
    by (unfold st1; destruct (_ || _); rewrite ?logs_flush, ?logs_feed, decide_False by done; by rewrite app_nil_r).
  set (st2 := if level s =? L1 then spec_flush FoldL1 st1 else spec_feed FoldL1 (fold_l1_ns_ m) s st1).
  assert (Hst2 : exists m2 w2,
    (if level s =? L1 then flush strerror FoldL1 Tier3 m1 w1
     else feed strerror FoldL1 Tier3 (fold_l1_ns_ m) s m1 w1) = (0, m2, w2) /\
    manager_sim m2 w2 st2 /\ same_rings m1 m2).
  { pose proof (Hb1 Tier3). pose proof (Hb2 FoldL1). unfold st2. destruct (level s =? L1).
    - apply (flush_sim m1 w1 st1 FoldL1); [done | done | |]; cbn [ring_of]; rewrite ?Hlog3, ?Hwin1; lia.
    - apply (feed_sim m1 w1 st1 FoldL1); [done | done | done | |]; cbn [ring_of]; rewrite ?Hlog3, ?Hwin1; lia. }
  destruct Hst2 as (m2 & w2 & -> & Hsim2 & Hsame2).
  assert (Hlen2 : zlen (logs st2 target) <= zlen (logs st target) + 1).
  { destruct (decide (target = Tier3)) as [-> | Hne].
    - unfold st2. destruct (level s =? L1); rewrite ?logs_flush, ?logs_feed, Hlog3, zlen_app;
        pose proof (zlen_flushed FoldL1 st1); cbn [ring_of]; rewrite decide_True by done;
        try destruct (feed_over _ _ _ _); change (zlen []) with 0; lia.
    - replace (logs st2 target) with (logs st1 target); [apply Hlen1 |].
      unfold st2. destruct (level s =? L1); rewrite ?logs_flush, ?logs_feed, decide_False by done;
        by rewrite app_nil_r. }
  destruct (append_sim m2 w2 st2 target s Hsim2) as (m3 & w3 & -> & Hsim3 & Hsame3).
  - eapply same_rings_at; [exact Hsame2 |]. by eapply same_rings_at.
  - done.
  - by apply Hlog.
  - rewrite Z.eqb_refl. cbn [negb first_rc]. exists m3, w3. split; [done |]. split; [exact Hsim3 |].
    eapply same_rings_trans; [exact Hsame1 |]. by eapply same_rings_trans.
Qed.
End Simulation.

(** ** Starting on a data directory *)

(** A ring file that holds [ss] in time order, or no file yet. *)
Definition ring_file_holds (tier cap : Z) (file : option (list Z)) (ss : list Sample) : Prop :=
  ring_params tier record_size_for_sample cap /\ zlen ss + 1 < 2 ^ 64 /\ times_after 0 ss /\
  match file with
  | None => ss = []
  | Some f => exists r, ring_samples r f ss /\ tier_ r = tier /\ capacity_ r = cap
  end.

(** A ring open for writing at the end of init(). *)
Definition ring_opened (tier cap : Z) (ring : RingFile) (f : list Z) (ss : list Sample) : Prop :=
  ring_samples ring f ss /\ tier_ ring = tier /\ capacity_ ring = cap /\ read_only_ ring = false.

Section Start.
Context (strerror : Z -> string) (clock : Z) (dir : string).

Lemma open_ring_holds leaf tier cap ss m w :
  join_path dir leaf = true -> ring_file_holds tier cap (disk w !! leaf) ss ->
  exists ring f, open_ring strerror (ring_sys_ok clock) dir leaf tier cap new_RingFile m w =
      (0, ring, m, set_file leaf f w) /\ ring_opened tier cap ring f ss.
Proof.
  intros Hj (Hp & Hm & Ht & Hfile). unfold open_ring. rewrite Hj. cbn [negb].
  assert (Hgo : exists ring f, ring_opened tier cap ring f ss /\
    convert_if_older strerror (ring_sys_ok clock) leaf tier record_size_for_sample cap m w = (true, m, w) /\
    open sys_ok (disk w !! leaf) new_RingFile tier record_size_for_sample cap = (0, ring, Some f)).
  { unfold convert_if_older. cbn [rs_header ring_sys_ok]. destruct (disk w !! leaf) as [f |].
    - destruct Hfile as (r & Hr & <- & <-).
      destruct (ring_samples_facts _ _ _ Hr) as (_ & _ & _ & _ & Hf).
      rewrite (read_header_existing _ _ _ _ _ Hf). cbn [h_record_size]. rewrite Z.eqb_refl, orb_true_r.
      exists (mkRingFile true false (tier_ r) 0 true record_size_for_sample (capacity_ r) (zlen ss) (zlen ss)), f.
      split; [| split; [done | by apply open_existing]].
      split; [by apply ring_samples_reopen | done].
    - subst ss. destruct (fresh_ring_samples None tier cap Hp I) as (r & f & E & Hr & Hro & Hrt & Hc).
      exists r, f. by split_and!. }
  destruct Hgo as (ring & f & Hopened & -> & Hopen). cbn [negb rs_open ring_sys_ok].
  change (rs_open (ring_sys_ok clock)) with sys_ok. rewrite Hopen, Z.eqb_refl. cbn [negb].
  pose proof Hopened as (Hring & Htier & Hcap & Hro).
  destruct (ring_samples_facts _ _ _ Hring) as (Hfd & Hw & _ & _ & _).
  unfold recover. rewrite file_of_set_file, decide_True by done. cbn [rs_io rs_clock ring_sys_ok].
  rewrite (count_unindexed_none ring f ss clock 0 Hring Hm Ht)
    by (unfold write_index; by rewrite Hfd, Hro).
  cbn [Z.ltb Z.compare]. by exists ring, f.
Qed.

(** The custom levels: [hist] gives each ring file's samples by its name. *)
Definition spec_leaf (sp : LevelRingSpec) : string := level_leaf (spec_name sp).
Definition spec_cap (sp : LevelRingSpec) : Z := records_from_mb (spec_max_mb sp) record_size_for_sample.

Lemma open_customs_hold (hist : string -> list Sample) specs :
  forall cs m w,
  NoDup (map spec_leaf specs) ->
  Forall (fun sp => join_path dir (spec_leaf sp) = true /\ ring_file_holds kCustomRingTier (spec_cap sp) (disk w !! spec_leaf sp) (hist (spec_leaf sp))) specs ->
  exists cs' w', open_customs strerror (fun _ => ring_sys_ok clock) dir specs cs m w = (true, cs ++ cs', m, w') /\
    Forall2 (fun sp c => c_level_id c = spec_level_id sp /\ c_leaf c = spec_leaf sp /\
      ring_opened kCustomRingTier (spec_cap sp) (c_ring c) (file_of (c_leaf c) w') (hist (c_leaf c))) specs cs' /\
    (forall leaf, leaf ∉ map spec_leaf specs -> file_of leaf w' = file_of leaf w) /\
    answers w' = answers w.
Proof.
  induction specs as [| sp specs IH]; intros cs m w Hnd Hall.
  { exists [], w. simpl. rewrite app_nil_r. by split_and!. }
  inversion Hnd as [| ? ? Hni Hnd']; subst. inversion Hall as [| ? ? [Hj Hh] Hall']; subst.
  destruct (open_ring_holds _ _ _ _ m w Hj Hh) as (ring & f & E & Hop).
  cbn [open_customs]. change (level_leaf (spec_name sp)) with (spec_leaf sp).
  change (records_from_mb (spec_max_mb sp) record_size_for_sample) with (spec_cap sp).
  rewrite E, Z.eqb_refl. cbn [negb].
  destruct (IH (cs ++ [mkCustomRing (spec_level_id sp) ring (spec_leaf sp)]) m (set_file (spec_leaf sp) f w))
    as (cs' & w' & E' & Hf2 & Hother & Hans); [done | |].
  { apply Forall_forall. intros x Hx. rewrite Forall_forall in Hall'. destruct (Hall' x Hx) as [Hxj Hxh].
    split; [done |].
    unfold set_file. cbn [disk]. rewrite lookup_insert_ne; [done |]. intros Heq. apply Hni.
    rewrite Heq. apply list_elem_of_In, in_map. by apply list_elem_of_In. }
  rewrite E', <- app_assoc. cbn [app].
  exists (mkCustomRing (spec_level_id sp) ring (spec_leaf sp) :: cs'), w'. split; [done |]. split; [| split].
  - constructor; [| done]. cbn [c_level_id c_leaf c_ring]. split_and!; [done | done |].
    rewrite Hother by done. rewrite file_of_set_file, decide_True by done. done.
  - intros leaf Hl. simpl in Hl. rewrite not_elem_of_cons in Hl. destruct Hl as [Hl1 Hl2].
    rewrite Hother, file_of_set_file, decide_False by done. done.
  - done.
Qed.

(** The directory before a start: each of the configured ring files holds the
    samples [hist] gives it. *)
Definition dir_holds (mb1 mb2 mb3 : Z) (specs : list LevelRingSpec) (hist : string -> list Sample)
    (w : World) : Prop :=
  let holds leaf tier cap :=
    join_path dir leaf = true /\ ring_file_holds tier cap (disk w !! leaf) (hist leaf) in
  NoDup ("tier1.ring" :: "tier2.ring" :: "tier3.ring" :: map spec_leaf specs) /\
  holds "tier1.ring" 1 (records_from_mb mb1 record_size_for_sample) /\
  holds "tier2.ring" 2 (records_from_mb mb2 record_size_for_sample) /\
  holds "tier3.ring" 3 (records_from_mb mb3 record_size_for_sample) /\
  Forall (fun sp => holds (spec_leaf sp) kCustomRingTier (spec_cap sp)) specs.

(** The file of each ring. *)
Definition leaf_of (specs : list LevelRingSpec) (r : ring_ref) : string :=
  match r with
  | Tier1 => "tier1.ring" | Tier2 => "tier2.ring" | Tier3 => "tier3.ring"
  | Custom i => default "" (spec_leaf <$> specs !! i)
  end.

Definition cap_of (mb1 mb2 mb3 : Z) (specs : list LevelRingSpec) (r : ring_ref) : Z :=
  match r with
  | Tier1 => records_from_mb mb1 record_size_for_sample
  | Tier2 => records_from_mb mb2 record_size_for_sample
  | Tier3 => records_from_mb mb3 record_size_for_sample
  | Custom i => default 0 (spec_cap <$> specs !! i)
  end.

(** The manager's rings are the configured ones. *)
Definition rings_configured (specs : list LevelRingSpec) (m : TierManager) : Prop :=
  map (fun c => (c_level_id c, c_leaf c)) (custom_ m) =
  map (fun sp => (spec_level_id sp, spec_leaf sp)) specs.

Lemma ring_at_leaf specs m r ring leaf :
  rings_configured specs m -> ring_at r m = Some (ring, leaf) ->
  leaf = leaf_of specs r /\
  match r with Custom i => specs !! i <> None | _ => True end.
Proof.
  intros Hc. destruct r as [| | | i]; simpl; try (by intros [= _ <-]).
  destruct (custom_ m !! i) as [c |] eqn:E; [| done]. simpl. intros [= _ <-].
  apply (f_equal (fun l => l !! i)) in Hc. change (map ?f ?l) with (f <$> l) in Hc.
  rewrite !list_lookup_fmap, E in Hc. destruct (specs !! i); simpl in *; [by simplify_eq | done].
Qed.

Lemma leaf_of_inj specs r r' :
  NoDup ("tier1.ring" :: "tier2.ring" :: "tier3.ring" :: map spec_leaf specs) ->
  match r with Custom i => specs !! i <> None | _ => True end ->
  match r' with Custom i => specs !! i <> None | _ => True end ->
  leaf_of specs r = leaf_of specs r' -> r = r'.
Proof.
  intros Hnd Hr Hr' He.
  assert (Hidx : forall r, match r with Custom i => specs !! i <> None | _ => True end ->
    ("tier1.ring" :: "tier2.ring" :: "tier3.ring" :: map spec_leaf specs) !!
      (match r with Tier1 => 0 | Tier2 => 1 | Tier3 => 2 | Custom i => 3 + i end)%nat = Some (leaf_of specs r)).
  { intros [| | | i] Hi; try done. simpl. change (map ?f ?l) with (f <$> l).
    rewrite list_lookup_fmap. by destruct (specs !! i). }
  pose proof (Hidx r Hr) as H1. pose proof (Hidx r' Hr') as H2. rewrite <- He in H2.
  pose proof (NoDup_lookup _ _ _ _ Hnd H1 H2) as H3. destruct r, r'; simpl in H3; congruence || lia.
Qed.

Lemma init_holds mb1 mb2 mb3 specs hist w :
  dir_holds mb1 mb2 mb3 specs hist w -> answers w = [] ->
  exists m w', init strerror (fun _ => ring_sys_ok clock) (Some dir) mb1 mb2 mb3 specs new_TierManager w = (0, m, w') /\
    manager_sim m w' (mkStore (fun r => hist (leaf_of specs r)) (fun _ => [])) /\
    ready_ m = true /\ rings_configured specs m /\ recovered_ m = [] /\ converted_ m = [] /\
    (forall r ring leaf, ring_at r m = Some (ring, leaf) -> capacity_ ring = cap_of mb1 mb2 mb3 specs r).
Proof.
  intros (Hnd & [Hj1 H1] & [Hj2 H2] & [Hj3 H3] & Hcs) Ha.
  pose proof Hnd as Hnd'. rewrite !NoDup_cons in Hnd'. destruct Hnd' as (Hn1 & Hn2 & Hn3 & Hnds).
  rewrite !not_elem_of_cons in Hn1. rewrite !not_elem_of_cons in Hn2.
  unfold init. set (m0 := set_last_error "" (set_recovered [] (set_converted [] new_TierManager))).
  change (ready_ m0) with false. change (tier1_ m0) with new_RingFile. cbv iota zeta.
  destruct (open_ring_holds _ _ _ _ m0 w Hj1 H1) as (r1 & f1 & E1 & Hop1).
  rewrite E1, Z.eqb_refl. cbn [negb]. change (tier2_ m0) with new_RingFile.
  assert (Hd2 : disk (set_file "tier1.ring" f1 w) !! "tier2.ring" = disk w !! "tier2.ring")
    by (unfold set_file; cbn [disk]; by rewrite lookup_insert_ne).
  rewrite <- Hd2 in H2. destruct (open_ring_holds _ _ _ _ m0 _ Hj2 H2) as (r2 & f2 & E2 & Hop2).
  rewrite E2, Z.eqb_refl. cbn [negb].
  assert (Hd3 : disk (set_file "tier2.ring" f2 (set_file "tier1.ring" f1 w)) !! "tier3.ring" = disk w !! "tier3.ring")
    by (unfold set_file; cbn [disk]; by rewrite !lookup_insert_ne).
  rewrite <- Hd3 in H3. destruct (open_ring_holds _ _ _ _ m0 _ Hj3 H3) as (r3 & f3 & E3 & Hop3).
  change (tier3_ m0) with new_RingFile. rewrite E3, Z.eqb_refl. cbn [negb].
  set (w3 := set_file "tier3.ring" f3 _) in *.
  destruct (open_customs_hold hist specs (custom_ m0) m0 w3) as (cs & w4 & E4 & Hf2 & Hother & Hans); [done | |].
  { apply Forall_forall. intros sp Hsp. rewrite Forall_forall in Hcs. destruct (Hcs sp Hsp) as [Hj Hh].
    split; [done |]. unfold w3, set_file. cbn [disk].
    assert (Hin : spec_leaf sp ∈ map spec_leaf specs) by (apply list_elem_of_In, in_map; by apply list_elem_of_In).
    rewrite !lookup_insert_ne; [done | ..]; intros He; rewrite He in *; tauto. }
  rewrite E4. cbn [negb].
  assert (Hconf : rings_configured specs (set_ready true (set_rings r1 r2 r3 cs m0))).
  { unfold rings_configured. cbn [custom_ set_ready set_rings]. clear -Hf2.
    induction Hf2 as [| sp c specs cs (Hi & Hl & _) _ IH]; [done |]. simpl. by rewrite Hi, Hl, IH. }
  eexists _, _. split; [reflexivity |]. change (custom_ m0 ++ cs) with cs. split_and!; try done.
  assert (Hfile : file_of "tier1.ring" w4 = f1 /\ file_of "tier2.ring" w4 = f2 /\ file_of "tier3.ring" w4 = f3).
  { rewrite !Hother by tauto. unfold w3. rewrite !file_of_set_file. by split_and!. }
  destruct Hfile as (Hfl1 & Hfl2 & Hfl3).
  2: { intros r ring leaf. destruct r as [| | | i]; simpl.
    - intros [= <- _]. apply Hop1.
    - intros [= <- _]. apply Hop2.
    - intros [= <- _]. apply Hop3.
    - destruct (cs !! i) as [c |] eqn:Ec; [| done]. simpl. intros [= <- _].
      destruct (Forall2_lookup_r _ _ _ _ _ Hf2 Ec) as (sp & Hsp & _ & _ & _ & _ & Hcap & _). by rewrite Hsp. }
  split_and!.
  - intros r ring leaf. cbn [logs]. destruct r as [| | | i]; simpl.
    + intros [= <- <-]. rewrite Hfl1. destruct Hop1 as (? & ? & ? & ?). by split_and!.
    + intros [= <- <-]. rewrite Hfl2. destruct Hop2 as (? & ? & ? & ?). by split_and!.
    + intros [= <- <-]. rewrite Hfl3. destruct Hop3 as (? & ? & ? & ?). by split_and!.
    + destruct (cs !! i) as [c |] eqn:Ec; [| done]. simpl. intros [= <- <-].
      destruct (Forall2_lookup_r _ _ _ _ _ Hf2 Ec) as (sp & Hsp & _ & Hl & Hring & Hti & _ & Hro).
      rewrite Hsp. simpl. rewrite Hl in *. by split_and!.
  - intros r r' ring ring' leaf Hr Hr'.
    destruct (ring_at_leaf _ _ _ _ _ Hconf Hr) as [-> Hv].
    destruct (ring_at_leaf _ _ _ _ _ Hconf Hr') as [Hl' Hv']. by apply (leaf_of_inj specs).
  - intros a. by destruct a.
  - by rewrite Hans.
Qed.
End Start.

(** ** Runs *)

Fixpoint find_spec (lv : Z) (specs : list LevelRingSpec) (i : nat) : option ring_ref :=
  match specs with
  | [] => None
  | sp :: specs => if spec_level_id sp =? lv then Some (Custom i) else find_spec lv specs (S i)
  end.
(** Where a configuration sends a level's samples. *)
Definition route (specs : list LevelRingSpec) (lv : Level) : option ring_ref :=
  if lv =? L3 then Some Tier1 else if lv =? L2 then Some Tier2 else if lv =? L1 then Some Tier3
  else find_spec (u8 lv) specs 0.

(** A sample of one of the configured levels. *)
Definition routable (specs : list LevelRingSpec) (s : Sample) : Prop :=
  match route specs (level s) with
  | Some target => sample_ok s /\ storable (tier_of target) (stored s)
  | None => False
  end.

Fixpoint run_stores (strerror : Z -> string) (ss : list Sample) (m : TierManager) (w : World)
    : list Z * TierManager * World :=
  match ss with
  | [] => ([], m, w)
  | s :: ss =>
      let '(rc, m, w) := store strerror s m w in
      let '(rcs, m, w) := run_stores strerror ss m w in (rc :: rcs, m, w)
  end.

Definition spec_step (l2_ns l1_ns : Z) (specs : list LevelRingSpec) (st : Store) (s : Sample) : Store :=
  match route specs (level s) with
  | Some target => spec_store l2_ns l1_ns target s st
  | None => st
  end.
Definition spec_run (l2_ns l1_ns : Z) (specs : list LevelRingSpec) (ss : list Sample) (st : Store) : Store :=
  fold_left (spec_step l2_ns l1_ns specs) ss st.

Lemma ring_for_route specs lv m : rings_configured specs m -> ring_for lv m = route specs lv.
Proof.
  unfold rings_configured, ring_for, route. intros H. do 3 (destruct (_ =? _); [done |]).
  revert H. generalize (custom_ m) 0%nat. induction specs as [| sp specs IH]; intros [| c cs] i H; try done.
  injection H as H1 _ H2. simpl. rewrite H1. destruct (_ =? _); [done | by apply IH].
Qed.

Lemma find_spec_lookup lv specs i r :
  find_spec lv specs i = Some r -> exists j sp, r = Custom (i + j) /\ specs !! j = Some sp.
Proof.
  revert i. induction specs as [| sp specs IH]; intros i; [done |]. simpl.
  destruct (_ =? _).
  - intros [= <-]. exists 0%nat, sp. split; [f_equal; lia | done].
  - intros H. apply IH in H as (j & sp' & -> & Hj). exists (S j), sp'. split; [f_equal; lia | done].
Qed.

Lemma route_ring_at specs lv m target :
  rings_configured specs m -> route specs lv = Some target -> is_Some (ring_at target m).
Proof.
  intros Hc. unfold route.
  destruct (lv =? L3); [intros [= <-]; by eexists |]. destruct (lv =? L2); [intros [= <-]; by eexists |].
  destruct (lv =? L1); [intros [= <-]; by eexists |]. intros H.
  apply find_spec_lookup in H as (j & sp & -> & Hj). simpl.
  apply (f_equal (fun l => l !! j)) in Hc. change (map ?f ?l) with (f <$> l) in Hc.
  rewrite !list_lookup_fmap, Hj in Hc. destruct (custom_ m !! j); [by eexists | done].
Qed.

Lemma spec_step_bound l2 l1 specs k st s : store_bound k st -> store_bound (k + 1) (spec_step l2 l1 specs st s).
Proof.
  intros [H1 H2]. unfold spec_step. destruct (route specs (level s)) as [t |].
  2: { split; intros x; [specialize (H1 x) | specialize (H2 x)]; lia. }
  unfold spec_store. set (st1 := if (_ || _) : bool then _ else _).
  assert (Hst1 : forall r, zlen (logs st1 r) <= zlen (logs st r) + (if decide (r = Tier2) then 1 else 0)).
  { intros r. pose proof (zlen_flushed FoldL2 st). unfold st1.
    destruct (_ || _); rewrite ?logs_flush, ?logs_feed, zlen_app; cbn [ring_of];
      destruct (decide (r = Tier2)); try destruct (feed_over _ _ _ _); change (zlen []) with 0; lia. }
  assert (Hw1 : forall a, zlen (windows st1 a) <= k + 1).
  { intros a. pose proof (H2 a). pose proof (H2 FoldL2). pose proof (zlen_nonneg (windows st FoldL2)). unfold st1.
    destruct (_ || _); rewrite ?windows_flush, ?windows_feed; destruct (decide (a = FoldL2));
      try destruct (l2 =? 0); try destruct (feed_over _ _ _ _); rewrite ?zlen_app;
      change (zlen [s]) with 1; change (zlen []) with 0; lia. }
  assert (Hwl : windows st1 FoldL1 = windows st FoldL1)
    by (unfold st1; destruct (_ || _); by rewrite ?windows_flush, ?windows_feed).
  set (st2 := if level s =? L1 then _ else _).
  assert (Hst2 : forall r, zlen (logs st2 r) <= zlen (logs st1 r) + (if decide (r = Tier3) then 1 else 0)).
  { intros r. pose proof (zlen_flushed FoldL1 st1). unfold st2.
    destruct (level s =? L1); rewrite ?logs_flush, ?logs_feed, zlen_app; cbn [ring_of];
      destruct (decide (r = Tier3)); try destruct (feed_over _ _ _ _); change (zlen []) with 0; lia. }
  split.
  - intros r. rewrite logs_append, zlen_app. specialize (Hst1 r). specialize (Hst2 r). specialize (H1 r).
    assert (zlen (if decide (r = t) then [stored s] else []) <= 1) by (by destruct (decide (r = t))).
    destruct (decide (r = Tier2)) as [-> |]; [rewrite decide_False in Hst2 by done |]; try lia.
    destruct (decide (r = Tier3)); lia.
  - intros a. cbn [windows spec_append]. pose proof (Hw1 a). pose proof (H2 FoldL1).
    pose proof (zlen_nonneg (windows st FoldL1)). unfold st2.
    destruct (level s =? L1); rewrite ?windows_flush, ?windows_feed; destruct (decide (a = FoldL1));
      try destruct (l1 =? 0); try destruct (feed_over _ _ _ _); rewrite ?Hwl, ?zlen_app;
      change (zlen [s]) with 1; change (zlen []) with 0; lia.
Qed.

Lemma stores_sim strerror specs ss : forall m w st k,
  manager_sim m w st -> ready_ m = true -> rings_configured specs m -> Forall (routable specs) ss ->
  store_bound k st -> 0 <= k -> k + zlen ss < 2 ^ 32 ->
  exists m' w', run_stores strerror ss m w = (replicate (length ss) 0, m', w') /\
    manager_sim m' w' (spec_run (fold_l2_ns_ m) (fold_l1_ns_ m) specs ss st) /\ same_rings m m'.
Proof.
  induction ss as [| s ss IH]; intros m w st k Hsim Hrd Hc Hall Hb Hk Hmax.
  { exists m, w. split_and!; try done. }
  inversion Hall as [| ? ? Hs Hall']; subst. rewrite zlen_cons in Hmax. pose proof (zlen_nonneg ss).
  unfold routable in Hs. destruct (route specs (level s)) as [t |] eqn:Hrt; [| done].
  destruct Hs as [Hok Hst].
  destruct (store_sim strerror m w st s t k) as (m1 & w1 & E1 & Hsim1 & Hsame1);
    [done | done | by rewrite (ring_for_route specs) | by eapply route_ring_at | done .. | lia |].
  pose proof Hsame1 as [[= H1 H2 H3 H4] _].
  destruct (IH m1 w1 (spec_store (fold_l2_ns_ m) (fold_l1_ns_ m) t s st) (k + 1)) as (m2 & w2 & E2 & Hsim2 & Hsame2);
    [done | congruence | unfold rings_configured in *; congruence | done | | lia | lia |].
  { pose proof (spec_step_bound (fold_l2_ns_ m) (fold_l1_ns_ m) specs k st s Hb) as Hb'.
    unfold spec_step in Hb'. by rewrite Hrt in Hb'. }
  exists m2, w2. cbn [run_stores]. rewrite E1, E2. split; [done |]. split.
  - rewrite <- H2, <- H3 in Hsim2. unfold spec_run. cbn [fold_left]. unfold spec_step at 2. by rewrite Hrt.
  - by eapply same_rings_trans.
Qed.

(** ** Time order *)

Lemma times_after_snoc t l s :
  times_after t l -> t < timestamp_nanos s -> (forall x, x ∈ l -> timestamp_nanos x < timestamp_nanos s) ->
  times_after t (l ++ [s]).
Proof.
  unfold times_after. rewrite map_app. simpl. intros Hl Ht Hx.
  inversion Hl as [| ? ? Hl1 Hl2]; subst. constructor.
  - clear Hl Hl2 Ht. induction l as [| y l IH]; simpl in *; [by repeat constructor |].
    inversion Hl1 as [| ? ? H1 H2]; subst. constructor.
    + apply IH; [| done]. intros x Hi. apply Hx. by right.
    + apply Forall_app. split; [done |]. constructor; [apply Hx; left | done].
  - apply Forall_app. split; [done |]. by constructor.
Qed.

(** Everything in the rings is in time order and no later than [T]; each open
    window is no later than its bound [B] and past what its ring holds. *)
Record in_order (T : Z) (B : fold_ref -> Z) (st : Store) : Prop := mkInOrder {
  io_logs : forall r, times_after 0 (logs st r);
  io_last : forall r s, s ∈ logs st r -> timestamp_nanos s <= T;
  io_windows : forall a s, s ∈ windows st a -> 0 < timestamp_nanos s <= B a;
  io_past : forall a s s', s ∈ logs st (ring_of a) -> s' ∈ windows st a -> timestamp_nanos s < timestamp_nanos s'
}.

Lemma flushed_time a st x : x ∈ flushed a st ->
  exists l, l ∈ windows st a /\ timestamp_nanos x = timestamp_nanos l.
Proof.
  unfold flushed. destruct (windows st a) as [| s w] eqn:E; [by intros ?%elem_of_nil |].
  intros ->%list_elem_of_singleton. destruct (last (s :: w)) as [l |] eqn:El.
  - exists l. split; [by apply last_Some_elem_of |].
    unfold stored, window_summary. cbn [timestamp_nanos set_baseline]. by rewrite El.
  - apply last_None in El. done.
Qed.

Lemma flushed_in_order T B st a :
  in_order T B st -> B a <= T -> times_after 0 (logs st (ring_of a) ++ flushed a st) /\
  (forall x, x ∈ flushed a st -> timestamp_nanos x <= T).
Proof.
  intros [] HB. split.
  - destruct (flushed a st) as [| x l] eqn:E; [by rewrite app_nil_r |].
    assert (l = []) as -> by (unfold flushed in E; by destruct (windows st a); simplify_eq).
    destruct (flushed_time a st x) as (s & Hs & Ht); [rewrite E; left |].
    apply times_after_snoc; [done | rewrite Ht; by apply (io_windows0 a) |].
    intros y Hy. rewrite Ht. by apply (io_past0 a).
  - intros x Hx. destruct (flushed_time a st x Hx) as (s & Hs & ->).
    specialize (io_windows0 a s Hs). lia.
Qed.

Lemma ring_of_inj a a' : ring_of a = ring_of a' -> a = a'.
Proof. by destruct a, a'. Qed.

(** A flush keeps the order; so does feeding a newer sample. *)
Lemma spec_flush_in_order T B st a : in_order T B st -> B a <= T -> in_order T B (spec_flush a st).
Proof.
  intros H HB. destruct (flushed_in_order T B st a H HB) as [H1 H2]. destruct H. constructor.
  - intros r. rewrite logs_flush. destruct (decide (r = ring_of a)) as [-> |]; [done | by rewrite app_nil_r].
  - intros r s. rewrite logs_flush, elem_of_app. destruct (decide (r = ring_of a)) as [-> |].
    + intros [Hs | Hs]; [by eapply io_last0 | by apply H2].
    + intros [Hs | Hs]; [by eapply io_last0 | by apply elem_of_nil in Hs].
  - intros a' s. rewrite windows_flush. destruct (decide (a' = a)); [by intros ?%elem_of_nil | apply io_windows0].
  - intros a' s s'. rewrite windows_flush. destruct (decide (a' = a)) as [| Hne]; [by intros _ ?%elem_of_nil |].
    rewrite logs_flush, decide_False by (intros He; by apply Hne, ring_of_inj). rewrite app_nil_r. apply io_past0.
Qed.

Lemma spec_feed_in_order T B st a ns s :
  in_order T B st -> B a <= T -> 0 <= T -> T < timestamp_nanos s ->
  in_order T (fun a' => if decide (a' = a) then timestamp_nanos s else B a') (spec_feed a ns s st).
Proof.
  intros H HB HT Hs. unfold spec_feed. destruct (ns =? 0).
  { destruct H. constructor; try done. intros a' x Hx. specialize (io_windows0 a' x Hx).
    destruct (decide (a' = a)) as [-> |]; lia. }
  set (over := match windows st a with [] => _ | _ => _ end).
  assert (H' : in_order T B (if over then spec_flush a st else st))
    by (destruct over; [by apply spec_flush_in_order | done]).
  destruct H'. constructor; try done.
  - intros a' x. cbn [windows spec_window]. destruct (decide (a' = a)) as [-> |]; [| apply io_windows0].
    intros [Hx | ->%list_elem_of_singleton]%elem_of_app; [specialize (io_windows0 a x Hx) |]; lia.
  - intros a' x y. cbn [windows logs spec_window]. destruct (decide (a' = a)) as [-> |]; [| apply io_past0].
    intros Hx [Hy | ->%list_elem_of_singleton]%elem_of_app; [by apply (io_past0 a) |].
    specialize (io_last0 _ x Hx). lia.
Qed.

(** The sample itself goes into its ring last, after the window that folds into
    that ring was written. *)
Lemma spec_append_in_order T B st r s :
  in_order T B st -> 0 <= T -> T < timestamp_nanos s -> (forall a, B a <= timestamp_nanos s) ->
  (forall a, r = ring_of a -> windows st a = []) ->
  in_order (timestamp_nanos s) (fun _ => timestamp_nanos s) (spec_append r s st).
Proof.
  intros [] HT Hs HB Hw. constructor.
  - intros r'. rewrite logs_append. destruct (decide (r' = r)) as [-> |]; [| by rewrite app_nil_r].
    apply times_after_snoc; [done | simpl; lia |]. intros x Hx. specialize (io_last0 r x Hx). simpl. lia.
  - intros r' x. rewrite logs_append. intros [Hx | Hx]%elem_of_app; [specialize (io_last0 _ x Hx); lia |].
    destruct (decide (r' = r)); [| by apply elem_of_nil in Hx].
    apply list_elem_of_singleton in Hx as ->. simpl. lia.
  - intros a x Hx. specialize (io_windows0 a x Hx). specialize (HB a). lia.
  - intros a x y. rewrite logs_append. cbn [windows spec_append]. intros [Hx | Hx]%elem_of_app Hy.
    + by apply (io_past0 a).
    + destruct (decide (ring_of a = r)) as [He | Hne]; [| by apply elem_of_nil in Hx].
      rewrite (Hw a) in Hy by done. by apply elem_of_nil in Hy.
Qed.

Lemma spec_store_in_order l2 l1 specs T st s target :
  in_order T (fun _ => T) st -> 0 <= T -> T < timestamp_nanos s -> route specs (level s) = Some target ->
  in_order (timestamp_nanos s) (fun _ => timestamp_nanos s) (spec_store l2 l1 target s st).
Proof.
  intros H HT Hs Hrt. unfold spec_store.
  assert (Htgt : forall a, target = ring_of a -> level s = level_of a).
  { unfold route in Hrt. intros a ->. destruct (Z.eqb_spec (level s) L3); [by destruct a |].
    destruct (Z.eqb_spec (level s) L2); [by destruct a |]. destruct (Z.eqb_spec (level s) L1); [by destruct a |].
    apply find_spec_lookup in Hrt as (j & sp & Hj & _). by destruct a. }
  destruct ((level s =? L1) || (level s =? L2)) eqn:E2.
  - assert (H1 : in_order T (fun _ => T) (spec_flush FoldL2 st)) by (by apply spec_flush_in_order).
    destruct (level s =? L1) eqn:E1.
    + apply (spec_append_in_order T (fun _ => T)); try (done || lia).
      * by apply spec_flush_in_order.
      * intros a _. rewrite windows_flush. destruct (decide _) as [-> |]; [done |].
        rewrite windows_flush. by destruct a.
    + apply (spec_append_in_order T (fun a' => if decide (a' = FoldL1) then timestamp_nanos s else T)); try (done || lia).
      * by apply spec_feed_in_order.
      * intros a. simpl. destruct (decide _); lia.
      * intros a Ha. apply Htgt in Ha. bool_facts. destruct a; [| done].
        rewrite windows_feed, decide_False by done. by rewrite windows_flush.
  - apply orb_false_iff in E2 as [E1 E2]. rewrite E1. bool_facts.
    pose proof (spec_feed_in_order T (fun _ => T) st FoldL2 l2 s H ltac:(done) HT Hs) as H1.
    pose proof (spec_feed_in_order T _ _ FoldL1 l1 s H1 ltac:(done) HT Hs) as H2.
    apply (spec_append_in_order T _ _ _ _ H2 HT Hs).
    + intros a. destruct (decide _); [lia |]. destruct (decide _); lia.
    + intros a Ha. apply Htgt in Ha. destruct a; simpl in Ha; congruence.
Qed.

Lemma spec_run_in_order l2 l1 specs ss : forall T st,
  in_order T (fun _ => T) st -> 0 <= T -> Forall (routable specs) ss -> times_after T ss ->
  exists T', in_order T' (fun _ => T') (spec_run l2 l1 specs ss st).
Proof.
  induction ss as [| s ss IH]; intros T st H HT Hall Ht; [by exists T |].
  inversion Hall as [| ? ? Hs Hall']; subst. unfold routable in Hs.
  assert (Hlt : T < timestamp_nanos s) by (eapply times_after_all; [done | left]).
  unfold times_after in Ht. simpl in Ht. inversion Ht as [| ? ? Ht' _]; subst.
  unfold spec_run. cbn [fold_left]. unfold spec_step at 2.
  destruct (route specs (level s)) as [t |] eqn:Hrt; [| done].
  apply (IH (timestamp_nanos s)); [by eapply spec_store_in_order | lia | done | done].
Qed.

(** ** What a start and the stores after it leave *)

(** The history a directory starts with, as the specification's store. *)
Definition start_store (specs : list LevelRingSpec) (hist : string -> list Sample) : Store :=
  mkStore (fun r => hist (leaf_of specs r)) (fun _ => []).

Section Session.
Context (strerror : Z -> string) (clock : Z) (dir : string).
Context (mb1 mb2 mb3 l2_ns l1_ns : Z) (specs : list LevelRingSpec).
Context (hist : string -> list Sample) (w : World) (k : Z) (ss : list Sample).
Hypothesis Hdir : dir_holds dir mb1 mb2 mb3 specs hist w.
Hypothesis Hans : answers w = [].
Hypothesis Hroutes : Forall (routable specs) ss.
Hypothesis Hbound : forall leaf, zlen (hist leaf) <= 2 * k.
Hypothesis Hmax : k + zlen ss < 2 ^ 32.

(** init(), set_fold_windows() and a store() per sample. *)
Lemma session_run :
  exists m0 w0 m1 w1,
    init strerror (fun _ => ring_sys_ok clock) (Some dir) mb1 mb2 mb3 specs new_TierManager w = (0, m0, w0) /\
    run_stores strerror ss (set_fold_windows l2_ns l1_ns m0) w0 = (replicate (length ss) 0, m1, w1) /\
    manager_sim m1 w1 (spec_run l2_ns l1_ns specs ss (start_store specs hist)) /\
    ready_ m1 = true /\ rings_configured specs m1 /\
    (forall r ring leaf, ring_at r m1 = Some (ring, leaf) -> capacity_ ring = cap_of mb1 mb2 mb3 specs r).
Proof using Hdir Hans Hroutes Hbound Hmax.
  destruct (init_holds strerror clock dir mb1 mb2 mb3 specs hist w Hdir Hans)
    as (m0 & w0 & E0 & Hsim & Hrd & Hconf & _ & _ & Hcap).
  assert (Hk : 0 <= k) by (specialize (Hbound ""); pose proof (zlen_nonneg (hist "")); lia).
  assert (Hat : forall r, ring_at r (set_fold_windows l2_ns l1_ns m0) = ring_at r m0) by (by intros []).
  assert (Hsim' : manager_sim (set_fold_windows l2_ns l1_ns m0) w0 (start_store specs hist)).
  { destruct Hsim as (H1 & H2 & H3 & H4). split_and!; [.. | done].
    - intros r ring leaf. rewrite Hat. apply H1.
    - intros r r' ring ring' leaf. rewrite !Hat. apply H2.
    - intros a. destruct (H3 a) as [H5 H6]. split; [| done].
      etransitivity; [| exact H5]. by destruct a. }
  destruct (stores_sim strerror specs ss (set_fold_windows l2_ns l1_ns m0) w0 (start_store specs hist) k)
    as (m1 & w1 & E1 & Hsim1 & Hsame); try done.
  { split; [intros r; apply Hbound | intros a; change (zlen (windows _ a)) with 0; lia]. }
  exists m0, w0, m1, w1. destruct Hsame as [[= H1 H2 H3 H4] H5]. cbn [ready_ set_fold_windows custom_] in *.
  split_and!; try done.
  - congruence.
  - unfold rings_configured in *. congruence.
  - intros r ring leaf Hr. specialize (H5 r). rewrite Hr, Hat in H5.
    destruct (ring_at r m0) as [[ring0 leaf0] |] eqn:E; [| done].
    simpl in H5. unfold ring_id in H5. simplify_eq/=. rewrite <- H. by eapply Hcap.
Qed.

Lemma session_order T :
  0 <= T -> (forall r, times_after 0 (hist (leaf_of specs r))) ->
  (forall r s, s ∈ hist (leaf_of specs r) -> timestamp_nanos s <= T) -> times_after T ss ->
  exists T', in_order T' (fun _ => T') (spec_run l2_ns l1_ns specs ss (start_store specs hist)).
Proof using Hroutes.
  intros HT H1 H2 Hss. apply (spec_run_in_order _ _ _ _ T); [| done | done | done].
  constructor; [done | done | |]; cbn; intros; by apply elem_of_nil in H0 || by apply elem_of_nil in H.
Qed.
End Session.

(** close() writes the two windows and leaves ring files a start accepts. *)
Lemma close_holds strerror m w st specs mb1 mb2 mb3 T :
  manager_sim m w st -> ready_ m = true -> rings_configured specs m -> in_order T (fun _ => T) st ->
  (forall r ring leaf, ring_at r m = Some (ring, leaf) -> capacity_ ring = cap_of mb1 mb2 mb3 specs r) ->
  (forall r, zlen (logs st r) + 2 < 2 ^ 64) -> (forall a, zlen (windows st a) < 2 ^ 32) ->
  let st' := spec_flush FoldL1 (spec_flush FoldL2 st) in
  exists m' w', close strerror m w = (m', w') /\ ready_ m' = false /\ answers w' = [] /\
    forall r ring leaf, ring_at r m = Some (ring, leaf) ->
      leaf = leaf_of specs r /\
      exists ring', ring_samples ring' (file_of leaf w') (logs st' r) /\
        tier_ ring' = tier_of r /\ capacity_ ring' = cap_of mb1 mb2 mb3 specs r /\ is_Some (disk w' !! leaf).
Proof.
  intros Hsim Hrd Hconf Hord Hcap Hlen Hwin st'.
  unfold close. rewrite Hrd. cbn [negb].
  destruct (flush_sim strerror m w st FoldL2 Hsim ltac:(by eexists) ltac:(specialize (Hlen Tier2); simpl; lia) (Hwin _))
    as (m1 & w1 & E1 & Hsim1 & Hsame1).
  cbn [ring_of] in E1. rewrite E1.
  destruct (flush_sim strerror m1 w1 (spec_flush FoldL2 st) FoldL1 Hsim1 ltac:(by eexists))
    as (m2 & w2 & E2 & Hsim2 & Hsame2).
  { rewrite logs_flush, decide_False, app_nil_r by done. specialize (Hlen Tier3). simpl. lia. }
  { rewrite windows_flush, decide_False by done. apply Hwin. }
  cbn [ring_of] in E2. rewrite E2. eexists _, _. split; [reflexivity |]. split; [done |].
  split; [apply Hsim2 |]. intros r ring leaf Hr.
  destruct (ring_at_leaf _ _ _ _ _ Hconf Hr) as [Hleaf _]. split; [done |].
  pose proof (proj2 (same_rings_trans _ _ _ Hsame1 Hsame2) r) as Hid. rewrite Hr in Hid.
  destruct (ring_at r m2) as [[ring2 leaf2] |] eqn:Hr2; [| done]. cbn in Hid. unfold ring_id in Hid.
  injection Hid as Hc Hl. cbn [fst snd] in *. subst leaf2.
  destruct Hsim2 as [Hhold _]. destruct (Hhold _ _ _ Hr2) as (Hring & Htier & _).
  exists ring2. split_and!; try done.
  - rewrite <- Hc. by eapply Hcap.
  - destruct (ring_samples_facts _ _ _ Hring) as (_ & _ & _ & Hc2 & []). unfold file_of in *.
    destruct (disk w2 !! leaf); [by eexists |]. change (zlen (default [] None)) with 0 in *.
    unfold kHeaderSize in *. change record_size_for_sample with 542 in *. lia.
Qed.

(** ** Theorems *)

(** Which ring a file name belongs to. *)
Definition ref_of (specs : list LevelRingSpec) (leaf : string) : ring_ref :=
  if bool_decide (leaf = "tier1.ring") then Tier1
  else if bool_decide (leaf = "tier2.ring") then Tier2
  else if bool_decide (leaf = "tier3.ring") then Tier3
  else match list_find (fun sp => spec_leaf sp = leaf) specs with
       | Some (i, _) => Custom i
       | None => Tier1
       end.

Definition configured (specs : list LevelRingSpec) (r : ring_ref) : Prop :=
  match r with Custom i => specs !! i <> None | _ => True end.

Lemma ref_of_leaf specs r :
  NoDup ("tier1.ring" :: "tier2.ring" :: "tier3.ring" :: map spec_leaf specs) ->
  configured specs r -> ref_of specs (leaf_of specs r) = r.
Proof.
  intros Hnd Hr. apply (leaf_of_inj specs); [done | | done |]; unfold ref_of;
    repeat case_bool_decide; try done;
    destruct (list_find _ specs) as [[i sp] |] eqn:E; try done.
  - apply list_find_Some in E as (E & _). by rewrite E.
  - apply list_find_Some in E as (E & He & _). simpl. by rewrite E.
  - destruct r as [| | | i]; try done. simpl in *. destruct (specs !! i) as [sp |] eqn:Hi; [| done].
    apply list_find_None in E. rewrite Forall_lookup in E. by destruct (E i sp Hi).
Qed.

Lemma in_order_flush_all T st :
  in_order T (fun _ => T) st -> forall r, times_after 0 (logs (spec_flush FoldL1 (spec_flush FoldL2 st)) r).
Proof.
  intros H r. eapply (io_logs T (fun _ => T)). do 2 (apply spec_flush_in_order; [| done]). done.
Qed.

Lemma spec_run_bound l2 l1 specs ss : forall k st,
  store_bound k st -> store_bound (k + zlen ss) (spec_run l2 l1 specs ss st).
Proof.
  induction ss as [| s ss IH]; intros k st H; [by rewrite Z.add_0_r |].
  rewrite zlen_cons, Z.add_assoc. apply IH, spec_step_bound, H.
Qed.

Lemma configured_ring_at specs m r :
  rings_configured specs m -> configured specs r -> exists ring, ring_at r m = Some (ring, leaf_of specs r).
Proof.
  intros Hc Hr.
  assert (Hs : is_Some (ring_at r m)).
  { destruct r as [| | | i]; try (by eexists). simpl in *.
    apply (f_equal (fun l => l !! i)) in Hc. change (map ?f ?l) with (f <$> l) in Hc.
    rewrite !list_lookup_fmap in Hc. destruct (specs !! i); [| done]. by destruct (custom_ m !! i); [eexists |]. }
  destruct Hs as [[ring leaf] Hat]. exists ring. by destruct (ring_at_leaf _ _ _ _ _ Hc Hat) as [-> _].
Qed.

(** What close() left is what a start expects. *)
Lemma dir_holds_again dir mb1 mb2 mb3 specs hist w w' (lg : ring_ref -> list Sample) :
  dir_holds dir mb1 mb2 mb3 specs hist w ->
  (forall r, configured specs r -> zlen (lg r) + 1 < 2 ^ 64 /\ times_after 0 (lg r) /\
     exists f ring, disk w' !! leaf_of specs r = Some f /\ ring_samples ring f (lg r) /\
       tier_ ring = tier_of r /\ capacity_ ring = cap_of mb1 mb2 mb3 specs r) ->
  dir_holds dir mb1 mb2 mb3 specs (fun leaf => lg (ref_of specs leaf)) w'.
Proof.
  intros (Hnd & Ht1 & Ht2 & Ht3 & Hcs) Hnew.
  assert (Hgen : forall r, configured specs r -> ring_params (tier_of r) record_size_for_sample
      (cap_of mb1 mb2 mb3 specs r) ->
    ring_file_holds (tier_of r) (cap_of mb1 mb2 mb3 specs r) (disk w' !! leaf_of specs r)
      (lg (ref_of specs (leaf_of specs r)))).
  { intros r Hr Hp. rewrite ref_of_leaf by done. destruct (Hnew r Hr) as (H1 & H2 & f & ring & Hf & H3 & H4 & H5).
    split_and!; try done. rewrite Hf. by exists ring. }
  split; [done |]. split; [| split; [| split]].
  - split; [apply Ht1 |]. apply (Hgen Tier1 I). apply Ht1.
  - split; [apply Ht2 |]. apply (Hgen Tier2 I). apply Ht2.
  - split; [apply Ht3 |]. apply (Hgen Tier3 I). apply Ht3.
  - rewrite Forall_lookup in Hcs |- *. intros i sp Hi. specialize (Hcs i sp Hi). destruct Hcs as [Hj [Hp _]].
    split; [done |]. specialize (Hgen (Custom i)). simpl in Hgen. rewrite Hi in Hgen. by apply Hgen.
Qed.

(** C1: The store keeps every sample in its ring.  Start on a directory whose
    ring files hold some history (or do not exist), then store() any samples of
    the configured levels, with any fold windows: every call returns 0, and
    each ring file then holds exactly its history followed by what the
    specification appends: its level's samples and the records folded from the
    finer ones, in the specification's order. *)
Theorem stores_refine_logs (strerror : Z -> string) (clock : Z) (dir : string)
    (mb1 mb2 mb3 l2_ns l1_ns : Z) (specs : list LevelRingSpec) (hist : string -> list Sample)
    (w : World) (k : Z) (ss : list Sample) :
  dir_holds dir mb1 mb2 mb3 specs hist w -> answers w = [] -> Forall (routable specs) ss ->
  (forall leaf, zlen (hist leaf) <= 2 * k) -> k + zlen ss < 2 ^ 32 ->
  exists m0 w0 m1 w1,
    init strerror (fun _ => ring_sys_ok clock) (Some dir) mb1 mb2 mb3 specs new_TierManager w = (0, m0, w0) /\
    run_stores strerror ss (set_fold_windows l2_ns l1_ns m0) w0 = (replicate (length ss) 0, m1, w1) /\
    rings_hold m1 w1 (spec_run l2_ns l1_ns specs ss (start_store specs hist)).
Proof.
  intros Hd Ha Hr Hb Hm.
  destruct (session_run strerror clock dir mb1 mb2 mb3 l2_ns l1_ns specs hist w k ss Hd Ha Hr Hb Hm)
    as (m0 & w0 & m1 & w1 & E0 & E1 & [Hh _] & _).
  by exists m0, w0, m1, w1.
Qed.

(** C4: Every ring stays in time order.  When the samples stored carry
    increasing times (after the history's), each ring file's records are in
    strictly increasing time order after any number of stores, folded records
    included: the record of a fold window is written before a sample of its
    ring's own level. *)
Theorem rings_stay_in_time_order (strerror : Z -> string) (clock : Z) (dir : string)
    (mb1 mb2 mb3 l2_ns l1_ns : Z) (specs : list LevelRingSpec) (hist : string -> list Sample)
    (w : World) (k T : Z) (ss : list Sample) :
  dir_holds dir mb1 mb2 mb3 specs hist w -> answers w = [] -> Forall (routable specs) ss ->
  (forall leaf, zlen (hist leaf) <= 2 * k) -> k + zlen ss < 2 ^ 32 ->
  0 <= T -> (forall r, times_after 0 (hist (leaf_of specs r))) ->
  (forall r s, s ∈ hist (leaf_of specs r) -> timestamp_nanos s <= T) -> times_after T ss ->
  exists m0 w0 m1 w1,
    init strerror (fun _ => ring_sys_ok clock) (Some dir) mb1 mb2 mb3 specs new_TierManager w = (0, m0, w0) /\
    run_stores strerror ss (set_fold_windows l2_ns l1_ns m0) w0 = (replicate (length ss) 0, m1, w1) /\
    forall r ring leaf, ring_at r m1 = Some (ring, leaf) ->
      exists log, ring_samples ring (file_of leaf w1) log /\ times_after 0 log.
Proof.
  intros Hd Ha Hr Hb Hm HT H1 H2 Hss.
  destruct (session_run strerror clock dir mb1 mb2 mb3 l2_ns l1_ns specs hist w k ss Hd Ha Hr Hb Hm)
    as (m0 & w0 & m1 & w1 & E0 & E1 & [Hh _] & _).
  destruct (session_order l2_ns l1_ns specs hist ss Hr T HT H1 H2 Hss) as [T' Hord].
  exists m0, w0, m1, w1. split_and!; [done | done |]. intros r ring leaf Hat.
  eexists. split; [by apply (Hh _ _ _ Hat) |]. by apply (io_logs _ _ _ Hord).
Qed.

(** C3: A restart keeps the history.  After a session of stores in time order,
    close() and a start of a new process on the same directory (with the same
    configuration), every configured ring is open again and holds exactly what
    the stores and the two windows close() wrote amount to; nothing had to be
    recovered. *)
Theorem restart_keeps_history (strerror : Z -> string) (clock : Z) (dir : string)
    (mb1 mb2 mb3 l2_ns l1_ns : Z) (specs : list LevelRingSpec) (hist : string -> list Sample)
    (w : World) (k T : Z) (ss : list Sample) :
  dir_holds dir mb1 mb2 mb3 specs hist w -> answers w = [] -> Forall (routable specs) ss ->
  (forall leaf, zlen (hist leaf) <= 2 * k) -> k + zlen ss < 2 ^ 32 ->
  0 <= T -> (forall r, times_after 0 (hist (leaf_of specs r))) ->
  (forall r s, s ∈ hist (leaf_of specs r) -> timestamp_nanos s <= T) -> times_after T ss ->
  exists m0 w0 m1 w1 m2 w2 m3 w3,
    init strerror (fun _ => ring_sys_ok clock) (Some dir) mb1 mb2 mb3 specs new_TierManager w = (0, m0, w0) /\
    run_stores strerror ss (set_fold_windows l2_ns l1_ns m0) w0 = (replicate (length ss) 0, m1, w1) /\
    close strerror m1 w1 = (m2, w2) /\
    init strerror (fun _ => ring_sys_ok clock) (Some dir) mb1 mb2 mb3 specs new_TierManager w2 = (0, m3, w3) /\
    recovered_ m3 = [] /\ converted_ m3 = [] /\
    forall r, configured specs r -> exists ring, ring_at r m3 = Some (ring, leaf_of specs r) /\
      ring_samples ring (file_of (leaf_of specs r) w3)
        (logs (spec_flush FoldL1 (spec_flush FoldL2
           (spec_run l2_ns l1_ns specs ss (start_store specs hist)))) r).
Proof.
  intros Hd Ha Hr Hb Hm HT H1 H2 Hss.
  destruct (session_run strerror clock dir mb1 mb2 mb3 l2_ns l1_ns specs hist w k ss Hd Ha Hr Hb Hm)
    as (m0 & w0 & m1 & w1 & E0 & E1 & Hsim & Hrd & Hconf & Hcap).
  destruct (session_order l2_ns l1_ns specs hist ss Hr T HT H1 H2 Hss) as [T' Hord].
  assert (Hk : 0 <= k) by (specialize (Hb ""); pose proof (zlen_nonneg (hist "")); lia).
  pose proof (zlen_nonneg ss) as Hss0.
  set (st := spec_run l2_ns l1_ns specs ss (start_store specs hist)) in *.
  assert (Hbd : store_bound (k + zlen ss) st).
  { apply spec_run_bound. split; [intros r; apply Hb | intros a; change (zlen (windows _ a)) with 0; lia]. }
  destruct Hbd as [Hbl Hbw].
  destruct (close_holds strerror m1 w1 st specs mb1 mb2 mb3 T' Hsim Hrd Hconf Hord Hcap)
    as (m2 & w2 & E2 & _ & Ha2 & Hleft);
    [intros r; specialize (Hbl r); lia | intros a; specialize (Hbw a); lia |].
  set (st' := spec_flush FoldL1 (spec_flush FoldL2 st)) in *.
  assert (Hd2 : dir_holds dir mb1 mb2 mb3 specs (fun leaf => logs st' (ref_of specs leaf)) w2).
  { apply (dir_holds_again dir mb1 mb2 mb3 specs hist w); [done |]. intros r Hc.
    destruct (configured_ring_at specs m1 r Hconf Hc) as [ring Hat].
    destruct (Hleft _ _ _ Hat) as (_ & ring' & Hring & Ht' & Hc' & [f Hf]).
    split_and!; [| by apply (in_order_flush_all T') |].
    - unfold st'. rewrite !logs_flush, !zlen_app. specialize (Hbl r).
      pose proof (zlen_flushed FoldL1 (spec_flush FoldL2 st)). pose proof (zlen_flushed FoldL2 st).
      repeat destruct (decide _); change (zlen []) with 0; lia.
    - exists f, ring'. unfold file_of in Hring. rewrite Hf in Hring. by split_and!. }
  destruct (init_holds strerror clock dir mb1 mb2 mb3 specs _ w2 Hd2 Ha2)
    as (m3 & w3 & E3 & Hsim3 & _ & Hconf3 & Hrec & Hcnv & _).
  exists m0, w0, m1, w1, m2, w2, m3, w3. split_and!; try done.
  intros r Hc. destruct (configured_ring_at specs m3 r Hconf3 Hc) as [ring Hat]. exists ring. split; [done |].
  destruct Hsim3 as [Hh _]. destruct (Hh _ _ _ Hat) as (Hring & _). cbn [logs] in Hring.
  by rewrite ref_of_leaf in Hring by (done || apply Hd).
Qed.

Lemma records_from_mb_params tier mb :
  is_uint 8 tier -> mb < 2 ^ 31 ->
  ring_params tier record_size_for_sample (records_from_mb mb record_size_for_sample).
Proof.
  intros Ht Hmb. change record_size_for_sample with 542.
  assert (H : 1 <= records_from_mb mb 542 <= 2 ^ 51).
  { unfold records_from_mb. cbn [Z.eqb orb]. rewrite orb_false_r. destruct (mb <=? 0) eqn:E; bool_facts; [lia |].
    unfold u64. rewrite wrap_small by (split; lia).
    pose proof (Z.div_pos (mb * (1024 * 1024)) 542 ltac:(lia) ltac:(lia)).
    pose proof (Z.div_le_upper_bound (mb * (1024 * 1024)) 542 (2 ^ 51) ltac:(lia) ltac:(lia)).
    destruct (_ =? 0) eqn:E0; bool_facts; lia. }
  split_and!; try done; unfold kHeaderSize; lia.
Qed.

(** A directory with none of the ring files in it yet. *)
Lemma dir_holds_empty dir mb1 mb2 mb3 specs :
  mb1 < 2 ^ 31 -> mb2 < 2 ^ 31 -> mb3 < 2 ^ 31 -> Forall (fun sp => spec_max_mb sp < 2 ^ 31) specs ->
  NoDup ("tier1.ring" :: "tier2.ring" :: "tier3.ring" :: map spec_leaf specs) ->
  forallb (join_path dir) ("tier1.ring" :: "tier2.ring" :: "tier3.ring" :: map spec_leaf specs) = true ->
  dir_holds dir mb1 mb2 mb3 specs (fun _ => []) (mkWorld ∅ []).
Proof.
  intros H1 H2 H3 Hcs Hnd Hj. cbn [forallb] in Hj. bool_facts. rewrite forallb_forall in H5.
  assert (Hone : forall leaf tier mb, is_uint 8 tier -> mb < 2 ^ 31 ->
    ring_file_holds tier (records_from_mb mb record_size_for_sample) ((∅ : gmap string (list Z)) !! leaf) []).
  { intros leaf tier mb Ht Hmb. split_and!; [by apply records_from_mb_params | done | repeat constructor |].
    by rewrite lookup_empty. }
  split; [done |]. split; [split; [done | by apply Hone] |]. split; [split; [done | by apply Hone] |].
  split; [split; [done | by apply Hone] |].
  apply Forall_forall. intros sp Hsp. split; [apply H5, in_map; by apply list_elem_of_In |].
  apply Hone; [done |]. rewrite Forall_forall in Hcs. by apply Hcs.
Qed.

Lemma routable_ex : routable [] sample_ex.
Proof. split; [apply sample_ex_ok | apply storable_ex]. Defined.

(** A directory path and a start for the witnesses. *)
Definition dir_ex : string := "/var/lib/budyk".
Lemma dir_holds_ex : dir_holds dir_ex 1 1 1 [] (fun _ => []) (mkWorld ∅ []).
Proof.
  apply dir_holds_empty; try reflexivity; [constructor |].
  apply (bool_decide_unpack _). vm_compute. exact I.
Defined.

Lemma stores_refine_logs_witness :
  exists m0 w0 m1 w1,
    init (fun _ => "") (fun _ => ring_sys_ok 0) (Some dir_ex) 1 1 1 [] new_TierManager (mkWorld ∅ []) = (0, m0, w0) /\
    run_stores (fun _ => "") [sample_ex] (set_fold_windows 60 300 m0) w0 = ([0], m1, w1) /\
    rings_hold m1 w1 (spec_run 60 300 [] [sample_ex] (start_store [] (fun _ => []))).
Proof.
  apply (stores_refine_logs (fun _ => "") 0 dir_ex 1 1 1 60 300 [] (fun _ => []) (mkWorld ∅ []) 0 [sample_ex]).
  - exact dir_holds_ex.
  - reflexivity.
  - constructor; [exact routable_ex | constructor].
  - intros leaf. vm_compute. discriminate.
  - reflexivity.
Defined.

Lemma rings_stay_in_time_order_witness :
  exists m0 w0 m1 w1,
    init (fun _ => "") (fun _ => ring_sys_ok 0) (Some dir_ex) 1 1 1 [] new_TierManager (mkWorld ∅ []) = (0, m0, w0) /\
    run_stores (fun _ => "") [sample_ex] (set_fold_windows 60 300 m0) w0 = ([0], m1, w1) /\
    forall r ring leaf, ring_at r m1 = Some (ring, leaf) ->
      exists log, ring_samples ring (file_of leaf w1) log /\ times_after 0 log.
Proof.
  apply (rings_stay_in_time_order (fun _ => "") 0 dir_ex 1 1 1 60 300 [] (fun _ => []) (mkWorld ∅ []) 0 0 [sample_ex]).
  - exact dir_holds_ex.
  - reflexivity.
  - constructor; [exact routable_ex | constructor].
  - intros leaf. vm_compute. discriminate.
  - reflexivity.
  - lia.
  - intros r. repeat constructor.
  - intros r s Hs. apply elem_of_nil in Hs. contradiction.
  - repeat constructor.
Defined.

Lemma restart_keeps_history_witness :
  exists m0 w0 m1 w1 m2 w2 m3 w3,
    init (fun _ => "") (fun _ => ring_sys_ok 0) (Some dir_ex) 1 1 1 [] new_TierManager (mkWorld ∅ []) = (0, m0, w0) /\
    run_stores (fun _ => "") [sample_ex] (set_fold_windows 60 300 m0) w0 = ([0], m1, w1) /\
    close (fun _ => "") m1 w1 = (m2, w2) /\
    init (fun _ => "") (fun _ => ring_sys_ok 0) (Some dir_ex) 1 1 1 [] new_TierManager w2 = (0, m3, w3) /\
    recovered_ m3 = [].
Proof.
  destruct (restart_keeps_history (fun _ => "") 0 dir_ex 1 1 1 60 300 [] (fun _ => []) (mkWorld ∅ []) 0 0 [sample_ex])
    as (m0 & w0 & m1 & w1 & m2 & w2 & m3 & w3 & E0 & E1 & E2 & E3 & E4 & _).
  - exact dir_holds_ex.
  - reflexivity.
  - constructor; [exact routable_ex | constructor].
  - intros leaf. vm_compute. discriminate.
  - reflexivity.
  - lia.
  - intros r. repeat constructor.
  - intros r s Hs. apply elem_of_nil in Hs. contradiction.
  - repeat constructor.
  - exists m0, w0, m1, w1, m2, w2, m3, w3.
    split; [exact E0 |]. split; [exact E1 |]. split; [exact E2 |]. split; [exact E3 | exact E4].
Defined.

(** C19: A write that fails is reported, and costs no more than the slot it was
    for.  With folding off, an L3 sample whose record cannot be written (or is
    cut short) makes store() return -4 and name tier1.ring with the system's
    reason (ENOSPC for a short write); tier1.ring still holds every record but
    at most the oldest of a full ring, and no other file changes. *)
Theorem failed_store_reported (strerror : Z -> string) (m : TierManager) (w : World) (s : Sample)
    (log : list Sample) (res : wr_result) :
  ready_ m = true -> fold_l2_ns_ m = 0 -> fold_l1_ns_ m = 0 -> answers w = [res] -> level s = L3 ->
  wr_full res record_size_for_sample = false -> res <> WrErr 0 ->
  ring_samples (tier1_ m) (file_of "tier1.ring" w) log -> read_only_ (tier1_ m) = false ->
  exists m' w', store strerror s m w = (-4, m', w') /\
    store_error_ m' = "tier1.ring: writing a record failed: " +:+
      strerror (match res with WrErr e => e | WrOk _ => ENOSPC end) /\
    ring_log_but 1 (tier1_ m') (file_of "tier1.ring" w') (map encode_record log) /\
    tier2_ m' = tier2_ m /\ tier3_ m' = tier3_ m /\ custom_ m' = custom_ m /\
    forall leaf, leaf <> "tier1.ring" -> file_of leaf w' = file_of leaf w.
Proof.
  intros Hrd H2 H1 Ha Hl Hres Hne (Hlog & Hrs & _) Hro. destruct (encode_record_bytes s) as [Hb Hz].
  unfold store, feed. rewrite Hrd, Hl, H2. cbn [negb ring_for Z.eqb L1 L2 L3 Pos.eqb]. rewrite H1. cbn [Z.eqb].
  unfold append. cbn [ring_at]. rewrite record_encode_some. unfold next_answer. rewrite Ha.
  change (file_of "tier1.ring" (mkWorld (disk w) [])) with (file_of "tier1.ring" w).
  destruct (append_failed 0 res (tier1_ m) (file_of "tier1.ring" w) (map encode_record log) (encode_record s))
    as (r' & f' & E & Hbut & _); [lia | done | done | congruence | done | by rewrite Hrs |].
  rewrite E. cbn [Z.eqb negb]. eexists _, _. split; [reflexivity |]. cbn -[String.append file_of].
  assert (Herr : last_errno_ r' = match res with WrErr e => e | WrOk _ => ENOSPC end).
  { unfold RingFile.append in E. destruct (negb _ || _); [done |]. destruct (negb _); [done |].
    destruct res as [n | e]; [| by simplify_eq]. rewrite Hrs in E. simpl in Hres. rewrite Hres in E. by simplify_eq. }
  rewrite Herr.
  replace (if negb (_ =? 0) then _ else EIO) with (match res with WrErr e => e | WrOk _ => ENOSPC end)
    by (destruct res as [n | e]; [done |]; destruct (e =? 0) eqn:E0; [apply Z.eqb_eq in E0; congruence | done]).
  split_and!; try done.
  - by rewrite file_of_set_file, decide_True.
  - intros leaf Hleaf. by rewrite file_of_set_file, decide_False.
Qed.

Lemma failed_store_reported_witness :
  exists m w, ready_ m = true /\
  exists m' w', store (fun _ => "full") sample_ex m w = (-4, m', w') /\
    store_error_ m' = "tier1.ring: writing a record failed: full".
Proof.
  destruct ring_ex as (r & f & Hr & _ & _).
  exists (mkTierManager "" [] [] (mkRingFile true false (tier_ r) 0 true record_size_for_sample (capacity_ r) 1 1)
            new_RingFile new_RingFile [] true "" 0 0 (reset L2) (reset L1)),
    (mkWorld {["tier1.ring" := f]} [WrErr 28]).
  split; [reflexivity |].
  destruct (failed_store_reported (fun _ => "full")
    (mkTierManager "" [] [] (mkRingFile true false (tier_ r) 0 true record_size_for_sample (capacity_ r) 1 1)
            new_RingFile new_RingFile [] true "" 0 0 (reset L2) (reset L1))
    (mkWorld {["tier1.ring" := f]} [WrErr 28]) sample_ex [sample_ex] (WrErr 28)) as (m' & w' & E & H & _).
  - reflexivity.
  - reflexivity.
  - reflexivity.
  - reflexivity.
  - reflexivity.
  - reflexivity.
  - discriminate.
  - apply (ring_samples_reopen r f [sample_ex] false Hr).
  - reflexivity.
  - exists m', w'. split; [exact E | exact H].
Defined.
