(* ===== verification/TierQuery.v ===== *)
(** The multi-tier store, its reading side (src/storage/tier_manager.cpp):
    binary search over a ring by time, the walk of one ring's window newest
    first (beside a writer), the spread over a window, and the merge of all
    rings with the folded records a finer ring still covers left out. *)
From Stdlib Require Import ZArith Lia List Sorted.
From stdpp Require Import base numbers list sorting strings gmap.
From S2P Require Import Prelude Sample SampleCodec RecordCodec RingFile RingCheck TierAggregator TierManager.
Open Scope Z_scope.

(** ** RingReader *)

(** [rd]: RingReader::read(), the decoded record of a logical index. *)
Record RingReader := mkRingReader { rd_cap : Z; rd_oldest : Z; rd_end : Z; rd : Z -> option Sample }.

Definition read_record (io : Z -> bool) (r : RingFile) (f : list Z) (logical : Z) : option Sample :=
  match read_at io r f (logical mod capacity_ r) false record_size_for_sample with
  | inl _ => None
  | inr b => decode_record b
  end.

Definition new_RingReader (io : Z -> bool) (r : RingFile) (f : list Z) : RingReader :=
  let widx := write_index r f in
  let valid := if widx <? capacity_ r then widx else capacity_ r in
  mkRingReader (capacity_ r) (widx - valid) widx (read_record io r f).

Definition empty (r : RingReader) : bool := (rd_cap r =? 0) || (rd_end r =? rd_oldest r).

(** The loop of ts_from(); [n] bounds the records left. *)
Fixpoint ts_from_loop (read : Z -> option Sample) (n : nat) (k : Z) : option Z :=
  match n with
  | O => None
  | S n => match read k with Some s => Some (timestamp_nanos s) | None => ts_from_loop read n (k + 1) end
  end.
Definition ts_from (r : RingReader) (logical : Z) : option Z :=
  ts_from_loop (rd r) (Z.to_nat (rd_end r - logical)) logical.

(** The loop of lower_bound(); each turn shortens [lo, hi), [n] bounds the turns. *)
Fixpoint lower_bound_loop (r : RingReader) (ts : Z) (n : nat) (lo hi : Z) : Z :=
  match n with
  | O => lo
  | S n =>
      if lo <? hi then
        let mid := lo + (hi - lo) / 2 in
        match ts_from r mid with
        | None => lower_bound_loop r ts n lo mid
        | Some t => if ts <=? t then lower_bound_loop r ts n lo mid else lower_bound_loop r ts n (mid + 1) hi
        end
      else lo
  end.
Definition lower_bound (r : RingReader) (ts : Z) : Z :=
  lower_bound_loop r ts (Z.to_nat (rd_end r - rd_oldest r)) (rd_oldest r) (rd_end r).

Definition any_in (r : RingReader) (lo hi : Z) : bool :=
  if empty r || (hi <=? lo) then false
  else match ts_from r (lower_bound r (lo + 1)) with Some ts => ts <=? hi | None => false end.

(** ** query_ring *)

Definition kDisorderLookback : Z := 1024.

(** What the walk meets at each step while another thread may be appending: the
    file its read of step [k] saw, and write_begun() just after it. *)
Record View := mkView { v_file : Z -> list Z; v_begun : Z -> Z }.
Definition still (r : RingFile) (f : list Z) : View := mkView (fun _ => f) (fun _ => write_begun r f).

Definition set_override (override_level : Z) (s : Sample) : Sample :=
  if 0 <? override_level then set_level (u8 override_level) s else s.

(** The loop, newest to oldest; [acc] is newest_first (in push order). *)
Fixpoint query_walk (io : Z -> bool) (r : RingFile) (v : View) (cap widx since_ns until_ns : Z)
    (override_level max_records : Z) (n : nat) (k older_run : Z) (acc : list Sample) : list Sample :=
  match n with
  | O => acc
  | S n =>
      if zlen acc <? max_records then
        let logical := widx - 1 - k in
        match read_at io r (v_file v k) (logical mod cap) false record_size_for_sample with
        | inl _ => query_walk io r v cap widx since_ns until_ns override_level max_records n (k + 1) older_run acc
        | inr b =>
            if logical + cap <? v_begun v k then acc
            else match decode_record b with
            | None => query_walk io r v cap widx since_ns until_ns override_level max_records n (k + 1) older_run acc
            | Some s =>
                if timestamp_nanos s <? since_ns then
                  if kDisorderLookback <? older_run + 1 then acc
                  else query_walk io r v cap widx since_ns until_ns override_level max_records n (k + 1)
                         (older_run + 1) acc
                else if negb (until_ns =? 0) && (until_ns <? timestamp_nanos s) then
                  query_walk io r v cap widx since_ns until_ns override_level max_records n (k + 1) 0 acc
                else
                  query_walk io r v cap widx since_ns until_ns override_level max_records n (k + 1) 0
                    (acc ++ [set_override override_level s])
            end
        end
      else acc
  end.

(** [f]: the file when the query began.  The result is what is appended to
    *out, oldest first; its length is the return value. *)
Definition query_ring (io : Z -> bool) (r : RingFile) (f : list Z) (v : View) (override_level since_ns until_ns
    max_records : Z) : list Sample :=
  let cap := capacity_ r in
  let widx := write_index r f in
  if (cap =? 0) || (widx =? 0) then []
  else
    let valid := if widx <? cap then widx else cap in
    if negb (until_ns =? 0) && (until_ns <? since_ns) then []
    else
      let start :=
        if negb (until_ns =? 0) && negb (until_ns =? UINT64_MAX) then
          let start := lower_bound (new_RingReader io r f) (until_ns + 1) in
          let start := if widx <? start then widx else start in
          if start <? widx - valid then widx - valid else start
        else widx in
      rev (query_walk io r v cap widx since_ns until_ns override_level max_records
             (Z.to_nat (valid - (widx - start))) (widx - start) 0 []).

(** ** query_ring_spread *)

(** The loop over the positions taken; [n] counts those left. *)
Fixpoint spread_walk (r : RingReader) (first count take since_ns until_ns override_level : Z)
    (n : nat) (k prev : Z) : list Sample :=
  match n with
  | O => []
  | S n =>
      let idx := if take =? 1 then first + count - 1 else first + (k * (count - 1)) / (take - 1) in
      if idx =? prev then spread_walk r first count take since_ns until_ns override_level n (k + 1) prev
      else
        let rest := spread_walk r first count take since_ns until_ns override_level n (k + 1) idx in
        match rd r idx with
        | None => rest
        | Some s =>
            if timestamp_nanos s <? since_ns then rest
            else if negb (until_ns =? 0) && (until_ns <? timestamp_nanos s) then rest
            else set_override override_level s :: rest
        end
  end.

Definition query_ring_spread (io : Z -> bool) (ring : RingFile) (f : list Z)
    (override_level since_ns until_ns max_records : Z) : list Sample :=
  let r := new_RingReader io ring f in
  if empty r then []
  else
    let first := lower_bound r since_ns in
    let end_ := if negb (until_ns =? 0) && negb (until_ns =? UINT64_MAX)
                then lower_bound r (until_ns + 1) else rd_end r in
    if end_ <=? first then []
    else
      let count := end_ - first in
      let take := if count <? max_records then count else max_records in
      spread_walk r first count take since_ns until_ns override_level (Z.to_nat take) 0 UINT64_MAX.

(** ** query, query_level *)

Definition ring_file (ref : ring_ref) (m : TierManager) (w : World) : option (RingFile * list Z) :=
  p ← ring_at ref m; Some (p.1, file_of p.2 w).

(** [None] is the -1 return. *)
Definition query (io : Z -> bool) (m : TierManager) (w : World) (tier since_ns until_ns max_records : Z)
    (out_null : bool) : option (list Sample) :=
  if negb (ready_ m) || out_null || (max_records =? 0) then None
  else
    let ref := if tier =? 1 then Some Tier1 else if tier =? 2 then Some Tier2
               else if tier =? 3 then Some Tier3 else None in
    ref ← ref; p ← ring_file ref m w;
    Some (query_ring io p.1 p.2 (still p.1 p.2) (-1) since_ns until_ns max_records).

Definition query_level (io : Z -> bool) (m : TierManager) (w : World) (lv since_ns until_ns max_records : Z)
    (out_null : bool) : option (list Sample) :=
  if negb (ready_ m) || out_null || (max_records =? 0) then None
  else
    ref ← ring_for lv m; p ← ring_file ref m w;
    Some (query_ring io p.1 p.2 (still p.1 p.2) (if kFirstCustomLevel <=? u8 lv then lv else -1)
            since_ns until_ns max_records).

(** ** query_all *)

(** std::upper_bound over sorted times: the first one after [lo]. *)
Definition first_after (lo : Z) (sorted : list Z) : option Z :=
  snd <$> list_find (fun t => lo < t) sorted.

Definition covered (window_ns : Z) (seen_ts : list Z) (readers : list RingReader) (s : Sample) : bool :=
  if negb (folded s) then false
  else
    let hi := timestamp_nanos s in
    let lo := if window_ns <? hi then hi - window_ns else 0 in
    match first_after lo seen_ts with
    | Some t => if t <=? hi then true else existsb (fun r => any_in r lo hi) readers
    | None => existsb (fun r => any_in r lo hi) readers
    end.

Definition drop_covered (recs : list Sample) (window_ns : Z) (seen : list (list Sample))
    (readers : list RingReader) : list Sample :=
  if window_ns =? 0 then recs
  else
    let seen_ts := merge_sort Z.le (map timestamp_nanos (concat seen)) in
    List.filter (fun s => negb (covered window_ns seen_ts readers s)) recs.

Definition time_le (a b : Sample) : Prop := timestamp_nanos a <= timestamp_nanos b.
#[export] Instance time_le_dec a b : Decision (time_le a b).
Proof. unfold time_le. apply _. Defined.

(** The loop that keeps the newest sample of each slice. *)
Fixpoint thin (slice : Z -> Z) (merged : list Sample) (last_slice : Z) (out : list Sample) : list Sample :=
  match merged with
  | [] => out
  | s :: merged =>
      let sl := slice (timestamp_nanos s) in
      if sl =? last_slice then thin slice merged last_slice (removelast out ++ [s])
      else thin slice merged sl (out ++ [s])
  end.

(** [slice_of lo span max ts]: the quotient (ts - lo) * max / span in long
    double, whose width is the platform's, cut to an integer. *)
Definition query_all (slice_of : Z -> Z -> Z -> Z -> Z) (io : Z -> bool) (m : TierManager) (w : World)
    (since_ns until_ns max_records : Z) (out_null : bool) : option (list Sample) :=
  if negb (ready_ m) || out_null || (max_records =? 0) then None
  else
    let spread ring leaf lv := query_ring_spread io ring (file_of leaf w) lv since_ns until_ns max_records in
    let reader ring leaf := new_RingReader io ring (file_of leaf w) in
    let fine := spread (tier1_ m) "tier1.ring" (-1) ++
                concat (map (fun c => spread (c_ring c) (c_leaf c) (c_level_id c)) (custom_ m)) in
    let finer_than_l2 := reader (tier1_ m) "tier1.ring" ::
                         map (fun c => reader (c_ring c) (c_leaf c)) (custom_ m) in
    let l2 := spread (tier2_ m) "tier2.ring" (-1) in
    let l1 := spread (tier3_ m) "tier3.ring" (-1) in
    let finer_than_l1 := finer_than_l2 ++ [reader (tier2_ m) "tier2.ring"] in
    let l1 := drop_covered l1 (fold_l1_ns_ m) [fine; l2] finer_than_l1 in
    let l2 := drop_covered l2 (fold_l2_ns_ m) [fine] finer_than_l2 in
    let merged := merge_sort time_le (fine ++ l2 ++ l1) in
    let merged :=
      if max_records <? zlen merged then
        match head merged, last merged with
        | Some a, Some b =>
            let lo := timestamp_nanos a in
            let span := u64 (timestamp_nanos b - lo + 1) in
            thin (slice_of lo span max_records) merged UINT64_MAX []
        | _, _ => merged
        end
      else merged in
    Some merged.

(** ** Binary search *)

(** Times do not decrease over the records that decode. *)
Definition reader_sorted (r : RingReader) : Prop :=
  forall i j s s', rd_oldest r <= i -> i <= j -> j < rd_end r ->
    rd r i = Some s -> rd r j = Some s' -> timestamp_nanos s <= timestamp_nanos s'.

Lemma ts_from_loop_spec read n k :
  match ts_from_loop read n k with
  | Some t => exists j s, k <= j < k + Z.of_nat n /\ read j = Some s /\ timestamp_nanos s = t /\
                (forall i, k <= i < j -> read i = None)
  | None => forall i, k <= i < k + Z.of_nat n -> read i = None
  end.
Proof.
  revert k. induction n as [| n IH]; intros k; [simpl; intros; lia |]. cbn [ts_from_loop].
  destruct (read k) as [s |] eqn:E.
  - exists k, s. split_and!; try done; try lia.
  - specialize (IH (k + 1)). destruct (ts_from_loop read n (k + 1)) as [t |].
    + destruct IH as (j & s & Hj & H1 & H2 & H3). exists j, s. split_and!; try done; try lia.
      intros i Hi. destruct (Z.eq_dec i k) as [-> |]; [done | apply H3; lia].
    + intros i Hi. destruct (Z.eq_dec i k) as [-> |]; [done | apply IH; lia].
Qed.

Lemma ts_from_spec r k :
  match ts_from r k with
  | Some t => exists j s, k <= j < rd_end r /\ rd r j = Some s /\ timestamp_nanos s = t /\
                (forall i, k <= i < j -> rd r i = None)
  | None => forall i, k <= i < rd_end r -> rd r i = None
  end.
Proof.
  unfold ts_from. pose proof (ts_from_loop_spec (rd r) (Z.to_nat (rd_end r - k)) k) as H.
  destruct (ts_from_loop _ _ _).
  - destruct H as (j & s & Hj & H). exists j, s. split; [lia | done].
  - intros i Hi. apply H. lia.
Qed.

(** The records before [p] are older than [ts], those from [p] on are not. *)
Definition splits_at (r : RingReader) (ts p : Z) : Prop :=
  rd_oldest r <= p <= rd_end r /\
  (forall i s, rd_oldest r <= i < p -> rd r i = Some s -> timestamp_nanos s < ts) /\
  (forall i s, p <= i < rd_end r -> rd r i = Some s -> ts <= timestamp_nanos s).

Lemma lower_bound_loop_spec r ts n lo hi :
  reader_sorted r -> rd_oldest r <= lo -> lo <= hi <= rd_end r -> hi - lo <= Z.of_nat n ->
  (forall i s, rd_oldest r <= i < lo -> rd r i = Some s -> timestamp_nanos s < ts) ->
  (forall i s, hi <= i < rd_end r -> rd r i = Some s -> ts <= timestamp_nanos s) ->
  splits_at r ts (lower_bound_loop r ts n lo hi).
Proof.
  intros Hsort. revert lo hi. induction n as [| n IH]; intros lo hi Hlo Hhi Hn Hbelow Habove.
  { assert (hi = lo) as -> by lia. cbn [lower_bound_loop]. split; [lia | done]. }
  cbn [lower_bound_loop]. destruct (lo <? hi) eqn:E; bool_facts;
    [| assert (lo = hi) as <- by lia; split; [lia | done]].
  set (mid := lo + (hi - lo) / 2).
  assert (Hmid : lo <= mid < hi).
  { unfold mid. pose proof (Z.div_pos (hi - lo) 2). pose proof (Z.div_lt_upper_bound (hi - lo) 2 (hi - lo)). lia. }
  pose proof (ts_from_spec r mid) as Hts. destruct (ts_from r mid) as [t |].
  - destruct Hts as (j & sj & Hj & Hrj & Htj & Hnone). destruct (ts <=? t) eqn:Et; bool_facts.
    + apply IH; [done | lia | lia | done |]. intros i s Hi Hs.
      destruct (Z.lt_ge_cases i j) as [Hlt | Hge]; [rewrite Hnone in Hs by lia; done |].
      pose proof (Hsort j i sj s ltac:(lia) ltac:(lia) ltac:(lia) Hrj Hs). lia.
    + apply IH; [lia | lia | lia | | done]. intros i s Hi Hs.
      pose proof (Hsort i j s sj ltac:(lia) ltac:(lia) ltac:(lia) Hs Hrj). lia.
  - apply IH; [done | lia | lia | done |]. intros i s Hi Hs. rewrite Hts in Hs by lia. done.
Qed.

Lemma lower_bound_splits r ts :
  reader_sorted r -> rd_oldest r <= rd_end r -> splits_at r ts (lower_bound r ts).
Proof. intros Hs Hle. apply lower_bound_loop_spec; try (done || lia); intros; lia. Qed.

(** C20: The binary search over a ring is right, holes included.  On a ring whose
    readable records are in time order, RingReader::lower_bound(ts) terminates
    at the one index that splits the ring: every readable record before it is
    older than ts, every readable record from it on is not, however many
    records between them do not decode. *)
Theorem lower_bound_correct (r : RingReader) (ts : Z) :
  reader_sorted r -> rd_oldest r <= rd_end r ->
  splits_at r ts (lower_bound r ts) /\
  (forall q, splits_at r ts q ->
     (forall i, Z.min q (lower_bound r ts) <= i < Z.max q (lower_bound r ts) -> rd r i = None)).
Proof.
  intros Hs Hle. pose proof (lower_bound_splits r ts Hs Hle) as H. split; [done |].
  destruct H as (H1 & H2 & H3). intros q (Q1 & Q2 & Q3) i Hi.
  destruct (rd r i) as [s |] eqn:E; [exfalso | done].
  destruct (Z.lt_ge_cases i q).
  - pose proof (Q2 i s ltac:(lia) E). pose proof (H3 i s ltac:(lia) E). lia.
  - pose proof (Q3 i s ltac:(lia) E). pose proof (H2 i s ltac:(lia) E). lia.
Qed.

(** ** A ring of samples as its reader sees it *)

(** The newest [capacity] of the samples a ring was given. *)
Definition kept (cap : Z) (ss : list Sample) : list Sample := zdrop (zlen ss - cap) ss.

Lemma sorted_lookup ss i j s s' :
  times_after 0 ss -> ss !! Z.to_nat i = Some s -> ss !! Z.to_nat j = Some s' -> 0 <= i -> i < j ->
  timestamp_nanos s < timestamp_nanos s'.
Proof.
  intros Ht Hi Hj H0 Hlt. pose proof (take_drop (Z.to_nat j) ss) as Hsplit.
  rewrite <- Hsplit in Ht. apply (times_after_app 0 _ _ Ht).
  - apply (list_elem_of_lookup_2 _ (Z.to_nat i)). rewrite lookup_take_lt by lia. done.
  - apply (list_elem_of_lookup_2 _ 0). rewrite lookup_drop, Nat.add_0_r. done.
Qed.

Section Healthy.
Context (r : RingFile) (f : list Z) (ss : list Sample).
Hypothesis Hring : ring_samples r f ss.
Hypothesis Hidx : write_index r f = zlen ss.
Hypothesis Hsorted : times_after 0 ss.

Let cap := capacity_ r.
Let oldest := Z.max 0 (zlen ss - cap).

Lemma healthy_slot i s :
  ss !! Z.to_nat i = Some s -> oldest <= i ->
  read_at no_io r f (i mod cap) false record_size_for_sample = inr (encode_record s) /\
  decode_record (encode_record s) = Some s.
Proof using Hring.
  intros Hi Hge. destruct (ring_samples_facts _ _ _ Hring) as (Hfd & _ & Hrs & Hc & [_ _ _ _ Hlen _ _ _ _ _ _ _ _]).
  split.
  - rewrite (record_in_slot_read record_size_for_sample cap); try (done || lia).
    f_equal. apply (ring_samples_slot r f ss); [done | done | lia | unfold oldest in *; lia].
  - destruct Hring as (_ & _ & Hall & _). rewrite Forall_lookup in Hall.
    by apply (encode_record_ok (tier_ r)), (Hall (Z.to_nat i)).
Qed.

Lemma healthy_read i s : ss !! Z.to_nat i = Some s -> oldest <= i -> read_record no_io r f i = Some s.
Proof using Hring.
  intros Hi Hge. destruct (healthy_slot i s Hi Hge) as [H1 H2]. unfold read_record. fold cap. by rewrite H1.
Qed.

Lemma healthy_reader_bounds :
  let R := new_RingReader no_io r f in
  rd_oldest R = oldest /\ rd_end R = zlen ss /\ rd_cap R = cap /\ 0 < cap.
Proof using Hring Hidx.
  destruct (ring_samples_facts _ _ _ Hring) as (_ & _ & _ & Hc & _).
  unfold new_RingReader. cbn. rewrite Hidx. split_and!; try (done || lia).
  destruct (zlen ss <? capacity_ r) eqn:E; bool_facts; unfold oldest, cap; lia.
Qed.

Lemma healthy_lookup i : oldest <= i < zlen ss -> exists s, ss !! Z.to_nat i = Some s.
Proof using.
  intros Hi. apply lookup_lt_is_Some_2. unfold oldest, zlen in *. lia.
Qed.

Lemma healthy_reader_sorted : reader_sorted (new_RingReader no_io r f).
Proof using Hring Hidx Hsorted.
  destruct healthy_reader_bounds as (Ho & He & _). intros i j s s' Hi Hij Hj. rewrite Ho in Hi. rewrite He in Hj.
  cbn [rd new_RingReader].
  destruct (healthy_lookup i ltac:(lia)) as [si Hsi]. destruct (healthy_lookup j ltac:(lia)) as [sj Hsj].
  rewrite (healthy_read i si), (healthy_read j sj) by (done || lia). intros [= <-] [= <-].
  destruct (Z.eq_dec i j) as [-> | Hne]; [simplify_eq; lia |].
  pose proof (sorted_lookup ss i j si sj Hsorted Hsi Hsj ltac:(unfold oldest in *; lia) ltac:(lia)). lia.
Qed.

(** A binary search cuts the kept samples at the time. *)
Lemma healthy_lower_bound ts :
  let p := lower_bound (new_RingReader no_io r f) ts in
  oldest <= p <= zlen ss /\
  (forall i s, ss !! Z.to_nat i = Some s -> oldest <= i -> (i < p <-> timestamp_nanos s < ts)).
Proof using Hring Hidx Hsorted.
  destruct healthy_reader_bounds as (Ho & He & _ & Hc).
  destruct (lower_bound_splits (new_RingReader no_io r f) ts healthy_reader_sorted) as (H1 & H2 & H3).
  { rewrite Ho, He. unfold oldest. pose proof (zlen_nonneg ss). lia. }
  rewrite Ho, He in *. split; [done |]. intros i s Hi Hge.
  pose proof (lookup_lt_Some _ _ _ Hi). pose proof (healthy_read i s Hi Hge) as Hr.
  split; intros Hlt.
  - apply (H2 i s); [lia | done].
  - destruct (Z.lt_ge_cases i (lower_bound (new_RingReader no_io r f) ts)) as [| Hge2]; [done |].
    pose proof (H3 i s ltac:(unfold zlen in *; lia) Hr). lia.
Qed.
End Healthy.

(** ** The walk *)

Definition in_window (since_ns until_ns : Z) (s : Sample) : bool :=
  (since_ns <=? timestamp_nanos s) && ((until_ns =? 0) || (timestamp_nanos s <=? until_ns)).

Lemma filter_empty_window since_ns until_ns l :
  until_ns <> 0 -> until_ns < since_ns -> List.filter (in_window since_ns until_ns) l = [].
Proof.
  intros H0 Hlt. induction l as [| x l IH]; [done |]. simpl. unfold in_window at 1.
  by replace (_ && _) with false by lia.
Qed.

(** The last [n] of a list. *)
Definition last_n {A} (n : Z) (l : list A) : list A := zdrop (zlen l - n) l.

Lemma last_n_nil {A} n : last_n n (@nil A) = [].
Proof. unfold last_n, zdrop. apply drop_nil. Qed.

Lemma rev_take_rev {A} n (l : list A) : 0 <= n -> rev (take (Z.to_nat n) (rev l)) = last_n n l.
Proof.
  intros Hn. rewrite firstn_rev, rev_involutive. unfold last_n, zdrop, zlen. f_equal. lia.
Qed.

Section Walk.
Context (since_ns until_ns override_level max_records : Z).

(** query_walk() over the records it meets, newest first. *)
Fixpoint walk (xs : list Sample) (older_run : Z) (acc : list Sample) : list Sample :=
  match xs with
  | [] => acc
  | s :: xs =>
      if zlen acc <? max_records then
        if timestamp_nanos s <? since_ns then
          if kDisorderLookback <? older_run + 1 then acc else walk xs (older_run + 1) acc
        else if negb (until_ns =? 0) && (until_ns <? timestamp_nanos s) then walk xs 0 acc
        else walk xs 0 (acc ++ [set_override override_level s])
      else acc
  end.

Lemma walk_older xs older acc :
  Forall (fun s => timestamp_nanos s < since_ns) xs -> walk xs older acc = acc.
Proof.
  intros H. revert older. induction H as [| s xs Hs _ IH]; intros older; [done |]. simpl.
  destruct (zlen acc <? _); [| done]. replace (timestamp_nanos s <? since_ns) with true by lia.
  by destruct (_ <? _).
Qed.

(** On records in time order the lookback never matters: the walk takes the
    newest [max_records] of those in the window. *)
Lemma walk_sorted xs older acc :
  StronglySorted (fun a b => timestamp_nanos b < timestamp_nanos a) xs ->
  walk xs older acc =
  acc ++ take (Z.to_nat (max_records - zlen acc))
           (map (set_override override_level) (List.filter (in_window since_ns until_ns) xs)).
Proof.
  intros H. revert older acc. induction H as [| s xs Hs IH Hall]; intros older acc.
  { simpl. by rewrite take_nil, app_nil_r. }
  cbn [walk List.filter]. unfold in_window at 1.
  destruct (zlen acc <? max_records) eqn:Em; bool_facts.
  2: { replace (Z.to_nat (max_records - zlen acc)) with 0%nat by lia. by rewrite take_0, app_nil_r. }
  destruct (timestamp_nanos s <? since_ns) eqn:Es; bool_facts.
  - replace (since_ns <=? timestamp_nanos s) with false by lia. cbn [andb].
    assert (Hold : Forall (fun s => timestamp_nanos s < since_ns) xs)
      by (eapply Forall_impl; [exact Hall | simpl; lia]).
    assert (Hnil : List.filter (in_window since_ns until_ns) xs = []).
    { clear -Hold. induction Hold as [| x xs Hx _ IH]; [done |]. simpl. unfold in_window at 1.
      by replace (since_ns <=? timestamp_nanos x) with false by lia. }
    rewrite Hnil. simpl. rewrite take_nil, app_nil_r. destruct (_ <? _); [done | by apply walk_older].
  - replace (since_ns <=? timestamp_nanos s) with true by lia. cbn [andb].
    destruct (until_ns =? 0) eqn:Eu; cbn [negb andb orb].
    + rewrite IH. cbn [map]. rewrite zlen_app. change (zlen [_]) with 1.
      replace (Z.to_nat (max_records - zlen acc)) with (S (Z.to_nat (max_records - (zlen acc + 1)))) by lia.
      by rewrite <- app_assoc.
    + destruct (until_ns <? timestamp_nanos s) eqn:Et; bool_facts.
      * replace (timestamp_nanos s <=? until_ns) with false by lia. apply IH.
      * replace (timestamp_nanos s <=? until_ns) with true by lia.
        rewrite IH. cbn [map]. rewrite zlen_app. change (zlen [_]) with 1.
        replace (Z.to_nat (max_records - zlen acc)) with (S (Z.to_nat (max_records - (zlen acc + 1)))) by lia.
        by rewrite <- app_assoc.
Qed.

(** The walk beside a writer: it meets the records it should, up to the first
    whose slot was being written over. *)
Lemma query_walk_meets io r v cap widx n k older acc xs :
  length xs = n ->
  (forall j s, xs !! j = Some s ->
     let i := widx - 1 - (k + Z.of_nat j) in
     exists b, read_at io r (v_file v (k + Z.of_nat j)) (i mod cap) false record_size_for_sample = inr b /\
       (v_begun v (k + Z.of_nat j) <= i + cap -> decode_record b = Some s)) ->
  exists t, (t <= n)%nat /\
    query_walk io r v cap widx since_ns until_ns override_level max_records n k older acc =
      walk (take t xs) older acc /\
    ((forall j, (j < n)%nat -> v_begun v (k + Z.of_nat j) <= widx - 1 - (k + Z.of_nat j) + cap) -> t = n).
Proof.
  revert k older acc xs. induction n as [| n IH]; intros k older acc xs Hlen Hmeet.
  { exists 0%nat. split_and!; [lia | done | done]. }
  destruct xs as [| s xs]; [done |]. injection Hlen as Hlen.
  destruct (Hmeet 0%nat s eq_refl) as (b & Hb & Hdec). cbn [Z.of_nat] in *. rewrite Z.add_0_r in *.
  assert (Hnext : forall older acc, exists t, (t <= n)%nat /\
    query_walk io r v cap widx since_ns until_ns override_level max_records n (k + 1) older acc =
      walk (take t xs) older acc /\
    ((forall j, (j < n)%nat -> v_begun v (k + 1 + Z.of_nat j) <= widx - 1 - (k + 1 + Z.of_nat j) + cap) -> t = n)).
  { intros older' acc'. apply IH; [done |]. intros j x Hj. specialize (Hmeet (S j) x Hj).
    by replace (k + Z.of_nat (S j)) with (k + 1 + Z.of_nat j) in Hmeet by lia. }
  cbn [query_walk]. rewrite Hb.
  destruct (widx - 1 - k + cap <? v_begun v k) eqn:Ebg; bool_facts.
  { exists 0%nat. split_and!; [lia | by destruct (_ <? _) |]. intros Hall.
    specialize (Hall 0%nat ltac:(lia)). rewrite Z.add_0_r in Hall. lia. }
  rewrite Hdec by done.
  assert (Hstep : forall older' acc', exists t, (t <= S n)%nat /\
    query_walk io r v cap widx since_ns until_ns override_level max_records n (k + 1) older' acc' =
      walk (take (pred t) xs) older' acc' /\ (1 <= t)%nat /\
    ((forall j, (j < S n)%nat -> v_begun v (k + Z.of_nat j) <= widx - 1 - (k + Z.of_nat j) + cap) -> t = S n)).
  { intros older' acc'. destruct (Hnext older' acc') as (t & Ht & E & Hall). exists (S t).
    split_and!; [lia | done | lia |]. intros H. f_equal. apply Hall. intros j Hj.
    specialize (H (S j) ltac:(lia)). by replace (k + Z.of_nat (S j)) with (k + 1 + Z.of_nat j) in H by lia. }
  destruct (zlen acc <? max_records) eqn:Em.
  2: { exists (S n). split_and!; [lia | by cbn [take walk]; rewrite Em | done]. }
  destruct (timestamp_nanos s <? since_ns) eqn:Es.
  { destruct (kDisorderLookback <? older + 1) eqn:Eo.
    - exists (S n). split_and!; [lia | by cbn [take walk]; rewrite Em, Es, Eo | done].
    - destruct (Hstep (older + 1) acc) as ([| t] & Ht & E & H1 & Hall); [lia |]. exists (S t).
      split_and!; [lia | by cbn [take walk]; rewrite Em, Es, Eo, E | done]. }
  destruct (negb (until_ns =? 0) && (until_ns <? timestamp_nanos s)) eqn:Eu.
  - destruct (Hstep 0 acc) as ([| t] & Ht & E & H1 & Hall); [lia |]. exists (S t).
    split_and!; [lia | by cbn [take walk]; rewrite Em, Es, Eu, E | done].
  - destruct (Hstep 0 (acc ++ [set_override override_level s])) as ([| t] & Ht & E & H1 & Hall); [lia |].
    exists (S t). split_and!; [lia | by cbn [take walk]; rewrite Em, Es, Eu, E | done].
Qed.
End Walk.

(** ** A query beside a writer *)

(** What the file and write_begun() can be while the daemon goes on appending
    to a ring that held [ss]: between two appends, or inside one, with any part
    of the record in the slot. *)
Inductive writer_state (r : RingFile) (ss : list Sample) : list Z -> Z -> Prop :=
| writer_idle r' f' more :
    ring_samples r' f' (ss ++ more) -> capacity_ r' = capacity_ r ->
    writer_state r ss f' (zlen (ss ++ more))
| writer_inside r' f' more d :
    ring_samples r' f' (ss ++ more) -> capacity_ r' = capacity_ r -> zlen d <= record_size_for_sample ->
    writer_state r ss
      (splice (slot_offset record_size_for_sample (zlen (ss ++ more) mod capacity_ r)) d f')
      (zlen (ss ++ more) + 1).

(** Each read of the walk saw such a state, and write_begun() was asked after it. *)
Definition view_of_writer (r : RingFile) (ss : list Sample) (v : View) : Prop :=
  forall k, exists begun, writer_state r ss (v_file v k) begun /\ begun <= v_begun v k.

Lemma ring_samples_len r f ss :
  ring_samples r f ss -> zlen f = kHeaderSize + record_size_for_sample * capacity_ r.
Proof. intros H. by destruct (ring_samples_facts _ _ _ H) as (_ & _ & _ & _ & []). Qed.

(** A slot whose next record was not begun still holds its own. *)
Lemma writer_state_slot r ss f b i s :
  writer_state r ss f b -> 0 < capacity_ r -> ss !! Z.to_nat i = Some s -> 0 <= i -> zlen ss - capacity_ r <= i ->
  zlen f = kHeaderSize + record_size_for_sample * capacity_ r /\
  (b <= i + capacity_ r ->
   record_in_slot record_size_for_sample (capacity_ r) f i = encode_record s).
Proof.
  intros Hw Hc Hi H0 Hge. pose proof (lookup_lt_Some _ _ _ Hi) as Hlt.
  assert (Hi' : forall more, (ss ++ more) !! Z.to_nat i = Some s) by (intros; by apply lookup_app_l_Some).
  destruct Hw as [r' f' more Hr Hcap | r' f' more d Hr Hcap Hd].
  - pose proof (ring_samples_len _ _ _ Hr) as Hlen. rewrite Hcap in Hlen. split; [done |]. intros Hb.
    rewrite <- Hcap. apply (ring_samples_slot r' f' (ss ++ more)); [done | done | done |]. rewrite Hcap. lia.
  - pose proof (ring_samples_len _ _ _ Hr) as Hlen. rewrite Hcap in Hlen. pose proof (zlen_nonneg d).
    assert (Hpos : 0 < record_size_for_sample) by done.
    pose proof (mod_slot_range (zlen (ss ++ more)) (capacity_ r) Hc) as Hslot.
    destruct (slot_offset_range record_size_for_sample (capacity_ r) (zlen (ss ++ more) mod capacity_ r)) as [H1 H2];
      [done | done |].
    split; [rewrite zlen_splice; [done | |]; unfold kHeaderSize in *; lia |]. intros Hb.
    rewrite record_in_slot_write_other; [| done | done | done | done |].
    + rewrite <- Hcap. apply (ring_samples_slot r' f' (ss ++ more)); [done | done | done |]. rewrite Hcap. lia.
    + apply mod_slot_inj; [done | |]; rewrite zlen_app in *; pose proof (zlen_nonneg more); unfold zlen in *; lia.
Qed.

Lemma filter_rev {A} (p : A -> bool) l : List.filter p (rev l) = rev (List.filter p l).
Proof.
  induction l as [| x l IH]; [done |]. simpl. rewrite List.filter_app, IH. simpl.
  destruct (p x); simpl; [done | by rewrite app_nil_r].
Qed.

Lemma StronglySorted_rev {A} (R : A -> A -> Prop) l :
  StronglySorted R l -> StronglySorted (fun a b => R b a) (rev l).
Proof.
  induction 1 as [| x l Hl IH Hall]; simpl; [constructor |].
  apply StronglySorted_app_2; [| done | repeat constructor].
  intros a b Ha Hb. apply list_elem_of_singleton in Hb as ->.
  apply list_elem_of_In, in_rev, list_elem_of_In in Ha. rewrite Forall_forall in Hall. by apply Hall.
Qed.

Lemma times_sorted t ss :
  times_after t ss -> StronglySorted (fun a b => timestamp_nanos a < timestamp_nanos b) ss.
Proof.
  unfold times_after. intros H. inversion H as [| ? ? Hs _]; subst. clear H.
  induction ss as [| x ss IH]; [constructor |]. simpl in Hs. inversion Hs as [| ? ? H1 H2]; subst.
  constructor; [by apply IH |]. rewrite List.Forall_map in H2. exact H2.
Qed.

(** The records the walk goes over: from the oldest kept up to the last one not
    after [until_ns]. *)
Definition walk_start (r : RingFile) (f : list Z) (ss : list Sample) (until_ns : Z) : Z :=
  if negb (until_ns =? 0) && negb (until_ns =? UINT64_MAX)
  then lower_bound (new_RingReader no_io r f) (until_ns + 1) else zlen ss.

Lemma walk_start_spec r f ss until_ns :
  ring_samples r f ss -> write_index r f = zlen ss -> times_after 0 ss ->
  let p := walk_start r f ss until_ns in
  Z.max 0 (zlen ss - capacity_ r) <= p <= zlen ss /\
  forall i s, ss !! Z.to_nat i = Some s -> p <= i -> until_ns <> 0 /\ until_ns < timestamp_nanos s.
Proof.
  intros Hr Hw Ht p. destruct (ring_samples_facts _ _ _ Hr) as (_ & _ & _ & Hc & _).
  pose proof (zlen_nonneg ss). unfold p, walk_start.
  destruct (negb (until_ns =? 0) && negb (until_ns =? UINT64_MAX)) eqn:E; bool_facts.
  - destruct (healthy_lower_bound r f ss Hr Hw Ht (until_ns + 1)) as [Hb Hcut]. split; [lia |].
    intros i s Hi Hge. specialize (Hcut i s Hi ltac:(lia)). split; [done |].
    destruct (Z.lt_ge_cases until_ns (timestamp_nanos s)); [done | exfalso]. lia.
  - split; [lia |]. intros i s Hi Hge. apply lookup_lt_Some in Hi. unfold zlen in *. lia.
Qed.

Lemma filter_drop_after ss since_ns until_ns lo p :
  0 <= lo <= p -> p <= zlen ss ->
  (forall i s, ss !! Z.to_nat i = Some s -> p <= i -> until_ns <> 0 /\ until_ns < timestamp_nanos s) ->
  List.filter (in_window since_ns until_ns) (zdrop lo ss) =
  List.filter (in_window since_ns until_ns) (slice lo (p - lo) ss).
Proof.
  intros Hlo Hp Hafter. unfold slice, ztake, zdrop.
  rewrite <- (take_drop (Z.to_nat (p - lo)) (drop (Z.to_nat lo) ss)) at 1. rewrite List.filter_app.
  replace (List.filter _ (drop (Z.to_nat (p - lo)) _)) with (@nil Sample); [by rewrite app_nil_r |].
  rewrite drop_drop. symmetry.
  assert (Hall : Forall (fun s => in_window since_ns until_ns s = false) (drop (Z.to_nat lo + Z.to_nat (p - lo)) ss)).
  { apply Forall_lookup. intros i s Hi. rewrite lookup_drop in Hi.
    destruct (Hafter (Z.of_nat (Z.to_nat lo + Z.to_nat (p - lo) + i)) s) as [H1 H2]; [by rewrite Nat2Z.id | lia |].
    unfold in_window. apply andb_false_iff. right. apply orb_false_iff. split; lia. }
  induction Hall as [| x l Hx _ IH]; [done |]. simpl. by rewrite Hx.
Qed.

Lemma query_ring_of_walk r f v ss override_level since_ns until_ns max_records :
  ring_samples r f ss -> write_index r f = zlen ss -> times_after 0 ss -> view_of_writer r ss v ->
  0 <= max_records -> ~ (until_ns <> 0 /\ until_ns < since_ns) -> ss <> [] ->
  let p := walk_start r f ss until_ns in
  exists lo, Z.max 0 (zlen ss - capacity_ r) <= lo <= p /\
    query_ring no_io r f v override_level since_ns until_ns max_records =
      last_n max_records (map (set_override override_level)
        (List.filter (in_window since_ns until_ns) (slice lo (p - lo) ss))) /\
    ((forall k, v_begun v k <= zlen ss) -> lo = Z.max 0 (zlen ss - capacity_ r)).
Proof.
  intros Hr Hw Ht Hv Hm Hwin Hne p. destruct (ring_samples_facts _ _ _ Hr) as (Hfd & _ & Hrs & Hc & _).
  destruct (walk_start_spec r f ss until_ns Hr Hw Ht) as [Hp _]. fold p in Hp.
  assert (Hpos : 0 < zlen ss) by (destruct ss as [| x l]; [done | rewrite zlen_cons; pose proof (zlen_nonneg l); lia]).
  set (oldest := Z.max 0 (zlen ss - capacity_ r)) in *.
  set (xs := rev (slice oldest (p - oldest) ss)).
  assert (Hlx : zlen (slice oldest (p - oldest) ss) = p - oldest) by (apply zlen_slice; lia).
  assert (Hlen : length xs = Z.to_nat (p - oldest)) by (unfold xs; rewrite length_rev; unfold zlen in Hlx; lia).
  assert (Hxs : forall j s, xs !! j = Some s -> ss !! Z.to_nat (p - 1 - Z.of_nat j) = Some s).
  { intros j s Hj. unfold xs in Hj. pose proof (lookup_lt_Some _ _ _ Hj) as Hlt. fold xs in Hlt. rewrite Hlen in Hlt.
    rewrite rev_alt in Hj. apply (reverse_lookup_Some _ j) in Hj as [Hj _].
    unfold slice, ztake, zdrop in Hj, Hlx. unfold zlen in Hlx.
    rewrite lookup_take_lt, lookup_drop in Hj by lia. rewrite <- Hj. f_equal. lia. }
  assert (Hpick : forall t, (t <= Z.to_nat (p - oldest))%nat ->
    rev (walk since_ns until_ns override_level max_records (take t xs) 0 []) =
    last_n max_records (map (set_override override_level)
      (List.filter (in_window since_ns until_ns) (slice (p - Z.of_nat t) (Z.of_nat t) ss)))).
  { intros t Htn.
    assert (Htake : take t xs = rev (slice (p - Z.of_nat t) (Z.of_nat t) ss)).
    { unfold xs. rewrite firstn_rev. f_equal. unfold zlen in Hlx. unfold slice, ztake, zdrop in *.
      replace (length (take _ _)) with (Z.to_nat (p - oldest)) by lia.
      rewrite skipn_firstn_comm, drop_drop. f_equal; [lia |]. f_equal. lia. }
    rewrite Htake, walk_sorted.
    - change (zlen []) with 0. rewrite Z.sub_0_r, filter_rev, map_rev. simpl. by apply rev_take_rev.
    - apply (StronglySorted_rev (fun a b => timestamp_nanos a < timestamp_nanos b)).
      pose proof (times_sorted 0 ss Ht) as Hst. unfold slice, ztake, zdrop.
      rewrite <- (take_drop (Z.to_nat (p - Z.of_nat t)) ss) in Hst. apply StronglySorted_app_1_r in Hst.
      rewrite <- (take_drop (Z.to_nat (Z.of_nat t)) (drop _ ss)) in Hst. by apply StronglySorted_app_1_l in Hst. }
  destruct (query_walk_meets since_ns until_ns override_level max_records no_io r v (capacity_ r) (zlen ss)
    (Z.to_nat (p - oldest)) (zlen ss - p) 0 [] xs Hlen) as (t & Htn & Eq & Hall).
  { intros j s Hj. pose proof (lookup_lt_Some _ _ _ Hj) as Hjl. rewrite Hlen in Hjl. apply Hxs in Hj.
    destruct (Hv (zlen ss - p + Z.of_nat j)) as (b & Hws & Hb).
    replace (zlen ss - 1 - (zlen ss - p + Z.of_nat j)) with (p - 1 - Z.of_nat j) by lia.
    destruct (writer_state_slot r ss _ b (p - 1 - Z.of_nat j) s Hws) as [Hfl Hslot]; [lia | done | lia | lia |].
    eexists. split; [apply (record_in_slot_read record_size_for_sample (capacity_ r)); (done || lia) |].
    intros Hbg. rewrite Hslot by lia. pose proof Hr as (_ & _ & Hst & _). rewrite Forall_lookup in Hst.
    by apply (encode_record_ok (tier_ r)), (Hst _ _ Hj). }
  exists (p - Z.of_nat t). split; [lia |]. split.
  - replace (p - (p - Z.of_nat t)) with (Z.of_nat t) by lia. rewrite <- Hpick by done. rewrite <- Eq.
    unfold query_ring. rewrite Hw. replace (capacity_ r =? 0) with false by lia.
    replace (zlen ss =? 0) with false by lia. cbn [orb].
    replace (negb (until_ns =? 0) && (until_ns <? since_ns)) with false by lia.
    cbv zeta. assert (Hst : (if negb (until_ns =? 0) && negb (until_ns =? UINT64_MAX) then
        if (if zlen ss <? lower_bound (new_RingReader no_io r f) (until_ns + 1) then zlen ss
            else lower_bound (new_RingReader no_io r f) (until_ns + 1)) <?
           zlen ss - (if zlen ss <? capacity_ r then zlen ss else capacity_ r)
        then zlen ss - (if zlen ss <? capacity_ r then zlen ss else capacity_ r)
        else if zlen ss <? lower_bound (new_RingReader no_io r f) (until_ns + 1) then zlen ss
             else lower_bound (new_RingReader no_io r f) (until_ns + 1)
        else zlen ss) = p).
    { unfold p, walk_start in *. destruct (negb (until_ns =? 0) && negb (until_ns =? UINT64_MAX)); [| done].
      replace (zlen ss <? lower_bound _ _) with false by lia.
      destruct (zlen ss <? capacity_ r) eqn:Ec; bool_facts; destruct (_ <? _) eqn:E2; bool_facts; lia. }
    rewrite Hst. do 2 f_equal. destruct (zlen ss <? capacity_ r) eqn:Ec; bool_facts; unfold oldest; lia.
  - intros Hb. rewrite Hall; [lia |]. intros j Hj. specialize (Hb (zlen ss - p + Z.of_nat j)). lia.
Qed.



(** ** The spread *)

(** The position, among [count] records, of the [k]th of [take] spread evenly. *)
Definition spread_pos (count take k : Z) : Z :=
  if take =? 1 then count - 1 else (k * (count - 1)) / (take - 1).

Lemma spread_pos_range count take k :
  0 < take <= count -> 0 <= k < take -> 0 <= spread_pos count take k < count.
Proof.
  intros Ht Hk. unfold spread_pos. destruct (take =? 1) eqn:E; bool_facts; [lia |]. split.
  - apply Z.div_pos; nia.
  - apply Z.div_lt_upper_bound; nia.
Qed.

Lemma spread_pos_mono count take k :
  0 < take <= count -> 0 <= k -> k + 1 < take -> spread_pos count take k < spread_pos count take (k + 1).
Proof.
  intros Ht Hk Hk1. unfold spread_pos. replace (take =? 1) with false by lia.
  apply Z.lt_le_trans with (k * (count - 1) / (take - 1) + 1); [lia |].
  rewrite <- Z.div_add by lia. apply Z.div_le_mono; nia.
Qed.

Lemma spread_walk_healthy (R : RingReader) (W : list Sample) first take since_ns until_ns override_level n k prev :
  (forall i s, W !! Z.to_nat i = Some s -> 0 <= i -> rd R (first + i) = Some s) ->
  Forall (fun s => in_window since_ns until_ns s = true) W ->
  0 < take <= zlen W -> 0 <= k -> k + Z.of_nat n = take ->
  (k < take -> prev <> first + spread_pos (zlen W) take k) ->
  Forall2 (fun s j => set_override override_level <$> W !! Z.to_nat (spread_pos (zlen W) take j) = Some s)
    (spread_walk R first (zlen W) take since_ns until_ns override_level n k prev) (seqZ k (Z.of_nat n)).
Proof.
  intros Hrd Hwin Ht. revert k prev. induction n as [| n IH]; intros k prev Hk Hkn Hprev.
  { rewrite seqZ_nil by lia. constructor. }
  cbn [spread_walk]. rewrite seqZ_cons by lia.
  replace (if take =? 1 then first + zlen W - 1 else first + k * (zlen W - 1) / (take - 1))
    with (first + spread_pos (zlen W) take k) by (unfold spread_pos; destruct (take =? 1); lia).
  pose proof (spread_pos_range (zlen W) take k Ht ltac:(lia)) as Hr.
  replace (_ =? prev) with false by (specialize (Hprev ltac:(lia)); lia).
  destruct (lookup_lt_is_Some_2 W (Z.to_nat (spread_pos (zlen W) take k))) as [s Hs]; [unfold zlen in *; lia |].
  rewrite (Hrd _ s Hs) by lia. rewrite Forall_lookup in Hwin. pose proof (Hwin _ _ Hs) as Hin.
  unfold in_window in Hin. apply andb_true_iff in Hin as [H1 H2]. bool_facts.
  replace (timestamp_nanos s <? since_ns) with false by lia.
  replace (negb (until_ns =? 0) && (until_ns <? timestamp_nanos s)) with false
    by (apply orb_true_iff in H2 as [H2 | H2]; bool_facts; lia).
  constructor; [by rewrite Hs |].
  replace (Z.succ k) with (k + 1) by lia. replace (Z.pred (Z.of_nat (S n))) with (Z.of_nat n) by lia.
  apply IH; [lia | lia |]. intros Hlt. pose proof (spread_pos_mono (zlen W) take k Ht Hk Hlt). lia.
Qed.

(** The part of a ring's samples in the window is one stretch of it. *)
Lemma filter_middle (p : Sample -> bool) ss a b c :
  0 <= a <= b -> b <= c <= zlen ss ->
  (forall i s, ss !! Z.to_nat i = Some s -> a <= i < b -> p s = false) ->
  (forall i s, ss !! Z.to_nat i = Some s -> b <= i < c -> p s = true) ->
  (forall i s, ss !! Z.to_nat i = Some s -> c <= i -> p s = false) ->
  List.filter p (zdrop a ss) = slice b (c - b) ss.
Proof.
  intros Ha Hc H1 H2 H3. unfold slice, ztake, zdrop.
  assert (Hall : forall (q : bool) l, Forall (fun s => p s = q) l -> List.filter p l = if q then l else []).
  { intros q l Hl. induction Hl as [| x l Hx _ IH]; [by destruct q |]. simpl. rewrite Hx, IH. by destruct q. }
  rewrite <- (take_drop (Z.to_nat (b - a)) (drop (Z.to_nat a) ss)). rewrite drop_drop, List.filter_app.
  replace (Z.to_nat a + Z.to_nat (b - a))%nat with (Z.to_nat b) by lia.
  rewrite (Hall false), <- (take_drop (Z.to_nat (c - b)) (drop (Z.to_nat b) ss)) at 1.
  - rewrite drop_drop, List.filter_app, (Hall true), (Hall false); [by rewrite app_nil_r | |].
    + apply Forall_lookup. intros i s Hi. rewrite lookup_drop in Hi.
      apply (H3 (Z.of_nat (Z.to_nat b + Z.to_nat (c - b) + i))); [by rewrite Nat2Z.id | lia].
    + apply Forall_lookup. intros i s Hi. apply lookup_take_Some in Hi as [Hi Hlt]. rewrite lookup_drop in Hi.
      apply (H2 (Z.of_nat (Z.to_nat b + i))); [by rewrite Nat2Z.id | lia].
  - apply Forall_lookup. intros i s Hi. apply lookup_take_Some in Hi as [Hi Hlt]. rewrite lookup_drop in Hi.
    apply (H1 (Z.of_nat (Z.to_nat a + i))); [by rewrite Nat2Z.id | lia].
Qed.

(** The spread covers the window end to end.  With W the samples of the
    ring in [since, until], query_ring_spread() returns min(|W|, max_records)
    of them, exactly the records at positions k * (|W| - 1) / (take - 1), which
    include both ends (the newest alone when one is asked for); so all of W
    when it fits. *)
Theorem query_ring_spread_exact (r : RingFile) (f : list Z) (ss : list Sample)
    (override_level since_ns until_ns max_records : Z) :
  ring_samples r f ss -> write_index r f = zlen ss -> times_after 0 ss ->
  zlen ss < UINT64_MAX -> 0 < max_records ->
  let W := List.filter (in_window since_ns until_ns) (kept (capacity_ r) ss) in
  let take := Z.min (zlen W) max_records in
  Forall2 (fun s j => set_override override_level <$> W !! Z.to_nat (spread_pos (zlen W) take j) = Some s)
    (query_ring_spread no_io r f override_level since_ns until_ns max_records) (seqZ 0 take).
Proof.
  intros Hr Hw Ht Hlt Hm W take. destruct (ring_samples_facts _ _ _ Hr) as (_ & _ & _ & Hc & _).
  destruct (healthy_reader_bounds r f ss Hr Hw) as (Ho & He & Hcap & _).
  pose proof (zlen_nonneg ss). set (oldest := Z.max 0 (zlen ss - capacity_ r)) in *.
  set (R := new_RingReader no_io r f) in *. set (first := lower_bound R since_ns).
  set (fin := if negb (until_ns =? 0) && negb (until_ns =? UINT64_MAX) then lower_bound R (until_ns + 1) else rd_end R).
  destruct (healthy_lower_bound r f ss Hr Hw Ht since_ns) as [Hb1 Hcut1]. fold R first oldest in Hb1, Hcut1.
  assert (Hfin : oldest <= fin <= zlen ss /\ forall i s, ss !! Z.to_nat i = Some s -> oldest <= i ->
    (i < fin <-> until_ns = 0 \/ timestamp_nanos s <= until_ns)).
  { unfold fin. destruct (negb (until_ns =? 0) && negb (until_ns =? UINT64_MAX)) eqn:E; bool_facts.
    - destruct (healthy_lower_bound r f ss Hr Hw Ht (until_ns + 1)) as [Hb2 Hcut2]. fold R oldest in Hb2, Hcut2.
      split; [done |]. intros i s Hi Hge. specialize (Hcut2 i s Hi Hge). lia.
    - rewrite He. split; [unfold oldest; lia |]. intros i s Hi Hge. pose proof (lookup_lt_Some _ _ _ Hi) as Hi2.
      split; [| unfold zlen; lia]. intros _. destruct Hr as (_ & _ & Hall & _). rewrite Forall_lookup in Hall.
      destruct (Hall _ _ Hi) as [Hok _]. apply andb_false_iff in E as [E | E]; bool_facts; [by left | right].
      unfold_sample_ok. unfold is_uint, UINT64_MAX in *. lia. }
  destruct Hfin as [Hb2 Hcut2].
  assert (Hin : forall i s, ss !! Z.to_nat i = Some s -> oldest <= i ->
    in_window since_ns until_ns s = true <-> first <= i < fin).
  { intros i s Hi Hge. specialize (Hcut1 i s Hi Hge). specialize (Hcut2 i s Hi Hge). unfold in_window.
    rewrite andb_true_iff, orb_true_iff, !Z.leb_le, Z.eqb_eq. lia. }
  assert (Hkept : kept (capacity_ r) ss = zdrop oldest ss) by (unfold kept, zdrop, oldest; f_equal; lia).
  assert (HW : W = slice first (Z.max first fin - first) ss).
  { unfold W. rewrite Hkept. apply filter_middle; [unfold oldest in *; lia | lia | | |].
    - intros i s Hi Hr'. destruct (in_window since_ns until_ns s) eqn:E; [| done]. apply (Hin i s Hi) in E; lia.
    - intros i s Hi Hr'. apply (Hin i s Hi); lia.
    - intros i s Hi Hr'. destruct (in_window since_ns until_ns s) eqn:E; [| done]. apply (Hin i s Hi) in E; lia. }
  assert (HWlen : zlen W = Z.max first fin - first) by (rewrite HW; apply zlen_slice; unfold oldest in *; lia).
  unfold query_ring_spread. fold R first fin.
  destruct (Z.le_gt_cases fin first) as [Hle | Hgt].
  { unfold take. rewrite HWlen. replace (Z.max first fin - first) with 0 by lia.
    rewrite seqZ_nil by lia. replace (fin <=? first) with true by lia. destruct (empty R); constructor. }
  assert (Hne : empty R = false).
  { unfold empty. rewrite Ho, He, Hcap. apply orb_false_iff. split; lia. }
  rewrite Hne. replace (fin <=? first) with false by lia.
  replace (fin - first) with (zlen W) by lia.
  replace (if zlen W <? max_records then zlen W else max_records) with take
    by (unfold take; destruct (zlen W <? max_records) eqn:E; bool_facts; lia).
  assert (Htk : 0 < take <= zlen W) by (unfold take; lia).
  pose proof (spread_pos_range (zlen W) take 0 Htk ltac:(lia)) as Hp0.
  replace (seqZ 0 take) with (seqZ 0 (Z.of_nat (Z.to_nat take))) by (f_equal; lia).
  apply spread_walk_healthy; try lia.
  - intros i s Hi H0. pose proof (lookup_lt_Some _ _ _ Hi) as Hl. rewrite HW in Hi.
    unfold slice, ztake, zdrop in Hi. apply lookup_take_Some in Hi as [Hi _]. rewrite lookup_drop in Hi.
    apply (healthy_read r f ss Hr); [rewrite <- Hi; f_equal; unfold oldest in *; lia | fold oldest; lia].
  - apply Forall_forall. intros s Hs. apply list_elem_of_In, filter_In in Hs as [_ Hs]. done.
Qed.

(** ** Folded records and the finer rings *)

(** A ring holds a readable record with lo < time <= hi. *)
Definition holds_between (r : RingReader) (lo hi : Z) : Prop :=
  exists i s, rd_oldest r <= i < rd_end r /\ rd r i = Some s /\ lo < timestamp_nanos s <= hi.

Lemma any_in_correct r lo hi :
  reader_sorted r -> rd_oldest r <= rd_end r -> 0 < rd_cap r ->
  any_in r lo hi = true <-> holds_between r lo hi.
Proof.
  intros Hs Hle Hc. unfold any_in, empty. replace (rd_cap r =? 0) with false by lia. cbn [orb].
  destruct (lower_bound_splits r (lo + 1) Hs Hle) as (H1 & H2 & H3). set (p := lower_bound r (lo + 1)) in *.
  destruct ((rd_end r =? rd_oldest r) || (hi <=? lo)) eqn:E.
  { split; [done |]. intros (i & s & Hi & _ & Ht). apply orb_true_iff in E as [E | E]; bool_facts; lia. }
  bool_facts. pose proof (ts_from_spec r p) as Hts. destruct (ts_from r p) as [t |].
  - destruct Hts as (j & s & Hj & Hrj & Htj & Hnone). split.
    + intros Ht. bool_facts. exists j, s. pose proof (H3 j s ltac:(lia) Hrj). split_and!; try done; lia.
    + intros (i & s' & Hi & Hri & Ht). destruct (Z.lt_ge_cases i p); [pose proof (H2 i s' ltac:(lia) Hri); lia |].
      destruct (Z.lt_ge_cases i j); [rewrite Hnone in Hri by lia; done |].
      pose proof (Hs j i s s' ltac:(lia) ltac:(lia) ltac:(lia) Hrj Hri). lia.
  - split; [done |]. intros (i & s' & Hi & Hri & Ht).
    destruct (Z.lt_ge_cases i p); [pose proof (H2 i s' ltac:(lia) Hri); lia |]. rewrite Hts in Hri by lia. done.
Qed.

Lemma first_after_spec lo l :
  StronglySorted Z.le l ->
  match first_after lo l with
  | Some t => t ∈ l /\ lo < t /\ forall x, x ∈ l -> lo < x -> t <= x
  | None => forall x, x ∈ l -> x <= lo
  end.
Proof.
  intros Hs. unfold first_after. destruct (list_find (fun t => lo < t) l) as [[i t] |] eqn:E; simpl.
  - apply list_find_Some in E as (Hi & Ht & Hbefore).
    split_and!; [by eapply list_elem_of_lookup_2 | done |]. intros x Hx Hlx.
    apply list_elem_of_lookup_1 in Hx as [j Hj].
    destruct (decide (j < i)%nat) as [Hlt | Hge]; [pose proof (Hbefore j x Hj Hlt); lia |].
    destruct (decide (j = i)) as [-> | Hne]; [simplify_eq; lia |].
    pose proof (take_drop (S i) l) as Hsplit. rewrite <- Hsplit in Hs.
    apply (StronglySorted_app_1_elem_of _ _ _ _ _ Hs).
    + apply (list_elem_of_lookup_2 _ i). rewrite lookup_take_lt by lia. done.
    + apply (list_elem_of_lookup_2 _ (j - S i)). rewrite lookup_drop. rewrite <- Hj. f_equal. lia.
  - intros x Hx. apply list_find_None in E. rewrite Forall_forall in E. specialize (E x Hx). simpl in E. lia.
Qed.

(** The record's fold window still has samples in a finer ring. *)
Definition window_covered (window_ns : Z) (seen : list (list Sample)) (readers : list RingReader) (s : Sample) : Prop :=
  let hi := timestamp_nanos s in
  let lo := if window_ns <? hi then hi - window_ns else 0 in
  (exists x, x ∈ concat seen /\ lo < timestamp_nanos x <= hi) \/ Exists (fun r => holds_between r lo hi) readers.

Lemma existsb_any_in readers lo hi :
  Forall (fun r => reader_sorted r /\ rd_oldest r <= rd_end r /\ 0 < rd_cap r) readers ->
  existsb (fun r => any_in r lo hi) readers = true <-> Exists (fun r => holds_between r lo hi) readers.
Proof.
  intros H. induction H as [| r rs (H1 & H2 & H3) _ IH]; simpl; [by split; [| inversion 1] |].
  rewrite orb_true_iff, IH, any_in_correct by done. rewrite Exists_cons. done.
Qed.

(** A folded record stands in only for samples that are gone.  Of the
    records of a coarse ring, query_all()'s drop_covered() keeps, in order,
    exactly the ones collected at that level and the folded ones in whose fold
    window neither the samples already read nor any finer ring (searched by
    time, holes included) has a record left; a window length of 0 (folding
    off) drops nothing. *)
Theorem drop_covered_exact (recs : list Sample) (window_ns : Z) (seen : list (list Sample))
    (readers : list RingReader) :
  Forall (fun r => reader_sorted r /\ rd_oldest r <= rd_end r /\ 0 < rd_cap r) readers ->
  drop_covered recs 0 seen readers = recs /\
  (window_ns <> 0 ->
   sublist (drop_covered recs window_ns seen readers) recs /\
   forall s, s ∈ drop_covered recs window_ns seen readers <->
     s ∈ recs /\ (folded s = true -> ~ window_covered window_ns seen readers s)).
Proof.
  intros Hrd. split; [done |]. intros Hw. unfold drop_covered. replace (window_ns =? 0) with false by lia.
  split.
  { induction recs as [| x l IH]; simpl; [constructor |]. destruct (negb _); by constructor. }
  intros s. rewrite !list_elem_of_In, filter_In, negb_true_iff. apply and_iff_compat_l.
  set (sorted := merge_sort Z.le _).
  assert (Hsorted : StronglySorted Z.le sorted) by (apply (StronglySorted_merge_sort Z.le)).
  assert (Hperm : forall t, t ∈ sorted <-> exists x, x ∈ concat seen /\ timestamp_nanos x = t).
  { intros t. unfold sorted. rewrite merge_sort_Permutation. rewrite list_elem_of_In, in_map_iff.
    split; intros (x & H1 & H2); exists x; rewrite list_elem_of_In in *; done. }
  unfold covered. destruct (folded s); cbn [negb]; [| by split].
  unfold window_covered. set (hi := timestamp_nanos s). set (lo := if window_ns <? hi then hi - window_ns else 0).
  pose proof (first_after_spec lo sorted Hsorted) as Hf.
  pose proof (existsb_any_in readers lo hi Hrd) as Hex.
  assert (Hnot : existsb (fun r => any_in r lo hi) readers = false <-> ~ Exists (fun r => holds_between r lo hi) readers).
  { rewrite <- Hex. by destruct (existsb _ _); split. }
  destruct (first_after lo sorted) as [t |].
  - destruct Hf as (Ht & Hlt & Hmin). destruct (t <=? hi) eqn:Eth; bool_facts.
    + split; [done |]. intros H. destruct (H eq_refl). left. apply Hperm in Ht as (x & Hx & <-). by exists x.
    + rewrite Hnot. split; [| intros H HB; apply H; [done | by right]]. intros Hn _ [(x & Hx & Hxt) | H]; [| done].
      pose proof (Hmin (timestamp_nanos x)) as Hm. rewrite Hperm in Hm. specialize (Hm ltac:(by exists x) ltac:(lia)). lia.
  - rewrite Hnot. split; [| intros H HB; apply H; [done | by right]]. intros Hn _ [(x & Hx & Hxt) | H]; [| done].
    specialize (Hf (timestamp_nanos x)). rewrite Hperm in Hf. specialize (Hf ltac:(by exists x)). lia.
Qed.

(** ** The merge of all rings *)

(** Increasing values within [0, n) are at most [n]. *)
Lemma increasing_bounded (l : list Z) a n :
  StronglySorted Z.lt l -> Forall (fun x => a <= x < n) l -> a <= n -> zlen l <= n - a.
Proof.
  intros Hs. revert a. induction Hs as [| x l Hs IH Hx]; intros a Hb Ha; [change (zlen []) with 0; lia |].
  inversion Hb as [| ? ? Hxa Hb']; subst. rewrite zlen_cons.
  enough (zlen l <= n - (x + 1)) by lia. apply IH; [| lia].
  rewrite Forall_forall in Hx, Hb' |- *. intros y Hy. specialize (Hx y Hy). specialize (Hb' y Hy). simpl in *. lia.
Qed.

Section Thin.
Context (slice : Z -> Z) (max : Z).

(** What the loop keeps in [out]: samples of strictly increasing slices, in time
    order, the last one's slice being [last_slice]. *)
Definition thinned (out : list Sample) (last_slice : Z) : Prop :=
  StronglySorted time_le out /\ StronglySorted Z.lt (map (fun s => slice (timestamp_nanos s)) out) /\
  match last out with Some s => slice (timestamp_nanos s) = last_slice | None => last_slice = UINT64_MAX end.

Lemma thin_spec merged out last_slice :
  (forall s, s ∈ merged -> 0 <= slice (timestamp_nanos s) < UINT64_MAX) ->
  (forall s s', s ∈ out ++ merged -> s' ∈ merged -> time_le s s' ->
     slice (timestamp_nanos s) <= slice (timestamp_nanos s')) ->
  StronglySorted time_le (out ++ merged) -> thinned out last_slice ->
  exists ls, thinned (thin slice merged last_slice out) ls /\
    forall s, s ∈ thin slice merged last_slice out -> s ∈ out ++ merged.
Proof.
  revert out last_slice. induction merged as [| s merged IH]; intros out last_slice Hrange Hmono Hsort Hthin.
  { exists last_slice. split; [done |]. intros s Hs. by rewrite app_nil_r. }
  pose proof Hthin as (Ho & Hsl & Hlast). cbn [thin].
  assert (Hsub : forall x, x ∈ merged -> x ∈ s :: merged) by (intros; by right).
  destruct (slice (timestamp_nanos s) =? last_slice) eqn:E; bool_facts.
  - destruct (last out) as [l |] eqn:El.
    2: { specialize (Hrange s ltac:(left)). lia. }
    apply last_Some in El as [out' ->]. rewrite removelast_last.
    assert (Hsort' : StronglySorted time_le ((out' ++ [s]) ++ merged)).
    { rewrite <- !app_assoc in *. cbn [app] in *. apply StronglySorted_app in Hsort as (H1 & H2 & H3).
      inversion H3 as [| ? ? H4 H5]; subst. apply StronglySorted_app. split_and!; [| done | done].
      intros a b Ha Hb. apply H1; [done | by right]. }
    destruct (IH (out' ++ [s]) last_slice) as (ls & H1 & H2).
    + intros x Hx. apply Hrange, Hsub, Hx.
    + intros x y Hx Hy. apply Hmono; [clear -Hx; set_solver | by apply Hsub].
    + done.
    + split_and!.
      * by apply StronglySorted_app_1_l in Hsort'.
      * rewrite map_app in *. simpl in *. by rewrite E, <- Hlast.
      * by rewrite last_snoc.
    + exists ls. split; [done |]. intros x Hx. apply H2 in Hx. clear -Hx. set_solver.
  - destruct (IH (out ++ [s]) (slice (timestamp_nanos s))) as (ls & H1 & H2).
    + intros x Hx. apply Hrange, Hsub, Hx.
    + intros x y Hx Hy. apply Hmono; [| by apply Hsub]. by rewrite <- app_assoc in Hx.
    + by rewrite <- app_assoc.
    + apply StronglySorted_app in Hsort as Hsp. destruct Hsp as (Hcross & _ & _). split_and!.
      * apply StronglySorted_app. split_and!; [| done | repeat constructor].
        intros a b Ha Hb. apply list_elem_of_singleton in Hb as ->. apply Hcross; [done | left].
      * rewrite map_app. simpl. apply StronglySorted_app. split_and!; [| done | repeat constructor].
        intros a b Ha Hb. apply list_elem_of_singleton in Hb as ->.
        destruct (last out) as [l |] eqn:El; [| apply last_None in El as ->; by apply elem_of_nil in Ha].
        assert (Hl : l ∈ out) by (by apply last_Some_elem_of).
        pose proof (Hmono l s ltac:(apply elem_of_app; by left) ltac:(left) (Hcross l s Hl ltac:(left))) as Hle.
        apply last_Some in El as [out' ->]. rewrite map_app in Ha, Hsl. simpl in Ha, Hsl.
        apply StronglySorted_app in Hsl as (Hsl1 & _ & _).
        apply elem_of_app in Ha as [Ha | ->%list_elem_of_singleton]; [| lia].
        pose proof (Hsl1 a _ Ha ltac:(left)). simpl in *. lia.
      * by rewrite last_snoc.
    + exists ls. split; [done |]. intros x Hx. apply H2 in Hx. by rewrite <- app_assoc in Hx.
Qed.
End Thin.

Lemma set_override_time lv s : timestamp_nanos (set_override lv s) = timestamp_nanos s.
Proof. unfold set_override. by destruct (0 <? lv). Qed.

Lemma spread_walk_window R first count take since_ns until_ns lv n k prev s :
  s ∈ spread_walk R first count take since_ns until_ns lv n k prev -> in_window since_ns until_ns s = true.
Proof.
  revert k prev. induction n as [| n IH]; intros k prev; [by intros ?%elem_of_nil |]. cbn [spread_walk].
  destruct (_ =? prev); [apply IH |]. destruct (rd R _) as [x |]; [| apply IH].
  destruct (timestamp_nanos x <? since_ns) eqn:E1; [apply IH |].
  destruct (negb (until_ns =? 0) && _) eqn:E2; [apply IH |].
  intros [-> | Hs]%elem_of_cons; [| by eapply IH]. bool_facts. unfold in_window. rewrite set_override_time.
  apply andb_true_iff. split; [lia |]. apply andb_false_iff in E2 as [E2 | E2]; bool_facts; lia.
Qed.

Lemma spread_window io ring f lv since_ns until_ns max s :
  s ∈ query_ring_spread io ring f lv since_ns until_ns max -> in_window since_ns until_ns s = true.
Proof.
  unfold query_ring_spread. destruct (empty _); [by intros ?%elem_of_nil |].
  destruct (_ <=? _); [by intros ?%elem_of_nil |]. apply spread_walk_window.
Qed.

Lemma drop_covered_subset recs window_ns seen readers s : s ∈ drop_covered recs window_ns seen readers -> s ∈ recs.
Proof.
  unfold drop_covered. destruct (_ =? 0); [done |]. rewrite !list_elem_of_In, filter_In. by intros [? _].
Qed.

#[export] Instance time_le_trans : Transitive time_le.
Proof. unfold time_le. intros a b c. lia. Qed.
#[export] Instance time_le_total : Total time_le.
Proof. unfold time_le. intros a b. lia. Qed.

(** What the slice arithmetic is relied on for: over a window of [span]
    nanoseconds from [lo], slices do not decrease with time and stay below the
    number asked for. *)
Definition slice_law (slice_of : Z -> Z -> Z -> Z -> Z) : Prop :=
  forall lo span max a b, 0 < span < 2 ^ 64 -> 0 < max -> lo <= a -> a <= b -> b < lo + span ->
    0 <= slice_of lo span max a /\ slice_of lo span max a <= slice_of lo span max b /\
    slice_of lo span max b < max.


(** ** Witnesses *)

(** Two samples a minute apart in a ring of four. *)
Definition sample_later : Sample := set_timestamp_nanos 1700000060000000000 sample_ex.

Lemma storable_later : storable 1 sample_later.
Proof.
  split; [apply (bool_decide_unpack _); vm_compute; exact I |].
  split; [vm_compute; intuition discriminate |]. split; reflexivity.
Defined.

Lemma ring_two : exists r f, ring_samples r f [sample_ex; sample_later] /\ read_only_ r = false /\
  write_index r f = 2 /\ capacity_ r = 4.
Proof.
  destruct (fresh_ring_samples None 1 4) as (r & f & _ & Hr & Hro & Ht & Hc).
  - split; [split; lia |]. split; [vm_compute; intuition discriminate |]. split; [lia |]. vm_compute. reflexivity.
  - exact I.
  - destruct (ring_samples_append r f [] sample_ex) as (r1 & f1 & _ & Hr1 & Hro1 & Hc1 & Ht1);
      [exact Hr | exact Hro | rewrite Ht; apply storable_ex | reflexivity |].
    destruct (ring_samples_append r1 f1 [sample_ex] sample_later) as (r2 & f2 & _ & Hr2 & Hro2 & Hc2 & _);
      [exact Hr1 | exact Hro1 | rewrite Ht1, Ht; apply storable_later | reflexivity |].
    exists r2, f2. split; [exact Hr2 |]. split; [exact Hro2 |].
    destruct (ring_samples_facts _ _ _ Hr2) as (Hfd & Hw & _). split; [| congruence].
    unfold write_index. rewrite Hfd, Hro2. exact Hw.
Defined.

Lemma two_in_order : times_after 0 [sample_ex; sample_later].
Proof. repeat constructor. Defined.



Lemma query_ring_spread_exact_witness :
  exists r f, Forall2 (fun s j => set_override (-1) <$> [sample_ex; sample_later] !! Z.to_nat (spread_pos 2 1 j) = Some s)
    (query_ring_spread no_io r f (-1) 0 0 1) (seqZ 0 1).
Proof.
  destruct ring_two as (r & f & Hr & Hro & Hw & Hc). exists r, f.
  pose proof (query_ring_spread_exact r f [sample_ex; sample_later] (-1) 0 0 1) as H.
  rewrite Hc in H. apply H; [exact Hr | exact Hw | exact two_in_order | reflexivity | lia].
Defined.

(** A reader over two records with a hole between them. *)
Definition reader_ex : RingReader :=
  mkRingReader 4 0 3 (fun i => if i =? 0 then Some sample_ex else if i =? 2 then Some sample_later else None).

Lemma reader_ex_sorted : reader_sorted reader_ex.
Proof.
  intros i j s s' Hi Hij Hj. cbn in *.
  destruct (Z.eqb_spec i 0) as [-> |]; [| destruct (Z.eqb_spec i 2) as [-> |]; [| discriminate]].
  - intros [= <-]. destruct (Z.eqb_spec j 0); [intros [= <-]; lia |].
    destruct (Z.eqb_spec j 2); [intros [= <-] | discriminate]. vm_compute. discriminate.
  - intros [= <-]. destruct (Z.eqb_spec j 0); [lia |].
    destruct (Z.eqb_spec j 2); [intros [= <-]; lia | discriminate].
Defined.

Lemma lower_bound_correct_witness : splits_at reader_ex 1700000000000000001 (lower_bound reader_ex 1700000000000000001).
Proof. apply (lower_bound_correct reader_ex 1700000000000000001); [exact reader_ex_sorted | cbn; lia]. Defined.

Lemma drop_covered_exact_witness :
  sublist (drop_covered [set_folded true sample_later; sample_ex] 60 [] [reader_ex])
    [set_folded true sample_later; sample_ex] /\
  forall s, s ∈ drop_covered [set_folded true sample_later; sample_ex] 60 [] [reader_ex] <->
    s ∈ [set_folded true sample_later; sample_ex] /\
    (folded s = true -> ~ window_covered 60 [] [reader_ex] s).
Proof.
  apply (drop_covered_exact [set_folded true sample_later; sample_ex] 60 [] [reader_ex]); [| discriminate].
  constructor; [| constructor]. split; [exact reader_ex_sorted |]. cbn. lia.
Defined.

Definition slice_exact (lo span max ts : Z) : Z := (ts - lo) * max / span.
Lemma slice_exact_law : slice_law slice_exact.
Proof.
  intros lo span max a b Hs Hm Ha Hab Hb. unfold slice_exact. split_and!.
  - apply Z.div_pos; nia.
  - apply Z.div_le_mono; nia.
  - apply Z.div_lt_upper_bound; nia.
Defined.

