(* ===== verification/HotBuffer.v ===== *)
(** The in-memory buffer of the newest samples and the timer that empties it
    (src/hot_buffer/hot_buffer.h, src/hot_buffer/hot_buffer.cpp), and the sleep
    arithmetic of the serve loop (src/core/clock.h).  The array is a list of
    the class's capacity whose first contents are arbitrary ([new Sample[]]
    leaves them so); the refinement is to the list of samples pushed. *)
From Stdlib Require Import ZArith Lia List Sorted.
From stdpp Require Import base numbers list sorting.
From S2P Require Import Prelude Sample SampleCodec.
Open Scope Z_scope.

Record HotBuffer := mkHotBuffer { ring_ : list Sample; hb_capacity_ : Z; head_ : Z; count_ : Z }.

(** [garbage]: what the new array holds. *)
Definition new_HotBuffer (garbage : Z -> Sample) (capacity : Z) : HotBuffer :=
  let cap := if 0 <? capacity then capacity else 1 in
  mkHotBuffer (map garbage (seqZ 0 cap)) cap 0 0.

Definition push (s : Sample) (b : HotBuffer) : HotBuffer :=
  mkHotBuffer (<[Z.to_nat (head_ b) := s]> (ring_ b)) (hb_capacity_ b)
    ((head_ b + 1) mod hb_capacity_ b)
    (if count_ b <? hb_capacity_ b then count_ b + 1 else count_ b).

(** [for (i < n) out[i] = ring_[(start + i) % capacity_];] *)
Definition copy_out (b : HotBuffer) (start n : Z) : list Sample :=
  map (fun i => znth zero_Sample (ring_ b) ((start + i) mod hb_capacity_ b)) (seqZ 0 n).

Definition dump (b : HotBuffer) (out_null : bool) (out_cap : Z) : list Sample :=
  if out_null || (out_cap =? 0) || (count_ b =? 0) then []
  else
    let n := if count_ b <? out_cap then count_ b else out_cap in
    copy_out b ((head_ b + hb_capacity_ b - count_ b) mod hb_capacity_ b) n.

Definition dump_last (b : HotBuffer) (out_null : bool) (n : Z) : list Sample :=
  if out_null || (n =? 0) || (count_ b =? 0) then []
  else
    let n := if count_ b <? n then count_ b else n in
    copy_out b ((head_ b + hb_capacity_ b - n) mod hb_capacity_ b) n.

Definition hb_reset (b : HotBuffer) : HotBuffer := mkHotBuffer (ring_ b) (hb_capacity_ b) 0 0.
Definition hb_size (b : HotBuffer) : Z := count_ b.

(** ** WarmGrace *)

Record WarmGrace := mkWarmGrace {
  grace_ns_ : Z;
  last_client_ns_ : Z;
  pending_ : bool;
  connected_ : bool
}.
Definition new_WarmGrace (grace_ns : Z) : WarmGrace := mkWarmGrace grace_ns 0 false false.

Definition should_reset (clients now_ns : Z) (fast : bool) (g : WarmGrace) : bool * WarmGrace :=
  let connected := 0 <? clients in
  if connected || fast then (false, mkWarmGrace (grace_ns_ g) now_ns true connected)
  else if negb (pending_ g) then (false, mkWarmGrace (grace_ns_ g) (last_client_ns_ g) (pending_ g) connected)
  else if now_ns <? last_client_ns_ g then (false, mkWarmGrace (grace_ns_ g) now_ns (pending_ g) connected)
  else if u64 (now_ns - last_client_ns_ g) <? grace_ns_ g
  then (false, mkWarmGrace (grace_ns_ g) (last_client_ns_ g) (pending_ g) connected)
  else (true, mkWarmGrace (grace_ns_ g) (last_client_ns_ g) false connected).

Definition ns_until_due (now_ns : Z) (g : WarmGrace) : Z :=
  if negb (pending_ g) || connected_ g then UINT64_MAX
  else if now_ns <? last_client_ns_ g then grace_ns_ g
  else let idle := now_ns - last_client_ns_ g in
       if grace_ns_ g <=? idle then 0 else grace_ns_ g - idle.

Definition cap_sleep_ms (sleep_ms now_ns floor_ms : Z) (g : WarmGrace) : Z :=
  let due_ns := ns_until_due now_ns g in
  if due_ns =? UINT64_MAX then sleep_ms
  else
    let due_ms := due_ns / 1000000 + 1 in
    let due_ms := if (0 <? floor_ms) && (due_ms <? floor_ms) then floor_ms else due_ms in
    if (0 <? sleep_ms) && (due_ms <? sleep_ms) then due_ms else sleep_ms.

(** [sleep_left_ms] of core/clock.h *)
Definition sleep_left_ms (interval_ms elapsed_ns : Z) : Z :=
  if interval_ms <=? 0 then 0
  else
    let elapsed_ms := elapsed_ns / 1000000 in
    if interval_ms <=? elapsed_ms then 0 else interval_ms - elapsed_ms.

(** ** The buffer as the list pushed *)

(** [b] holds the newest of [ss], every sample pushed since the last reset. *)
Definition hb_holds (b : HotBuffer) (ss : list Sample) : Prop :=
  0 < hb_capacity_ b /\ zlen (ring_ b) = hb_capacity_ b /\
  head_ b = zlen ss mod hb_capacity_ b /\ count_ b = Z.min (zlen ss) (hb_capacity_ b) /\
  forall i s, ss !! Z.to_nat i = Some s -> 0 <= i -> zlen ss - hb_capacity_ b <= i ->
    ring_ b !! Z.to_nat (i mod hb_capacity_ b) = Some s.

Lemma new_holds garbage capacity : hb_holds (new_HotBuffer garbage capacity) [].
Proof.
  unfold hb_holds, new_HotBuffer. set (cap := if 0 <? capacity then capacity else 1).
  assert (Hc : 0 < cap) by (unfold cap; destruct (0 <? capacity) eqn:E; bool_facts; lia). cbn.
  split_and!; try done.
  - unfold zlen. rewrite length_map, length_seqZ. lia.
  - change (zlen []) with 0. lia.
Qed.

Lemma reset_holds b ss : hb_holds b ss -> hb_holds (hb_reset b) [].
Proof.
  intros (Hc & Hl & _). unfold hb_holds, hb_reset. cbn. split_and!; try done. change (zlen []) with 0. lia.
Qed.

Lemma push_holds b ss s : hb_holds b ss -> hb_holds (push s b) (ss ++ [s]).
Proof.
  intros (Hc & Hl & Hh & Hn & Hat). unfold hb_holds, push. cbn -[Z.modulo].
  assert (Hlen : zlen (ss ++ [s]) = zlen ss + 1) by (by rewrite zlen_app).
  pose proof (zlen_nonneg ss). pose proof (Z.mod_pos_bound (zlen ss) (hb_capacity_ b) Hc) as Hm.
  rewrite Hlen, Hh. split_and!; [done | | | |].
  - unfold zlen in *. by rewrite length_insert.
  - rewrite Zplus_mod_idemp_l. done.
  - rewrite Hn. destruct (_ <? _) eqn:E; bool_facts; lia.
  - intros i x Hi H0 Hge. pose proof (lookup_lt_Some _ _ _ Hi) as Hlt.
    apply lookup_app_Some in Hi as [Hi | [Hge2 Hi]].
    + pose proof (lookup_lt_Some _ _ _ Hi). rewrite list_lookup_insert_ne; [apply Hat; (done || lia) |].
      pose proof (Z.mod_pos_bound i (hb_capacity_ b) Hc). intros He.
      assert (Heq : (zlen ss - i) mod hb_capacity_ b = 0).
      { rewrite Zminus_mod. replace (zlen ss mod hb_capacity_ b) with (i mod hb_capacity_ b) by lia.
        rewrite Z.sub_diag. apply Z.mod_0_l. lia. }
      rewrite Z.mod_small in Heq; unfold zlen in *; lia.
    + apply list_lookup_singleton_Some in Hi as [Hi <-].
      replace i with (zlen ss) by (unfold zlen in *; lia).
      apply list_lookup_insert_eq. unfold zlen in *. lia.
Qed.

(** Copying out [n] of the samples kept, from position [from]. *)
Lemma copy_out_holds b ss from n :
  hb_holds b ss -> zlen ss - hb_capacity_ b <= from -> 0 <= from -> 0 <= n -> from + n <= zlen ss ->
  copy_out b (from mod hb_capacity_ b) n = slice from n ss.
Proof.
  intros (Hc & Hl & Hh & Hn & Hat) H1 H0 H2 H3. apply list_eq. intros k. unfold copy_out, slice, ztake, zdrop.
  change (map ?f ?l) with (f <$> l). rewrite list_lookup_fmap.
  destruct (decide (Z.of_nat k < n)) as [Hk | Hk].
  - rewrite lookup_take_lt, lookup_drop by lia. replace k with (Z.to_nat (Z.of_nat k)) at 1 by lia.
    rewrite lookup_seqZ_lt by lia. cbn [fmap option_fmap option_map].
    rewrite Zplus_mod_idemp_l, Nat2Z.id.
    destruct (lookup_lt_is_Some_2 ss (Z.to_nat from + k)) as [s Hs]; [unfold zlen in *; lia |].
    rewrite Hs. f_equal. unfold znth. apply nth_lookup_Some. rewrite Z.add_0_l.
    apply Hat; [| lia | lia]. rewrite <- Hs. f_equal. lia.
  - rewrite lookup_take_ge by lia. rewrite lookup_seqZ_ge; [done | lia].
Qed.

(** The buffer's operations in any order, and the samples pushed since the
    last reset. *)
Inductive hb_op := HPush (s : Sample) | HReset.
Definition hb_step (b : HotBuffer) (o : hb_op) : HotBuffer :=
  match o with HPush s => push s b | HReset => hb_reset b end.
Definition run_hb (ops : list hb_op) (b : HotBuffer) : HotBuffer := fold_left hb_step ops b.
Definition pushed_step (ss : list Sample) (o : hb_op) : list Sample :=
  match o with HPush s => ss ++ [s] | HReset => [] end.
Definition pushed (ops : list hb_op) : list Sample := fold_left pushed_step ops [].

(** The newest [n] of a list. *)
Definition newest {A} (n : Z) (l : list A) : list A := zdrop (zlen l - n) l.

Lemma run_hb_holds ops : forall b ss,
  hb_holds b ss -> hb_holds (run_hb ops b) (fold_left pushed_step ops ss) /\ hb_capacity_ (run_hb ops b) = hb_capacity_ b.
Proof.
  induction ops as [| [s |] ops IH]; intros b ss Hb; [done | |]; cbn [run_hb fold_left hb_step pushed_step].
  - destruct (IH (push s b) (ss ++ [s])) as [? Hc]; [by apply push_holds | done].
  - destruct (IH (hb_reset b) []) as [? Hc]; [by eapply reset_holds | done].
Qed.

Lemma newest_slice {A} n (l : list A) : 0 <= n <= zlen l -> newest n l = slice (zlen l - n) n l.
Proof.
  intros Hn. unfold newest, slice, ztake, zdrop. symmetry. apply take_ge. rewrite length_drop. unfold zlen in *. lia.
Qed.

Lemma zlen_newest {A} n (l : list A) : 0 <= n -> zlen (newest n l) = Z.min (zlen l) n.
Proof. intros. unfold newest, zdrop, zlen. rewrite length_drop. lia. Qed.

Lemma newest_newest {A} n m (l : list A) : 0 <= n <= m -> newest n (newest m l) = newest n l.
Proof.
  intros H. unfold newest at 1. rewrite zlen_newest by lia. unfold newest, zdrop. rewrite drop_drop.
  f_equal. unfold zlen. lia.
Qed.

Lemma newest_all {A} n (l : list A) : zlen l <= n -> newest n l = l.
Proof. intros. unfold newest, zdrop. replace (Z.to_nat _) with 0%nat by lia. done. Qed.

Lemma newest_none {A} n (l : list A) : n <= 0 -> newest n l = [].
Proof. intros. unfold newest, zdrop. apply drop_ge. unfold zlen. lia. Qed.

Lemma ztake_newest {A} n c (l : list A) :
  0 <= n <= c -> c <= zlen l -> ztake n (newest c l) = slice (zlen l - c) n l.
Proof. done. Qed.

(** Both dumps start inside the samples kept. *)
Lemma dump_start_mod b ss k :
  hb_holds b ss -> 0 <= k <= count_ b ->
  (head_ b + hb_capacity_ b - k) mod hb_capacity_ b = (zlen ss - k) mod hb_capacity_ b.
Proof.
  intros (Hc & _ & Hh & _) Hk. rewrite Hh.
  replace (zlen ss mod hb_capacity_ b + hb_capacity_ b - k)
    with (zlen ss mod hb_capacity_ b - k + 1 * hb_capacity_ b) by lia.
  by rewrite Z_mod_plus_full, Zminus_mod_idemp_l.
Qed.

Lemma dump_last_holds b ss n :
  hb_holds b ss -> 0 <= n -> dump_last b false n = newest (Z.min n (count_ b)) ss.
Proof.
  intros Hb Hn. pose proof Hb as (Hc & Hl & Hh & Hcnt & _). pose proof (zlen_nonneg ss). unfold dump_last. cbn [orb].
  destruct (n =? 0) eqn:E1; bool_facts; [by rewrite newest_none by lia |].
  destruct (count_ b =? 0) eqn:E2; bool_facts; [by rewrite newest_none by lia |]. cbn [orb].
  set (m := if count_ b <? n then count_ b else n).
  assert (Hm : m = Z.min n (count_ b)) by (unfold m; destruct (_ <? _) eqn:E; bool_facts; lia).
  rewrite (dump_start_mod _ ss), (copy_out_holds _ ss), newest_slice by (done || lia). by rewrite Hm.
Qed.

Lemma dump_holds b ss n :
  hb_holds b ss -> 0 <= n -> dump b false n = ztake n (newest (count_ b) ss).
Proof.
  intros Hb Hn. pose proof Hb as (Hc & Hl & Hh & Hcnt & _). pose proof (zlen_nonneg ss). unfold dump. cbn [orb].
  destruct (n =? 0) eqn:E1; bool_facts; [by subst n |].
  destruct (count_ b =? 0) eqn:E2; bool_facts;
    [rewrite newest_none by lia; unfold ztake; by rewrite take_nil |]. cbn [orb].
  rewrite (dump_start_mod _ ss), (copy_out_holds _ ss) by (done || (destruct (count_ b <? n) eqn:?; bool_facts; lia)).
  destruct (_ <? n) eqn:E; bool_facts; [| symmetry; apply ztake_newest; lia].
  rewrite <- newest_slice by lia. unfold ztake. rewrite take_ge; [done |].
  pose proof (zlen_newest (count_ b) ss ltac:(lia)). unfold zlen in *. lia.
Qed.

(** C21: After any sequence of pushes and resets of a buffer of any capacity
    (0 is taken as 1), whatever the new array held, the buffer holds exactly
    the newest [capacity] samples pushed since the last reset: [size] is their
    number, [dump] writes the oldest [n] of them oldest first, and [dump_last]
    the newest [n] of them oldest first. *)
Theorem hot_buffer_refines_list garbage capacity ops n :
  0 <= n ->
  let b := run_hb ops (new_HotBuffer garbage capacity) in
  let kept := newest (Z.max 1 capacity) (pushed ops) in
  hb_size b = zlen kept /\ dump b false n = ztake n kept /\ dump_last b false n = newest n kept.
Proof.
  intros Hn b kept. destruct (run_hb_holds ops _ _ (new_holds garbage capacity)) as [Hb Hcap].
  fold (pushed ops) in Hb. fold b in Hb, Hcap. pose proof Hb as (Hc & _ & _ & Hcnt & _). pose proof (zlen_nonneg (pushed ops)).
  assert (Hcap2 : hb_capacity_ b = Z.max 1 capacity)
    by (rewrite Hcap; cbn; destruct (0 <? capacity) eqn:E; bool_facts; lia).
  assert (Hk : kept = newest (count_ b) (pushed ops)).
  { unfold kept. destruct (decide (zlen (pushed ops) <= Z.max 1 capacity));
      [rewrite !newest_all by lia; done | f_equal; lia]. }
  split; [| split].
  - unfold hb_size, kept. rewrite zlen_newest; lia.
  - rewrite Hk. by apply dump_holds.
  - rewrite (dump_last_holds b _ n Hb Hn), Hk. destruct (decide (n <= count_ b)).
    + rewrite newest_newest by lia. f_equal. lia.
    + rewrite (newest_all n); [f_equal; lia |]. rewrite zlen_newest; lia.
Qed.

Lemma hot_buffer_refines_list_witness :
  exists b kept, 0 <= 2 /\ zlen kept = 2 /\ hb_size b = zlen kept /\ dump_last b false 2 = newest 2 kept.
Proof.
  set (s t := set_timestamp_nanos t zero_Sample).
  set (ops := [HPush (s 1); HReset; HPush (s 2); HPush (s 3); HPush (s 4)]).
  destruct (hot_buffer_refines_list (fun _ => zero_Sample) 2 ops 2 ltac:(lia)) as (H1 & _ & H3).
  eexists _, _. split; [lia |]. split; [| split; [exact H1 | exact H3]]. reflexivity.
Defined.

(** ** The grace timer *)

(** After an idle tick at [now] that did not reset, [ns_until_due] says
    exactly when the reset comes: an idle tick at a later time [t] resets if
    and only if a reset is pending (the answer is not UINT64_MAX) and at least
    that long has passed. *)
Theorem ns_until_due_exact g now t g' :
  is_uint 64 (grace_ns_ g) -> grace_ns_ g < UINT64_MAX -> is_uint 64 (last_client_ns_ g) -> is_uint 64 now ->
  is_uint 64 t -> now <= t ->
  should_reset 0 now false g = (false, g') ->
  fst (should_reset 0 t false g') = true <->
  ns_until_due now g' <> UINT64_MAX /\ now + ns_until_due now g' <= t.
Proof.
  intros Hg Hgm Hl Hn Ht Hnt H. unfold should_reset in H. cbn in H.
  destruct (pending_ g) eqn:Ep; cbn in H; [| clear -H; simplify_eq; unfold should_reset, ns_until_due; cbn; intuition congruence].
  assert (Hpost : pending_ g' = true /\ connected_ g' = false /\ last_client_ns_ g' <= now /\ is_uint 64 (last_client_ns_ g')
                  /\ grace_ns_ g' = grace_ns_ g).
  { destruct (now <? _) eqn:E; bool_facts; [by simplify_eq/= |].
    destruct (_ <? grace_ns_ g); by simplify_eq/=. }
  destruct Hpost as (Hp & Hc & Hle & Hu & Hgr). clear H.
  unfold should_reset, ns_until_due. cbn. rewrite Hp, Hc. cbn. rewrite Hgr. unfold u64.
  rewrite (proj2 (Z.ltb_ge t _)), (proj2 (Z.ltb_ge now _)) by lia. rewrite wrap_small by ranges.
  unfold is_uint in *. destruct (_ <? grace_ns_ g) eqn:E1, (grace_ns_ g <=? _) eqn:E2; bool_facts; cbn; unfold UINT64_MAX in *; split; intros; try done; lia.
Qed.

Lemma ns_until_due_exact_witness :
  exists g', should_reset 0 150 false (mkWarmGrace 100 100 true false) = (false, g') /\
  (fst (should_reset 0 200 false g') = true <->
   ns_until_due 150 g' <> UINT64_MAX /\ 150 + ns_until_due 150 g' <= 200).
Proof.
  eexists. split; [reflexivity |].
  refine (ns_until_due_exact (mkWarmGrace 100 100 true false) 150 200 _ _ _ _ _ _ _ eq_refl); cbn; ranges.
Defined.

Record tick := mkTick { tk_clients : Z; tk_now : Z; tk_fast : bool }.
Definition tick_active (k : tick) : bool := (0 <? tk_clients k) || tk_fast k.

(** The timer after the ticks [ks], newest first. *)
Fixpoint run_grace (g : WarmGrace) (ks : list tick) : WarmGrace :=
  match ks with
  | [] => g
  | k :: r => snd (should_reset (tk_clients k) (tk_now k) (tk_fast k) (run_grace g r))
  end.

(** The last active tick's time and the times of the idle ticks since. *)
Fixpoint idle_spell (ks : list tick) : option (Z * list Z) :=
  match ks with
  | [] => None
  | k :: r =>
      if tick_active k then Some (tk_now k, [])
      else match idle_spell r with None => None | Some (t0, us) => Some (t0, tk_now k :: us) end
  end.

(** The idle tick that ends a spell: the first at least the grace after it began. *)
Definition spell_ends (grace : Z) (ks : list tick) (t : Z) : bool :=
  match idle_spell ks with
  | None => false
  | Some (t0, us) => (grace <=? t - t0) && forallb (fun u => u - t0 <? grace) us
  end.

Definition ticks_in_order (ks : list tick) : Prop :=
  Forall (fun k => is_uint 64 (tk_now k)) ks /\ StronglySorted (fun a b => tk_now b <= tk_now a) ks.

Lemma idle_spell_before ks t0 us k :
  ticks_in_order (k :: ks) -> idle_spell ks = Some (t0, us) -> 0 <= t0 <= tk_now k.
Proof.
  intros [Hu Hs]. apply StronglySorted_inv in Hs as [_ Hs]. apply Forall_cons in Hu as [_ Hu]. revert t0 us Hu Hs.
  induction ks as [| j ks IH]; intros t0 us Hu Hs H; cbn in H; [done |].
  apply Forall_cons in Hu as [Hj Hu]. apply Forall_cons in Hs as [Hjk Hs].
  destruct (tick_active j); simplify_eq; [unfold is_uint in Hj; lia |].
  destruct (idle_spell ks) as [[t1 us1] |]; simplify_eq. eauto.
Qed.

Lemma ticks_in_order_tail k ks : ticks_in_order (k :: ks) -> ticks_in_order ks.
Proof. intros [H1 H2]. apply Forall_cons in H1 as [_ H1]. apply StronglySorted_inv in H2 as [H2 _]. done. Qed.

(** The timer's fields are those of the current spell. *)
Lemma run_grace_spell grace ks :
  ticks_in_order ks ->
  let g := run_grace (new_WarmGrace grace) ks in
  grace_ns_ g = grace /\
  match idle_spell ks with
  | None => pending_ g = false
  | Some (t0, us) => last_client_ns_ g = t0 /\ pending_ g = forallb (fun u => u - t0 <? grace) us
  end.
Proof.
  induction ks as [| k ks IH]; intros Ho; [done |].
  destruct (IH (ticks_in_order_tail _ _ Ho)) as [Hg Hs]. cbn [run_grace idle_spell].
  set (g := run_grace _ ks) in *. unfold should_reset, tick_active.
  destruct ((0 <? tk_clients k) || tk_fast k); [done |].
  destruct (idle_spell ks) as [[t0 us] |] eqn:Ei; cbn [negb].
  - destruct Hs as [Hl Hp]. pose proof (idle_spell_before _ _ _ _ Ho Ei) as Hb.
    destruct Ho as [Hu _]. apply Forall_cons in Hu as [Hu _]. rewrite Hl, Hp, Hg. unfold u64. rewrite wrap_small by ranges.
    rewrite (proj2 (Z.ltb_ge (tk_now k) t0)) by lia.
    destruct (forallb _ us) eqn:Ef; cbn; [by destruct (_ <? grace) | by rewrite Ef, andb_false_r].
  - by rewrite Hs.
Qed.

(** The grace timer empties the buffer once per idle spell and never
    before the first client or fast tick: at a tick with no client that is not
    a fast one, after any ticks whose times do not decrease, [should_reset] is
    true exactly when this is the first tick at least the grace period after
    the last active one; and it is false at every active tick. *)
Theorem warm_grace_once_per_spell grace ks k :
  ticks_in_order (k :: ks) ->
  fst (should_reset (tk_clients k) (tk_now k) (tk_fast k) (run_grace (new_WarmGrace grace) ks)) =
  negb (tick_active k) && spell_ends grace ks (tk_now k).
Proof.
  intros Ho. destruct (run_grace_spell grace ks (ticks_in_order_tail _ _ Ho)) as [Hg Hs]. cbn zeta in *.
  set (g := run_grace _ ks) in *. unfold should_reset, tick_active, spell_ends.
  destruct ((0 <? tk_clients k) || tk_fast k); [done |]. cbn [negb andb].
  destruct (idle_spell ks) as [[t0 us] |] eqn:Ei; [| by rewrite Hs].
  destruct Hs as [Hl Hp]. pose proof (idle_spell_before _ _ _ _ Ho Ei) as Hb.
  destruct Ho as [Hu _]. apply Forall_cons in Hu as [Hu _]. rewrite Hl, Hp, Hg. unfold u64. rewrite wrap_small by ranges.
  rewrite (proj2 (Z.ltb_ge (tk_now k) t0)) by lia. rewrite Z.leb_antisym.
  destruct (forallb _ us); cbn; [destruct (_ <? grace) eqn:E; cbn; rewrite ?E; done | by rewrite andb_false_r].
Qed.

Lemma warm_grace_once_per_spell_witness :
  exists k ks, ticks_in_order (k :: ks) /\
  fst (should_reset (tk_clients k) (tk_now k) (tk_fast k) (run_grace (new_WarmGrace 100) ks)) = true.
Proof.
  set (k := mkTick 0 250 false). set (ks := [mkTick 0 199 false; mkTick 1 100 false; mkTick 0 50 false]).
  assert (Ho : ticks_in_order (k :: ks)) by (split; repeat constructor; cbn; lia).
  exists k, ks. split; [exact Ho |]. rewrite (warm_grace_once_per_spell 100 ks k Ho). reflexivity.
Defined.

(** The sleep the serve loop takes is never lengthened by the grace timer,
    never cut below [floor_ms] (unless it was shorter already), and, when a
    reset is due within it, not longer than the larger of the floor and the
    first whole millisecond past the due time. *)
Theorem cap_sleep_ms_bounds sleep_ms now floor_ms g :
  0 < sleep_ms -> 0 <= floor_ms -> 0 <= ns_until_due now g ->
  let r := cap_sleep_ms sleep_ms now floor_ms g in
  Z.min sleep_ms (Z.max floor_ms 1) <= r <= sleep_ms /\
  (ns_until_due now g <> UINT64_MAX ->
   r <= Z.max floor_ms (ns_until_due now g / 1000000 + 1)) /\
  (r < sleep_ms -> ns_until_due now g < r * 1000000).
Proof.
  intros Hs Hf Hd r. unfold r, cap_sleep_ms. set (d := ns_until_due now g) in *.
  pose proof (Z.div_pos d 1000000 Hd ltac:(lia)).
  pose proof (Z.mul_succ_div_gt d 1000000 ltac:(lia)).
  destruct (d =? UINT64_MAX) eqn:E; bool_facts; [lia |].
  destruct ((0 <? floor_ms) && _) eqn:E1; destruct ((0 <? sleep_ms) && _) eqn:E2;
    rewrite ?andb_true_iff, ?andb_false_iff in *; bool_facts; rewrite ?Z.ltb_lt, ?Z.ltb_ge in *; lia.
Qed.

Lemma cap_sleep_ms_bounds_witness :
  let g := mkWarmGrace 5000000000 0 true false in
  cap_sleep_ms 60000 3000000000 1000 g = 2001 /\ cap_sleep_ms 60000 3000000000 1000 g <= 60000.
Proof.
  split; [reflexivity |].
  apply (cap_sleep_ms_bounds 60000 3000000000 1000 (mkWarmGrace 5000000000 0 true false)); vm_compute; congruence.
Defined.
