(* ===== verification/MetricSet.v ===== *)
(** The metric sets a collection level reads (src/core/metric_set.h,
    src/core/metric_set.cpp): the tables of names, the named sets, the parser
    of a configured list of names and the printer of a set.  A name is a
    [std::string] (bytes); the table lookups see its C string. *)
From Stdlib Require Import ZArith Lia List Bool.
From stdpp Require Import base numbers list strings.
From S2P Require Import Prelude Sample.
Open Scope Z_scope.

Definition kDetailCores : Z := Z.shiftl 1 0.
Definition kDetailDisks : Z := Z.shiftl 1 1.
Definition kDetailInterfaces : Z := Z.shiftl 1 2.
Definition kDetailMounts : Z := Z.shiftl 1 3.
Definition kDetailProcesses : Z := Z.shiftl 1 4.
Definition kDetailAll : Z := Z.shiftl 1 5 - 1.

Definition kGroupsMinimal : Z :=
  Z.lor (Z.lor (Z.lor (Z.lor kGroupCpu kGroupMem) kGroupSwap) kGroupLoad) kGroupUptime.
Definition kGroupsSelectable : Z := Z.land kGroupsAll (u32 (Z.lnot kGroupFileWatch)).

Record MetricSet := mkMetricSet { ms_groups : Z; ms_detail : Z }.

Definition metric_set_minimal : MetricSet := mkMetricSet kGroupsMinimal 0.
Definition metric_set_standard : MetricSet := mkMetricSet kGroupsSelectable 0.
Definition metric_set_full : MetricSet := mkMetricSet kGroupsSelectable kDetailAll.

Record Name := mkName { nm_name : bytes; nm_bit : Z }.
Definition kGroupNames : list Name := [
  mkName (str "cpu") kGroupCpu;
  mkName (str "mem") kGroupMem;
  mkName (str "swap") kGroupSwap;
  mkName (str "load") kGroupLoad;
  mkName (str "disk") kGroupDisk;
  mkName (str "net") kGroupNet;
  mkName (str "proc") kGroupProc;
  mkName (str "entropy") kGroupEntropy;
  mkName (str "self") kGroupSelf;
  mkName (str "thermal") kGroupThermal;
  mkName (str "file_watch") kGroupFileWatch;
  mkName (str "uptime") kGroupUptime;
  mkName (str "tcp") kGroupTcp;
  mkName (str "udp") kGroupUdp;
  mkName (str "fs") kGroupFs;
  mkName (str "clock") kGroupClock;
  mkName (str "icmp") kGroupIcmp].

Record Collection := mkCollection { cl_name : bytes; cl_bit : Z; cl_group : Z }.
Definition kCollections : list Collection := [
  mkCollection (str "cpu.cores") kDetailCores kGroupCpu;
  mkCollection (str "disk.devices") kDetailDisks kGroupDisk;
  mkCollection (str "net.interfaces") kDetailInterfaces kGroupNet;
  mkCollection (str "fs.mounts") kDetailMounts kGroupFs;
  mkCollection (str "proc.top") kDetailProcesses kGroupProc].

Definition metric_group_name (group_bit : Z) : option bytes :=
  match List.find (fun g => nm_bit g =? group_bit) kGroupNames with
  | Some g => Some (nm_name g) | None => None end.
Definition metric_detail_name (detail_bit : Z) : option bytes :=
  match List.find (fun c => cl_bit c =? detail_bit) kCollections with
  | Some c => Some (cl_name c) | None => None end.

(** [name]: the C string. *)
Definition metric_group_bit (name : bytes) : Z :=
  match List.find (fun g => bool_decide (nm_name g = name)) kGroupNames with
  | Some g => nm_bit g | None => 0 end.
Definition metric_detail_bit (name : bytes) : Z :=
  match List.find (fun c => bool_decide (cl_name c = name)) kCollections with
  | Some c => cl_bit c | None => 0 end.

Definition EINVAL : Z := 22.

Definition add_groups (g : Z) (r : MetricSet) : MetricSet := mkMetricSet (Z.lor (ms_groups r) g) (ms_detail r).
Definition add_detail (d : Z) (r : MetricSet) : MetricSet := mkMetricSet (ms_groups r) (Z.lor (ms_detail r) d).

(** The loop over the names; an unknown one ends it with the error's text. *)
Fixpoint parse_names (names : list bytes) (r : MetricSet) : MetricSet + bytes :=
  match names with
  | [] => inl r
  | n :: ns =>
      if bool_decide (n = str "minimal") then parse_names ns r
      else if bool_decide (n = str "standard") then parse_names ns (add_groups kGroupsSelectable r)
      else if bool_decide (n = str "full") then parse_names ns (add_detail kDetailAll (add_groups kGroupsSelectable r))
      else
        let group := metric_group_bit (c_str n) in
        let list_ := metric_detail_bit (c_str n) in
        if negb (group =? 0) && negb (group =? kGroupFileWatch) then parse_names ns (add_groups group r)
        else if negb (list_ =? 0) then
          parse_names ns
            (add_detail list_
               (fold_left (fun r c => if cl_bit c =? list_ then add_groups (cl_group c) r else r) kCollections r))
        else if group =? kGroupFileWatch then
          inr (str "'file_watch' is not a metric a level reads (security.file_watch runs at every level)")
        else inr (str "unknown metric '" ++ n ++ str "'")
  end.

(** The return code, [*out] and [*error] after the call. *)
Definition parse_metric_set (names : list bytes) (out : MetricSet) (error : bytes) : Z * MetricSet * bytes :=
  match parse_names names metric_set_minimal with
  | inl r => (0, r, error)
  | inr e => (- EINVAL, out, e)
  end.

Definition metric_set_names (set : MetricSet) : list bytes :=
  map nm_name (List.filter (fun g => negb (Z.land (ms_groups set) (nm_bit g) =? 0)) kGroupNames) ++
  map cl_name (List.filter (fun c => negb (Z.land (ms_detail set) (cl_bit c) =? 0)) kCollections).

(** ** What a level's set always is *)

(** [bits_in a b]: every bit of [a] is one of [b]. *)
Definition bits_in (a b : Z) : Prop := Z.lor a b = b.

(** The minimal groups, nothing a level cannot pick, and with each
    collection its group. *)
Definition metric_set_ok (set : MetricSet) : Prop :=
  bits_in kGroupsMinimal (ms_groups set) /\ bits_in (ms_groups set) kGroupsSelectable /\
  bits_in (ms_detail set) kDetailAll /\
  Forall (fun c => Z.land (ms_detail set) (cl_bit c) <> 0 -> bits_in (cl_group c) (ms_groups set)) kCollections.

#[export] Instance bits_in_dec a b : Decision (bits_in a b).
Proof. unfold bits_in. apply _. Defined.

Lemma bits_in_spec a b : bits_in a b <-> forall i, 0 <= i -> Z.testbit a i = true -> Z.testbit b i = true.
Proof.
  unfold bits_in. split.
  - intros H i Hi Ha. rewrite <- H, Z.lor_spec, Ha. done.
  - intros H. apply Z.bits_inj'. intros i Hi. rewrite Z.lor_spec.
    destruct (Z.testbit a i) eqn:E; [by rewrite (H i Hi E) | done].
Qed.

Lemma bits_in_lor_r a b c : bits_in a b -> bits_in a (Z.lor b c).
Proof. rewrite !bits_in_spec. intros H i Hi Ha. by rewrite Z.lor_spec, (H i Hi Ha). Qed.

Lemma bits_in_lor_self a b : bits_in b (Z.lor a b).
Proof. unfold bits_in. by rewrite Z.lor_comm, <- Z.lor_assoc, Z.lor_diag. Qed.

Lemma bits_in_lor_l a b c : bits_in a c -> bits_in b c -> bits_in (Z.lor a b) c.
Proof. unfold bits_in. intros H1 H2. by rewrite <- Z.lor_assoc, H2. Qed.

#[export] Hint Resolve bits_in_lor_r bits_in_lor_self bits_in_lor_l : budyk.

Lemma lor_bits_in a b : bits_in b a -> Z.lor a b = a.
Proof. unfold bits_in. by rewrite Z.lor_comm. Qed.

Lemma add_groups_ok g r : metric_set_ok r -> bits_in g kGroupsSelectable -> metric_set_ok (add_groups g r).
Proof.
  intros (H1 & H2 & H3 & H4) Hg. unfold metric_set_ok, add_groups. cbn [ms_groups ms_detail].
  split_and!; eauto with budyk. eapply Forall_impl; [exact H4 |]. cbn. eauto with budyk.
Qed.

(** Adding a collection whose group is there. *)
Lemma add_collection_ok c r :
  In c kCollections -> metric_set_ok r -> bits_in (cl_group c) (ms_groups r) -> metric_set_ok (add_detail (cl_bit c) r).
Proof.
  intros Hc (H1 & H2 & H3 & H4) Hg. unfold metric_set_ok, add_detail. cbn [ms_groups ms_detail].
  split_and!; try done.
  - apply bits_in_lor_l; [done |]. cbn in Hc. destruct Hc as [<- | [<- | [<- | [<- | [<- | []]]]]]; reflexivity.
  - rewrite Forall_forall in H4 |- *. intros d Hd Hne.
    destruct (decide (Z.land (ms_detail r) (cl_bit d) = 0)) as [Hz | Hz]; [| by apply H4].
    enough (d = c) by (by subst). rewrite Z.land_lor_distr_l, Hz, Z.lor_0_l in Hne.
    apply list_elem_of_In in Hd. cbn in Hc, Hd.
    destruct Hc as [<- | [<- | [<- | [<- | [<- | []]]]]], Hd as [<- | [<- | [<- | [<- | [<- | []]]]]]; done.
Qed.

(** ** The parser on the names of the tables *)

Definition group_selectable (g : Name) : Prop := nm_bit g <> kGroupFileWatch.

Lemma parse_group_name g ns r :
  In g kGroupNames -> group_selectable g -> parse_names (nm_name g :: ns) r = parse_names ns (add_groups (nm_bit g) r).
Proof.
  intros Hg Hs. cbn in Hg. destruct_or! Hg; subst; try (by destruct Hg); first [reflexivity | by destruct Hs].
Qed.

Lemma parse_collection_name c ns r :
  In c kCollections ->
  parse_names (cl_name c :: ns) r = parse_names ns (add_detail (cl_bit c) (add_groups (cl_group c) r)).
Proof. intros Hc. cbn in Hc. destruct_or! Hc; subst; first [reflexivity | by destruct Hc]. Qed.

Definition lor_all (l : list Z) (a : Z) : Z := fold_left Z.lor l a.

Lemma parse_group_names l ns : forall r,
  (forall g, In g l -> In g kGroupNames /\ group_selectable g) ->
  parse_names (map nm_name l ++ ns) r = parse_names ns (mkMetricSet (lor_all (map nm_bit l) (ms_groups r)) (ms_detail r)).
Proof.
  induction l as [| g l IH]; intros r Hl; [by destruct r |].
  cbn [map app]. destruct (Hl g (or_introl eq_refl)). rewrite parse_group_name by done.
  rewrite IH by (intros; apply Hl; by right). done.
Qed.

Lemma parse_collection_names l : forall r,
  (forall c, In c l -> In c kCollections /\ bits_in (cl_group c) (ms_groups r)) ->
  parse_names (map cl_name l) r = inl (mkMetricSet (ms_groups r) (lor_all (map cl_bit l) (ms_detail r))).
Proof.
  induction l as [| c l IH]; intros r Hl; [by destruct r |].
  cbn [map]. destruct (Hl c (or_introl eq_refl)) as [Hc Hg]. rewrite parse_collection_name by done.
  unfold add_groups, add_detail. cbn [ms_groups ms_detail]. rewrite (lor_bits_in _ _ Hg).
  rewrite IH; [done |]. intros d Hd. apply Hl. by right.
Qed.

Lemma lor_all_spec l : forall a i,
  0 <= i -> Z.testbit (lor_all l a) i = Z.testbit a i || existsb (fun b => Z.testbit b i) l.
Proof.
  induction l as [| b l IH]; intros a i Hi; cbn; [by rewrite orb_false_r |].
  rewrite IH, Z.lor_spec by done. by rewrite orb_assoc.
Qed.

Lemma land_pow2_zero a i : 0 <= i -> negb (Z.land a (2 ^ i) =? 0) = Z.testbit a i.
Proof.
  intros Hi. destruct (Z.testbit a i) eqn:E.
  - apply negb_true_iff, Z.eqb_neq. intros H. apply (f_equal (fun z => Z.testbit z i)) in H.
    rewrite Z.land_spec, Z.pow2_bits_true, E, Z.bits_0 in H by lia. done.
  - apply negb_false_iff, Z.eqb_eq, Z.bits_inj'. intros j Hj. rewrite Z.land_spec, Z.bits_0.
    destruct (decide (j = i)) as [-> |]; [by rewrite E | rewrite Z.pow2_bits_false by lia; apply andb_false_r].
Qed.

(** The bits a table picks out of [v], the table's being those below [n]. *)
Lemma picked_bits {A} (bit : A -> Z) tbl a v n :
  map bit tbl = map (fun k => 2 ^ Z.of_nat k) (List.seq 0 n) ->
  bits_in a v -> (forall i, Z.of_nat n <= i -> Z.testbit v i = false) ->
  lor_all (map bit (List.filter (fun x => negb (Z.land v (bit x) =? 0)) tbl)) a = v.
Proof.
  intros Ht Ha Hv. apply Z.bits_inj'. intros i Hi. rewrite lor_all_spec by done.
  rewrite bits_in_spec in Ha. apply eq_true_iff_eq. rewrite orb_true_iff, existsb_exists. split.
  - intros [H | (b & Hb & Hbi)]; [by apply Ha |].
    apply in_map_iff in Hb as (x & <- & Hx). apply filter_In in Hx as [Hx Hl].
    apply (in_map bit) in Hx. rewrite Ht in Hx. apply in_map_iff in Hx as (k & Hk & _).
    rewrite <- Hk in Hl, Hbi. rewrite land_pow2_zero in Hl by lia.
    destruct (decide (i = Z.of_nat k)) as [-> |]; [done |]. rewrite Z.pow2_bits_false in Hbi by lia. done.
  - intros H. right. destruct (decide (Z.of_nat n <= i)); [rewrite Hv in H by lia; done |].
    assert (Hx : In (2 ^ i) (map bit tbl)).
    { rewrite Ht. apply in_map_iff. exists (Z.to_nat i). rewrite Z2Nat.id by done. split; [done |]. apply in_seq. lia. }
    apply in_map_iff in Hx as (x & Hbx & Hx). exists (2 ^ i). rewrite Z.pow2_bits_true by done. split; [| done].
    apply in_map_iff. exists x. split; [done |]. apply filter_In. rewrite Hbx, land_pow2_zero; done.
Qed.

Lemma bits_in_above a b n i :
  bits_in a b -> is_uint n b -> 0 <= n <= i -> Z.testbit a i = false.
Proof.
  intros H Hb Hi. destruct (Z.testbit a i) eqn:E; [| done].
  rewrite bits_in_spec in H. apply H in E; [| lia]. rewrite (is_uint_testbit n) in E by (done || lia). done.
Qed.

(** ** Every outcome of the parser *)

Lemma group_bit_cases n :
  metric_group_bit n = 0 \/ exists g, In g kGroupNames /\ metric_group_bit n = nm_bit g.
Proof.
  unfold metric_group_bit. destruct (List.find _ _) as [g |] eqn:E; [| by left].
  apply find_some in E as [E _]. eauto.
Qed.

Lemma detail_bit_cases n :
  metric_detail_bit n = 0 \/ exists c, In c kCollections /\ metric_detail_bit n = cl_bit c.
Proof.
  unfold metric_detail_bit. destruct (List.find _ _) as [c |] eqn:E; [| by left].
  apply find_some in E as [E _]. eauto.
Qed.

Lemma selectable_group_bits g : In g kGroupNames -> nm_bit g <> kGroupFileWatch -> bits_in (nm_bit g) kGroupsSelectable.
Proof. intros Hg Hs. cbn in Hg. destruct_or! Hg; subst; first [reflexivity | by destruct Hs | by destruct Hg]. Qed.

Lemma collection_group_bits c : In c kCollections -> bits_in (cl_group c) kGroupsSelectable.
Proof. intros Hc. cbn in Hc. destruct_or! Hc; subst; first [reflexivity | by destruct Hc]. Qed.

Lemma collection_fold c r :
  In c kCollections ->
  fold_left (fun r d => if cl_bit d =? cl_bit c then add_groups (cl_group d) r else r) kCollections r = add_groups (cl_group c) r.
Proof. intros Hc. cbn in Hc. destruct_or! Hc; subst; first [reflexivity | by destruct Hc]. Qed.

Lemma add_all_ok r : metric_set_ok r -> metric_set_ok (add_detail kDetailAll (add_groups kGroupsSelectable r)).
Proof.
  intros Hr. replace (add_detail kDetailAll (add_groups kGroupsSelectable r))
    with (fold_left (fun r c => add_detail (cl_bit c) r) kCollections (add_groups kGroupsSelectable r)).
  2: { unfold add_detail, add_groups. cbn. f_equal. rewrite <- !Z.lor_assoc. done. }
  assert (H0 : metric_set_ok (add_groups kGroupsSelectable r)) by (apply add_groups_ok; done).
  assert (Hg : bits_in kGroupsSelectable (ms_groups (add_groups kGroupsSelectable r))) by apply bits_in_lor_self.
  revert H0 Hg. generalize (add_groups kGroupsSelectable r). intros r0 H0 Hg.
  assert (Hall : forall l r, (forall c, In c l -> In c kCollections) -> metric_set_ok r ->
            bits_in kGroupsSelectable (ms_groups r) -> metric_set_ok (fold_left (fun r c => add_detail (cl_bit c) r) l r)).
  { induction l as [| c l IH]; intros r1 Hl Hok Hg1; [done |]. cbn. apply IH; [intros; apply Hl; by right | | done].
    apply add_collection_ok; [apply Hl; by left | done |].
    rewrite !bits_in_spec in *. intros i Hi Hb. apply Hg1; [done |].
    pose proof (collection_group_bits c (Hl c (or_introl eq_refl))) as Hc. rewrite bits_in_spec in Hc. auto. }
  by apply Hall.
Qed.

Lemma parse_names_ok names : forall r r', metric_set_ok r -> parse_names names r = inl r' -> metric_set_ok r'.
Proof.
  induction names as [| n ns IH]; intros r r' Hr H; cbn [parse_names] in H; [by simplify_eq |].
  do 3 (case_bool_decide; [eapply IH; [| exact H]; first [done | by apply add_all_ok | by apply add_groups_ok] |]).
  destruct (negb (metric_group_bit (c_str n) =? 0) && _) eqn:E1.
  { eapply IH; [| exact H]. apply add_groups_ok; [done |]. bool_facts.
    destruct (group_bit_cases (c_str n)) as [Hz | (g & Hg & Hb)]; [done |]. rewrite Hb in *. by apply selectable_group_bits. }
  destruct (negb (metric_detail_bit (c_str n) =? 0)) eqn:E2;
    [| by destruct (metric_group_bit (c_str n) =? kGroupFileWatch)].
  eapply IH; [| exact H]. bool_facts. destruct (detail_bit_cases (c_str n)) as [Hz | (c & Hc & Hb)]; [done |].
  rewrite Hb, collection_fold by done. apply add_collection_ok; [done | | apply bits_in_lor_self].
  apply add_groups_ok; [done |]. by apply collection_group_bits.
Qed.

Lemma names_roundtrip set : metric_set_ok set -> parse_names (metric_set_names set) metric_set_minimal = inl set.
Proof.
  intros (Hmin & Hsel & Hdet & Hcol). unfold metric_set_names.
  assert (Hg : lor_all (map nm_bit (List.filter (fun g => negb (Z.land (ms_groups set) (nm_bit g) =? 0)) kGroupNames))
                 kGroupsMinimal = ms_groups set).
  { apply (picked_bits nm_bit kGroupNames _ _ 17); [reflexivity | done |].
    intros i Hi. apply (bits_in_above _ _ 17 i Hsel); [split; vm_compute; congruence | lia]. }
  assert (Hd : lor_all (map cl_bit (List.filter (fun c => negb (Z.land (ms_detail set) (cl_bit c) =? 0)) kCollections))
                 0 = ms_detail set).
  { apply (picked_bits cl_bit kCollections _ _ 5); [reflexivity | done |].
    intros i Hi. apply (bits_in_above _ _ 5 i Hdet); [split; vm_compute; congruence | lia]. }
  rewrite parse_group_names; cbn [ms_groups ms_detail metric_set_minimal].
  - rewrite Hg, parse_collection_names; cbn [ms_groups ms_detail]; [rewrite Hd; by destruct set |].
    intros c Hc. apply filter_In in Hc as [Hc Hl]. split; [done |]. rewrite List.Forall_forall in Hcol.
    apply Hcol; [done |]. by apply negb_true_iff, Z.eqb_neq in Hl.
  - intros g Hin. apply filter_In in Hin as [Hin Hl]. split; [done |]. intros He. rewrite He in Hl.
    change kGroupFileWatch with (2 ^ 10) in Hl. rewrite land_pow2_zero in Hl by lia.
    rewrite bits_in_spec in Hsel. apply Hsel in Hl; [done | lia].
Qed.

(** A level's metric set survives the configuration: every list of names
    the parser accepts gives a set with the minimal groups (what the anomaly
    check reads), no [file_watch], and with each collection its group; a
    rejected list returns -EINVAL and leaves [*out] alone; and parsing the
    names [metric_set_names] prints of any such set gives that set back. *)
Theorem metric_set_names_roundtrip names out error set :
  metric_set_ok set ->
  (let '(rc, out', error') := parse_metric_set names out error in
   (rc = 0 /\ metric_set_ok out' /\ error' = error) \/ (rc = - EINVAL /\ out' = out)) /\
  parse_metric_set (metric_set_names set) out error = (0, set, error).
Proof.
  intros Hs. split.
  - unfold parse_metric_set. destruct (parse_names _ _) as [r | e] eqn:E; [left | right; done].
    split_and!; try done. eapply parse_names_ok; [| exact E]. split_and!; try done. repeat constructor; done.
  - unfold parse_metric_set. by rewrite names_roundtrip.
Qed.

Lemma metric_set_names_roundtrip_witness :
  let set := mkMetricSet (Z.lor kGroupsMinimal kGroupDisk) kDetailDisks in
  metric_set_ok set /\ parse_metric_set (metric_set_names set) metric_set_full [] = (0, set, []).
Proof.
  set (set := mkMetricSet (Z.lor kGroupsMinimal kGroupDisk) kDetailDisks).
  assert (H : metric_set_ok set) by (split_and!; try done; repeat constructor; done).
  split; [exact H |]. exact (proj2 (metric_set_names_roundtrip [] metric_set_full [] set H)).
Defined.
