(* ===== verification/Scheduler.v ===== *)
(** The adaptive level scheduler (src/scheduler/scheduler.h,
    src/scheduler/scheduler.cpp).  Its clock is the samples' timestamps, so the
    whole class is a state machine: [tick], [request], [clock_stepped_forward]
    and the client count are functions on [Scheduler].  The three arrays
    indexed by level id are lists of [kMaxLevelId + 1] entries; durations are
    64-bit with the wrap-around of the source.  Theorems: the selection is the
    maximum over the active levels, an escalation is exactly a long enough run
    of anomalous ticks, a step of the wall clock is invisible, and on-demand
    mode does not look at the thresholds. *)
From Stdlib Require Import ZArith Lia List Bool.
From stdpp Require Import base numbers list strings.
From S2P Require Import Prelude Float64 Sample MetricSet.
Open Scope Z_scope.

Inductive AnomalyState := NORMAL | ELEVATED | CRITICAL.
Inductive CollectionMode := Adaptive | Always | OnDemand.
#[export] Instance AnomalyState_eq_dec : EqDecision AnomalyState.
Proof. solve_decision. Defined.
#[export] Instance CollectionMode_eq_dec : EqDecision CollectionMode.
Proof. solve_decision. Defined.

Record CustomLevel := mkCustomLevel {
  cl_id : Z;
  cl_level_name : bytes;
  cl_interval_ms : Z;
  cl_priority : Z;
  cl_when : bytes;
  cl_hold_sec : Z;
  cl_storage_mb : Z;
  cl_metrics : MetricSet
}.

Record SchedulerConfig := mkSchedulerConfig {
  cfg_mode : CollectionMode;
  l1_interval_sec : Z;
  l2_interval_sec : Z;
  l3_interval_sec : Z;
  hysteresis_sec : Z;
  grace_period_sec : Z;
  l2_always_on : bool;
  escalate_after_sec : Z;
  escalation_load_1m : f64;
  escalation_cpu_percent : f64;
  escalation_swap_percent : f64;
  critical_load_1m : f64;
  critical_cpu_percent : f64;
  critical_swap_percent : f64;
  l1_metrics : MetricSet;
  l2_metrics : MetricSet;
  l3_metrics : MetricSet;
  custom_levels : list CustomLevel
}.

Definition kPriorityL1 : Z := 0.
Definition kPriorityL2 : Z := 20.
Definition kPriorityL3 : Z := 30.
Definition kNanosPerSec : Z := 1000000000.

Record Scheduler := mkScheduler {
  cfg_ : SchedulerConfig;
  level_ : Level;
  anomaly_ : AnomalyState;
  client_count_ : Z;
  last_anomaly_ns_ : Z;
  last_client_active_ns_ : Z;
  had_anomaly_ : bool;
  had_clients_ : bool;
  in_anomaly_run_ : bool;
  anomaly_run_start_ns_ : Z;
  escalated_ : bool;
  requested_ : list bool;
  requested_until_ns_ : list Z;
  requested_made_ns_ : list Z;
  last_tick_ns_ : Z
}.

Definition kLevelSlots : nat := Z.to_nat (kMaxLevelId + 1).

Definition new_Scheduler (cfg : SchedulerConfig) : Scheduler :=
  mkScheduler cfg L1 NORMAL 0 0 0 false false false 0 false
    (replicate kLevelSlots false) (replicate kLevelSlots 0) (replicate kLevelSlots 0) 0.

Definition find_custom (cfg : SchedulerConfig) (lv : Level) : option CustomLevel :=
  List.find (fun c => cl_id c =? lv) (custom_levels cfg).

(** The [switch] on the built-in levels, then the custom ones. *)
Definition level_case {A} (cfg : SchedulerConfig) (lv : Level) (l1 l2 l3 : A) (custom : CustomLevel -> A) (none : A) : A :=
  if lv =? L1 then l1 else if lv =? L2 then l2 else if lv =? L3 then l3
  else match find_custom cfg lv with Some c => custom c | None => none end.

Definition interval_ms (cfg : SchedulerConfig) (lv : Level) : Z :=
  level_case cfg lv (l1_interval_sec cfg * 1000) (l2_interval_sec cfg * 1000) (l3_interval_sec cfg * 1000)
    cl_interval_ms (l1_interval_sec cfg * 1000).
Definition priority (cfg : SchedulerConfig) (lv : Level) : Z :=
  level_case cfg lv kPriorityL1 kPriorityL2 kPriorityL3 cl_priority kPriorityL1.
Definition level_name (cfg : SchedulerConfig) (lv : Level) : bytes :=
  level_case cfg lv (str "L1") (str "L2") (str "L3") (fun c => c_str (cl_level_name c)) (str "?").
Definition metrics (cfg : SchedulerConfig) (lv : Level) : MetricSet :=
  level_case cfg lv (l1_metrics cfg) (l2_metrics cfg) (l3_metrics cfg) cl_metrics (l1_metrics cfg).
Definition collects (cfg : SchedulerConfig) (lv : Level) : bool :=
  negb (bool_decide (cfg_mode cfg = OnDemand)) || (negb (lv =? L1) && negb (lv =? L2)).

(** [None]: no such level. *)
Definition level_by_name (cfg : SchedulerConfig) (name : bytes) : option Level :=
  if strcasecmp_eq name (str "L1") then Some L1
  else if strcasecmp_eq name (str "L2") then Some L2
  else if strcasecmp_eq name (str "L3") then Some L3
  else match List.find (fun c => bool_decide (cl_level_name c = name)) (custom_levels cfg) with
       | Some c => Some (cl_id c)
       | None => None
       end.

Definition check_anomaly (s : Sample) (sch : Scheduler) : AnomalyState :=
  let cfg := cfg_ sch in
  let ld := negb (Z.land (groups s) kGroupLoad =? 0) in
  let cp := negb (Z.land (groups s) kGroupCpu =? 0) in
  let sw := negb (Z.land (groups s) kGroupSwap =? 0) in
  if ld && f64_gtb (load_avg_1m (load s)) (critical_load_1m cfg) then CRITICAL
  else if cp && f64_gtb (cpu_total_percent (cpu s)) (critical_cpu_percent cfg) then CRITICAL
  else if sw && f64_gtb (swap_used_percent (swap s)) (critical_swap_percent cfg) then CRITICAL
  else if ld && f64_gtb (load_avg_1m (load s)) (escalation_load_1m cfg) then ELEVATED
  else if cp && f64_gtb (cpu_total_percent (cpu s)) (escalation_cpu_percent cfg) then ELEVATED
  else if sw && f64_gtb (swap_used_percent (swap s)) (escalation_swap_percent cfg) then ELEVATED
  else if negb ld || negb cp || negb sw then anomaly_ sch
  else NORMAL.

(** [static_cast<uint64_t>(sec) * kNanosPerSec] *)
Definition sec_ns (sec : Z) : Z := u64 (u64 sec * kNanosPerSec).

(** [now >= t && now - t < d] *)
Definition within (now t d : Z) : bool := (t <=? now) && (u64 (now - t) <? d).

Definition requested (sch : Scheduler) (now : Z) (lv : Level) : bool :=
  znth false (requested_ sch) lv && (now <=? znth 0 (requested_until_ns_ sch) lv).

Definition is_anomaly (a : AnomalyState) : bool := negb (bool_decide (a = NORMAL)).

(** The conditions [l3] and [l2] of [select]. *)
Definition l3_active (sch : Scheduler) (now : Z) : bool :=
  let grace_ns := sec_ns (grace_period_sec (cfg_ sch)) in
  bool_decide (cfg_mode (cfg_ sch) = Always) ||
  (0 <? client_count_ sch) ||
  (had_clients_ sch && within now (last_client_active_ns_ sch) grace_ns) ||
  (escalated_ sch && (is_anomaly (anomaly_ sch) || within now (last_anomaly_ns_ sch) grace_ns)) ||
  requested sch now L3.
Definition l2_active (sch : Scheduler) (now : Z) : bool :=
  let hysteresis_ns := sec_ns (hysteresis_sec (cfg_ sch)) in
  let adaptive := negb (bool_decide (cfg_mode (cfg_ sch) = OnDemand)) in
  (adaptive && is_anomaly (anomaly_ sch)) ||
  (had_anomaly_ sch && within now (last_anomaly_ns_ sch) hysteresis_ns) ||
  (adaptive && l2_always_on (cfg_ sch)) ||
  requested sch now L2.

(** The lambda [consider], on (best, best_prio, best_ivl). *)
Definition consider (cfg : SchedulerConfig) (lv : Level) (prio : Z) (best : Level * Z * Z) : Level * Z * Z :=
  let '(b, best_prio, best_ivl) := best in
  let ivl := interval_ms cfg lv in
  if (best_prio <? prio) || ((prio =? best_prio) && (ivl <? best_ivl)) then (lv, prio, ivl) else best.

Definition select (sch : Scheduler) (now : Z) : Level :=
  let cfg := cfg_ sch in
  let best := (L1, kPriorityL1, interval_ms cfg L1) in
  let best := if l2_active sch now then consider cfg L2 kPriorityL2 best else best in
  let best := if l3_active sch now then consider cfg L3 kPriorityL3 best else best in
  let best := fold_left
    (fun best c => if requested sch now (cl_id c) then consider cfg (cl_id c) (cl_priority c) best else best)
    (custom_levels cfg) best in
  fst (fst best).

Definition higher (cfg : SchedulerConfig) (a b : Level) : Level :=
  let pa := priority cfg a in
  let pb := priority cfg b in
  if negb (pa =? pb) then (if pb <? pa then a else b)
  else if interval_ms cfg b <? interval_ms cfg a then b else a.

Definition set_requests (r : list bool) (u m : list Z) (s : Scheduler) : Scheduler :=
  mkScheduler (cfg_ s) (level_ s) (anomaly_ s) (client_count_ s) (last_anomaly_ns_ s) (last_client_active_ns_ s)
    (had_anomaly_ s) (had_clients_ s) (in_anomaly_run_ s) (anomaly_run_start_ns_ s) (escalated_ s) r u m (last_tick_ns_ s).
Definition set_timers (la lc ar lt : Z) (s : Scheduler) : Scheduler :=
  mkScheduler (cfg_ s) (level_ s) (anomaly_ s) (client_count_ s) la lc
    (had_anomaly_ s) (had_clients_ s) (in_anomaly_run_ s) ar (escalated_ s) (requested_ s) (requested_until_ns_ s)
    (requested_made_ns_ s) lt.

Definition request (level : Level) (until_ns made_at_ns : Z) (sch : Scheduler) : Scheduler :=
  if (level <? 1) || (kMaxLevelId <? level) then sch
  else if (kFirstCustomLevel <=? level) && bool_decide (find_custom (cfg_ sch) level = None) then sch
  else
    let stale := negb (made_at_ns =? 0) && (made_at_ns <? znth 0 (requested_made_ns_ sch) level) in
    if znth false (requested_ sch) level && negb stale && (until_ns <=? znth 0 (requested_until_ns_ sch) level) then sch
    else
      let id := Z.to_nat level in
      set_requests (<[id := true]> (requested_ sch)) (<[id := until_ns]> (requested_until_ns_ sch))
        (<[id := made_at_ns]> (requested_made_ns_ sch)) sch.

Definition request_by_name (name : bytes) (until_ns made_at_ns : Z) (sch : Scheduler) : bool * Scheduler :=
  match level_by_name (cfg_ sch) name with
  | None => (false, sch)
  | Some lv => (true, request lv until_ns made_at_ns sch)
  end.

(** A loop over the ids, writing [f id] to slot [id] where [requested_[id]]. *)
Definition map_requested (sch : Scheduler) (f : Z -> Z -> Z) (l : list Z) : list Z :=
  imap (fun id v => if znth false (requested_ sch) (Z.of_nat id) then f (Z.of_nat id) v else v) l.

Definition clock_stepped_forward (by_ns : Z) (sch : Scheduler) : Scheduler :=
  let move t := u64 (t + by_ns) in
  let sch1 := set_requests (requested_ sch)
    (map_requested sch (fun _ u => move u) (requested_until_ns_ sch))
    (map_requested sch (fun _ m => if m =? 0 then m else move m) (requested_made_ns_ sch)) sch in
  set_timers
    (if had_anomaly_ sch then move (last_anomaly_ns_ sch) else last_anomaly_ns_ sch)
    (if had_clients_ sch then move (last_client_active_ns_ sch) else last_client_active_ns_ sch)
    (if in_anomaly_run_ sch then move (anomaly_run_start_ns_ sch) else anomaly_run_start_ns_ sch)
    (if last_tick_ns_ sch =? 0 then last_tick_ns_ sch else move (last_tick_ns_ sch)) sch1.

(** The first part of [tick]: the clock has stepped back to [now]. *)
Definition step_back (now : Z) (sch : Scheduler) : Scheduler :=
  if negb (last_tick_ns_ sch =? 0) && (now <? last_tick_ns_ sch) then
    let back := last_tick_ns_ sch - now in
    let move t := if back <? t then t - back else 0 in
    let sch1 := set_requests (requested_ sch)
      (map_requested sch
         (fun id u => let made := znth 0 (requested_made_ns_ sch) id in
                      if (made =? 0) || (now <? made) then move u else u) (requested_until_ns_ sch))
      (requested_made_ns_ sch) sch in
    set_timers
      (if had_anomaly_ sch then move (last_anomaly_ns_ sch) else last_anomaly_ns_ sch)
      (if had_clients_ sch then move (last_client_active_ns_ sch) else last_client_active_ns_ sch)
      (if in_anomaly_run_ sch then move (anomaly_run_start_ns_ sch) else anomaly_run_start_ns_ sch)
      (last_tick_ns_ sch) sch1
  else sch.

Definition set_anomaly (a : AnomalyState) (la : Z) (had run : bool) (start : Z) (esc : bool) (s : Scheduler) : Scheduler :=
  mkScheduler (cfg_ s) (level_ s) a (client_count_ s) la (last_client_active_ns_ s) had (had_clients_ s) run start esc
    (requested_ s) (requested_until_ns_ s) (requested_made_ns_ s) (last_tick_ns_ s).

(** [anomaly_ = check_anomaly(current)] and the anomaly run. *)
Definition update_anomaly (a : AnomalyState) (now : Z) (s : Scheduler) : Scheduler :=
  let escalate_ns := sec_ns (escalate_after_sec (cfg_ s)) in
  let s := set_anomaly a (last_anomaly_ns_ s) (had_anomaly_ s) (in_anomaly_run_ s) (anomaly_run_start_ns_ s) (escalated_ s) s in
  if bool_decide (cfg_mode (cfg_ s) = OnDemand) then s
  else if is_anomaly a then
    let start := if in_anomaly_run_ s then anomaly_run_start_ns_ s else now in
    set_anomaly a now true true start
      ((0 <? escalate_ns) && (escalate_ns <=? u64 (now - start)) || escalated_ s) s
  else if negb (escalated_ s) then
    set_anomaly a (last_anomaly_ns_ s) (had_anomaly_ s) false (anomaly_run_start_ns_ s) (escalated_ s) s
  else s.

(** The escalation ends once the anomaly has been gone for the grace period. *)
Definition end_escalation (now : Z) (s : Scheduler) : Scheduler :=
  let grace_ns := sec_ns (grace_period_sec (cfg_ s)) in
  if escalated_ s && bool_decide (anomaly_ s = NORMAL) &&
     ((now <? last_anomaly_ns_ s) || (grace_ns <=? u64 (now - last_anomaly_ns_ s)))
  then set_anomaly (anomaly_ s) (last_anomaly_ns_ s) (had_anomaly_ s) false (anomaly_run_start_ns_ s) false s
  else s.

Definition set_last_tick (now : Z) (s : Scheduler) : Scheduler :=
  set_timers (last_anomaly_ns_ s) (last_client_active_ns_ s) (anomaly_run_start_ns_ s) now s.
Definition set_clients (count : Z) (lc : Z) (had : bool) (s : Scheduler) : Scheduler :=
  mkScheduler (cfg_ s) (level_ s) (anomaly_ s) count (last_anomaly_ns_ s) lc (had_anomaly_ s) had
    (in_anomaly_run_ s) (anomaly_run_start_ns_ s) (escalated_ s) (requested_ s) (requested_until_ns_ s)
    (requested_made_ns_ s) (last_tick_ns_ s).
Definition note_clients (now : Z) (s : Scheduler) : Scheduler :=
  if 0 <? client_count_ s then set_clients (client_count_ s) now true s else s.
Definition set_selected (lv : Level) (s : Scheduler) : Scheduler :=
  mkScheduler (cfg_ s) lv (anomaly_ s) (client_count_ s) (last_anomaly_ns_ s) (last_client_active_ns_ s)
    (had_anomaly_ s) (had_clients_ s) (in_anomaly_run_ s) (anomaly_run_start_ns_ s) (escalated_ s) (requested_ s)
    (requested_until_ns_ s) (requested_made_ns_ s) (last_tick_ns_ s).

Definition tick (current : Sample) (sch : Scheduler) : Level * Scheduler :=
  let now := timestamp_nanos current in
  let sch := set_last_tick now (step_back now sch) in
  let sch := update_anomaly (check_anomaly current sch) now sch in
  let sch := note_clients now (end_escalation now sch) in
  let lv := select sch now in
  (lv, set_selected lv sch).

Definition client_connected (s : Scheduler) : Scheduler :=
  set_clients (client_count_ s + 1) (last_client_active_ns_ s) (had_clients_ s) s.
Definition client_disconnected (s : Scheduler) : Scheduler :=
  if 0 <? client_count_ s then set_clients (client_count_ s - 1) (last_client_active_ns_ s) (had_clients_ s) s else s.
Definition set_client_count (n : Z) (s : Scheduler) : Scheduler :=
  set_clients (if 0 <? n then n else 0) (last_client_active_ns_ s) (had_clients_ s) s.

(** ** The selection *)

(** What the configuration loader guarantees of the custom levels. *)
Definition cfg_ok (cfg : SchedulerConfig) : Prop :=
  NoDup (map cl_id (custom_levels cfg)) /\
  Forall (fun c => kFirstCustomLevel <= cl_id c <= kMaxLevelId) (custom_levels cfg).

(** A level that may be selected at [now]. *)
Inductive active (sch : Scheduler) (now : Z) : Level -> Prop :=
| active_l1 : active sch now L1
| active_l2 : l2_active sch now = true -> active sch now L2
| active_l3 : l3_active sch now = true -> active sch now L3
| active_custom c : In c (custom_levels (cfg_ sch)) -> requested sch now (cl_id c) = true -> active sch now (cl_id c).

(** [a] is no better than [b]: a lower priority, or the same and an interval
    no shorter. *)
Definition no_better (cfg : SchedulerConfig) (a b : Level) : Prop :=
  priority cfg a < priority cfg b \/
  (priority cfg a = priority cfg b /\ interval_ms cfg b <= interval_ms cfg a).

Lemma find_unique (l : list CustomLevel) c :
  NoDup (map cl_id l) -> In c l -> List.find (fun x => cl_id x =? cl_id c) l = Some c.
Proof.
  induction l as [| x l IH]; intros Hnd Hc; [done |]. cbn [List.find].
  cbn in Hnd. apply NoDup_cons in Hnd as [Hx Hnd]. destruct Hc as [-> | Hc]; [by rewrite Z.eqb_refl |].
  destruct (_ =? _) eqn:E; [| by apply IH]. bool_facts. destruct Hx. rewrite E.
  by apply list_elem_of_In, in_map.
Qed.

Lemma level_case_custom {A} cfg c (l1 l2 l3 : A) f none :
  cfg_ok cfg -> In c (custom_levels cfg) -> level_case cfg (cl_id c) l1 l2 l3 f none = f c.
Proof.
  intros [Hnd Hid] Hc. rewrite List.Forall_forall in Hid. pose proof (Hid c Hc).
  unfold level_case, find_custom. unfold kFirstCustomLevel, L1, L2, L3 in *.
  do 3 (destruct (_ =? _) eqn:? at 1; bool_facts; [lia |]). by rewrite find_unique.
Qed.

Lemma priority_custom cfg c : cfg_ok cfg -> In c (custom_levels cfg) -> priority cfg (cl_id c) = cl_priority c.
Proof. intros. unfold priority. by rewrite level_case_custom. Qed.

Lemma no_better_refl cfg a : no_better cfg a a.
Proof. right. lia. Qed.

Lemma no_better_trans cfg a b c : no_better cfg a b -> no_better cfg b c -> no_better cfg a c.
Proof. unfold no_better. lia. Qed.

Definition best_of (cfg : SchedulerConfig) (lv : Level) : Level * Z * Z := (lv, priority cfg lv, interval_ms cfg lv).

(** [consider] keeps the better of the two. *)
Lemma consider_best cfg b lv :
  exists b', consider cfg lv (priority cfg lv) (best_of cfg b) = best_of cfg b' /\
    (b' = b \/ b' = lv) /\ no_better cfg b b' /\ no_better cfg lv b'.
Proof.
  unfold consider, best_of, no_better. destruct (_ || _) eqn:E.
  - exists lv. rewrite orb_true_iff, andb_true_iff in E. split_and!; [done | by right | | lia].
    destruct E as [E | [E E2]]; bool_facts; lia.
  - exists b. rewrite orb_false_iff, andb_false_iff in E. split_and!; [done | by left | lia |].
    destruct E as [E [E2 | E2]]; bool_facts; lia.
Qed.

(** ... and what is considered under a condition is no better than the result. *)
Lemma consider_if_best sch now b lv (cond : bool) :
  active sch now b -> (cond = true -> active sch now lv) ->
  exists b', (if cond then consider (cfg_ sch) lv (priority (cfg_ sch) lv) (best_of (cfg_ sch) b) else best_of (cfg_ sch) b)
               = best_of (cfg_ sch) b' /\ active sch now b' /\
    no_better (cfg_ sch) b b' /\ (cond = true -> no_better (cfg_ sch) lv b').
Proof.
  intros Hb Hlv. destruct cond.
  - destruct (consider_best (cfg_ sch) b lv) as (b' & -> & Hor & H1 & H2). exists b'.
    destruct Hor as [-> | ->]; auto.
  - exists b. split_and!; [done | done | apply no_better_refl | done].
Qed.

Lemma custom_best sch now (l : list CustomLevel) : forall b,
  cfg_ok (cfg_ sch) -> (forall c, In c l -> In c (custom_levels (cfg_ sch))) -> active sch now b ->
  exists b', fold_left (fun best c => if requested sch now (cl_id c)
                                      then consider (cfg_ sch) (cl_id c) (cl_priority c) best else best) l (best_of (cfg_ sch) b)
               = best_of (cfg_ sch) b' /\ active sch now b' /\ no_better (cfg_ sch) b b' /\
    forall c, In c l -> requested sch now (cl_id c) = true -> no_better (cfg_ sch) (cl_id c) b'.
Proof.
  induction l as [| c l IH]; intros b Hok Hl Hb.
  - exists b. split_and!; [done | done | apply no_better_refl | done].
  - rewrite fold_left_cons. pose proof (Hl c (or_introl eq_refl)) as Hc.
    rewrite <- (priority_custom _ c Hok Hc).
    destruct (consider_if_best sch now b (cl_id c) (requested sch now (cl_id c)) Hb) as (b1 & -> & Hb1 & Hn1 & Hc1);
      [by apply active_custom |].
    destruct (IH b1 Hok) as (b2 & -> & Hb2 & Hn2 & Hall); [intros; apply Hl; by right | done |].
    exists b2. split_and!; [done | done | by eapply no_better_trans |].
    intros d [<- | Hd] Hr; [eapply no_better_trans; eauto | by apply Hall].
Qed.

Lemma select_best sch now :
  cfg_ok (cfg_ sch) ->
  active sch now (select sch now) /\ forall lv, active sch now lv -> no_better (cfg_ sch) lv (select sch now).
Proof.
  intros Hok. unfold select. cbv zeta.
  change (L1, kPriorityL1, interval_ms (cfg_ sch) L1) with (best_of (cfg_ sch) L1).
  change kPriorityL2 with (priority (cfg_ sch) L2). change kPriorityL3 with (priority (cfg_ sch) L3).
  destruct (consider_if_best sch now L1 L2 (l2_active sch now) (active_l1 _ _)) as (b2 & -> & H2 & Hn2 & Hc2);
    [by apply active_l2 |].
  destruct (consider_if_best sch now b2 L3 (l3_active sch now) H2) as (b3 & -> & H3 & Hn3 & Hc3); [by apply active_l3 |].
  destruct (custom_best sch now (custom_levels (cfg_ sch)) b3 Hok) as (b & -> & Hb & Hn & Hc); [done | done |].
  cbn [fst best_of]. split; [done |].
  intros lv [| Hl | Hl | c Hin Hr]; [| | | by apply Hc]; eauto using no_better_trans.
Qed.

Lemma higher_no_better cfg a b : no_better cfg b a -> higher cfg a b = a.
Proof.
  unfold no_better, higher. intros H.
  destruct (_ =? _) eqn:E; bool_facts; cbn [negb].
  - rewrite (proj2 (Z.ltb_ge _ _)) by lia. done.
  - by rewrite (proj2 (Z.ltb_lt _ _)) by lia.
Qed.

(** The level selected is the best active one: [select] returns a level
    that is active at [now] (the fallback L1, L2 or L3 when their conditions
    hold, or a requested custom level) and wins, by priority and then the
    shorter interval, against every active level; [higher] agrees with it. *)
Theorem select_is_best_active sch now :
  cfg_ok (cfg_ sch) ->
  active sch now (select sch now) /\
  forall lv, active sch now lv ->
    no_better (cfg_ sch) lv (select sch now) /\ higher (cfg_ sch) (select sch now) lv = select sch now.
Proof.
  intros Hok. destruct (select_best sch now Hok) as [Ha Hb]. split; [done |].
  intros lv Hlv. split; [by apply Hb |]. by apply higher_no_better, Hb.
Qed.

(** A configuration with one custom level above L2. *)
Definition cfg_ex (mode : CollectionMode) : SchedulerConfig :=
  mkSchedulerConfig mode 300 30 1 300 60 false 300 (f64_of_Z 4) (f64_of_Z 85) (f64_of_Z 50) (f64_of_Z 8) (f64_of_Z 95)
    (f64_of_Z 80) metric_set_standard metric_set_full metric_set_full
    [mkCustomLevel 4 (str "io") 250 25 [] 0 50 metric_set_full].

Lemma cfg_ex_ok mode : cfg_ok (cfg_ex mode).
Proof.
  split; cbn; [apply NoDup_cons; split; [apply not_elem_of_nil | apply NoDup_nil_2] |].
  repeat constructor; vm_compute; congruence.
Qed.

Lemma select_is_best_active_witness :
  let sch := request 4 2000 1000 (new_Scheduler (cfg_ex Adaptive)) in
  select sch 1500 = 4 /\ active sch 1500 (select sch 1500) /\ higher (cfg_ sch) (select sch 1500) L1 = select sch 1500.
Proof.
  set (sch := request 4 2000 1000 (new_Scheduler (cfg_ex Adaptive))).
  destruct (select_is_best_active sch 1500 (cfg_ex_ok Adaptive)) as [H1 H2].
  split; [reflexivity |]. split; [exact H1 | exact (proj2 (H2 L1 (active_l1 _ _)))].
Defined.

(** ** Runs *)

Inductive sched_op :=
| OTick (s : Sample)
| ORequest (lv : Level) (until_ns made_at_ns : Z)
| ORequestName (name : bytes) (until_ns made_at_ns : Z)
| OClients (n : Z)
| OConnected
| ODisconnected
| OStepForward (by_ns : Z).

Definition sched_step (o : sched_op) (sch : Scheduler) : Scheduler :=
  match o with
  | OTick s => snd (tick s sch)
  | ORequest lv u m => request lv u m sch
  | ORequestName n u m => snd (request_by_name n u m sch)
  | OClients n => set_client_count n sch
  | OConnected => client_connected sch
  | ODisconnected => client_disconnected sch
  | OStepForward d => clock_stepped_forward d sch
  end.

Fixpoint sched_run (ops : list sched_op) (sch : Scheduler) : Scheduler :=
  match ops with [] => sch | o :: r => sched_run r (sched_step o sch) end.

(** The levels the ticks of a run return. *)
Fixpoint sched_levels (ops : list sched_op) (sch : Scheduler) : list Level :=
  match ops with
  | [] => []
  | o :: r =>
      match o with
      | OTick s => fst (tick s sch) :: sched_levels r (sched_step o sch)
      | _ => sched_levels r (sched_step o sch)
      end
  end.

(** ** Escalation *)

(** The ticks of a run, newest first: the time and the state found. *)
Definition trace := list (Z * AnomalyState).
Fixpoint anomaly_trace (ops : list sched_op) (sch : Scheduler) (tr : trace) : trace :=
  match ops with
  | [] => tr
  | o :: r =>
      let sch' := sched_step o sch in
      match o with
      | OTick s => anomaly_trace r sch' ((timestamp_nanos s, anomaly_ sch') :: tr)
      | _ => anomaly_trace r sch' tr
      end
  end.

(** The time of the newest anomalous tick. *)
Fixpoint last_anomaly (tr : trace) : option Z :=
  match tr with
  | [] => None
  | (t, a) :: r => if is_anomaly a then Some t else last_anomaly r
  end.

(** When the anomalous ticks the trace ends with began. *)
Fixpoint run_start (tr : trace) : option Z :=
  match tr with
  | [] => None
  | (t, a) :: r =>
      if is_anomaly a then match run_start r with Some t0 => Some t0 | None => Some t end else None
  end.

(** The documented rule: an anomaly found on every tick for [E] (not 0)
    escalates; the escalation lasts while the anomaly does, and through a
    normal tick less than [G] after the last anomalous one. *)
Inductive escalation (E G : Z) : trace -> Prop :=
| esc_held t a r t0 :
    is_anomaly a = true -> 0 < E -> run_start ((t, a) :: r) = Some t0 -> E <= t - t0 -> escalation E G ((t, a) :: r)
| esc_anomaly t a r : is_anomaly a = true -> escalation E G r -> escalation E G ((t, a) :: r)
| esc_grace t a r t0 :
    is_anomaly a = false -> escalation E G r -> last_anomaly r = Some t0 -> t - t0 < G -> escalation E G ((t, a) :: r).

(** The ticks of [ops] never go back in time from [clock]; the clock is not
    stepped. *)
Fixpoint steady (clock : Z) (ops : list sched_op) : Prop :=
  match ops with
  | [] => True
  | OTick s :: r => clock <= timestamp_nanos s < 2 ^ 64 /\ steady (timestamp_nanos s) r
  | OStepForward _ :: _ => False
  | _ :: r => steady clock r
  end.

(** The scheduler's fields are those of the trace. *)
Record follows (E G : Z) (tr : trace) (sch : Scheduler) : Prop := {
  fw_esc : escalated_ sch = true <-> escalation E G tr;
  fw_last : match last_anomaly tr with
            | Some t => had_anomaly_ sch = true /\ last_anomaly_ns_ sch = t /\ 0 <= t <= last_tick_ns_ sch
            | None => had_anomaly_ sch = false
            end;
  fw_run : escalated_ sch = false ->
           match run_start tr with
           | Some t => in_anomaly_run_ sch = true /\ anomaly_run_start_ns_ sch = t /\ 0 <= t <= last_tick_ns_ sch
           | None => in_anomaly_run_ sch = false
           end
}.

Lemma escalation_last E G tr : escalation E G tr -> is_Some (last_anomaly tr).
Proof. induction 1 as [t a r t0 H _ _ _ | t a r H _ _ | t a r t0 H _ IH _ _]; cbn; rewrite H; eauto. Qed.

Lemma step_back_none now sch : last_tick_ns_ sch <= now -> step_back now sch = sch.
Proof.
  intros H. unfold step_back. rewrite (proj2 (Z.ltb_ge _ _)) by done. by rewrite andb_false_r.
Qed.

Lemma u64_diff a b : 0 <= b <= a -> a < 2 ^ 64 -> u64 (a - b) = a - b.
Proof. intros. unfold u64. apply wrap_small. unfold is_uint. lia. Qed.

Lemma is_anomaly_normal a : is_anomaly a = false -> a = NORMAL.
Proof. unfold is_anomaly. intros H. by apply negb_false_iff, bool_decide_eq_true in H. Qed.

(** The anomaly fields after a tick that does not step back. *)
Definition anomaly_step (a : AnomalyState) (now : Z) (sch : Scheduler) : Scheduler :=
  end_escalation now (update_anomaly a now (set_last_tick now sch)).

Lemma tick_anomaly_fields s sch :
  last_tick_ns_ sch <= timestamp_nanos s ->
  let now := timestamp_nanos s in
  let sch' := snd (tick s sch) in
  let sch1 := anomaly_step (check_anomaly s (set_last_tick now sch)) now sch in
  anomaly_ sch' = anomaly_ sch1 /\ escalated_ sch' = escalated_ sch1 /\ had_anomaly_ sch' = had_anomaly_ sch1 /\
  last_anomaly_ns_ sch' = last_anomaly_ns_ sch1 /\ in_anomaly_run_ sch' = in_anomaly_run_ sch1 /\
  anomaly_run_start_ns_ sch' = anomaly_run_start_ns_ sch1 /\ last_tick_ns_ sch' = now /\ cfg_ sch' = cfg_ sch.
Proof.
  intros Hle now sch' sch1. unfold sch', tick. fold now. rewrite step_back_none by done. cbn [snd].
  fold (anomaly_step (check_anomaly s (set_last_tick now sch)) now sch). fold sch1.
  assert (H : last_tick_ns_ sch1 = now /\ cfg_ sch1 = cfg_ sch).
  { unfold sch1, anomaly_step, end_escalation, update_anomaly. by repeat case_match. }
  destruct H as [H1 H2]. unfold note_clients, set_selected, set_clients. destruct (0 <? client_count_ sch1); cbn; done.
Qed.

Lemma anomaly_step_anomalous a now sch :
  is_anomaly a = true -> cfg_mode (cfg_ sch) <> OnDemand ->
  let E := sec_ns (escalate_after_sec (cfg_ sch)) in
  let start := if in_anomaly_run_ sch then anomaly_run_start_ns_ sch else now in
  let sch1 := anomaly_step a now sch in
  anomaly_ sch1 = a /\ had_anomaly_ sch1 = true /\ last_anomaly_ns_ sch1 = now /\ in_anomaly_run_ sch1 = true /\
  anomaly_run_start_ns_ sch1 = start /\
  escalated_ sch1 = (0 <? E) && (E <=? u64 (now - start)) || escalated_ sch.
Proof.
  intros Ha Hm E start sch1. unfold sch1, anomaly_step, update_anomaly. cbn -[sec_ns].
  rewrite (bool_decide_eq_false_2 _ Hm), Ha. unfold end_escalation. cbn -[sec_ns].
  rewrite (bool_decide_eq_false_2 (a = NORMAL)), andb_false_r; [done |].
  intros ->. done.
Qed.

Lemma anomaly_step_normal now sch :
  cfg_mode (cfg_ sch) <> OnDemand ->
  let G := sec_ns (grace_period_sec (cfg_ sch)) in
  let sch1 := anomaly_step NORMAL now sch in
  let over := (now <? last_anomaly_ns_ sch) || (G <=? u64 (now - last_anomaly_ns_ sch)) in
  anomaly_ sch1 = NORMAL /\ had_anomaly_ sch1 = had_anomaly_ sch /\ last_anomaly_ns_ sch1 = last_anomaly_ns_ sch /\
  escalated_ sch1 = escalated_ sch && negb over /\
  (escalated_ sch1 = false -> in_anomaly_run_ sch1 = false).
Proof.
  intros Hm G sch1 over. unfold sch1, anomaly_step, update_anomaly. cbn -[sec_ns u64 Z.ltb Z.leb Z.sub].
  rewrite (bool_decide_eq_false_2 _ Hm). change (is_anomaly NORMAL) with false.
  destruct (escalated_ sch) eqn:Ee; unfold end_escalation; cbn -[sec_ns u64 Z.ltb Z.leb Z.sub]; rewrite ?Ee; cbn -[sec_ns u64 Z.ltb Z.leb Z.sub]; [| done].
  assert (Ho : over = over) by done. unfold over at 1, G in Ho. rewrite Ho. destruct over; cbn; rewrite ?Ee; done.
Qed.

Section Escalation.
  Context (cfg : SchedulerConfig).
Let E := sec_ns (escalate_after_sec cfg).
Let G := sec_ns (grace_period_sec cfg).

Lemma follows_anomalous tr sch sch' a now :
  cfg_ sch = cfg -> cfg_mode cfg <> OnDemand -> 0 <= last_tick_ns_ sch <= now -> now < 2 ^ 64 ->
  follows E G tr sch -> is_anomaly a = true ->
  let sch1 := anomaly_step a now sch in
  escalated_ sch' = escalated_ sch1 -> had_anomaly_ sch' = had_anomaly_ sch1 ->
  last_anomaly_ns_ sch' = last_anomaly_ns_ sch1 -> in_anomaly_run_ sch' = in_anomaly_run_ sch1 ->
  anomaly_run_start_ns_ sch' = anomaly_run_start_ns_ sch1 -> last_tick_ns_ sch' = now ->
  follows E G ((now, a) :: tr) sch'.
Proof.
  intros Hc Hm Ht Hn [Fe Fl Fr] Ha sch1 H1 H2 H3 H4 H5 H6.
  destruct (anomaly_step_anomalous a now sch Ha ltac:(by rewrite Hc)) as (_ & A2 & A3 & A4 & A5 & A6).
  fold sch1 in A2, A3, A4, A5, A6. rewrite Hc in A6. fold E in A6.
  assert (Hrun : escalated_ sch = false ->
    run_start ((now, a) :: tr) = Some (if in_anomaly_run_ sch then anomaly_run_start_ns_ sch else now) /\
    0 <= (if in_anomaly_run_ sch then anomaly_run_start_ns_ sch else now) <= now).
  { intros He. specialize (Fr He). cbn. rewrite Ha.
    destruct (run_start tr); [destruct Fr as (-> & -> & ?); split; [done | lia] | rewrite Fr; split; [done | lia]]. }
  split.
  - rewrite H1, A6. split.
    + intros H. destruct (escalated_ sch) eqn:Ee; [apply esc_anomaly; [done | by apply Fe] |].
      destruct (Hrun eq_refl) as [Hs Hb]. rewrite orb_false_r in H. bool_facts. rewrite u64_diff in * by lia.
      eapply esc_held; eauto.
    + intros H. destruct (escalated_ sch) eqn:Ee; [by rewrite orb_true_r |]. destruct (Hrun eq_refl) as [Hs Hb].
      inversion H as [t' a' r' t0 _ Hpos Hst Hle | t' a' r' _ Hr | t' a' r' t0 Hna _ _ _]; subst;
        [| apply Fe in Hr; done | congruence].
      rewrite Hst in Hs. injection Hs as ->. rewrite u64_diff by lia.
      rewrite (proj2 (Z.ltb_lt _ _)), (proj2 (Z.leb_le _ _)) by lia. done.
  - cbn. rewrite Ha, H2, H3, H6. auto with lia.
  - rewrite H1, A6, H4, H5, H6, A4, A5. intros He. apply orb_false_iff in He as [_ He].
    destruct (Hrun He) as [-> Hb]. done.
Qed.

Lemma follows_normal tr sch sch' now :
  cfg_ sch = cfg -> cfg_mode cfg <> OnDemand -> 0 <= last_tick_ns_ sch <= now -> now < 2 ^ 64 ->
  follows E G tr sch ->
  let sch1 := anomaly_step NORMAL now sch in
  escalated_ sch' = escalated_ sch1 -> had_anomaly_ sch' = had_anomaly_ sch1 ->
  last_anomaly_ns_ sch' = last_anomaly_ns_ sch1 -> in_anomaly_run_ sch' = in_anomaly_run_ sch1 ->
  last_tick_ns_ sch' = now ->
  follows E G ((now, NORMAL) :: tr) sch'.
Proof.
  intros Hc Hm Ht Hn [Fe Fl Fr] sch1 H1 H2 H3 H4 H6.
  destruct (anomaly_step_normal now sch ltac:(by rewrite Hc)) as (_ & A2 & A3 & A4 & A5).
  fold sch1 in A2, A3, A4, A5. rewrite Hc in A4. fold G in A4.
  split.
  - rewrite H1, A4. split.
    + intros H. apply andb_true_iff in H as [He Ho]. apply negb_true_iff, orb_false_iff in Ho as [Ho1 Ho2].
      apply Fe in He. destruct (escalation_last _ _ _ He) as [t0 Ht0]. rewrite Ht0 in Fl. destruct Fl as (_ & Hl & Hb).
      bool_facts. rewrite u64_diff in Ho2 by lia. eapply esc_grace; eauto. lia.
    + intros H. inversion H as [t' a' r' t0 Hbad | t' a' r' Hbad | t' a' r' t0 _ Hr Hl Hg]; subst; [done | done |].
      rewrite Hl in Fl. destruct Fl as (_ & Hl2 & Hb). rewrite (proj2 Fe Hr), Hl2. cbn [andb].
      rewrite (proj2 (Z.ltb_ge _ _)), u64_diff, (proj2 (Z.leb_gt _ _)) by lia. done.
  - cbn. rewrite H2, A2, H3, A3, H6. destruct (last_anomaly tr); [| done]. destruct Fl as (? & ? & ?). split_and!; (done || lia).
  - rewrite H1, H4. cbn. exact A5.
Qed.

Lemma tick_follows tr s sch :
  cfg_ sch = cfg -> cfg_mode cfg <> OnDemand -> 0 <= last_tick_ns_ sch <= timestamp_nanos s -> timestamp_nanos s < 2 ^ 64 ->
  follows E G tr sch ->
  let sch' := snd (tick s sch) in
  follows E G ((timestamp_nanos s, anomaly_ sch') :: tr) sch' /\ cfg_ sch' = cfg /\ last_tick_ns_ sch' = timestamp_nanos s.
Proof.
  intros Hc Hm Ht Hn Hf sch'. destruct (tick_anomaly_fields s sch ltac:(lia)) as (F1 & F2 & F3 & F4 & F5 & F6 & F7 & F8).
  fold sch' in F1, F2, F3, F4, F5, F6, F7, F8.
  set (a := check_anomaly s (set_last_tick (timestamp_nanos s) sch)) in *.
  split; [| split; [by rewrite F8 | done]]. rewrite F1. destruct (is_anomaly a) eqn:Ea.
  - destruct (anomaly_step_anomalous a (timestamp_nanos s) sch Ea ltac:(by rewrite Hc)) as (-> & _).
    by eapply follows_anomalous.
  - apply is_anomaly_normal in Ea. rewrite Ea in *.
    destruct (anomaly_step_normal (timestamp_nanos s) sch ltac:(by rewrite Hc)) as (-> & _).
    by eapply follows_normal.
Qed.

Lemma request_cases lv u m sch :
  request lv u m sch = sch \/
  request lv u m sch =
    set_requests (<[Z.to_nat lv := true]> (requested_ sch)) (<[Z.to_nat lv := u]> (requested_until_ns_ sch))
      (<[Z.to_nat lv := m]> (requested_made_ns_ sch)) sch.
Proof. unfold request. repeat (case_match; [by left |]). by right. Qed.

(** The other operations leave the anomaly fields and the clock alone. *)
Lemma other_ops_follow tr o sch :
  match o with OTick _ | OStepForward _ => False | _ => True end ->
  follows E G tr sch ->
  follows E G tr (sched_step o sch) /\ cfg_ (sched_step o sch) = cfg_ sch /\ last_tick_ns_ (sched_step o sch) = last_tick_ns_ sch.
Proof.
  intros Ho Hf. pose proof Hf as [F1 F2 F3]. assert (Hreq : forall lv u m, follows E G tr (request lv u m sch) /\
    cfg_ (request lv u m sch) = cfg_ sch /\ last_tick_ns_ (request lv u m sch) = last_tick_ns_ sch).
  { intros. destruct (request_cases lv u m sch) as [-> | ->]; [done |]. split_and!; [constructor; assumption | done | done]. }
  destruct o; try done; cbn [sched_step]; try (by split_and!; [constructor; assumption | |]).
  - apply Hreq.
  - unfold request_by_name. destruct (level_by_name _ _); [apply Hreq | done].
  - unfold client_disconnected. destruct (_ <? _); [by split_and!; [constructor; assumption | |] | done].
Qed.

Lemma run_follows ops : forall tr sch,
  cfg_ sch = cfg -> cfg_mode cfg <> OnDemand -> 0 <= last_tick_ns_ sch -> steady (last_tick_ns_ sch) ops ->
  follows E G tr sch ->
  follows E G (anomaly_trace ops sch tr) (sched_run ops sch) /\ cfg_ (sched_run ops sch) = cfg.
Proof.
  induction ops as [| o ops IH]; intros tr sch Hc Hm H0 Hs Hf; [done |].
  assert (Hother : match o with OTick _ | OStepForward _ => False | _ => True end -> steady (last_tick_ns_ sch) ops ->
    follows E G (anomaly_trace ops (sched_step o sch) tr) (sched_run ops (sched_step o sch)) /\
    cfg_ (sched_run ops (sched_step o sch)) = cfg).
  { intros Ho Hst. destruct (other_ops_follow tr o sch Ho Hf) as (Hf' & Hc' & Hl').
    apply IH; rewrite ?Hl'; try done. by rewrite Hc'. }
  destruct o; cbn [sched_run anomaly_trace]; try (by apply Hother).
  cbn in Hs. destruct Hs as [Ht Hs]. cbn [sched_step].
  destruct (tick_follows tr s sch Hc Hm ltac:(lia) ltac:(lia) Hf) as (Hf' & Hc' & Hl').
  apply IH; rewrite ?Hl'; try done. lia.
Qed.
End Escalation.

Lemma new_follows E G cfg : follows E G [] (new_Scheduler cfg).
Proof. split; cbn; [split; [done | inversion 1] | done | done]. Qed.

(** A level at least as good as L3. *)
Lemma select_at_least sch now lv :
  cfg_ok (cfg_ sch) -> active sch now lv -> priority (cfg_ sch) lv <= priority (cfg_ sch) (select sch now).
Proof. intros Hok Ha. destruct (select_best sch now Hok) as [_ Hb]. specialize (Hb lv Ha). unfold no_better in Hb. lia. Qed.


(** A sample with a load of [v] at [t]. *)
Definition load_sample (t v : Z) : Sample :=
  set_timestamp_nanos t (set_groups kGroupsAll (set_load (mkLoadStats (f64_of_Z v) 0 0) zero_Sample)).


(** ** A step of the wall clock *)

(** [b] is [a] on a clock [d] ahead: every live instant is [d] later. *)
Record shifted (d : Z) (a b : Scheduler) : Prop := {
  sh_cfg : cfg_ b = cfg_ a;
  sh_level : level_ b = level_ a;
  sh_anomaly : anomaly_ b = anomaly_ a;
  sh_clients : client_count_ b = client_count_ a;
  sh_had_anomaly : had_anomaly_ b = had_anomaly_ a;
  sh_had_clients : had_clients_ b = had_clients_ a;
  sh_in_run : in_anomaly_run_ b = in_anomaly_run_ a;
  sh_escalated : escalated_ b = escalated_ a;
  sh_requested : requested_ b = requested_ a;
  sh_esc_had : escalated_ a = true -> had_anomaly_ a = true;
  sh_last_anomaly : had_anomaly_ a = true -> last_anomaly_ns_ b = last_anomaly_ns_ a + d;
  sh_last_client : had_clients_ a = true -> last_client_active_ns_ b = last_client_active_ns_ a + d;
  sh_run_start : in_anomaly_run_ a = true -> anomaly_run_start_ns_ b = anomaly_run_start_ns_ a + d;
  sh_until : forall id, znth false (requested_ a) id = true ->
    znth 0 (requested_until_ns_ b) id = znth 0 (requested_until_ns_ a) id + d;
  sh_made : forall id, znth false (requested_ a) id = true ->
    0 <= znth 0 (requested_made_ns_ a) id /\
    znth 0 (requested_made_ns_ b) id =
      (if znth 0 (requested_made_ns_ a) id =? 0 then 0 else znth 0 (requested_made_ns_ a) id + d);
  sh_last_tick : last_tick_ns_ b = last_tick_ns_ a + d \/ (last_tick_ns_ a = 0 /\ last_tick_ns_ b = 0);
  sh_slots : length (requested_ a) = kLevelSlots /\ length (requested_until_ns_ a) = kLevelSlots /\
    length (requested_made_ns_ a) = kLevelSlots /\ length (requested_until_ns_ b) = kLevelSlots /\
    length (requested_made_ns_ b) = kLevelSlots
}.

Definition shift_op (d : Z) (o : sched_op) : sched_op :=
  match o with
  | OTick s => OTick (set_timestamp_nanos (timestamp_nanos s + d) s)
  | ORequest lv u m => ORequest lv (u + d) (if m =? 0 then 0 else m + d)
  | ORequestName n u m => ORequestName n (u + d) (if m =? 0 then 0 else m + d)
  | o => o
  end.

(** Requests are reckoned from instants that are not negative. *)
Definition made_ok (o : sched_op) : Prop :=
  match o with ORequest _ _ m | ORequestName _ _ m => 0 <= m | _ => True end.

Lemma within_shift now t d x : within (now + d) (t + d) x = within now t x.
Proof.
  unfold within. replace (now + d - (t + d)) with (now - t) by lia. f_equal.
  destruct (t + d <=? now + d) eqn:E1, (t <=? now) eqn:E2; bool_facts; (done || lia).
Qed.

Lemma leb_shift a b d : (a + d <=? b + d) = (a <=? b).
Proof. destruct (a + d <=? b + d) eqn:E1, (a <=? b) eqn:E2; bool_facts; (done || lia). Qed.

Lemma requested_shift d a b now lv : shifted d a b -> requested b (now + d) lv = requested a now lv.
Proof.
  intros H. unfold requested. rewrite (sh_requested _ _ _ H).
  destruct (znth false (requested_ a) lv) eqn:E; [| done]. rewrite (sh_until _ _ _ H lv E). by rewrite leb_shift.
Qed.

Lemma select_shift d a b now : shifted d a b -> select b (now + d) = select a now.
Proof.
  intros H. unfold select.
  assert (H3 : l3_active b (now + d) = l3_active a now).
  { unfold l3_active. rewrite (sh_cfg _ _ _ H), (sh_clients _ _ _ H), (sh_had_clients _ _ _ H), (sh_escalated _ _ _ H),
      (sh_anomaly _ _ _ H), (requested_shift d a b now L3 H). f_equal. f_equal; [f_equal |].
    - destruct (had_clients_ a) eqn:E; [| done]. by rewrite (sh_last_client _ _ _ H E), within_shift.
    - destruct (escalated_ a) eqn:E; [| done].
      by rewrite (sh_last_anomaly _ _ _ H (sh_esc_had _ _ _ H E)), within_shift. }
  assert (H2 : l2_active b (now + d) = l2_active a now).
  { unfold l2_active. rewrite (sh_cfg _ _ _ H), (sh_anomaly _ _ _ H), (sh_had_anomaly _ _ _ H), (requested_shift d a b now L2 H).
    do 3 f_equal. destruct (had_anomaly_ a) eqn:E; [| done]. by rewrite (sh_last_anomaly _ _ _ H E), within_shift. }
  rewrite H2, H3, (sh_cfg _ _ _ H). do 2 f_equal. 
  generalize (if l3_active a now then consider (cfg_ a) L3 kPriorityL3
     (if l2_active a now then consider (cfg_ a) L2 kPriorityL2 (L1, kPriorityL1, interval_ms (cfg_ a) L1)
      else (L1, kPriorityL1, interval_ms (cfg_ a) L1))
   else if l2_active a now then consider (cfg_ a) L2 kPriorityL2 (L1, kPriorityL1, interval_ms (cfg_ a) L1)
        else (L1, kPriorityL1, interval_ms (cfg_ a) L1)).
  induction (custom_levels (cfg_ a)) as [| c l IH]; intros best; [done |]. cbn [fold_left].
  rewrite (requested_shift d a b now _ H). apply IH.
Qed.

Lemma set_anomaly_shift d a b x la la' had run st st' esc :
  shifted d a b -> (had = true -> la' = la + d) -> (run = true -> st' = st + d) -> (esc = true -> had = true) ->
  shifted d (set_anomaly x la had run st esc a) (set_anomaly x la' had run st' esc b).
Proof. intros [] ???. by constructor. Qed.

Lemma set_clients_shift d a b n lc lc' had :
  shifted d a b -> (had = true -> lc' = lc + d) ->
  shifted d (set_clients n lc had a) (set_clients n lc' had b).
Proof. intros [] ?. by constructor. Qed.

Lemma set_last_tick_shift d a b now : shifted d a b -> shifted d (set_last_tick now a) (set_last_tick (now + d) b).
Proof. intros []. constructor; try done. by left. Qed.

Lemma set_selected_shift d a b lv : shifted d a b -> shifted d (set_selected lv a) (set_selected lv b).
Proof. intros []. by constructor. Qed.

Lemma update_anomaly_shift d a b x now :
  shifted d a b -> shifted d (update_anomaly x now a) (update_anomaly x (now + d) b).
Proof.
  intros H. unfold update_anomaly. rewrite (sh_cfg _ _ _ H), (sh_had_anomaly _ _ _ H), (sh_in_run _ _ _ H), (sh_escalated _ _ _ H).
  assert (H1 : shifted d
    (set_anomaly x (last_anomaly_ns_ a) (had_anomaly_ a) (in_anomaly_run_ a) (anomaly_run_start_ns_ a) (escalated_ a) a)
    (set_anomaly x (last_anomaly_ns_ b) (had_anomaly_ a) (in_anomaly_run_ a) (anomaly_run_start_ns_ b) (escalated_ a) b))
    by (apply set_anomaly_shift; [done | apply H | apply H | apply H]).
  cbn [cfg_ set_anomaly in_anomaly_run_ anomaly_run_start_ns_ escalated_ last_anomaly_ns_ had_anomaly_].
  rewrite (sh_cfg _ _ _ H). destruct (bool_decide _); [done |]. destruct (is_anomaly x).
  - set (start := if in_anomaly_run_ a then anomaly_run_start_ns_ a else now).
    assert (Hs : (if in_anomaly_run_ a then anomaly_run_start_ns_ b else now + d) = start + d).
    { unfold start. destruct (in_anomaly_run_ a) eqn:E; [apply H, E | done]. }
    rewrite Hs. replace (now + d - (start + d)) with (now - start) by lia. by apply set_anomaly_shift.
  - destruct (escalated_ a) eqn:E; cbn [negb]; [done |]. apply set_anomaly_shift; [done | apply H | done | done].
Qed.

Lemma end_escalation_shift d a b now : shifted d a b -> shifted d (end_escalation now a) (end_escalation (now + d) b).
Proof.
  intros H. unfold end_escalation. rewrite (sh_cfg _ _ _ H), (sh_escalated _ _ _ H), (sh_anomaly _ _ _ H), (sh_had_anomaly _ _ _ H).
  destruct (escalated_ a) eqn:E; [| done]. pose proof (sh_esc_had _ _ _ H E) as Hh.
  rewrite (sh_last_anomaly _ _ _ H Hh). replace (now + d - (last_anomaly_ns_ a + d)) with (now - last_anomaly_ns_ a) by lia.
  replace (now + d <? last_anomaly_ns_ a + d) with (now <? last_anomaly_ns_ a)
    by (rewrite !Z.ltb_antisym; by rewrite leb_shift).
  destruct (_ && _ && _); [by apply set_anomaly_shift | done].
Qed.

Lemma note_clients_shift d a b now : shifted d a b -> shifted d (note_clients now a) (note_clients (now + d) b).
Proof.
  intros H. unfold note_clients. rewrite (sh_clients _ _ _ H). destruct (_ <? _); [by apply set_clients_shift | done].
Qed.

Lemma tick_shift d a b s :
  0 <= d -> shifted d a b -> 0 <= last_tick_ns_ a <= timestamp_nanos s ->
  let r := tick s a in
  let r' := tick (set_timestamp_nanos (timestamp_nanos s + d) s) b in
  fst r' = fst r /\ shifted d (snd r) (snd r') /\ last_tick_ns_ (snd r) = timestamp_nanos s.
Proof.
  intros Hd H Ht r r'. unfold r, r', tick. cbn [timestamp_nanos set_timestamp_nanos].
  rewrite (step_back_none _ a) by lia.
  rewrite (step_back_none _ b) by (destruct (sh_last_tick _ _ _ H) as [-> | [Hz ->]]; lia).
  set (now := timestamp_nanos s). cbn [fst snd].
  set (ca := check_anomaly _ _). set (cb := check_anomaly _ _).
  assert (Hc : ca = cb).
  { unfold ca, cb, check_anomaly. cbn. by rewrite (sh_cfg _ _ _ H), (sh_anomaly _ _ _ H). }
  rewrite <- Hc. set (a1 := note_clients now _). set (b1 := note_clients (now + d) _).
  assert (H1 : shifted d a1 b1)
    by (by apply note_clients_shift, end_escalation_shift, update_anomaly_shift, set_last_tick_shift).
  rewrite (select_shift _ _ _ _ H1). split_and!; [done | by apply set_selected_shift |].
  cbn. unfold a1, note_clients, end_escalation, update_anomaly. by repeat case_match.
Qed.

Lemma znth_insert {A} (x y : A) l n j :
  (n < length l)%nat -> znth x (<[n := y]> l) j = if decide (Z.to_nat j = n) then y else znth x l j.
Proof.
  intros Hl. unfold znth. rewrite !nth_lookup. case_decide as E.
  - by rewrite E, list_lookup_insert_eq by lia.
  - by rewrite list_lookup_insert_ne by lia.
Qed.

Lemma request_shift d a b lv u m :
  0 <= d -> 0 <= m -> shifted d a b ->
  shifted d (request lv u m a) (request lv (u + d) (if m =? 0 then 0 else m + d) b).
Proof.
  intros Hd Hm H. unfold request. rewrite (sh_cfg _ _ _ H), (sh_requested _ _ _ H).
  destruct (_ || _) eqn:Er; [done |]. destruct (_ && bool_decide _); [done |].
  apply orb_false_iff in Er as [E1 E2]. bool_facts.
  assert (Hkeep : (znth false (requested_ a) lv &&
      negb (negb ((if m =? 0 then 0 else m + d) =? 0) && ((if m =? 0 then 0 else m + d) <? znth 0 (requested_made_ns_ b) lv)) &&
      (u + d <=? znth 0 (requested_until_ns_ b) lv)) =
    (znth false (requested_ a) lv && negb (negb (m =? 0) && (m <? znth 0 (requested_made_ns_ a) lv)) &&
      (u <=? znth 0 (requested_until_ns_ a) lv))).
  { destruct (znth false (requested_ a) lv) eqn:Eq; [| done]. cbn [andb].
    destruct (sh_made _ _ _ H lv Eq) as [Hma ->]. rewrite (sh_until _ _ _ H lv Eq), leb_shift. f_equal. f_equal.
    destruct (m =? 0) eqn:Em; bool_facts; cbn [negb]; [by rewrite (proj2 (Z.eqb_eq 0 0)) |].
    rewrite (proj2 (Z.eqb_neq (m + d) 0)) by lia. cbn [negb andb].
    destruct (znth 0 _ lv =? 0) eqn:E0; bool_facts; [rewrite E0, !(proj2 (Z.ltb_ge _ _)) by lia; done |].
    by rewrite !Z.ltb_antisym, leb_shift. }
  rewrite Hkeep. clear Hkeep. match goal with |- shifted _ (if ?k then _ else _) _ => destruct k end; [done |].
  destruct H as [? ? ? ? ? ? ? ? Hreq ? ? ? ? Hu Hmd ? (L1' & L2' & L3' & L4' & L5')].
  assert (Hlv : (Z.to_nat lv < kLevelSlots)%nat).
  { unfold kLevelSlots, kMaxLevelId, kFirstCustomLevel, kMaxCustomLevels in *. lia. }
  constructor; try done; cbn [set_requests requested_ requested_until_ns_ requested_made_ns_].
  - intros id Hid. rewrite znth_insert in Hid by lia. rewrite !znth_insert by lia. case_decide; [done | by apply Hu].
  - intros id Hid. rewrite znth_insert in Hid by lia. rewrite !znth_insert by lia. case_decide; [done | by apply Hmd].
  - rewrite !length_insert. done.
Qed.

(** Every live instant is an instant below [B]. *)
Record live_below (B : Z) (sch : Scheduler) : Prop := {
  lb_esc : escalated_ sch = true -> had_anomaly_ sch = true;
  lb_anomaly : had_anomaly_ sch = true -> 0 <= last_anomaly_ns_ sch < B;
  lb_client : had_clients_ sch = true -> 0 <= last_client_active_ns_ sch < B;
  lb_run : in_anomaly_run_ sch = true -> 0 <= anomaly_run_start_ns_ sch < B;
  lb_until : Forall (fun u => 0 <= u < B) (requested_until_ns_ sch);
  lb_made : Forall (fun m => 0 <= m < B) (requested_made_ns_ sch);
  lb_tick : 0 <= last_tick_ns_ sch < B;
  lb_slots : length (requested_ sch) = kLevelSlots /\ length (requested_until_ns_ sch) = kLevelSlots /\
    length (requested_made_ns_ sch) = kLevelSlots
}.

Definition op_below (B : Z) (o : sched_op) : Prop :=
  match o with
  | OTick s => 0 <= timestamp_nanos s < B
  | ORequest _ u m | ORequestName _ u m => 0 <= u < B /\ 0 <= m < B
  | _ => True
  end.

Lemma new_live B cfg : 0 < B -> live_below B (new_Scheduler cfg).
Proof. intros. constructor; cbn [new_Scheduler]; try done; try lia; apply Forall_replicate; lia. Qed.

Lemma set_anomaly_live B sch x la had run st esc :
  live_below B sch -> (esc = true -> had = true) -> (had = true -> 0 <= la < B) -> (run = true -> 0 <= st < B) ->
  live_below B (set_anomaly x la had run st esc sch).
Proof. intros [] ???. by constructor. Qed.

Lemma set_clients_live B sch n lc had :
  live_below B sch -> (had = true -> 0 <= lc < B) -> live_below B (set_clients n lc had sch).
Proof. intros [] ?. by constructor. Qed.

Lemma request_live B sch lv u m :
  live_below B sch -> 0 <= u < B -> 0 <= m < B -> live_below B (request lv u m sch).
Proof.
  intros H Hu Hm. destruct (request_cases lv u m sch) as [-> | ->]; [done |].
  destruct H as [? ? ? ? Hfu Hfm ? ?]. constructor; try done; cbn; rewrite ?length_insert; try done; by apply Forall_insert.
Qed.

Lemma tick_live B s sch :
  live_below B sch -> last_tick_ns_ sch <= timestamp_nanos s < B -> live_below B (snd (tick s sch)).
Proof.
  intros H Ht. unfold tick. rewrite step_back_none by lia. cbn [snd].
  set (now := timestamp_nanos s) in *. pose proof (lb_tick _ _ H) as H0.
  assert (H1 : live_below B (set_last_tick now sch)) by (destruct H; constructor; try done; cbn; lia).
  set (x := check_anomaly _ _). set (s1 := set_last_tick now sch) in *.
  assert (H2 : live_below B (update_anomaly x now s1)).
  { unfold update_anomaly. cbn [cfg_ set_anomaly].
    assert (Hx : live_below B (set_anomaly x (last_anomaly_ns_ s1) (had_anomaly_ s1) (in_anomaly_run_ s1)
      (anomaly_run_start_ns_ s1) (escalated_ s1) s1)) by (apply set_anomaly_live; [done | apply H1 | apply H1 | apply H1]).
    destruct (bool_decide _); [done |]. destruct (is_anomaly x).
    - apply set_anomaly_live; [done | done | lia |]. intros _. cbn.
      destruct (in_anomaly_run_ sch) eqn:E; [by apply (lb_run _ _ H) | lia].
    - destruct (negb _); [| done]. apply set_anomaly_live; [done | apply H1 | apply H1 | done]. }
  assert (H3 : live_below B (end_escalation now (update_anomaly x now s1))).
  { unfold end_escalation. destruct (_ && _ && _); [| done]. apply set_anomaly_live; [done | done | apply H2 | done]. }
  set (s3 := end_escalation _ _) in *.
  assert (H4 : live_below B (note_clients now s3)).
  { unfold note_clients. destruct (_ <? _); [| done]. apply set_clients_live; [done | lia]. }
  set (s4 := note_clients now s3) in *. generalize (select s4 now). intros lv. destruct H4. by constructor.
Qed.

Lemma step_live B o sch :
  live_below B sch -> op_below B o ->
  match o with OTick s => last_tick_ns_ sch <= timestamp_nanos s | OStepForward _ => False | _ => True end ->
  live_below B (sched_step o sch).
Proof.
  intros H Ho Hs. destruct o; cbn [sched_step op_below] in *; try done.
  - apply tick_live; [done | lia].
  - destruct Ho. by apply request_live.
  - unfold request_by_name. destruct Ho. destruct (level_by_name _ _); [by apply request_live | done].
  - apply set_clients_live; [done | apply H].
  - apply set_clients_live; [done | apply H].
  - unfold client_disconnected. destruct (_ <? _); [apply set_clients_live; [done | apply H] | done].
Qed.

Lemma step_last_tick o sch :
  match o with OTick s => last_tick_ns_ sch <= timestamp_nanos s | OStepForward _ => False | _ => True end ->
  last_tick_ns_ (sched_step o sch) = match o with OTick s => timestamp_nanos s | _ => last_tick_ns_ sch end.
Proof.
  intros Hs. assert (Hr : forall lv u m, last_tick_ns_ (request lv u m sch) = last_tick_ns_ sch)
    by (intros; destruct (request_cases lv u m sch) as [-> | ->]; done).
  destruct o; cbn [sched_step]; try done.
  - by apply tick_anomaly_fields.
  - unfold request_by_name. destruct (level_by_name _ _); [apply Hr | done].
  - unfold client_disconnected. by destruct (_ <? _).
Qed.

Definition op_steady (clock : Z) (o : sched_op) : Prop :=
  match o with OTick s => clock <= timestamp_nanos s | OStepForward _ => False | _ => True end.
Definition op_clock (clock : Z) (o : sched_op) : Z :=
  match o with OTick s => timestamp_nanos s | _ => clock end.

Lemma steady_cons clock o ops : steady clock (o :: ops) -> op_steady clock o /\ steady (op_clock clock o) ops.
Proof. destruct o; cbn [steady op_steady op_clock]; intros H; try done. destruct H as [H1 H2]. split; [lia | done]. Qed.

Lemma run_live B ops : forall sch,
  live_below B sch -> Forall (op_below B) ops -> steady (last_tick_ns_ sch) ops ->
  live_below B (sched_run ops sch).
Proof.
  induction ops as [| o ops IH]; intros sch H Ho Hs; [done |]. apply Forall_cons in Ho as [Ho Hos].
  apply steady_cons in Hs as [Hc Hs].
  cbn [sched_run]. apply IH; [by apply step_live | done |]. by rewrite step_last_tick.
Qed.

(** The clock stepping forward is the shift. *)
Lemma znth_map_requested sch f l id :
  znth false (requested_ sch) id = true -> (Z.to_nat id < length l)%nat ->
  znth 0 (map_requested sch f l) id = f (Z.of_nat (Z.to_nat id)) (znth 0 l id).
Proof.
  intros Hr Hl. unfold znth at 1. rewrite nth_lookup. unfold map_requested. rewrite list_lookup_imap.
  destruct (lookup_lt_is_Some_2 l (Z.to_nat id) Hl) as [v Hv]. rewrite Hv. cbn.
  unfold znth in *. rewrite Nat2Z.id, Hr. by rewrite (nth_lookup_Some _ _ _ _ Hv).
Qed.

Lemma requested_range sch id :
  length (requested_ sch) = kLevelSlots -> znth false (requested_ sch) id = true -> (Z.to_nat id < kLevelSlots)%nat.
Proof.
  intros Hl H. rewrite <- Hl. destruct (decide (Z.to_nat id < length (requested_ sch))%nat); [done |].
  unfold znth in H. by rewrite nth_overflow in H by lia.
Qed.

Lemma Forall_znth (P : Z -> Prop) l i : Forall P l -> (Z.to_nat i < length l)%nat -> P (znth 0 l i).
Proof.
  intros H Hl. destruct (lookup_lt_is_Some_2 l _ Hl) as [v Hv]. unfold znth. rewrite (nth_lookup_Some _ _ _ _ Hv).
  rewrite Forall_lookup in H. by eapply H.
Qed.

Lemma step_forward_shifted d sch :
  0 <= d -> live_below (2 ^ 64 - d) sch -> shifted d sch (clock_stepped_forward d sch).
Proof.
  intros Hd [L1' L2' L3' L4' L5' L6' L7' (S1 & S2 & S3)].
  assert (Hm : forall t, 0 <= t < 2 ^ 64 - d -> u64 (t + d) = t + d)
    by (intros; unfold u64; apply wrap_small; unfold is_uint; lia).
  constructor; try done; cbn [clock_stepped_forward set_requests set_timers last_anomaly_ns_ last_client_active_ns_
    anomaly_run_start_ns_ last_tick_ns_ requested_until_ns_ requested_made_ns_ requested_].
  - intros H. rewrite H. auto.
  - intros H. rewrite H. auto.
  - intros H. rewrite H. auto.
  - intros id H. pose proof (requested_range _ _ S1 H). rewrite znth_map_requested by (done || lia).
    apply Hm. apply (Forall_znth _ _ _ L5'). lia.
  - intros id H. pose proof (requested_range _ _ S1 H). rewrite znth_map_requested by (done || lia).
    assert (Hb : 0 <= znth 0 (requested_made_ns_ sch) id < 2 ^ 64 - d) by (apply (Forall_znth _ _ _ L6'); lia).
    split; [lia |]. destruct (_ =? 0) eqn:E; bool_facts; [done | by apply Hm].
  - destruct (_ =? 0) eqn:E; bool_facts; [by right | left; by apply Hm].
  - unfold map_requested. rewrite !length_imap. done.
Qed.

Lemma step_shift d o a b :
  0 <= d -> shifted d a b -> 0 <= last_tick_ns_ a -> made_ok o ->
  match o with OTick s => last_tick_ns_ a <= timestamp_nanos s | OStepForward _ => False | _ => True end ->
  shifted d (sched_step o a) (sched_step (shift_op d o) b).
Proof.
  intros Hd H H0 Hm Hs. destruct o; cbn [sched_step shift_op made_ok] in *; try done.
  - by apply tick_shift.
  - by apply request_shift.
  - unfold request_by_name. rewrite (sh_cfg _ _ _ H). destruct (level_by_name _ _); [by apply request_shift | done].
  - unfold set_client_count. rewrite (sh_had_clients _ _ _ H). apply set_clients_shift; [done | apply H].
  - unfold client_connected. rewrite (sh_clients _ _ _ H), (sh_had_clients _ _ _ H).
    apply set_clients_shift; [done | apply H].
  - unfold client_disconnected. rewrite (sh_clients _ _ _ H), (sh_had_clients _ _ _ H).
    destruct (_ <? _); [apply set_clients_shift; [done | apply H] | done].
Qed.

Lemma levels_shift d ops : forall a b,
  0 <= d -> shifted d a b -> 0 <= last_tick_ns_ a -> Forall made_ok ops -> steady (last_tick_ns_ a) ops ->
  sched_levels (map (shift_op d) ops) b = sched_levels ops a.
Proof.
  induction ops as [| o ops IH]; intros a b Hd H H0 Hm Hs; [done |]. apply Forall_cons in Hm as [Hm Hms].
  apply steady_cons in Hs as [Hc Hs].
  assert (Hrest : sched_levels (map (shift_op d) ops) (sched_step (shift_op d o) b) = sched_levels ops (sched_step o a)).
  { apply IH; [done | by apply step_shift | | done | by rewrite step_last_tick].
    rewrite step_last_tick by done. destruct o; cbn [op_steady] in Hc; lia. }
  destruct o; cbn [map sched_levels shift_op]; cbn [shift_op] in Hrest; rewrite Hrest; try reflexivity. f_equal.
  cbn [op_steady] in Hc. destruct (tick_shift d a b s Hd H ltac:(lia)) as [Hfst _]. exact Hfst.
Qed.

(** C14: A forward step of the wall clock is invisible to the levels: after any
    run in which the clock was steady, when the clock steps forward by [d] and
    the serve loop calls [clock_stepped_forward], every later run on the new
    clock (ticks and requests [d] later) returns exactly the levels it would
    have returned had the clock not stepped. *)
Theorem clock_step_forward_invisible cfg d before after :
  let sch := sched_run before (new_Scheduler cfg) in
  0 <= d < 2 ^ 64 -> Forall (op_below (2 ^ 64 - d)) before -> steady 0 before ->
  Forall made_ok after -> steady (last_tick_ns_ sch) after ->
  sched_levels (map (shift_op d) after) (clock_stepped_forward d sch) = sched_levels after sch.
Proof.
  intros sch Hd Hb Hs Hm Ha.
  assert (Hl : live_below (2 ^ 64 - d) sch) by (apply run_live; [apply new_live; lia | done | done]).
  apply levels_shift; [lia | by apply step_forward_shifted; [lia |] | apply Hl | done | done].
Qed.

Lemma clock_step_forward_invisible_witness :
  let before := [OTick (load_sample 1000000000 9); OTick (load_sample 2000000000 9)] in
  let after := [OTick (load_sample 3000000000 9); OClients 1; OTick (load_sample 4000000000 1)] in
  let sch := sched_run before (new_Scheduler (cfg_ex Adaptive)) in
  let d := 3600 * kNanosPerSec in
  sched_levels after sch = [L2; L3] /\
  sched_levels (map (shift_op d) after) (clock_stepped_forward d sch) = sched_levels after sch.
Proof.
  set (before := [OTick (load_sample 1000000000 9); OTick (load_sample 2000000000 9)]).
  set (after := [OTick (load_sample 3000000000 9); OClients 1; OTick (load_sample 4000000000 1)]).
  split; [vm_compute; reflexivity |].
  apply (clock_step_forward_invisible (cfg_ex Adaptive) (3600 * kNanosPerSec) before after).
  - split; vm_compute; congruence.
  - repeat constructor; vm_compute; congruence.
  - repeat constructor; vm_compute; congruence.
  - repeat constructor.
  - repeat constructor; vm_compute; congruence.
Defined.

(** ** On-demand mode *)

(** [a] and [b] differ in what the thresholds found only. *)
Record same_but_anomaly (a b : Scheduler) : Prop := {
  sb_eq : b = set_anomaly (anomaly_ b) (last_anomaly_ns_ a) false (in_anomaly_run_ a) (anomaly_run_start_ns_ a) false a;
  sb_mode : cfg_mode (cfg_ a) = OnDemand;
  sb_had : had_anomaly_ a = false;
  sb_esc : escalated_ a = false
}.

Lemma select_on_demand a b now : same_but_anomaly a b -> select b now = select a now.
Proof.
  intros [Heq Hm Hh He]. rewrite Heq. unfold select, l2_active, l3_active, requested. cbn.
  rewrite Hm, Hh, He. done.
Qed.

(** Ticks at the same times, the other operations the same. *)
Inductive same_times : sched_op -> sched_op -> Prop :=
| st_tick s s' : timestamp_nanos s = timestamp_nanos s' -> same_times (OTick s) (OTick s')
| st_same o : same_times o o.

Lemma step_back_on_demand a b now : same_but_anomaly a b -> same_but_anomaly (step_back now a) (step_back now b).
Proof.
  intros [Heq Hm Hh He]. rewrite Heq. unfold step_back. cbn. rewrite Hh.
  destruct (_ && _); constructor; cbn; rewrite ?Hh; done.
Qed.

Lemma update_on_demand a b x y now :
  same_but_anomaly a b ->
  same_but_anomaly (end_escalation now (update_anomaly x now a)) (end_escalation now (update_anomaly y now b)).
Proof.
  intros [Heq Hm Hh He]. rewrite Heq. unfold update_anomaly. cbn. rewrite Hm. rewrite !bool_decide_eq_true_2 by done.
  unfold end_escalation. cbn. rewrite He. constructor; cbn; rewrite ?Hh; done.
Qed.

Lemma rest_on_demand a b now lv :
  same_but_anomaly a b ->
  same_but_anomaly (set_last_tick now a) (set_last_tick now b) /\
  same_but_anomaly (note_clients now a) (note_clients now b) /\
  same_but_anomaly (set_selected lv a) (set_selected lv b).
Proof.
  intros [Heq Hm Hh He]. rewrite Heq. split_and!; [by constructor | | by constructor].
  unfold note_clients. cbn. destruct (_ <? _); by constructor.
Qed.

Lemma tick_on_demand a b s s' :
  same_but_anomaly a b -> timestamp_nanos s = timestamp_nanos s' ->
  fst (tick s' b) = fst (tick s a) /\ same_but_anomaly (snd (tick s a)) (snd (tick s' b)).
Proof.
  intros H Ht. unfold tick. rewrite <- Ht. set (now := timestamp_nanos s).
  pose proof (step_back_on_demand a b now H) as H1. apply (rest_on_demand _ _ now L1) in H1 as (H2 & _).
  set (a2 := set_last_tick now (step_back now a)) in *. set (b2 := set_last_tick now (step_back now b)) in *.
  pose proof (update_on_demand a2 b2 (check_anomaly s a2) (check_anomaly s' b2) now H2) as H3.
  apply (rest_on_demand _ _ now L1) in H3 as (_ & H4 & _). cbn [fst snd].
  set (a4 := note_clients now (end_escalation now (update_anomaly (check_anomaly s a2) now a2))) in *.
  set (b4 := note_clients now (end_escalation now (update_anomaly (check_anomaly s' b2) now b2))) in *.
  rewrite (select_on_demand _ _ now H4). split; [done |]. by apply (rest_on_demand _ _ now).
Qed.

Lemma step_on_demand a b o :
  match o with OTick _ => False | _ => True end -> same_but_anomaly a b ->
  same_but_anomaly (sched_step o a) (sched_step o b).
Proof.
  intros Ho [Heq Hm Hh He]. rewrite Heq.
  assert (Hr : forall lv u m, same_but_anomaly (request lv u m a)
    (request lv u m (set_anomaly (anomaly_ b) (last_anomaly_ns_ a) false (in_anomaly_run_ a) (anomaly_run_start_ns_ a) false a))).
  { intros. unfold request. cbn -[znth]. destruct (_ || _); [by constructor |]. destruct (_ && bool_decide _); [by constructor |].
    match goal with |- same_but_anomaly (if ?k then _ else _) _ => destruct k end; by constructor. }
  destruct o; cbn [sched_step]; try done; try (by constructor).
  - unfold request_by_name. cbn. destruct (level_by_name _ _); [apply Hr | by constructor].
  - unfold client_disconnected. cbn. destruct (_ <? _); by constructor.
  - unfold clock_stepped_forward. cbn. rewrite Hh. constructor; cbn; rewrite ?Hh; done.
Qed.

(** Nothing has asked for a level. *)
Record idle (a : Scheduler) : Prop := {
  id_mode : cfg_mode (cfg_ a) = OnDemand;
  id_clients : client_count_ a = 0;
  id_had_clients : had_clients_ a = false;
  id_had_anomaly : had_anomaly_ a = false;
  id_esc : escalated_ a = false;
  id_requested : requested_ a = replicate kLevelSlots false
}.

Lemma idle_requested a now lv : idle a -> requested a now lv = false.
Proof.
  intros H. unfold requested. rewrite (id_requested _ H). unfold znth. rewrite nth_lookup.
  destruct (replicate _ _ !! _) as [v |] eqn:E; [| done]. apply lookup_replicate in E as [-> _]. done.
Qed.

Lemma fold_left_skip {A B} (cond : B -> bool) (f : B -> A -> A) l (a : A) :
  (forall x, cond x = false) -> fold_left (fun a x => if cond x then f x a else a) l a = a.
Proof. intros H. induction l as [| x l IH]; [done |]. cbn. by rewrite H. Qed.

Lemma idle_select a now : idle a -> select a now = L1.
Proof.
  intros H. unfold select.
  assert (H2 : l2_active a now = false).
  { unfold l2_active. rewrite (id_mode _ H), (id_had_anomaly _ H), (idle_requested _ _ _ H). done. }
  assert (H3 : l3_active a now = false).
  { unfold l3_active.
    rewrite (id_mode _ H), (id_clients _ H), (id_had_clients _ H), (id_esc _ H), (idle_requested _ _ _ H). done. }
  rewrite H2, H3. rewrite (fold_left_skip (fun c => requested a now (cl_id c))); [done |].
  intros c. by apply idle_requested.
Qed.

Lemma tick_idle s a : idle a -> fst (tick s a) = L1 /\ idle (snd (tick s a)) /\ cfg_ (snd (tick s a)) = cfg_ a.
Proof.
  intros H. unfold tick. set (now := timestamp_nanos s).
  assert (H1 : idle (set_last_tick now (step_back now a)) /\ cfg_ (set_last_tick now (step_back now a)) = cfg_ a).
  { destruct H. unfold step_back. destruct (_ && _); (split; [by constructor | done]). }
  destruct H1 as [H1 Hc1]. set (a1 := set_last_tick now (step_back now a)) in *. clearbody a1.
  set (a2 := note_clients now (end_escalation now (update_anomaly (check_anomaly s a1) now a1))).
  assert (H2 : idle a2 /\ cfg_ a2 = cfg_ a1).
  { destruct H1 as [Hm Hc Hhc Hha He Hr]. unfold a2, update_anomaly. cbn. rewrite (bool_decide_eq_true_2 _ Hm).
    unfold end_escalation. cbn. rewrite He. unfold note_clients. cbn. rewrite Hc. cbn. split; [by constructor | done]. }
  destruct H2 as [H2 Hc2]. cbn [fst snd]. rewrite (idle_select _ now H2).
  split_and!; [done | destruct H2; by constructor | by rewrite <- Hc1, <- Hc2].
Qed.

(** C15: In on-demand mode thresholds raise nothing: two runs from a new
    scheduler with the same requests, client changes and clock steps and with
    ticks at the same times return the same levels, whatever the samples hold;
    and until a client connects or a level is requested, that level is L1,
    which [collects] nothing. *)
Theorem on_demand_ignores_thresholds cfg ops ops' :
  cfg_mode cfg = OnDemand -> Forall2 same_times ops ops' ->
  sched_levels ops' (new_Scheduler cfg) = sched_levels ops (new_Scheduler cfg) /\
  (Forall (fun o => match o with OTick _ => True | _ => False end) ops ->
   Forall (fun lv => lv = L1 /\ collects cfg lv = false) (sched_levels ops (new_Scheduler cfg))).
Proof.
  intros Hm Hops. split.
  - assert (H : same_but_anomaly (new_Scheduler cfg) (new_Scheduler cfg)) by (by constructor).
    revert H. generalize (new_Scheduler cfg) at 2 3 as b. generalize (new_Scheduler cfg) as a.
    induction Hops as [| o o' ops ops' Ho Hops IH]; intros a b H; [done |]. destruct Ho as [s s' Ht | o].
    + cbn [sched_levels]. destruct (tick_on_demand a b s s' H Ht) as [Hl Hs]. rewrite Hl. f_equal. by apply IH.
    + destruct o; cbn [sched_levels]; try (apply IH; by apply step_on_demand).
      destruct (tick_on_demand a b s s H eq_refl) as [Hl Hs]. rewrite Hl. f_equal. by apply IH.
  - assert (H : idle (new_Scheduler cfg)) by (by constructor).
    revert H. generalize (new_Scheduler cfg) as a. clear Hops. intros a Ha Ht. revert a Ha.
    induction Ht as [| o ops Ho Ht IH]; intros a Ha; [constructor |]. destruct o as [s | | | | | |]; try done.
    cbn [sched_levels]. destruct (tick_idle s a Ha) as (Hl & Hi & _). constructor; [| by apply IH].
    rewrite Hl. split; [done |]. unfold collects. rewrite Hm. done.
Qed.

Lemma on_demand_ignores_thresholds_witness :
  let ops := [OTick (load_sample 1000000000 9)] in
  let ops' := [OTick (load_sample 1000000000 0)] in
  sched_levels ops' (new_Scheduler (cfg_ex OnDemand)) = sched_levels ops (new_Scheduler (cfg_ex OnDemand)).
Proof.
  apply (on_demand_ignores_thresholds (cfg_ex OnDemand) [OTick (load_sample 1000000000 9)]
    [OTick (load_sample 1000000000 0)]); [reflexivity |]. repeat constructor.
Defined.
