(* ===== verification/JsonText.v ===== *)
(** JSON string escaping and UTF-8 repair (src/core/json_text.h,
    src/core/json_text.cpp).  A loop over an index [i] of [s] is a recursion on
    the suffix of [s] at [i], with the string's length as fuel (every turn
    consumes a byte).  UTF-8 itself is specified by the encoder [append_utf8]
    on Unicode scalar values: [utf8_len] recognises exactly its images. *)
From Stdlib Require Import ZArith Lia List Bool.
From stdpp Require Import base numbers list strings.
From S2P Require Import Prelude.
Open Scope Z_scope.

Definition ch_quote : Z := 34.
Definition ch_backslash : Z := 92.
Definition in_range (lo hi c : Z) : bool := (lo <=? c) && (c <=? hi).

(** The value of a hex digit. *)
Definition hex_value (h : Z) : option Z :=
  if in_range 48 57 h then Some (h - 48)
  else if in_range 97 102 h then Some (h - 97 + 10)
  else if in_range 65 70 h then Some (h - 65 + 10)
  else None.

(** [hex4]'s loop on the next [k] characters. *)
Fixpoint hex_loop (k : nat) (code : Z) (s : bytes) : Z :=
  match k with
  | O => code
  | S k =>
      match s with
      | [] => 65533
      | h :: r =>
          match hex_value h with
          | Some v => hex_loop k (Z.lor (Z.shiftl code 4) v) r
          | None => 65533
          end
      end
  end.
Definition hex4 (s : bytes) : Z := hex_loop 4 0 s.

(** What [append_utf8] adds to the output. *)
Definition append_utf8 (code : Z) : bytes :=
  if code <? 128 then [code]
  else if code <? 2048 then
    [Z.lor 192 (Z.shiftr code 6); Z.lor 128 (Z.land code 63)]
  else if code <? 65536 then
    [Z.lor 224 (Z.shiftr code 12); Z.lor 128 (Z.land (Z.shiftr code 6) 63); Z.lor 128 (Z.land code 63)]
  else
    [Z.lor 240 (Z.shiftr code 18); Z.lor 128 (Z.land (Z.shiftr code 12) 63);
     Z.lor 128 (Z.land (Z.shiftr code 6) 63); Z.lor 128 (Z.land code 63)].

(** The length, and the second byte's range, that the first byte promises. *)
Definition utf8_lead (c : Z) : option (Z * Z * Z) :=
  if in_range 194 223 c then Some (2, 128, 191)
  else if c =? 224 then Some (3, 160, 191)
  else if c =? 237 then Some (3, 128, 159)
  else if in_range 225 239 c then Some (3, 128, 191)
  else if c =? 240 then Some (4, 144, 191)
  else if in_range 241 243 c then Some (4, 128, 191)
  else if c =? 244 then Some (4, 128, 143)
  else None.

(** [utf8_len(s, i)], on the suffix at [i]. *)
Definition utf8_len (s : bytes) : Z :=
  match s with
  | [] => 0
  | c :: _ =>
      match utf8_lead c with
      | None => 0
      | Some (n, lo, hi) =>
          if (zlen s <? n) || (znth 0 s 1 <? lo) || (hi <? znth 0 s 1) then 0
          else if forallb (fun k => in_range 128 191 (znth 0 s k)) (seqZ 2 (n - 2)) then n
          else 0
      end
  end.

Definition replacement : bytes := [239; 191; 189].

Fixpoint sanitize_loop (fuel : nat) (s : bytes) : bytes :=
  match fuel, s with
  | S fuel, c :: r =>
      if c <? 128 then c :: sanitize_loop fuel r
      else
        let n := utf8_len s in
        if n =? 0 then replacement ++ sanitize_loop fuel r
        else ztake n s ++ sanitize_loop fuel (zdrop n s)
  | _, _ => []
  end.
Definition utf8_sanitize (s : bytes) : bytes := sanitize_loop (length s) s.

Definition hex_digit (v : Z) : Z := if v <? 10 then 48 + v else 97 + (v - 10).
(** [snprintf("\\u%04x", c)] for a byte. *)
Definition u_escape (c : Z) : bytes :=
  [ch_backslash; 117; 48; 48; hex_digit (c / 16); hex_digit (c mod 16)].

(** The [switch] of [json_escape], on a byte below 0x80. *)
Definition escape_ascii (c : Z) : bytes :=
  if c =? ch_quote then [ch_backslash; ch_quote]
  else if c =? ch_backslash then [ch_backslash; ch_backslash]
  else if c =? 8 then [ch_backslash; 98]
  else if c =? 12 then [ch_backslash; 102]
  else if c =? 10 then [ch_backslash; 110]
  else if c =? 13 then [ch_backslash; 114]
  else if c =? 9 then [ch_backslash; 116]
  else if c <? 32 then u_escape c
  else [c].

Fixpoint escape_loop (fuel : nat) (s : bytes) : bytes :=
  match fuel, s with
  | S fuel, c :: r =>
      if 128 <=? c then
        let n := utf8_len s in
        if n =? 0 then [ch_backslash; 117; 102; 102; 102; 100] ++ escape_loop fuel r
        else ztake n s ++ escape_loop fuel (zdrop n s)
      else escape_ascii c ++ escape_loop fuel r
  | _, _ => []
  end.
Definition json_escape (s : bytes) : bytes := escape_loop (length s) s.

(** The code point of the [\u] escape at [s] ([s] at least 6 long) and how
    many characters it takes: a surrogate pair takes both escapes. *)
Definition u_code (s : bytes) : Z * Z :=
  let code := hex4 (zdrop 2 s) in
  let t := zdrop 6 s in
  if in_range 55296 56319 code then
    let lo := if (5 <? zlen t) && (znth 0 t 0 =? ch_backslash) && (znth 0 t 1 =? 117) then hex4 (zdrop 2 t) else 0 in
    if in_range 56320 57343 lo then (65536 + Z.shiftl (code - 55296) 10 + (lo - 56320), 12)
    else (65533, 6)
  else if in_range 56320 57343 code then (65533, 6)
  else (code, 6).

Definition unescape_char (c : Z) : Z :=
  if c =? 98 then 8 else if c =? 102 then 12 else if c =? 110 then 10 else if c =? 114 then 13
  else if c =? 116 then 9 else c.

Fixpoint unescape_loop (fuel : nat) (s : bytes) : bytes :=
  match fuel, s with
  | S fuel, b :: r =>
      match r with
      | c :: r' =>
          if negb (b =? ch_backslash) then b :: unescape_loop fuel r
          else if c =? 117 then
            if zlen s <=? 5 then b :: unescape_loop fuel r
            else let '(code, k) := u_code s in append_utf8 code ++ unescape_loop fuel (zdrop k s)
          else unescape_char c :: unescape_loop fuel r'
      | [] => b :: unescape_loop fuel r
      end
  | _, _ => []
  end.
Definition json_unescape (s : bytes) : bytes := unescape_loop (length s) s.

(** ** UTF-8 *)

(** A Unicode scalar value. *)
Definition scalar (c : Z) : Prop := 0 <= c <= 1114111 /\ ~ (55296 <= c <= 57343).

(** Well-formed UTF-8: the encodings of scalar values. *)
Inductive utf8_valid : bytes -> Prop :=
| valid_nil : utf8_valid []
| valid_cons c s : scalar c -> utf8_valid s -> utf8_valid (append_utf8 c ++ s).

Lemma forall_below n (P : Z -> Prop) (f : Z -> bool) :
  (forall x, f x = true -> P x) -> forallb f (seqZ 0 n) = true -> forall x, 0 <= x < n -> P x.
Proof.
  intros Hf Hall x Hx. apply Hf. rewrite forallb_forall in Hall. apply Hall.
  apply list_elem_of_In, elem_of_seqZ. lia.
Qed.

Lemma lor_128 x : 0 <= x < 64 -> Z.lor 128 x = 128 + x.
Proof. apply (forall_below 64 (fun x => Z.lor 128 x = 128 + x) (fun x => Z.lor 128 x =? 128 + x)); [intros; by apply Z.eqb_eq | by vm_compute]. Qed.
Lemma lor_192 x : 0 <= x < 32 -> Z.lor 192 x = 192 + x.
Proof. apply (forall_below 32 (fun x => Z.lor 192 x = 192 + x) (fun x => Z.lor 192 x =? 192 + x)); [intros; by apply Z.eqb_eq | by vm_compute]. Qed.
Lemma lor_224 x : 0 <= x < 16 -> Z.lor 224 x = 224 + x.
Proof. apply (forall_below 16 (fun x => Z.lor 224 x = 224 + x) (fun x => Z.lor 224 x =? 224 + x)); [intros; by apply Z.eqb_eq | by vm_compute]. Qed.
Lemma lor_240 x : 0 <= x < 8 -> Z.lor 240 x = 240 + x.
Proof. apply (forall_below 8 (fun x => Z.lor 240 x = 240 + x) (fun x => Z.lor 240 x =? 240 + x)); [intros; by apply Z.eqb_eq | by vm_compute]. Qed.

Lemma land_63 x : Z.land x 63 = x mod 64.
Proof. change 63 with (Z.ones 6). by rewrite Z.land_ones. Qed.

(** The encoder with division in place of bit operations. *)
Lemma append_utf8_arith c :
  0 <= c <= 1114111 ->
  append_utf8 c =
  if c <? 128 then [c]
  else if c <? 2048 then [192 + c / 64; 128 + c mod 64]
  else if c <? 65536 then [224 + c / 4096; 128 + c / 64 mod 64; 128 + c mod 64]
  else [240 + c / 262144; 128 + c / 4096 mod 64; 128 + c / 64 mod 64; 128 + c mod 64].
Proof.
  intros Hc. unfold append_utf8. rewrite !Z.shiftr_div_pow2, !land_63 by lia.
  change (2 ^ 6) with 64. change (2 ^ 12) with 4096. change (2 ^ 18) with 262144.
  pose proof (Z.mod_pos_bound c 64 ltac:(lia)). pose proof (Z.mod_pos_bound (c / 64) 64 ltac:(lia)).
  pose proof (Z.mod_pos_bound (c / 4096) 64 ltac:(lia)).
  repeat (case_match; bool_facts; [try done | try done]).
  - rewrite lor_192, lor_128 by (Z.to_euclidean_division_equations; lia). done.
  - rewrite lor_224, !lor_128 by (Z.to_euclidean_division_equations; lia). done.
  - rewrite lor_240, !lor_128 by (Z.to_euclidean_division_equations; lia). done.
Qed.

Lemma in_range_spec lo hi c : in_range lo hi c = true <-> lo <= c <= hi.
Proof. unfold in_range. rewrite andb_true_iff, !Z.leb_le. done. Qed.
Lemma in_range_out lo hi c : in_range lo hi c = false <-> c < lo \/ hi < c.
Proof. unfold in_range. rewrite andb_false_iff, !Z.leb_gt. done. Qed.

Ltac range_facts :=
  repeat match goal with
  | H : in_range _ _ _ = true |- _ => apply in_range_spec in H
  | H : in_range _ _ _ = false |- _ => apply in_range_out in H
  end; bool_facts.

(** What each lead byte promises, in one case analysis. *)
Lemma utf8_lead_cases c n lo hi :
  utf8_lead c = Some (n, lo, hi) ->
  (n = 2 /\ 194 <= c <= 223 /\ lo = 128 /\ hi = 191) \/
  (n = 3 /\ 224 <= c <= 239 /\ 128 <= lo /\ hi <= 191 /\ (c = 224 -> lo = 160) /\ (c = 237 -> hi = 159)) \/
  (n = 4 /\ 240 <= c <= 244 /\ 128 <= lo /\ hi <= 191 /\ (c = 240 -> lo = 144) /\ (c = 244 -> hi = 143)).
Proof. unfold utf8_lead. intros H. repeat (case_match; range_facts; simplify_eq; try lia). Qed.

Lemma utf8_lead_total c :
  194 <= c <= 244 ->
  exists lo hi, utf8_lead c = Some (if c <? 224 then 2 else if c <? 240 then 3 else 4, lo, hi) /\
    (lo = if c =? 224 then 160 else if c =? 240 then 144 else 128) /\
    (hi = if c =? 237 then 159 else if c =? 244 then 143 else 191).
Proof.
  intros Hc. unfold utf8_lead.
  repeat (case_match; range_facts; subst; try lia); eauto.
Qed.

Definition utf8_ok_len (n : Z) (s : bytes) : Prop :=
  exists c, scalar c /\ 128 <= c /\ ztake n s = append_utf8 c /\ 2 <= n <= zlen s /\ n = zlen (append_utf8 c).

Lemma sound2 c b r :
  194 <= c <= 223 -> 128 <= b <= 191 -> utf8_ok_len 2 (c :: b :: r).
Proof.
  intros. exists ((c - 192) * 64 + (b - 128)). unfold scalar.
  rewrite append_utf8_arith by lia. rewrite (proj2 (Z.ltb_ge _ _)), (proj2 (Z.ltb_lt _ _)) by lia.
  split_and!; try lia; try done; [| unfold zlen; cbn; lia].
  change (ztake 2 _) with [c; b]. f_equal; [| f_equal]; Z.to_euclidean_division_equations; lia.
Qed.

Lemma sound3 c b1 b2 r :
  224 <= c <= 239 -> 128 <= b1 <= 191 -> 128 <= b2 <= 191 -> (c = 224 -> 160 <= b1) -> (c = 237 -> b1 <= 159) ->
  utf8_ok_len 3 (c :: b1 :: b2 :: r).
Proof.
  intros. exists ((c - 224) * 4096 + (b1 - 128) * 64 + (b2 - 128)). unfold scalar.
  rewrite append_utf8_arith by lia.
  rewrite !(proj2 (Z.ltb_ge _ _)), (proj2 (Z.ltb_lt _ _)) by lia.
  split_and!; try lia; try done; [| unfold zlen; cbn; lia].
  change (ztake 3 _) with [c; b1; b2]. f_equal; [| f_equal; [| f_equal]]; Z.to_euclidean_division_equations; lia.
Qed.

Lemma sound4 c b1 b2 b3 r :
  240 <= c <= 244 -> 128 <= b1 <= 191 -> 128 <= b2 <= 191 -> 128 <= b3 <= 191 ->
  (c = 240 -> 144 <= b1) -> (c = 244 -> b1 <= 143) -> utf8_ok_len 4 (c :: b1 :: b2 :: b3 :: r).
Proof.
  intros. exists ((c - 240) * 262144 + (b1 - 128) * 4096 + (b2 - 128) * 64 + (b3 - 128)). unfold scalar.
  rewrite append_utf8_arith by lia. rewrite !(proj2 (Z.ltb_ge _ _)) by lia.
  split_and!; try lia; try done; [| unfold zlen; cbn; lia].
  change (ztake 4 _) with [c; b1; b2; b3].
  f_equal; [| f_equal; [| f_equal; [| f_equal]]]; Z.to_euclidean_division_equations; lia.
Qed.

(** [utf8_len] accepts only encodings of scalar values past ASCII ... *)
Lemma utf8_len_sound s : utf8_len s <> 0 -> utf8_ok_len (utf8_len s) s.
Proof.
  destruct s as [| c s]; [done |]. unfold utf8_len. destruct (utf8_lead c) as [[[n lo] hi] |] eqn:El; [| done].
  destruct (_ || _ || _) eqn:Eg; [done |]. destruct (forallb _ _) eqn:Ef; [| done]. intros _.
  apply orb_false_iff in Eg as [Eg E3]. apply orb_false_iff in Eg as [E1 E2]. bool_facts.
  rewrite forallb_forall in Ef. unfold zlen in E1.
  assert (Hk : forall k, 2 <= k < n -> 128 <= znth 0 (c :: s) k <= 191).
  { intros k Hk. apply in_range_spec, Ef, list_elem_of_In, elem_of_seqZ. lia. }
  destruct (utf8_lead_cases _ _ _ _ El) as [(-> & ?) | [(-> & ?) | (-> & ?)]].
  - destruct s as [| b s]; cbn [length] in E1; [lia |]. change (znth 0 (c :: b :: s) 1) with b in *. apply sound2; lia.
  - destruct s as [| b1 [| b2 s]]; cbn [length] in E1; try lia. pose proof (Hk 2 ltac:(lia)) as H2.
    change (znth 0 (c :: b1 :: b2 :: s) 1) with b1 in *. change (znth 0 (c :: b1 :: b2 :: s) 2) with b2 in *.
    apply sound3; lia.
  - destruct s as [| b1 [| b2 [| b3 s]]]; cbn [length] in E1; try lia.
    pose proof (Hk 2 ltac:(lia)) as H2. pose proof (Hk 3 ltac:(lia)) as H3.
    change (znth 0 (c :: b1 :: b2 :: b3 :: s) 1) with b1 in *. change (znth 0 (c :: b1 :: b2 :: b3 :: s) 2) with b2 in *.
    change (znth 0 (c :: b1 :: b2 :: b3 :: s) 3) with b3 in *.
    apply sound4; lia.
Qed.

Lemma complete2 c b r : 194 <= c <= 223 -> 128 <= b <= 191 -> utf8_len (c :: b :: r) = 2.
Proof.
  intros Hc Hb. destruct (utf8_lead_total c) as (lo & hi & Hl & -> & ->); [lia |]. unfold utf8_len. rewrite Hl.
  rewrite (proj2 (Z.ltb_lt c 224)) by lia.
  do 4 rewrite (proj2 (Z.eqb_neq c _)) by lia.
  change (znth 0 (c :: b :: r) 1) with b. rewrite !(proj2 (Z.ltb_ge _ _)) by (rewrite ?zlen_cons; pose proof (zlen_nonneg r); lia).
  done.
Qed.

Lemma complete3 c b1 b2 r :
  224 <= c <= 239 -> 128 <= b1 <= 191 -> 128 <= b2 <= 191 -> (c = 224 -> 160 <= b1) -> (c = 237 -> b1 <= 159) ->
  utf8_len (c :: b1 :: b2 :: r) = 3.
Proof.
  intros Hc Hb1 Hb2 H1 H2. destruct (utf8_lead_total c) as (lo & hi & Hl & -> & ->); [lia |]. unfold utf8_len. rewrite Hl.
  rewrite (proj2 (Z.ltb_ge c 224)), (proj2 (Z.ltb_lt c 240)) by lia.
  change (znth 0 (c :: b1 :: b2 :: r) 1) with b1. pose proof (zlen_nonneg r).
  do 3 (rewrite (proj2 (Z.ltb_ge _ _)) by (rewrite ?zlen_cons; repeat (case_match; bool_facts); lia)).
  change (seqZ 2 (3 - 2)) with [2]. cbn [forallb]. change (znth 0 (c :: b1 :: b2 :: r) 2) with b2.
  by rewrite (proj2 (in_range_spec _ _ _)) by lia.
Qed.

Lemma complete4 c b1 b2 b3 r :
  240 <= c <= 244 -> 128 <= b1 <= 191 -> 128 <= b2 <= 191 -> 128 <= b3 <= 191 ->
  (c = 240 -> 144 <= b1) -> (c = 244 -> b1 <= 143) -> utf8_len (c :: b1 :: b2 :: b3 :: r) = 4.
Proof.
  intros Hc Hb1 Hb2 Hb3 H1 H2. destruct (utf8_lead_total c) as (lo & hi & Hl & -> & ->); [lia |]. unfold utf8_len. rewrite Hl.
  rewrite (proj2 (Z.ltb_ge c 224)), (proj2 (Z.ltb_ge c 240)) by lia.
  change (znth 0 (c :: b1 :: b2 :: b3 :: r) 1) with b1. pose proof (zlen_nonneg r).
  do 3 (rewrite (proj2 (Z.ltb_ge _ _)) by (rewrite ?zlen_cons; repeat (case_match; bool_facts); lia)).
  change (seqZ 2 (4 - 2)) with [2; 3]. cbn [forallb]. change (znth 0 (c :: b1 :: b2 :: b3 :: r) 2) with b2.
  change (znth 0 (c :: b1 :: b2 :: b3 :: r) 3) with b3.
  by rewrite !(proj2 (in_range_spec _ _ _)) by lia.
Qed.

(** ... and every one of them. *)
Lemma utf8_len_complete c r : scalar c -> 128 <= c -> utf8_len (append_utf8 c ++ r) = zlen (append_utf8 c).
Proof.
  intros [Hc Hs] Hc2. rewrite append_utf8_arith by lia. rewrite (proj2 (Z.ltb_ge c 128)) by lia.
  destruct (c <? 2048) eqn:E2; bool_facts; [| destruct (c <? 65536) eqn:E3; bool_facts]; cbn [app].
  - apply complete2; Z.to_euclidean_division_equations; lia.
  - apply complete3; Z.to_euclidean_division_equations; lia.
  - apply complete4; Z.to_euclidean_division_equations; lia.
Qed.

(** ** Strings character by character *)

Inductive token := TAscii (c : Z) | TSeq (c : Z) | TBad (b : Z).

Definition token_ok (t : token) : Prop :=
  match t with TAscii c => 0 <= c < 128 | TSeq c => scalar c /\ 128 <= c | TBad b => 128 <= b < 256 end.

(** How the loops of the source split a string. *)
Inductive splits : bytes -> list token -> Prop :=
| sp_nil : splits [] []
| sp_ascii c r ts : 0 <= c < 128 -> splits r ts -> splits (c :: r) (TAscii c :: ts)
| sp_seq c r ts : scalar c -> 128 <= c -> splits r ts -> splits (append_utf8 c ++ r) (TSeq c :: ts)
| sp_bad b r ts : 128 <= b < 256 -> utf8_len (b :: r) = 0 -> splits r ts -> splits (b :: r) (TBad b :: ts).

Lemma append_utf8_bytes c :
  scalar c -> 128 <= c -> Forall (fun b => 128 <= b < 256) (append_utf8 c) /\ 2 <= zlen (append_utf8 c) <= 4.
Proof.
  intros [Hc _] H. rewrite append_utf8_arith by lia. rewrite (proj2 (Z.ltb_ge c 128)) by lia.
  destruct (c <? 2048) eqn:E1; bool_facts; [| destruct (c <? 65536) eqn:E2; bool_facts];
    (split; [repeat constructor; Z.to_euclidean_division_equations; lia | unfold zlen; cbn; lia]).
Qed.

(** The first byte of a multi-byte encoding and what follows. *)
Lemma append_utf8_head c r :
  scalar c -> 128 <= c ->
  exists b l, append_utf8 c ++ r = b :: l /\ 128 <= b < 256 /\
    ztake (zlen (append_utf8 c)) (b :: l) = append_utf8 c /\ zdrop (zlen (append_utf8 c)) (b :: l) = r.
Proof.
  intros Hs Hc. destruct (append_utf8_bytes c Hs Hc) as [Hf Hl].
  assert (Ht : ztake (zlen (append_utf8 c)) (append_utf8 c ++ r) = append_utf8 c)
    by (unfold ztake, zlen; rewrite Nat2Z.id; apply take_app_length).
  assert (Hd : zdrop (zlen (append_utf8 c)) (append_utf8 c ++ r) = r) by (by apply zdrop_app).
  revert Hf Hl Ht Hd. destruct (append_utf8 c) as [| b l] eqn:E; intros Hf Hl Ht Hd; [unfold zlen in Hl; cbn in Hl; lia |].
  apply Forall_cons in Hf as [Hb _]. exists b, (l ++ r). done.
Qed.

Lemma splits_total s : is_bytes s -> exists ts, splits s ts.
Proof.
  remember (length s) as n eqn:Hn. revert s Hn. induction (lt_wf n) as [n _ IH]. intros s -> Hs.
  destruct s as [| c r]; [exists []; constructor |].
  pose proof Hs as Hs2. apply Forall_cons in Hs2 as [Hc Hr]. unfold is_uint in Hc. change (2 ^ 8) with 256 in Hc.
  destruct (decide (c < 128)) as [Ha | Ha].
  - destruct (IH (length r) ltac:(cbn; lia) r eq_refl Hr) as [ts Hts]. exists (TAscii c :: ts). constructor; [lia | done].
  - destruct (decide (utf8_len (c :: r) = 0)) as [Hz | Hz].
    + destruct (IH (length r) ltac:(cbn; lia) r eq_refl Hr) as [ts Hts]. exists (TBad c :: ts). constructor; [lia | done | done].
    + destruct (utf8_len_sound _ Hz) as (u & Hu & Hu2 & Ht & Hn & Hlen).
      set (n := utf8_len (c :: r)) in *.
      assert (Hsplit : c :: r = append_utf8 u ++ zdrop n (c :: r)).
      { rewrite <- Ht. unfold ztake, zdrop. by rewrite take_drop. }
      destruct (IH (length (zdrop n (c :: r)))) with (s := zdrop n (c :: r)) as [ts Hts]; [| done | |].
      * unfold zdrop. rewrite length_drop. cbn [length]. lia.
      * by apply is_bytes_drop.
      * exists (TSeq u :: ts). rewrite Hsplit. by constructor.
Qed.

Definition san_tok (t : token) : bytes :=
  match t with TAscii c => [c] | TSeq c => append_utf8 c | TBad _ => replacement end.
Definition esc_tok (t : token) : bytes :=
  match t with
  | TAscii c => escape_ascii c
  | TSeq c => append_utf8 c
  | TBad _ => [ch_backslash; 117; 102; 102; 102; 100]
  end.

(** A loop that treats the three cases so is the map over the tokens. *)
Lemma loop_splits (loop : nat -> bytes -> bytes) (tok : token -> bytes) :
  (forall fuel, loop fuel [] = []) ->
  (forall fuel c r, 0 <= c < 128 -> loop (S fuel) (c :: r) = tok (TAscii c) ++ loop fuel r) ->
  (forall fuel c r, 128 <= c < 256 ->
     loop (S fuel) (c :: r) =
       if utf8_len (c :: r) =? 0 then tok (TBad c) ++ loop fuel r
       else ztake (utf8_len (c :: r)) (c :: r) ++ loop fuel (zdrop (utf8_len (c :: r)) (c :: r))) ->
  (forall c, tok (TSeq c) = append_utf8 c) ->
  forall s ts, splits s ts -> forall fuel, (length s <= fuel)%nat -> loop fuel s = flat_map tok ts.
Proof.
  intros H0 H1 H2 H3 s ts Hs. induction Hs as [| c r ts Hc Hs IH | c r ts Hc1 Hc2 Hs IH | b r ts Hb Hz Hs IH]; intros fuel Hf.
  - apply H0.
  - destruct fuel as [| fuel]; [cbn in Hf; lia |]. rewrite H1 by done. cbn [flat_map]. rewrite IH; [done | cbn in Hf; lia].
  - pose proof (utf8_len_complete c r Hc1 Hc2) as Hl. destruct (append_utf8_bytes c Hc1 Hc2) as [_ Hn].
    destruct (append_utf8_head c r Hc1 Hc2) as (b & l & E & Hb & Ht & Hd). rewrite length_app in Hf.
    rewrite E in *. destruct fuel as [| fuel]; [unfold zlen in Hn; lia |]. rewrite H2, Hl by done.
    rewrite (proj2 (Z.eqb_neq _ _)) by lia. rewrite Ht, Hd. cbn [flat_map]. rewrite H3, IH; [done |]. unfold zlen in Hn. lia.
  - destruct fuel as [| fuel]; [cbn in Hf; lia |]. rewrite H2, Hz by done. cbn [flat_map Z.eqb]. rewrite IH; [done | cbn in Hf; lia].
Qed.

Lemma sanitize_splits s ts : splits s ts -> utf8_sanitize s = flat_map san_tok ts.
Proof.
  intros Hs. apply (loop_splits sanitize_loop san_tok); [by intros [] | | | done | done | done].
  - intros fuel c r Hc. cbn [sanitize_loop]. by rewrite (proj2 (Z.ltb_lt _ _)) by lia.
  - intros fuel c r Hc. cbn [sanitize_loop]. by rewrite (proj2 (Z.ltb_ge _ _)) by lia.
Qed.

Lemma escape_splits s ts : splits s ts -> json_escape s = flat_map esc_tok ts.
Proof.
  intros Hs. apply (loop_splits escape_loop esc_tok); [by intros [] | | | done | done | done].
  - intros fuel c r Hc. cbn [escape_loop]. by rewrite (proj2 (Z.leb_gt _ _)) by lia.
  - intros fuel c r Hc. cbn [escape_loop]. by rewrite (proj2 (Z.leb_le _ _)) by lia.
Qed.

Lemma splits_ok s ts : splits s ts -> Forall token_ok ts.
Proof. induction 1; by constructor. Qed.

(** ** Unescaping *)

Lemma unescape_plain fuel b r : b <> ch_backslash -> unescape_loop (S fuel) (b :: r) = b :: unescape_loop fuel r.
Proof. intros Hb. cbn [unescape_loop]. destruct r; [done |]. by rewrite (proj2 (Z.eqb_neq _ _)). Qed.

Lemma unescape_plain_app l : forall fuel r,
  Forall (fun b => b <> ch_backslash) l -> unescape_loop (length l + fuel) (l ++ r) = l ++ unescape_loop fuel r.
Proof.
  induction l as [| b l IH]; intros fuel r Hl; [done |]. apply Forall_cons in Hl as [Hb Hl].
  cbn [length app Nat.add]. rewrite unescape_plain by done. by rewrite IH.
Qed.

Lemma unescape_short fuel e r :
  e <> 117 -> unescape_loop (S fuel) (ch_backslash :: e :: r) = unescape_char e :: unescape_loop fuel r.
Proof. intros He. cbn [unescape_loop]. by rewrite Z.eqb_refl, (proj2 (Z.eqb_neq _ _)) by done. Qed.

Lemma unescape_u fuel h1 h2 h3 h4 r code :
  hex4 [h1; h2; h3; h4] = code -> in_range 55296 57343 code = false ->
  unescape_loop (S fuel) (ch_backslash :: 117 :: h1 :: h2 :: h3 :: h4 :: r) = append_utf8 code ++ unescape_loop fuel r.
Proof.
  intros Hh Hr. cbn [unescape_loop]. rewrite Z.eqb_refl. change (117 =? 117) with true. cbn [negb].
  rewrite (proj2 (Z.leb_gt _ _)) by (rewrite !zlen_cons; pose proof (zlen_nonneg r); lia).
  unfold u_code. change (zdrop 2 (ch_backslash :: 117 :: h1 :: h2 :: h3 :: h4 :: r)) with (h1 :: h2 :: h3 :: h4 :: r).
  change (hex4 (h1 :: h2 :: h3 :: h4 :: r)) with (hex4 [h1; h2; h3; h4]). rewrite Hh.
  range_facts. rewrite !(proj2 (in_range_out _ _ _)) by lia. done.
Qed.

Lemma hex4_control c : 0 <= c < 32 -> hex4 [48; 48; hex_digit (c / 16); hex_digit (c mod 16)] = c.
Proof.
  apply (forall_below 32 (fun c => hex4 [48; 48; hex_digit (c / 16); hex_digit (c mod 16)] = c)
    (fun c => hex4 [48; 48; hex_digit (c / 16); hex_digit (c mod 16)] =? c)); [intros x; by rewrite Z.eqb_eq | by vm_compute].
Qed.

Lemma append_utf8_ascii c : c < 128 -> append_utf8 c = [c].
Proof. intros. unfold append_utf8. by rewrite (proj2 (Z.ltb_lt _ _)). Qed.

Lemma unescape_ascii c fuel r :
  0 <= c < 128 -> unescape_loop (S fuel) (escape_ascii c ++ r) = c :: unescape_loop fuel r.
Proof.
  intros Hc. unfold escape_ascii.
  destruct (c =? ch_quote) eqn:E1; bool_facts; [subst; by apply unescape_short |].
  destruct (c =? ch_backslash) eqn:E2; bool_facts; [subst; by apply unescape_short |].
  destruct (c =? 8) eqn:E3; bool_facts; [subst; by apply unescape_short |].
  destruct (c =? 12) eqn:E4; bool_facts; [subst; by apply unescape_short |].
  destruct (c =? 10) eqn:E5; bool_facts; [subst; by apply unescape_short |].
  destruct (c =? 13) eqn:E6; bool_facts; [subst; by apply unescape_short |].
  destruct (c =? 9) eqn:E7; bool_facts; [subst; by apply unescape_short |].
  destruct (c <? 32) eqn:E8; bool_facts; [| by apply unescape_plain].
  unfold u_escape. cbn [app]. rewrite (unescape_u _ _ _ _ _ _ c) by (rewrite ?hex4_control; try rewrite in_range_out; lia).
  by rewrite append_utf8_ascii by lia.
Qed.

Lemma esc_tok_nonempty t : token_ok t -> (1 <= length (esc_tok t))%nat.
Proof.
  destruct t as [c | c | b]; cbn [token_ok esc_tok]; intros Ht; [| | cbn; lia].
  - unfold escape_ascii. repeat case_match; cbn; lia.
  - destruct Ht as [H1 H2]. destruct (append_utf8_bytes c H1 H2) as [_ H]. unfold zlen in H. lia.
Qed.

Lemma unescape_tok t r fuel :
  token_ok t -> (length (esc_tok t) + length r <= fuel)%nat ->
  exists fuel', (length r <= fuel')%nat /\ unescape_loop fuel (esc_tok t ++ r) = san_tok t ++ unescape_loop fuel' r.
Proof.
  intros Ht Hf. pose proof (esc_tok_nonempty t Ht) as Hne. destruct t as [c | c | b]; cbn [token_ok esc_tok san_tok] in *.
  - destruct fuel as [| fuel]; [lia |]. exists fuel. split; [lia |]. by apply unescape_ascii.
  - destruct Ht as [H1 H2]. destruct (append_utf8_bytes c H1 H2) as [Hb _].
    exists (fuel - length (append_utf8 c))%nat. split; [lia |].
    replace fuel with (length (append_utf8 c) + (fuel - length (append_utf8 c)))%nat at 1 by lia.
    apply unescape_plain_app. eapply Forall_impl; [exact Hb |]. cbn. unfold ch_backslash. lia.
  - destruct fuel as [| fuel]; [lia |]. exists fuel. split; [cbn in Hf; lia |]. by apply (unescape_u fuel 102 102 102 100 r 65533).
Qed.

Lemma unescape_tokens ts : forall fuel,
  Forall token_ok ts -> (length (flat_map esc_tok ts) <= fuel)%nat ->
  unescape_loop fuel (flat_map esc_tok ts) = flat_map san_tok ts.
Proof.
  induction ts as [| t ts IH]; intros fuel Ht Hf; [by destruct fuel |]. apply Forall_cons in Ht as [Ht Hts].
  cbn [flat_map] in *. rewrite length_app in Hf.
  destruct (unescape_tok t (flat_map esc_tok ts) fuel Ht Hf) as (fuel' & Hf' & ->). by rewrite IH.
Qed.

(** ** What the output is *)

(** The contents of a JSON string (RFC 8259, section 7). *)
Definition is_hex (h : Z) : Prop := is_Some (hex_value h).
Inductive json_content : bytes -> Prop :=
| jc_nil : json_content []
| jc_char c s : scalar c -> 32 <= c -> c <> ch_quote -> c <> ch_backslash -> json_content s -> json_content (append_utf8 c ++ s)
| jc_escape e s : e ∈ [34; 92; 47; 98; 102; 110; 114; 116] -> json_content s -> json_content (ch_backslash :: e :: s)
| jc_u h1 h2 h3 h4 s : is_hex h1 -> is_hex h2 -> is_hex h3 -> is_hex h4 -> json_content s ->
    json_content (ch_backslash :: 117 :: h1 :: h2 :: h3 :: h4 :: s).

Lemma hex_digit_is_hex v : 0 <= v < 16 -> is_hex (hex_digit v).
Proof.
  apply (forall_below 16 (fun v => is_hex (hex_digit v)) (fun v => bool_decide (is_hex (hex_digit v))));
    [intros x; by rewrite bool_decide_eq_true | by vm_compute].
Qed.

Lemma escape_ascii_content c s : 0 <= c < 128 -> json_content s -> json_content (escape_ascii c ++ s).
Proof.
  intros Hc Hs. unfold escape_ascii.
  destruct (c =? ch_quote) eqn:E1; bool_facts; [apply jc_escape; [repeat constructor | done] |].
  destruct (c =? ch_backslash) eqn:E2; bool_facts; [apply jc_escape; [repeat constructor | done] |].
  destruct (c =? 8); [apply jc_escape; [repeat constructor | done] |].
  destruct (c =? 12); [apply jc_escape; [repeat constructor | done] |].
  do 3 (destruct (c =? _) at 1; [apply jc_escape; [repeat constructor | done] |]).
  destruct (c <? 32) eqn:E8; bool_facts.
  - apply jc_u; try done; try (by eexists); apply hex_digit_is_hex; Z.to_euclidean_division_equations; lia.
  - rewrite <- (append_utf8_ascii c) by lia. apply jc_char; try done. unfold scalar. lia.
Qed.

Lemma tokens_content ts : Forall token_ok ts -> json_content (flat_map esc_tok ts).
Proof.
  induction 1 as [| t ts Ht Hts IH]; [constructor |]. cbn [flat_map]. destruct t as [c | c | b]; cbn [token_ok esc_tok] in *.
  - by apply escape_ascii_content.
  - destruct Ht as [H1 H2]. apply jc_char; try done; unfold ch_quote, ch_backslash; lia.
  - by apply jc_u; try (by eexists).
Qed.

Lemma escaped_content s : is_bytes s -> json_content (json_escape s) /\ json_unescape (json_escape s) = utf8_sanitize s.
Proof.
  intros Hs. destruct (splits_total s Hs) as [ts Hts]. pose proof (splits_ok _ _ Hts) as Hok.
  rewrite (sanitize_splits _ _ Hts), (escape_splits _ _ Hts). split; [by apply tokens_content |].
  by apply unescape_tokens.
Qed.

(** Printable ASCII without quote and backslash is written and read as it is. *)
Definition plain (s : bytes) : bool := forallb (fun c => in_range 32 127 c && negb (c =? ch_quote) && negb (c =? ch_backslash)) s.

Lemma plain_splits s : plain s = true -> splits s (map TAscii s) /\ flat_map esc_tok (map TAscii s) = s /\ flat_map san_tok (map TAscii s) = s.
Proof.
  induction s as [| c s IH]; intros H; [split_and!; [constructor | done | done] |]. cbn in H.
  apply andb_true_iff in H as [Hc Hs]. apply andb_true_iff in Hc as [Hc H2]. apply andb_true_iff in Hc as [H0 H1].
  range_facts. bool_facts. destruct (IH Hs) as (I1 & I2 & I3). cbn [map flat_map]. rewrite I2, I3. split_and!; [constructor; [lia | done] | | done].
  cbn [esc_tok]. unfold escape_ascii, ch_quote, ch_backslash in *. do 7 rewrite (proj2 (Z.eqb_neq c _)) by lia.
  by rewrite (proj2 (Z.ltb_ge c 32)) by lia.
Qed.

Lemma plain_text s : plain s = true -> json_escape s = s /\ json_content s /\ json_unescape s = s /\ utf8_sanitize s = s.
Proof.
  intros H. destruct (plain_splits s H) as (Hs & He & Hn). pose proof (splits_ok _ _ Hs) as Hok.
  pose proof (escape_splits _ _ Hs) as E1. rewrite He in E1. pose proof (sanitize_splits _ _ Hs) as E2. rewrite Hn in E2.
  pose proof (tokens_content _ Hok) as E3. rewrite He in E3.
  split_and!; try done. pose proof (unescape_tokens _ (length s) Hok) as E4. rewrite He, Hn in E4. by apply E4.
Qed.

(** C22: Escaping is a round trip up to UTF-8 repair: for any bytes [s],
    [json_escape s] is the contents of a JSON string (RFC 8259: no bare quote,
    backslash or control character, only defined escapes, well-formed UTF-8),
    and [json_unescape] of it is [utf8_sanitize s]. *)
Theorem json_escape_roundtrip s :
  is_bytes s -> json_content (json_escape s) /\ json_unescape (json_escape s) = utf8_sanitize s.
Proof. apply escaped_content. Qed.

Lemma json_escape_roundtrip_witness :
  let s := [34; 7; 240; 159; 152; 128; 255; 92] in
  is_bytes s /\ json_escape s = [92; 34; 92; 117; 48; 48; 48; 55; 240; 159; 152; 128; 92; 117; 102; 102; 102; 100; 92; 92] /\
  json_unescape (json_escape s) = [34; 7; 240; 159; 152; 128; 239; 191; 189; 92].
Proof.
  set (s := [34; 7; 240; 159; 152; 128; 255; 92]). assert (H : is_bytes s) by (repeat constructor; lia).
  split; [exact H |]. split; [vm_compute; reflexivity |].
  rewrite (proj2 (json_escape_roundtrip s H)). vm_compute. reflexivity.
Defined.

Lemma replacement_scalar : scalar 65533 /\ append_utf8 65533 = replacement.
Proof. split; [unfold scalar; lia | reflexivity]. Qed.

Lemma tokens_valid ts : Forall token_ok ts -> utf8_valid (flat_map san_tok ts).
Proof.
  induction 1 as [| t ts Ht Hts IH]; [constructor |]. cbn [flat_map]. destruct t as [c | c | b]; cbn [token_ok san_tok] in *.
  - rewrite <- (append_utf8_ascii c) by lia. constructor; [unfold scalar; lia | done].
  - constructor; [apply Ht | done].
  - destruct replacement_scalar as [H1 H2]. rewrite <- H2. by constructor.
Qed.

Lemma valid_splits s : utf8_valid s -> exists ts, splits s ts /\ flat_map san_tok ts = s.
Proof.
  induction 1 as [| c s Hc Hs (ts & Hts & Hf)]; [exists []; split; [constructor | done] |].
  destruct (decide (c < 128)) as [Ha | Ha].
  - rewrite append_utf8_ascii by done. exists (TAscii c :: ts). split; [| cbn; by rewrite Hf].
    constructor; [unfold scalar in Hc; lia | done].
  - exists (TSeq c :: ts). split; [constructor; (done || lia) | cbn [flat_map san_tok]; by rewrite Hf].
Qed.

(** [utf8_sanitize] always gives well-formed UTF-8 (the encodings of
    Unicode scalar values: no overlong form, no surrogate, nothing past
    U+10FFFF), leaves well-formed text as it is, and so changes nothing the
    second time. *)
Theorem utf8_sanitize_repairs s :
  is_bytes s ->
  utf8_valid (utf8_sanitize s) /\ (utf8_valid s -> utf8_sanitize s = s) /\
  utf8_sanitize (utf8_sanitize s) = utf8_sanitize s.
Proof.
  intros Hs. assert (Hid : forall t, utf8_valid t -> utf8_sanitize t = t).
  { intros t Ht. destruct (valid_splits t Ht) as (ts & Hts & Hf). by rewrite (sanitize_splits _ _ Hts). }
  destruct (splits_total s Hs) as [ts Hts].
  assert (Hv : utf8_valid (utf8_sanitize s)) by (rewrite (sanitize_splits _ _ Hts); apply tokens_valid; by eapply splits_ok).
  split_and!; [done | apply Hid | by apply Hid].
Qed.

Lemma utf8_sanitize_repairs_witness :
  let s := [104; 237; 160; 128; 195; 169] in
  is_bytes s /\ utf8_sanitize s = [104; 239; 191; 189; 239; 191; 189; 239; 191; 189; 195; 169] /\ utf8_valid (utf8_sanitize s).
Proof.
  set (s := [104; 237; 160; 128; 195; 169]). assert (H : is_bytes s) by (repeat constructor; lia).
  split; [exact H |]. split; [vm_compute; reflexivity |]. exact (proj1 (utf8_sanitize_repairs s H)).
Defined.
