(* ===== verification/LoginLimiter.v ===== *)
(** The login throttle (src/web/login_limiter.h, src/web/login_limiter.cpp) and
    the attempt protocol of its one caller (the login branch of
    src/daemon/router.cpp).  The table is a finite map from the peer's address;
    the 64-bit deadline arithmetic is kept.  Theorems: the sweeping and lazy
    erasing of the table are invisible (refinement to a table that forgets
    nothing), and no client, however many addresses it uses, gets more than
    twice [global_max] password checks to fail in any window. *)
From Stdlib Require Import ZArith Lia List Bool.
From stdpp Require Import base numbers list gmap.
From S2P Require Import Prelude.
Open Scope Z_scope.

Definition kSweepAt : Z := 256.
Definition kMaxTracked : Z := 4096.

Record Entry := mkEntry { failures : Z; window_start : Z }.
Definition new_Entry : Entry := mkEntry 0 0.

Record LoginLimiter := mkLoginLimiter {
  max_failures_ : Z;
  window_sec_ : Z;
  global_max_ : Z;
  peers_ : gmap (list Z) Entry;
  global_ : Entry
}.

Definition new_LoginLimiter (max_failures window_sec global_max : Z) : LoginLimiter :=
  mkLoginLimiter (if 0 <? max_failures then max_failures else 1) (if 0 <? window_sec then window_sec else 1)
    (if 0 <? global_max then global_max else 1) ∅ new_Entry.

Definition set_peers (p : gmap (list Z) Entry) (l : LoginLimiter) : LoginLimiter :=
  mkLoginLimiter (max_failures_ l) (window_sec_ l) (global_max_ l) p (global_ l).
Definition set_global (e : Entry) (l : LoginLimiter) : LoginLimiter :=
  mkLoginLimiter (max_failures_ l) (window_sec_ l) (global_max_ l) (peers_ l) e.

(** [window_start + static_cast<uint64_t>(window_sec_)] *)
Definition until (l : LoginLimiter) (e : Entry) : Z := u64 (window_start e + u64 (window_sec_ l)).

Definition expired (l : LoginLimiter) (e : Entry) (now : Z) : bool := (failures e =? 0) || (until l e <=? now).

Definition sweep (now : Z) (l : LoginLimiter) : LoginLimiter :=
  if Z.of_nat (size (peers_ l)) <? kSweepAt then l
  else
    let live := filter (fun kv => expired l kv.2 now = false) (peers_ l) in
    set_peers (if kMaxTracked <? Z.of_nat (size live) then ∅ else live) l.

(** [static_cast<int>] of a 64-bit value. *)
Definition to_int (z : Z) : Z := (z + 2 ^ 31) mod 2 ^ 32 - 2 ^ 31.

Definition retry_after (peer : list Z) (now_sec : Z) (l : LoginLimiter) : Z * LoginLimiter :=
  let l := sweep now_sec l in
  let blocking := if negb (expired l (global_ l) now_sec) && (global_max_ l <=? failures (global_ l))
                  then Some (global_ l) else None in
  let '(blocking, l) :=
    match peers_ l !! peer with
    | None => (blocking, l)
    | Some e =>
        if expired l e now_sec then (blocking, set_peers (delete peer (peers_ l)) l)
        else if max_failures_ l <=? failures e then
          (match blocking with
           | None => Some e
           | Some b => if window_start b <? window_start e then Some e else Some b
           end, l)
        else (blocking, l)
    end in
  match blocking with
  | None => (0, l)
  | Some b => (if now_sec <? until l b then to_int (until l b - now_sec) else 1, l)
  end.

(** The lambda [bump]. *)
Definition bump (l : LoginLimiter) (now_sec : Z) (e : Entry) : Entry :=
  let e := if expired l e now_sec then mkEntry 0 now_sec else e in
  mkEntry (failures e + 1) (window_start e).

Definition record_failure (peer : list Z) (now_sec : Z) (l : LoginLimiter) : bool * LoginLimiter :=
  let l := set_global (bump l now_sec (global_ l)) l in
  let e := bump l now_sec (default new_Entry (peers_ l !! peer)) in
  (failures e =? max_failures_ l, set_peers (<[peer := e]> (peers_ l)) l).

Definition record_success (peer : list Z) (l : LoginLimiter) : LoginLimiter := set_peers (delete peer (peers_ l)) l.
Definition tracked (l : LoginLimiter) : Z := Z.of_nat (size (peers_ l)).

(** ** One login request *)

Inductive outcome := Refused (wait : Z) | MissingPassword | WrongPassword (log : bool) | LoggedIn.

(** The login branch: the limiter first, then the body ([pw] is [None] when it
    has no password, else the password check's answer), then the outcome
    recorded. *)
Definition login_attempt (peer : list Z) (now_sec : Z) (pw : option bool) (l : LoginLimiter) : outcome * LoginLimiter :=
  let '(wait, l) := retry_after peer now_sec l in
  if 0 <? wait then (Refused wait, l)
  else match pw with
       | None => (MissingPassword, l)
       | Some true => (LoggedIn, record_success peer l)
       | Some false => let '(log, l) := record_failure peer now_sec l in (WrongPassword log, l)
       end.

Record attempt := mkAttempt { at_peer : list Z; at_now : Z; at_pw : option bool }.

Fixpoint run_attempts (ats : list attempt) (l : LoginLimiter) : list outcome * LoginLimiter :=
  match ats with
  | [] => ([], l)
  | a :: r =>
      let '(o, l) := login_attempt (at_peer a) (at_now a) (at_pw a) l in
      let '(os, l) := run_attempts r l in
      (o :: os, l)
  end.

(** The times at which a password check was run and failed, oldest first. *)
Fixpoint failed_times (ats : list attempt) (l : LoginLimiter) : list Z :=
  match ats with
  | [] => []
  | a :: r =>
      let '(o, l) := login_attempt (at_peer a) (at_now a) (at_pw a) l in
      match o with WrongPassword _ => at_now a :: failed_times r l | _ => failed_times r l end
  end.

(** The clock is monotonic and its seconds stay far below 2^64. *)
Fixpoint clock_from (now : Z) (ats : list attempt) : Prop :=
  match ats with
  | [] => True
  | a :: r => now <= at_now a < 2 ^ 63 /\ clock_from (at_now a) r
  end.

(** ** The global window *)

Definition count_in (lo hi : Z) (l : list Z) : Z := zlen (List.filter (fun x => (lo <=? x) && (x <? hi)) l).
Definition count_from (lo : Z) (l : list Z) : Z := zlen (List.filter (fun x => lo <=? x) l).

Lemma count_in_cons lo hi x l :
  count_in lo hi (x :: l) = (if (lo <=? x) && (x <? hi) then 1 else 0) + count_in lo hi l.
Proof. unfold count_in. cbn [List.filter]. destruct (_ && _); [by rewrite zlen_cons | done]. Qed.

Lemma count_from_app lo l k : count_from lo (l ++ k) = count_from lo l + count_from lo k.
Proof. unfold count_from. by rewrite List.filter_app, zlen_app. Qed.

Lemma count_in_app lo hi l k : count_in lo hi (l ++ k) = count_in lo hi l + count_in lo hi k.
Proof. unfold count_in. by rewrite List.filter_app, zlen_app. Qed.

Lemma count_in_le_from lo hi l : count_in lo hi l <= count_from lo l.
Proof.
  unfold count_in, count_from. induction l as [| x l IH]; [done |]. cbn [List.filter].
  destruct (lo <=? x); cbn [andb]; [| done]. destruct (x <? hi); rewrite ?zlen_cons; lia.
Qed.

Lemma count_from_le lo l : count_from lo l <= zlen l.
Proof.
  unfold count_from. induction l as [| x l IH]; [done |]. cbn [List.filter].
  destruct (_ <=? _); rewrite ?zlen_cons; lia.
Qed.

Lemma count_from_below lo s l : Forall (fun x => x <= s) l -> s < lo -> count_from lo l = 0.
Proof.
  intros H Hs. unfold count_from. induction H as [| x l Hx H IH]; [done |]. cbn [List.filter].
  by rewrite (proj2 (Z.leb_gt _ _)) by lia.
Qed.

(** What the global entry says of the failures so far ([past], newest first):
    those of its window, and the ones before it. *)
Record global_inv (W G now : Z) (past : list Z) (e : Entry) : Prop := {
  gi_split : exists cur old, past = cur ++ old /\ zlen cur = failures e /\ failures e <= G /\
    Forall (fun x => x <= window_start e) old /\
    (forall t, window_start e - W < t -> count_from t old <= G);
  gi_none : failures e = 0 -> past = [];
  gi_past : Forall (fun x => x <= now) past;
  gi_start : 0 <= window_start e <= now;
  gi_bound : forall t, count_in t (t + W) past <= 2 * G
}.

Lemma until_exact l e :
  0 < window_sec_ l < 2 ^ 31 -> 0 <= window_start e < 2 ^ 63 -> until l e = window_start e + window_sec_ l.
Proof. intros. unfold until, u64. rewrite (wrap_small 64 (window_sec_ l)), wrap_small; unfold is_uint; lia. Qed.

Lemma bump_inv l now now' past :
  let e := global_ l in
  0 < window_sec_ l < 2 ^ 31 -> 0 < global_max_ l -> now <= now' < 2 ^ 63 ->
  global_inv (window_sec_ l) (global_max_ l) now past e ->
  expired l e now' = true \/ failures e < global_max_ l ->
  global_inv (window_sec_ l) (global_max_ l) now' (now' :: past) (bump l now' e).
Proof.
  intros e HW HG Hn [(cur & old & -> & Hc & Hle & Hold & Hb) Hnone Hpast Hs Hcount] Hfree.
  assert (Hpast' : Forall (fun x => x <= now') (now' :: cur ++ old)).
  { constructor; [lia |]. eapply Forall_impl; [exact Hpast |]. cbn. lia. }
  unfold bump. destruct (expired l e now') eqn:Ee; cbn [failures window_start].
  - assert (Hfrom : forall t, now' - window_sec_ l < t -> count_from t (cur ++ old) <= global_max_ l).
    { intros t Ht. unfold expired in Ee. apply orb_true_iff in Ee as [Ee | Ee]; bool_facts.
      - rewrite (Hnone Ee). change (count_from t []) with 0. lia.
      - rewrite until_exact in Ee by lia. rewrite count_from_app, (count_from_below t (window_start e) old) by (done || lia).
        pose proof (count_from_le t cur). lia. }
    split; cbn [failures window_start]; [| lia | done | lia |].
    + exists [now'], (cur ++ old). split_and!; [done | done | lia | | exact Hfrom].
      eapply Forall_impl; [exact Hpast |]. cbn. lia.
    + intros t. rewrite count_in_cons. specialize (Hcount t). destruct (_ && _) eqn:Ei; [| lia]. bool_facts.
      pose proof (count_in_le_from t (t + window_sec_ l) (cur ++ old)). specialize (Hfrom t ltac:(lia)). lia.
  - destruct Hfree as [? | Hlt]; [done |]. pose proof (zlen_nonneg cur).
    split; cbn [failures window_start]; [| lia | done | lia |].
    + exists (now' :: cur), old. split_and!; [done | rewrite zlen_cons; lia | lia | done | done].
    + intros t. rewrite count_in_cons. pose proof (Hcount t) as Ht. destruct (_ && _) eqn:Ei; [| lia]. bool_facts.
      rewrite count_in_app. pose proof (count_in_le_from t (t + window_sec_ l) cur). pose proof (count_from_le t cur).
      pose proof (count_in_le_from t (t + window_sec_ l) old). specialize (Hb t ltac:(lia)). lia.
Qed.

(** ** The limiter's invariant *)

Record limiter_inv (now : Z) (l : LoginLimiter) : Prop := {
  li_window : 0 < window_sec_ l < 2 ^ 31;
  li_max : 0 < max_failures_ l;
  li_global_max : 0 < global_max_ l;
  li_global : 0 <= window_start (global_ l) <= now /\ 0 <= failures (global_ l);
  li_peers : map_Forall (fun _ e => 0 <= window_start e <= now /\ 0 <= failures e) (peers_ l)
}.

Lemma new_limiter_inv mf ws gm : 0 < ws < 2 ^ 31 -> limiter_inv 0 (new_LoginLimiter mf ws gm).
Proof.
  intros H. unfold new_LoginLimiter. rewrite (proj2 (Z.ltb_lt 0 ws)) by lia.
  constructor; cbn [window_sec_ max_failures_ global_max_ global_ peers_];
    [lia | destruct (0 <? mf) eqn:E; bool_facts; lia | destruct (0 <? gm) eqn:E; bool_facts; lia | cbn; lia |
     apply map_Forall_empty].
Qed.

Definition same_params (a b : LoginLimiter) : Prop :=
  max_failures_ a = max_failures_ b /\ window_sec_ a = window_sec_ b /\ global_max_ a = global_max_ b.

Lemma set_peers_inv now l p :
  limiter_inv now l -> map_Forall (fun _ e => 0 <= window_start e <= now /\ 0 <= failures e) p ->
  limiter_inv now (set_peers p l).
Proof. intros [] Hp. by constructor. Qed.

Lemma limiter_inv_mono now now' l : limiter_inv now l -> now <= now' -> limiter_inv now' l.
Proof.
  intros [H1 H2 H3 [H4 H4'] H5] Hn. constructor; [done | done | done | lia |].
  eapply map_Forall_impl; [exact H5 |]. cbn. lia.
Qed.

Lemma sweep_peers now l : exists p, sweep now l = set_peers p l /\ p ⊆ peers_ l.
Proof.
  unfold sweep. destruct (_ <? kSweepAt); [exists (peers_ l); split; [by destruct l | done] |].
  eexists. split; [reflexivity |]. destruct (kMaxTracked <? _); [apply map_empty_subseteq | apply map_filter_subseteq].
Qed.

Lemma sweep_inv now' now l : limiter_inv now l -> limiter_inv now (sweep now' l).
Proof.
  intros H. destruct (sweep_peers now' l) as (p & -> & Hp). apply set_peers_inv; [done |].
  intros k e Hk. apply (li_peers _ _ H k). by eapply lookup_weaken.
Qed.

Lemma to_int_small z : 0 < z < 2 ^ 31 -> to_int z = z.
Proof. intros. unfold to_int. rewrite Z.mod_small; lia. Qed.

(** A blocking entry makes the client wait a positive time, exactly until its
    window ends. *)
Lemma blocking_wait l now e :
  0 < window_sec_ l < 2 ^ 31 -> 0 <= window_start e <= now -> now < 2 ^ 63 -> expired l e now = false ->
  (if now <? until l e then to_int (until l e - now) else 1) = window_start e + window_sec_ l - now /\
  0 < window_start e + window_sec_ l - now.
Proof.
  intros HW Hs Hn He. unfold expired in He. apply orb_false_iff in He as [_ He]. bool_facts.
  rewrite until_exact in * by lia. rewrite (proj2 (Z.ltb_lt _ _)), to_int_small by lia. lia.
Qed.

(** Every result of [retry_after] in one case analysis: the entry that blocks. *)
Definition global_blocks (l : LoginLimiter) (now : Z) : bool :=
  negb (expired l (global_ l) now) && (global_max_ l <=? failures (global_ l)).

Lemma retry_after_cases peer now l :
  limiter_inv now l -> now < 2 ^ 63 ->
  let '(wait, l1) := retry_after peer now l in
  limiter_inv now l1 /\ same_params l1 l /\ global_ l1 = global_ l /\ 0 <= wait /\
  (wait = 0 -> global_blocks l now = false).
Proof.
  intros Hi Hn. unfold retry_after. pose proof (sweep_inv now now l Hi) as Hs.
  destruct (sweep_peers now l) as (p & Heq & Hp). rewrite Heq in *. set (l0 := set_peers p l) in *.
  change (negb (expired l0 (global_ l0) now) && (global_max_ l0 <=? failures (global_ l0))) with (global_blocks l now).
  assert (Hg : global_blocks l now = true -> expired l0 (global_ l0) now = false).
  { intros Hb. unfold global_blocks in Hb. by apply andb_true_iff in Hb as [Hb%negb_true_iff _]. }
  assert (Hwg : global_blocks l now = true ->
    0 < (if now <? until l0 (global_ l0) then to_int (until l0 (global_ l0) - now) else 1)).
  { intros Hb. destruct (blocking_wait l0 now (global_ l0)) as [-> H]; [apply Hs | apply Hs | done | by apply Hg | done]. }
  destruct (peers_ l0 !! peer) as [e |] eqn:Ep.
  - pose proof (li_peers _ _ Hs _ _ Ep) as [He _]. destruct (expired l0 e now) eqn:Ee.
    + assert (Hd : limiter_inv now (set_peers (delete peer (peers_ l0)) l0)).
      { apply set_peers_inv; [done |]. apply map_Forall_delete, Hs. }
      destruct (global_blocks l now) eqn:Eb; split_and!; try done; pose proof (Hwg eq_refl) as H0;
        [exact (Z.lt_le_incl _ _ H0) | intros Hz; exfalso; exact (Z.lt_neq _ _ H0 (eq_sym Hz))].
    + destruct (blocking_wait l0 now e) as [Hw Hpos]; [apply Hs | done | done | done |].
      destruct (max_failures_ l0 <=? failures e);
        destruct (global_blocks l now) eqn:Eb; try destruct (window_start (global_ l0) <? window_start e);
        split_and!; try done; rewrite ?Hw; try lia; specialize (Hwg eq_refl); lia.
  - destruct (global_blocks l now) eqn:Eb; split_and!; try done; specialize (Hwg eq_refl); lia.
Qed.

Lemma bump_entry l now e :
  0 <= window_start e <= now -> 0 <= failures e ->
  0 <= window_start (bump l now e) <= now /\ 0 < failures (bump l now e).
Proof. intros H1 H2. unfold bump. destruct (expired l e now); cbn [failures window_start]; lia. Qed.

Lemma record_failure_inv peer now l :
  limiter_inv now l -> 0 <= now ->
  let l1 := snd (record_failure peer now l) in
  limiter_inv now l1 /\ same_params l1 l /\ global_ l1 = bump l now (global_ l).
Proof.
  intros Hi Hn l1. assert (Hg : 0 <= window_start (bump l now (global_ l)) <= now /\ 0 < failures (bump l now (global_ l)))
    by (apply bump_entry; apply Hi).
  set (l0 := set_global (bump l now (global_ l)) l).
  assert (H0 : limiter_inv now l0) by (destruct Hi; constructor; try done; subst l0; cbn [global_ set_global]; lia).
  split_and!; try done. unfold l1, record_failure. cbn [snd]. fold l0. apply set_peers_inv; [done |].
  apply map_Forall_insert_2; [| apply H0].
  assert (Hd : 0 <= window_start (default new_Entry (peers_ l0 !! peer)) <= now /\
               0 <= failures (default new_Entry (peers_ l0 !! peer))).
  { destruct (peers_ l0 !! peer) as [e |] eqn:E; cbn; [apply (li_peers _ _ H0 _ _ E) | lia]. }
  pose proof (bump_entry l0 now _ (proj1 Hd) (proj2 Hd)). lia.
Qed.

Lemma record_success_inv peer now l : limiter_inv now l -> limiter_inv now (record_success peer l).
Proof. intros H. apply set_peers_inv; [done |]. apply map_Forall_delete, H. Qed.

(** An attempt and the global window. *)
Lemma attempt_inv a now l past :
  now <= at_now a < 2 ^ 63 -> 0 <= now -> limiter_inv now l ->
  global_inv (window_sec_ l) (global_max_ l) now past (global_ l) ->
  let '(o, l1) := login_attempt (at_peer a) (at_now a) (at_pw a) l in
  limiter_inv (at_now a) l1 /\ same_params l1 l /\
  global_inv (window_sec_ l) (global_max_ l) (at_now a)
    (match o with WrongPassword _ => at_now a :: past | _ => past end) (global_ l1).
Proof.
  intros Hn H0 Hi Hg. apply (limiter_inv_mono _ (at_now a)) in Hi as Hi'; [| lia]. unfold login_attempt.
  pose proof (retry_after_cases (at_peer a) (at_now a) l Hi' ltac:(lia)) as Hr.
  destruct (retry_after (at_peer a) (at_now a) l) as [wait l1]. destruct Hr as (H1 & Hp & Hgl & Hw & Hb).
  assert (Hg' : global_inv (window_sec_ l) (global_max_ l) (at_now a) past (global_ l1)).
  { rewrite Hgl. destruct Hg as [G1 G2 G3 G4 G5]. constructor; try done; [| lia].
    eapply Forall_impl; [exact G3 |]. cbn. lia. }
  destruct (0 <? wait) eqn:Ew; bool_facts; [done |]. destruct (at_pw a) as [[] |]; [| | done].
  - split_and!; [by apply record_success_inv | done | done].
  - destruct (record_failure_inv (at_peer a) (at_now a) l1 H1 ltac:(lia)) as (R1 & R2 & R3).
    destruct (record_failure (at_peer a) (at_now a) l1) as [log l2]. cbn [snd] in *.
    destruct Hp as (P1 & P2 & P3). destruct R2 as (Q1 & Q2 & Q3).
    split_and!; [done | split_and!; congruence |]. rewrite R3, <- P2, <- P3.
    apply (bump_inv l1 (at_now a)); [apply H1 | apply H1 | lia | by rewrite P2, P3 |].
    specialize (Hb ltac:(lia)). unfold global_blocks in Hb. rewrite Hgl, P3.
    unfold expired, until in *. rewrite P2.
    apply andb_false_iff in Hb as [Hb%negb_false_iff | Hb]; [by left | bool_facts; by right].
Qed.

(** C30: No stream of login attempts, from however many addresses, gets more
    than twice [global_max] password checks to fail within any [window_sec]
    seconds: a bound on the Argon2 runs a guesser can cause, whatever is swept
    from the table or cleared by its size limit. *)
Theorem login_failures_bounded mf ws gm ats t :
  0 < ws < 2 ^ 31 -> 0 < gm -> clock_from 0 ats ->
  count_in t (t + ws) (failed_times ats (new_LoginLimiter mf ws gm)) <= 2 * gm.
Proof.
  intros Hws Hgm Hc.
  assert (Hgen : forall ats now l past, 0 <= now -> clock_from now ats -> limiter_inv now l ->
    global_inv (window_sec_ l) (global_max_ l) now past (global_ l) ->
    count_in t (t + window_sec_ l) (failed_times ats l) + count_in t (t + window_sec_ l) past <= 2 * global_max_ l).
  { clear. induction ats as [| a ats IH]; intros now l past H0 Hc Hi Hg.
    - pose proof (gi_bound _ _ _ _ _ Hg t). cbn [failed_times]. change (count_in _ _ []) with 0. lia.
    - destruct Hc as [Ha Hc]. cbn [failed_times]. pose proof (attempt_inv a now l past Ha H0 Hi Hg) as Hs.
      destruct (login_attempt _ _ _ l) as [o l1]. destruct Hs as (H1 & (P1 & P2 & P3) & Hg1).
      rewrite <- P2, <- P3 in Hg1 |- *. specialize (IH (at_now a) l1 _ ltac:(lia) Hc H1 Hg1).
      destruct o; rewrite ?count_in_cons in *; lia. }
  specialize (Hgen ats 0 (new_LoginLimiter mf ws gm) []).
  unfold new_LoginLimiter in *. cbn [window_sec_ global_max_ global_] in Hgen.
  rewrite (proj2 (Z.ltb_lt 0 ws)), (proj2 (Z.ltb_lt 0 gm)) in * by lia. change (count_in _ _ []) with 0 in Hgen.
  enough (count_in t (t + ws) (failed_times ats
    (mkLoginLimiter (if 0 <? mf then mf else 1) ws gm ∅ new_Entry)) + 0 <= 2 * gm) by lia.
  apply Hgen; [done | done | |].
  - pose proof (new_limiter_inv mf ws gm Hws) as H. unfold new_LoginLimiter in H.
    by rewrite (proj2 (Z.ltb_lt 0 ws)), (proj2 (Z.ltb_lt 0 gm)) in H by lia.
  - constructor; cbn; try done; [| intros; change (count_in _ _ []) with 0; lia].
    exists [], []. split_and!; try done; [cbn; lia | intros; change (count_from _ []) with 0; lia].
Qed.

Lemma login_failures_bounded_witness :
  let ats := replicate 9 (mkAttempt [49] 100 (Some false)) in
  clock_from 0 ats /\ failed_times ats (new_LoginLimiter 5 60 3) = [100; 100; 100] /\
  count_in 50 (50 + 60) (failed_times ats (new_LoginLimiter 5 60 3)) <= 2 * 3.
Proof.
  set (ats := replicate 9 (mkAttempt [49] 100 (Some false))).
  assert (H : clock_from 0 ats) by (cbn; lia). split; [exact H |]. split; [vm_compute; reflexivity |].
  apply (login_failures_bounded 5 60 3 ats 50); [lia | lia | exact H].
Defined.

(** ** The contract: a throttle that never forgets an address by itself *)

(** The reference throttle keeps one entry per address for ever ([c] holds the
    configured limits). *)
Record SpecLimiter := mkSpecLimiter { sp_peers : list Z -> Entry; sp_global : Entry }.
Definition new_SpecLimiter : SpecLimiter := mkSpecLimiter (fun _ => new_Entry) new_Entry.

(** The seconds an entry makes a client wait: to the end of its window once it
    has [limit] failures. *)
Definition spec_wait (c : LoginLimiter) (limit now : Z) (e : Entry) : Z :=
  if (limit <=? failures e) && negb (expired c e now) then window_start e + window_sec_ c - now else 0.

Definition spec_upd (peer : list Z) (e : Entry) (f : list Z -> Entry) : list Z -> Entry :=
  fun p => if decide (p = peer) then e else f p.

Definition spec_attempt (c : LoginLimiter) (a : attempt) (s : SpecLimiter) : outcome * SpecLimiter :=
  let now := at_now a in
  let mine := sp_peers s (at_peer a) in
  let wait := Z.max (spec_wait c (global_max_ c) now (sp_global s)) (spec_wait c (max_failures_ c) now mine) in
  if 0 <? wait then (Refused wait, s)
  else match at_pw a with
       | None => (MissingPassword, s)
       | Some true => (LoggedIn, mkSpecLimiter (spec_upd (at_peer a) new_Entry (sp_peers s)) (sp_global s))
       | Some false =>
           (WrongPassword (failures (bump c now mine) =? max_failures_ c),
            mkSpecLimiter (spec_upd (at_peer a) (bump c now mine) (sp_peers s)) (bump c now (sp_global s)))
       end.

Fixpoint spec_attempts (c : LoginLimiter) (ats : list attempt) (s : SpecLimiter) : list outcome :=
  match ats with
  | [] => []
  | a :: r => let '(o, s) := spec_attempt c a s in o :: spec_attempts c r s
  end.

(** Two entries that no later request can tell apart. *)
Definition same_entry (c : LoginLimiter) (now : Z) (e e' : Entry) : Prop :=
  e = e' \/ (expired c e now = true /\ expired c e' now = true).

Lemma expired_mono c e now now' : now <= now' -> expired c e now = true -> expired c e now' = true.
Proof.
  unfold expired. intros Hn [H | H]%orb_true_iff; apply orb_true_iff; [by left | right]. bool_facts.
  apply Z.leb_le. lia.
Qed.

Lemma same_entry_mono c e e' now now' : now <= now' -> same_entry c now e e' -> same_entry c now' e e'.
Proof. intros Hn [-> | [H1 H2]]; [by left | right]. split; by eapply expired_mono. Qed.

Lemma same_entry_bump c e e' now : same_entry c now e e' -> bump c now e = bump c now e'.
Proof. intros [-> | [H1 H2]]; [done |]. unfold bump. by rewrite H1, H2. Qed.

Lemma same_entry_wait c e e' now limit : same_entry c now e e' -> spec_wait c limit now e = spec_wait c limit now e'.
Proof. intros [-> | [H1 H2]]; [done |]. unfold spec_wait. rewrite H1, H2. cbn [negb]. by rewrite !andb_false_r. Qed.

Lemma expired_params l c e now : same_params l c -> expired l e now = expired c e now.
Proof. intros (_ & H & _). unfold expired, until. by rewrite H. Qed.

Lemma new_entry_expired c now : expired c new_Entry now = true.
Proof. reflexivity. Qed.

(** The simulation: the table holds only addresses of [S], few enough never to
    be cleared, and an entry it dropped is one the reference sees as expired. *)
Record sim (c : LoginLimiter) (S : gset (list Z)) (now : Z) (l : LoginLimiter) (s : SpecLimiter) : Prop := {
  sim_params : same_params l c;
  sim_inv : limiter_inv now l;
  sim_global : global_ l = sp_global s;
  sim_dom : dom (peers_ l) ⊆ S;
  sim_peers : forall p, same_entry c now (default new_Entry (peers_ l !! p)) (sp_peers s p)
}.

Lemma sim_mono c S now now' l s : now <= now' -> sim c S now l s -> sim c S now' l s.
Proof.
  intros Hn [H1 H2 H3 H4 H5]. constructor; try done; [by eapply limiter_inv_mono |].
  intros p. by eapply same_entry_mono.
Qed.

(** Dropping expired entries is invisible. *)
Lemma sim_drop c S now l s m :
  sim c S now l s -> m ⊆ peers_ l ->
  (forall p e, peers_ l !! p = Some e -> m !! p = None -> expired c e now = true) ->
  sim c S now (set_peers m l) s.
Proof.
  intros [H1 H2 H3 H4 H5] Hm Hd. constructor; try done.
  - apply set_peers_inv; [done |]. intros p e Hp. apply (li_peers _ _ H2 p). by eapply lookup_weaken.
  - cbn [peers_ set_peers]. apply subseteq_dom in Hm. set_solver.
  - intros p. cbn [peers_ set_peers]. specialize (H5 p). destruct (m !! p) as [e |] eqn:E.
    + by rewrite (lookup_weaken _ _ _ _ E Hm) in H5.
    + destruct (peers_ l !! p) as [e |] eqn:El; [| done]. pose proof (Hd p e El E) as He.
      right. split; [done |]. by destruct H5 as [<- | [_ ?]].
Qed.

Lemma sim_sweep c S now l s :
  Z.of_nat (size S) <= kMaxTracked -> sim c S now l s -> sim c S now (sweep now l) s.
Proof.
  intros HS H. unfold sweep. destruct (_ <? kSweepAt); [done |].
  set (live := filter _ _). assert (Hl : live ⊆ peers_ l) by apply map_filter_subseteq.
  assert (Hsize : (size live <= size S)%nat).
  { rewrite <- size_dom. apply subseteq_size. etransitivity; [by apply subseteq_dom | apply (sim_dom _ _ _ _ _ H)]. }
  rewrite (proj2 (Z.ltb_ge _ _)) by lia. apply sim_drop; [done | done |].
  intros p e Hp Hn. unfold live in Hn. rewrite map_lookup_filter_None in Hn.
  destruct Hn as [Hn | Hn]; [congruence |]. specialize (Hn _ Hp). cbn in Hn.
  rewrite <- (expired_params l c) by apply H. by destruct (expired l e now).
Qed.

Lemma spec_wait_blocks c l now e limit :
  same_params l c -> limiter_inv now l -> now < 2 ^ 63 -> 0 <= window_start e <= now ->
  expired l e now = false -> (limit <=? failures e) = true ->
  (if now <? until l e then to_int (until l e - now) else 1) = spec_wait c limit now e /\
  spec_wait c limit now e = window_start e + window_sec_ c - now /\ 0 < spec_wait c limit now e.
Proof.
  intros Hp Hi Hn Hs He Hl. unfold spec_wait. rewrite Hl, <- (expired_params l c) by done. rewrite He. cbn [andb negb].
  destruct (blocking_wait l now e) as [Hw Hpos]; [apply Hi | done | done | done |].
  destruct Hp as (_ & HW & _). rewrite <- HW. lia.
Qed.

Lemma spec_wait_free c l now e limit :
  same_params l c -> negb (expired l e now) && (limit <=? failures e) = false -> spec_wait c limit now e = 0.
Proof.
  intros Hp H. unfold spec_wait. rewrite <- (expired_params l c), andb_comm by done. by rewrite H.
Qed.

(** The wait the code computes is the longer of the two waits. *)
Lemma sim_retry c S now l s peer :
  Z.of_nat (size S) <= kMaxTracked -> now < 2 ^ 63 -> sim c S now l s ->
  let '(wait, l1) := retry_after peer now l in
  wait = Z.max (spec_wait c (global_max_ c) now (sp_global s)) (spec_wait c (max_failures_ c) now (sp_peers s peer)) /\
  sim c S now l1 s.
Proof.
  intros HS Hn H0. unfold retry_after. pose proof (sim_sweep _ _ _ _ _ HS H0) as H. clear H0.
  set (l0 := sweep now l) in *. clearbody l0. clear l.
  pose proof H as [Hp Hi Hg Hd Hs]. specialize (Hs peer). rewrite <- Hg.
  rewrite <- (same_entry_wait c _ _ now (max_failures_ c) Hs).
  destruct Hp as (P1 & P2 & P3). assert (Hp : same_params l0 c) by done. rewrite <- P1, <- P3.
  assert (Hgb : negb (expired l0 (global_ l0) now) && (global_max_ l0 <=? failures (global_ l0)) = true ->
    (if now <? until l0 (global_ l0) then to_int (until l0 (global_ l0) - now) else 1) =
      spec_wait c (global_max_ l0) now (global_ l0) /\
    spec_wait c (global_max_ l0) now (global_ l0) = window_start (global_ l0) + window_sec_ c - now /\
    0 < spec_wait c (global_max_ l0) now (global_ l0)).
  { intros [Hb%negb_true_iff Hb2]%andb_true_iff. apply spec_wait_blocks; try done. apply Hi. }
  pose proof (spec_wait_free c l0 now (global_ l0) (global_max_ l0) Hp) as Hgf.
  destruct (peers_ l0 !! peer) as [e |] eqn:Ep; cbn [default id].
  - pose proof (li_peers _ _ Hi _ _ Ep) as [He _].
    pose proof (spec_wait_free c l0 now e (max_failures_ l0) Hp) as Hef.
    destruct (expired l0 e now) eqn:Ee.
    + rewrite (Hef eq_refl).
      assert (Hdel : sim c S now (set_peers (delete peer (peers_ l0)) l0) s).
      { apply sim_drop; [done | apply delete_subseteq |]. intros p e' Hpe Hno.
        destruct (decide (p = peer)) as [-> | Hne]; [| by rewrite lookup_delete_ne, Hpe in Hno].
        rewrite Ep in Hpe. injection Hpe as <-. by rewrite <- (expired_params l0 c). }
      destruct (_ && _); (split; [| done]); [destruct (Hgb eq_refl) as (G1 & G2 & G3) | rewrite (Hgf eq_refl)]; [| done].
      change (until (set_peers _ l0) (global_ l0)) with (until l0 (global_ l0)). lia.
    + cbn [negb andb] in Hef. destruct (max_failures_ l0 <=? failures e) eqn:Em.
      * destruct (spec_wait_blocks c l0 now e (max_failures_ l0)) as (E1 & E2 & E3); try done.
        destruct (_ && _); [destruct (Hgb eq_refl) as (G1 & G2 & G3) | rewrite (Hgf eq_refl); split; [lia | done]].
        destruct (window_start (global_ l0) <? window_start e) eqn:Ews; bool_facts; (split; [lia | done]).
      * rewrite (Hef eq_refl).
        destruct (_ && _); (split; [| done]); [destruct (Hgb eq_refl); lia | by rewrite (Hgf eq_refl)].
  - change (spec_wait c (max_failures_ l0) now new_Entry) with
      (if (max_failures_ l0 <=? 0) && negb true then 0 + window_sec_ c - now else 0).
    rewrite andb_false_r.
    destruct (_ && _); (split; [| done]); [destruct (Hgb eq_refl); lia | by rewrite (Hgf eq_refl)].
Qed.

Lemma sim_upd c S now l s g e e' peer m :
  sim c S now l s -> limiter_inv now (set_peers m (set_global g l)) -> dom m ⊆ S ->
  (forall p, p <> peer -> m !! p = peers_ l !! p) -> default new_Entry (m !! peer) = e ->
  same_entry c now e e' ->
  sim c S now (set_peers m (set_global g l)) (mkSpecLimiter (spec_upd peer e' (sp_peers s)) g).
Proof.
  intros [H1 H2 H3 H4 H5] Hi Hd Hne He Hs. constructor; try done. intros p. cbn [peers_ set_peers sp_peers].
  unfold spec_upd. destruct (decide (p = peer)) as [-> |]; [by rewrite He | by rewrite Hne].
Qed.

Lemma sim_attempt c S now l s a :
  Z.of_nat (size S) <= kMaxTracked -> at_peer a ∈ S -> 0 <= now -> now <= at_now a < 2 ^ 63 -> sim c S now l s ->
  (login_attempt (at_peer a) (at_now a) (at_pw a) l).1 = (spec_attempt c a s).1 /\
  sim c S (at_now a) (login_attempt (at_peer a) (at_now a) (at_pw a) l).2 (spec_attempt c a s).2.
Proof.
  intros HS Ha H0 Hn H. apply (sim_mono _ _ _ (at_now a)) in H; [| lia]. unfold login_attempt, spec_attempt.
  pose proof (sim_retry c S (at_now a) l s (at_peer a) HS ltac:(lia) H) as Hr. clear H.
  destruct (retry_after _ _ _) as [wait l']. clear l. rename l' into l. destruct Hr as [-> H].
  set (w := Z.max _ _). clearbody w. destruct (0 <? w); [done |].
  pose proof H as [Hp Hi Hg Hd Hs]. specialize (Hs (at_peer a)). destruct (at_pw a) as [[] |]; [| | done].
  - split; [done |]. change (record_success (at_peer a) l) with (set_peers (delete (at_peer a) (peers_ l)) (set_global (global_ l) l)).
    rewrite <- Hg. eapply sim_upd; [done | | | | | by left].
    + apply set_peers_inv; [by destruct Hi |]. apply map_Forall_delete, Hi.
    + rewrite dom_delete. set_solver.
    + intros p Hne. by rewrite lookup_delete_ne.
    + by rewrite lookup_delete_eq.
  - destruct (record_failure_inv (at_peer a) (at_now a) l Hi ltac:(lia)) as (R1 & _ & _).
    assert (Hb : forall e, bump l (at_now a) e = bump c (at_now a) e)
      by (intros e; unfold bump; by rewrite (expired_params l c)).
    assert (Hb' : forall g e, bump (set_global g l) (at_now a) e = bump l (at_now a) e) by done.
    unfold record_failure in *. cbn [fst snd peers_ set_global] in *. rewrite Hb', !Hb in *. cbn [max_failures_].
    rewrite (same_entry_bump _ _ _ _ Hs), <- Hg in *. destruct Hp as (P1 & P2 & P3). rewrite <- P1. split; [done |].
    eapply sim_upd; [done | done | | | | by left].
    + rewrite dom_insert. set_solver.
    + intros p Hne. by rewrite lookup_insert_ne.
    + by rewrite lookup_insert_eq.
Qed.

Lemma sim_run c S ats now l s :
  Z.of_nat (size S) <= kMaxTracked -> Forall (fun a => at_peer a ∈ S) ats -> 0 <= now -> clock_from now ats ->
  sim c S now l s -> (run_attempts ats l).1 = spec_attempts c ats s.
Proof.
  intros HS. revert now l s. induction ats as [| a ats IH]; intros now l s Hall H0 Hc Hsim; [done |].
  apply Forall_cons_1 in Hall as [Ha Hall]. destruct Hc as [Hn Hc].
  destruct (sim_attempt c S now l s a HS Ha H0 Hn Hsim) as [Ho Hs]. cbn [run_attempts spec_attempts].
  destruct (login_attempt _ _ _ l) as [o l1]. destruct (spec_attempt c a s) as [o' s1]. cbn [fst snd] in *.
  specialize (IH (at_now a) l1 s1 Hall ltac:(lia) Hc Hs). destruct (run_attempts ats l1) as [os l2].
  cbn [fst] in *. congruence.
Qed.

(** C29: The sweeps and the lazy erasing of the throttle's table cannot be seen
    from outside: as long as no more than 4096 addresses take part, the answer
    to every login request (let through or not, the seconds in [Retry-After],
    whether the failure is logged) is the one of a throttle that keeps every
    address for ever and makes a client wait for the later of its own window
    and the global one. *)
Theorem throttle_refines_contract mf ws gm ats :
  0 < ws < 2 ^ 31 -> clock_from 0 ats ->
  Z.of_nat (size (list_to_set (map at_peer ats) : gset (list Z))) <= kMaxTracked ->
  (run_attempts ats (new_LoginLimiter mf ws gm)).1 = spec_attempts (new_LoginLimiter mf ws gm) ats new_SpecLimiter.
Proof.
  intros Hws Hc HS. eapply sim_run; [exact HS | | reflexivity | exact Hc |].
  - apply Forall_forall. intros a Ha. apply elem_of_list_to_set, list_elem_of_fmap. by exists a.
  - constructor; try done; [by apply new_limiter_inv |]. intros p. left. cbn [peers_ new_LoginLimiter].
    by rewrite lookup_empty.
Qed.

Lemma throttle_refines_contract_witness :
  let ats := [mkAttempt [49] 100 (Some false); mkAttempt [49] 101 (Some false); mkAttempt [50] 102 (Some true);
              mkAttempt [49] 103 (Some true); mkAttempt [49] 161 (Some true)] in
  (run_attempts ats (new_LoginLimiter 2 60 9)).1 =
    [WrongPassword false; WrongPassword true; LoggedIn; Refused 57; LoggedIn] /\
  (run_attempts ats (new_LoginLimiter 2 60 9)).1 = spec_attempts (new_LoginLimiter 2 60 9) ats new_SpecLimiter.
Proof.
  intros ats. split; [vm_compute; reflexivity |].
  apply (throttle_refines_contract 2 60 9 ats); [lia | cbn; lia | vm_compute; discriminate].
Defined.
