(* ===== verification/TextNum.v ===== *)
(** Decimal numbers in text: parse_int_full() (src/core/parse_int.h) over the C
    library's strtol(), strtoull() as the session file's reader uses it, and the
    digits printf prints.  Theorems: parse_int_full() accepts exactly an
    optional sign and digits with a value in range; printing and reading an
    unsigned 64-bit number are inverse. *)
From Stdlib Require Import ZArith Lia List Bool.
From stdpp Require Import base numbers list strings.
From S2P Require Import Prelude.
Open Scope Z_scope.

Definition is_digit (c : Z) : bool := (48 <=? c) && (c <=? 57).
(** [isspace] in the C locale. *)
Definition is_space (c : Z) : bool := (c =? 32) || ((9 <=? c) && (c <=? 13)).

(** The decimal value of digits. *)
Definition decimal_from (v : Z) (ds : bytes) : Z := fold_left (fun v c => v * 10 + (c - 48)) ds v.
Definition decimal (ds : bytes) : Z := decimal_from 0 ds.

(** ** strtol and strtoull, base 10 *)

Fixpoint skip_while (p : Z -> bool) (s : bytes) : bytes :=
  match s with
  | x :: r => if p x then skip_while p r else s
  | [] => []
  end.
Fixpoint take_while (p : Z -> bool) (s : bytes) : bytes :=
  match s with
  | x :: r => if p x then x :: take_while p r else []
  | [] => []
  end.

(** Blanks, a sign, digits: the sign, the digits and what follows them; [None]
    when there are no digits ([end == s]). *)
Definition scan_number (s : bytes) : option (bool * bytes * bytes) :=
  let s := skip_while is_space s in
  let '(neg, s) := match s with
                   | x :: r => if x =? 45 then (true, r) else if x =? 43 then (false, r) else (false, s)
                   | [] => (false, [])
                   end in
  let ds := take_while is_digit s in
  match ds with [] => None | _ => Some (neg, ds, skip_while is_digit s) end.

Definition LONG_MIN : Z := - 2 ^ 63.
Definition LONG_MAX : Z := 2 ^ 63 - 1.

(** The value, whether [errno] is [ERANGE], and the text at [*end]. *)
Definition strtol (s : bytes) : option (Z * bool * bytes) :=
  match scan_number s with
  | None => None
  | Some (neg, ds, rest) =>
      let v := if neg : bool then - decimal ds else decimal ds in
      Some (if v <? LONG_MIN then (LONG_MIN, true, rest) else if LONG_MAX <? v then (LONG_MAX, true, rest) else (v, false, rest))
  end.

Definition strtoull (s : bytes) : option Z :=
  match scan_number s with
  | None => None
  | Some (neg, ds, _) =>
      let v := decimal ds in
      Some (if UINT64_MAX <? v then UINT64_MAX else if neg : bool then u64 (- v) else v)
  end.

(** ** parse_int_full *)

(** [None] is [false]; [*out] is only written with [true]. *)
Definition parse_int_full (s : option bytes) (lo hi : Z) : option Z :=
  match s with
  | None => None
  | Some s =>
      let s := c_str s in
      let first := znth 0 s 0 in
      if negb (is_digit first) && negb (first =? 45) && negb (first =? 43) then None
      else match strtol s with
           | None => None
           | Some (n, erange, rest) =>
               if negb (zlen rest =? 0) || erange || (n <? lo) || (hi <? n) then None else Some n
           end
  end.

(** ** Printing: "%llu" *)

Fixpoint digits_of (fuel : nat) (v : Z) (acc : bytes) : bytes :=
  match fuel with
  | O => acc
  | S fuel =>
      let acc := (48 + v mod 10) :: acc in
      if v <? 10 then acc else digits_of fuel (v / 10) acc
  end.
(** Twenty digits are enough for 64 bits. *)
Definition u64_text (v : Z) : bytes := digits_of 20 v [].

Example parse_ex : parse_int_full (Some (str "-42")) (-50) 50 = Some (-42) /\ parse_int_full (Some (str " 42")) (-50) 50 = None
  /\ parse_int_full (Some (str "42s")) (-50) 50 = None /\ parse_int_full (Some (str "99999999999999999999")) 0 LONG_MAX = None.
Proof. vm_compute. auto. Qed.

(** ** Lemmas *)

Lemma decimal_from_app v a b : decimal_from v (a ++ b) = decimal_from (decimal_from v a) b.
Proof. apply fold_left_app. Qed.

Lemma decimal_from_mono ds v : forallb is_digit ds = true -> 0 <= v -> v <= decimal_from v ds.
Proof.
  revert v. induction ds as [| c ds IH]; intros v Hd Hv; [cbn; lia |]. cbn in Hd. apply andb_true_iff in Hd as [Hc Hd].
  unfold is_digit in Hc. bool_facts. unfold decimal_from in *. cbn [fold_left].
  specialize (IH (v * 10 + (c - 48)) Hd). lia.
Qed.

Lemma decimal_nonneg ds : forallb is_digit ds = true -> 0 <= decimal ds.
Proof. intros. by apply decimal_from_mono. Qed.

Lemma take_while_all p s r :
  forallb p s = true -> (forall x, x ∈ take 1 r -> p x = false) ->
  take_while p (s ++ r) = s /\ skip_while p (s ++ r) = r.
Proof.
  intros Hs Hr. induction s as [| x s IH]; cbn in *.
  - destruct r as [| x r]; [done |]. cbn. by rewrite (Hr x) by left.
  - apply andb_true_iff in Hs as [-> Hs]. destruct (IH Hs) as [-> ->]. done.
Qed.

Lemma take_skip_while p s : s = take_while p s ++ skip_while p s /\ forallb p (take_while p s) = true.
Proof.
  induction s as [| x s [IH1 IH2]]; [done |]. cbn. destruct (p x) eqn:E; [| done]. cbn. rewrite E, IH2. split; [congruence | done].
Qed.

Lemma digit_not_space c : is_digit c = true -> is_space c = false /\ c <> 45 /\ c <> 43.
Proof. unfold is_digit, is_space. intros H. bool_facts. split; [| lia]. apply orb_false_iff. split; [lia |]. apply andb_false_iff. lia. Qed.

(** A number without leading blanks is scanned whole. *)
Lemma scan_signed (sign : bytes) neg ds r :
  (sign, neg) ∈ [([], false); ([45], true); ([43], false)] -> ds <> [] -> forallb is_digit ds = true ->
  (forall x, x ∈ take 1 r -> is_digit x = false) ->
  scan_number (sign ++ ds ++ r) = Some (neg, ds, r).
Proof.
  intros Hs Hn Hd Hr. destruct (take_while_all is_digit ds r Hd Hr) as [Ht Hk].
  assert (Hm : forall b : bool, match ds with [] => None | _ => Some (b, ds, r) end = Some (b, ds, r)) by (by destruct ds).
  rewrite !elem_of_cons, elem_of_nil in Hs. unfold scan_number.
  destruct Hs as [[= -> ->] | [[= -> ->] | [[= -> ->] | []]]].
  - assert (exists c t, ds ++ r = c :: t /\ is_digit c = true) as (c & t & Ht' & Hc).
    { destruct ds as [| c ds]; [done |]. cbn in Hd. apply andb_true_iff in Hd as [? _]. by exists c, (ds ++ r). }
    destruct (digit_not_space c Hc) as (Hsp & H1 & H2). cbn [app]. rewrite Ht' in *.
    assert (Hss : skip_while is_space (c :: t) = c :: t) by (cbn [skip_while]; by rewrite Hsp).
    rewrite Hss, (proj2 (Z.eqb_neq c 45)), (proj2 (Z.eqb_neq c 43)), Ht, Hk by done. apply Hm.
  - change (skip_while is_space ([45] ++ ds ++ r)) with (45 :: (ds ++ r)).
    cbv beta iota zeta. change (45 =? 45) with true. cbv iota. by rewrite Ht, Hk, Hm.
  - change (skip_while is_space ([43] ++ ds ++ r)) with (43 :: (ds ++ r)).
    cbv beta iota zeta. change (43 =? 45) with false. change (43 =? 43) with true. cbv iota. by rewrite Ht, Hk, Hm.
Qed.

Lemma scan_number_inv s neg ds rest :
  scan_number s = Some (neg, ds, rest) -> is_space (znth 0 s 0) = false ->
  exists sign, (sign, neg) ∈ [([], false); ([45], true); ([43], false)] /\ s = sign ++ ds ++ rest /\
    ds <> [] /\ forallb is_digit ds = true.
Proof.
  intros H Hsp. assert (Hk : skip_while is_space s = s) by (destruct s as [| c s]; [done | cbn; by replace (is_space c) with false]).
  unfold scan_number in H. rewrite Hk in H.
  assert (Hgo : forall b t, (match take_while is_digit t with [] => None | _ => Some (b, take_while is_digit t, skip_while is_digit t) end) = Some (neg, ds, rest) ->
    b = neg /\ t = ds ++ rest /\ ds <> [] /\ forallb is_digit ds = true).
  { intros b t Ht. destruct (take_skip_while is_digit t) as [H1 H2]. destruct (take_while is_digit t) as [| x ts] eqn:E; [done |].
    injection Ht as <- <- <-. split_and!; try done. }
  destruct s as [| c s]; [done |]. destruct (c =? 45) eqn:E1; [| destruct (c =? 43) eqn:E2]; bool_facts; subst;
    apply Hgo in H as (<- & Hs & Hn & Hd).
  - exists [45]. split_and!; [by right; left | by rewrite Hs | done | done].
  - exists [43]. split_and!; [by right; right; left | by rewrite Hs | done | done].
  - exists []. split_and!; [by left | done | done | done].
Qed.

(** parse_int_full() takes exactly the texts that are an optional sign and
    one or more digits, whole, whose value lies in [lo, hi], and gives that
    value: no blanks, no unit, no trailing text, and no truncation of a value
    past the range of [long]. *)
Theorem parse_int_full_exact s lo hi n :
  LONG_MIN <= lo -> hi <= LONG_MAX ->
  parse_int_full (Some s) lo hi = Some n <->
  exists sign neg ds, (sign, neg) ∈ [([], false); ([45], true); ([43], false)] /\ c_str s = sign ++ ds /\ ds <> [] /\
    forallb is_digit ds = true /\ n = (if neg : bool then - decimal ds else decimal ds) /\ lo <= n <= hi.
Proof.
  intros Hlo Hhi. unfold parse_int_full. set (t := c_str s). clearbody t. split.
  - destruct (_ && _) eqn:Ef; [done |]. unfold strtol. destruct (scan_number t) as [[[neg ds] rest] |] eqn:Es; [| done].
    assert (Hsp : is_space (znth 0 t 0) = false).
    { apply andb_false_iff in Ef as [[Ef | Ef]%andb_false_iff | Ef]; bool_facts; [by apply digit_not_space | by rewrite Ef | by rewrite Ef]. }
    destruct (scan_number_inv _ _ _ _ Es Hsp) as (sign & Hin & -> & Hn & Hd).
    set (v := if neg then - decimal ds else decimal ds). intros H. exists sign, neg, ds.
    destruct (v <? LONG_MIN) eqn:E1, (LONG_MAX <? v) eqn:E2; bool_facts; destruct (zlen rest =? 0) eqn:Ez; cbn [negb orb] in H; try done.
    bool_facts. destruct (v <? lo) eqn:E3, (hi <? v) eqn:E4; bool_facts; cbn [orb] in H; try done. injection H as <-.
    assert (rest = []) as -> by (destruct rest as [| x r]; [done | rewrite zlen_cons in Ez; pose proof (zlen_nonneg r); lia]).
    rewrite app_nil_r. split_and!; done || lia.
  - intros (sign & neg & ds & Hin & -> & Hn & Hd & -> & Hr).
    pose proof (scan_signed sign neg ds [] Hin Hn Hd ltac:(intros x Hx; by apply elem_of_nil in Hx)) as Hs.
    rewrite app_nil_r in Hs. unfold strtol. rewrite Hs.
    assert (Hf : negb (is_digit (znth 0 (sign ++ ds) 0)) && negb (znth 0 (sign ++ ds) 0 =? 45) && negb (znth 0 (sign ++ ds) 0 =? 43) = false).
    { rewrite !elem_of_cons, elem_of_nil in Hin. destruct ds as [| c ds]; [done |]. cbn [forallb] in Hd.
      apply andb_true_iff in Hd as [Hc _]. destruct Hin as [[= -> ->] | [[= -> ->] | [[= -> ->] | []]]]; [change (znth 0 ([] ++ c :: ds) 0) with c; by rewrite Hc | done | done]. }
    rewrite Hf. rewrite (proj2 (Z.ltb_ge _ LONG_MIN)), (proj2 (Z.ltb_ge LONG_MAX _)) by lia. change (zlen [] =? 0) with true.
    rewrite (proj2 (Z.ltb_ge _ lo)), (proj2 (Z.ltb_ge hi _)) by lia. done.
Qed.

Lemma parse_int_full_exact_witness :
  parse_int_full (Some (str "-42")) (-50) 50 = Some (-42) <->
  exists sign neg ds, (sign, neg) ∈ [([], false); ([45], true); ([43], false)] /\ c_str (str "-42") = sign ++ ds /\ ds <> [] /\
    forallb is_digit ds = true /\ -42 = (if neg : bool then - decimal ds else decimal ds) /\ -50 <= -42 <= 50.
Proof. apply (parse_int_full_exact (str "-42") (-50) 50 (-42)); vm_compute; discriminate. Defined.

(** ** Printed numbers *)

Lemma digits_of_spec fuel v acc :
  0 <= v < 10 ^ Z.of_nat fuel -> (0 < fuel)%nat ->
  exists ds, digits_of fuel v acc = ds ++ acc /\ ds <> [] /\ forallb is_digit ds = true /\ decimal ds = v /\
    (length ds <= fuel)%nat.
Proof.
  revert v acc. induction fuel as [| fuel IH]; intros v acc Hv Hf; [lia |]. cbn [digits_of].
  assert (Hd : is_digit (48 + v mod 10) = true)
    by (unfold is_digit; apply andb_true_iff; split; apply Z.leb_le; Z.to_euclidean_division_equations; lia).
  destruct (v <? 10) eqn:E; bool_facts.
  - exists [48 + v mod 10]. split_and!; [done | done | cbn; by rewrite Hd | | cbn; lia].
    unfold decimal, decimal_from. cbn. Z.to_euclidean_division_equations; lia.
  - assert (Hfuel : (0 < fuel)%nat) by (destruct fuel; [cbn in Hv; lia | lia]).
    rewrite Nat2Z.inj_succ, Z.pow_succ_r in Hv by lia.
    destruct (IH (v / 10) ((48 + v mod 10) :: acc)) as (ds & -> & Hn & Hds & Hval & Hlen); [Z.to_euclidean_division_equations; lia | done |].
    exists (ds ++ [48 + v mod 10]). split_and!.
    + by rewrite <- app_assoc.
    + by intros [_ ?]%app_nil.
    + rewrite forallb_app, Hds. cbn. by rewrite Hd.
    + unfold decimal in *. rewrite decimal_from_app, Hval. unfold decimal_from. cbn [fold_left].
      Z.to_euclidean_division_equations; lia.
    + rewrite length_app. cbn. lia.
Qed.

Lemma u64_text_spec v :
  is_uint 64 v -> u64_text v <> [] /\ forallb is_digit (u64_text v) = true /\ decimal (u64_text v) = v /\ zlen (u64_text v) <= 20.
Proof.
  intros Hv. destruct (digits_of_spec 20 v []) as (ds & Hds & Hn & Hd & Hval & Hl); [unfold is_uint in Hv; cbn in *; lia | lia |].
  unfold u64_text. rewrite Hds, app_nil_r. split_and!; try done. unfold zlen. lia.
Qed.

Lemma strtoull_u64_text v r :
  is_uint 64 v -> (forall x, x ∈ take 1 r -> is_digit x = false) -> strtoull (u64_text v ++ r) = Some v.
Proof.
  intros Hv Hr. destruct (u64_text_spec v Hv) as (Hn & Hd & Hval & _). unfold strtoull.
  pose proof (scan_signed [] false (u64_text v) r ltac:(by left) Hn Hd Hr) as Hs. cbn [app] in Hs. rewrite Hs, Hval, (proj2 (Z.ltb_ge _ _)); [done |].
  unfold is_uint, UINT64_MAX in *. lia.
Qed.
