(* ===== verification/HttpUtil.v ===== *)
(** The parsers the router uses on request data (src/web/http_util.h,
    src/web/http_util.cpp), on byte strings with the source's positions; a
    [const char*] is read up to its first NUL.  Theorems: the scanning loops
    find the first field of the split header or query with the wanted name, and
    query_u64() is the decimal value, saturated. *)
From Stdlib Require Import ZArith Lia List Bool.
From stdpp Require Import base numbers list strings.
From S2P Require Import Prelude TextNum.
Open Scope Z_scope.

(** ** std::string *)

(** [s.find(c, p)]; [None] is [npos]. *)
Fixpoint find_char (c : Z) (s : bytes) : option Z :=
  match s with
  | [] => None
  | x :: r => if x =? c then Some 0 else option_map (Z.add 1) (find_char c r)
  end.
Definition find_from (c : Z) (s : bytes) (p : Z) : option Z := option_map (Z.add p) (find_char c (zdrop p s)).

(** [s.substr(p, n)] and [s.compare(p, n, t) == 0], for [p <= s.size()]. *)
Definition substr (p n : Z) (s : bytes) : bytes := slice p (Z.min n (zlen s - p)) s.
Definition compare_eq (p n : Z) (s t : bytes) : bool := bool_decide (substr p n s = t).

(** ** Cookies and targets *)

Definition is_blank (c : Z) : bool := (c =? 32) || (c =? 9).

Fixpoint skip_blanks (fuel : nat) (s : bytes) (start end_ : Z) : Z :=
  match fuel with
  | O => start
  | S fuel => if (start <? end_) && is_blank (znth 0 s start) then skip_blanks fuel s (start + 1) end_ else start
  end.

Fixpoint cookie_loop (fuel : nat) (cookie_header needle : bytes) (p : Z) : bytes :=
  match fuel with
  | O => []
  | S fuel =>
      if p <? zlen cookie_header then
        let end_ := default (zlen cookie_header) (find_from 59 cookie_header p) in
        let start := skip_blanks (Z.to_nat (end_ - p)) cookie_header p end_ in
        if compare_eq start (zlen needle) cookie_header needle then
          substr (start + zlen needle) (u64 (end_ - start - zlen needle)) cookie_header
        else cookie_loop fuel cookie_header needle (end_ + 1)
      else []
  end.

Definition cookie_value (cookie_header name : bytes) : bytes :=
  cookie_loop (S (length cookie_header)) cookie_header (c_str name ++ [61]) 0.

(** [*path] and [*query]. *)
Definition split_target (target : bytes) : bytes * bytes :=
  match find_from 63 target 0 with
  | None => (target, [])
  | Some q => (substr 0 q target, substr (q + 1) (zlen target - (q + 1)) target)
  end.

(** ** Query strings *)

Fixpoint query_loop (fuel : nat) (query needle : bytes) (p : Z) : option bytes :=
  match fuel with
  | O => None
  | S fuel =>
      if p <? zlen query then
        let amp := default (zlen query) (find_from 38 query p) in
        if compare_eq p (zlen needle) query needle then
          Some (substr (p + zlen needle) (u64 (amp - p - zlen needle)) query)
        else query_loop fuel query needle (amp + 1)
      else None
  end.

Definition query_find (query key : bytes) : option bytes :=
  query_loop (S (length query)) query (c_str key ++ [61]) 0.

Fixpoint digits_loop (fallback out : Z) (val : bytes) : Z :=
  match val with
  | [] => out
  | c :: val =>
      if (c <? 48) || (57 <? c) then fallback
      else
        let digit := c - 48 in
        if (UINT64_MAX - digit) / 10 <? out then UINT64_MAX
        else digits_loop fallback (u64 (u64 (out * 10) + digit)) val
  end.

Definition query_u64 (query key : bytes) (fallback : Z) : Z :=
  match query_find query key with
  | None => fallback
  | Some [] => fallback
  | Some val => digits_loop fallback 0 val
  end.

Definition query_str (query key : bytes) : bytes := default [] (query_find query key).

(** ** Case-insensitive comparison *)

Definition ascii_ieq (a b : bytes) : bool :=
  let b := c_str b in
  if negb (zlen a =? zlen b) then false
  else forallb (fun xy => tolower xy.1 =? tolower xy.2) (combine a b).

(** The inner [while]: the needle against the bytes at one position. *)
Fixpoint prefix_ieq (needle hay : bytes) : bool :=
  match needle, hay with
  | [], _ => true
  | y :: needle, x :: hay => (tolower x =? tolower y) && prefix_ieq needle hay
  | _ :: _, [] => false
  end.

(** The outer [for]: every position [i] with [i + nlen <= hay.size()]. *)
Fixpoint icontains_loop (needle hay : bytes) : bool :=
  (zlen needle <=? zlen hay) &&
  (prefix_ieq needle hay || match hay with [] => false | _ :: hay => icontains_loop needle hay end).

Definition ascii_icontains (hay needle : bytes) : bool :=
  let needle := c_str needle in
  if zlen needle =? 0 then true else icontains_loop needle hay.

Example cookie_ex : cookie_value (str "a=1;  sid=xy;b=2") (str "sid") = str "xy".
Proof. vm_compute. reflexivity. Qed.
Example query_ex : query_u64 (str "a=1&limit=42") (str "limit") 7 = 42 /\
  query_u64 (str "limit=99999999999999999999x") (str "limit") 7 = UINT64_MAX.
Proof. vm_compute. auto. Qed.
Example icontains_ex : ascii_icontains (str "keep-alive, Upgrade") (str "upgrade") = true.
Proof. vm_compute. reflexivity. Qed.

(** ** Fields: what the loops look through *)

(** A string cut at every [c]. *)
Fixpoint fields (c : Z) (s : bytes) : list bytes :=
  match s with
  | [] => [[]]
  | x :: r =>
      if x =? c then [] :: fields c r
      else match fields c r with f :: fs => (x :: f) :: fs | [] => [[x]] end
  end.

(** The first field [sel] takes. *)
Fixpoint first_sel {A} (sel : bytes -> option A) (fs : list bytes) : option A :=
  match fs with
  | [] => None
  | f :: fs => match sel f with Some v => Some v | None => first_sel sel fs end
  end.

(** The text after [needle] in a field that starts with it. *)
Fixpoint after_prefix (needle f : bytes) : option bytes :=
  match needle, f with
  | [], _ => Some f
  | y :: needle, x :: f => if x =? y then after_prefix needle f else None
  | _ :: _, [] => None
  end.

Fixpoint trim_left (f : bytes) : bytes :=
  match f with
  | x :: r => if is_blank x then trim_left r else f
  | [] => []
  end.

Lemma find_char_fields c s :
  match find_char c s with
  | None => fields c s = [s]
  | Some e => 0 <= e < zlen s /\ fields c s = ztake e s :: fields c (zdrop (e + 1) s) /\ zdrop e s = c :: zdrop (e + 1) s
  end.
Proof.
  induction s as [| x s IH]; cbn [find_char fields]; [done |].
  pose proof (zlen_nonneg s). rewrite zlen_cons. destruct (x =? c) eqn:E; bool_facts.
  - subst. split_and!; [lia | lia | done | done].
  - destruct (find_char c s) as [e |]; cbn [option_map].
    + destruct IH as (He & -> & Hn). unfold ztake, zdrop in *.
      replace (Z.to_nat (1 + e)) with (S (Z.to_nat e)) by lia.
      replace (Z.to_nat (1 + e + 1)) with (S (Z.to_nat (e + 1))) by lia. cbn [take drop].
      split_and!; [lia | lia | done | done].
    + by rewrite IH.
Qed.

Lemma find_char_app c l r : c ∉ l -> find_char c (l ++ c :: r) = Some (zlen l).
Proof.
  induction l as [| x l IH]; intros Hl; cbn [app find_char]; [by rewrite Z.eqb_refl |].
  rewrite not_elem_of_cons in Hl. destruct Hl as [Hx Hl].
  rewrite (proj2 (Z.eqb_neq x c)), (IH Hl) by congruence. cbn [option_map]. by rewrite zlen_cons.
Qed.

Lemma compare_prefix p needle s :
  0 <= p <= zlen s ->
  compare_eq p (zlen needle) s needle = match after_prefix needle (zdrop p s) with Some _ => true | None => false end /\
  (forall v, after_prefix needle (zdrop p s) = Some v -> zdrop p s = needle ++ v).
Proof.
  intros Hp. assert (Hs : substr p (zlen needle) s = ztake (zlen needle) (zdrop p s)).
  { unfold substr, slice, ztake. destruct (Z.le_gt_cases (zlen needle) (zlen s - p)); [by rewrite Z.min_l |].
    rewrite !take_ge; [done | |]; unfold zdrop, zlen in *; rewrite length_drop; lia. }
  unfold compare_eq. rewrite Hs. generalize (zdrop p s). clear. intros t. revert t.
  induction needle as [| y needle IH]; intros t; [split; [done | by intros v [= ->]] |].
  destruct t as [| x t]; [split; [apply bool_decide_false; unfold ztake; by rewrite take_nil | done] |]. cbn [after_prefix]. unfold ztake, zlen in *. cbn [length].
  rewrite Nat2Z.id in *. cbn [take]. destruct (IH t) as [IH1 IH2]. destruct (x =? y) eqn:E; bool_facts.
  - subst. split; [| intros v Hv; cbn; by rewrite (IH2 v Hv)]. rewrite <- IH1.
    apply bool_decide_ext. split; [by intros [= ->] | by intros ->].
  - split; [| done]. apply bool_decide_false. congruence.
Qed.

Lemma after_prefix_app needle f r :
  (forall x, x ∈ take 1 r -> x ∉ needle) ->
  after_prefix needle (f ++ r) = option_map (fun v => v ++ r) (after_prefix needle f).
Proof.
  revert f. induction needle as [| y needle IH]; intros f Hr; [done |].
  destruct f as [| x f]; cbn [app after_prefix].
  - destruct r as [| x r]; [done |]. specialize (Hr x ltac:(left)).
    cbn [after_prefix]. rewrite not_elem_of_cons in Hr. by rewrite (proj2 (Z.eqb_neq x y)) by tauto.
  - destruct (x =? y); [| done]. apply IH. intros z Hz. specialize (Hr z Hz). rewrite not_elem_of_cons in Hr. tauto.
Qed.

Lemma after_prefix_some needle f v : after_prefix needle f = Some v -> f = needle ++ v.
Proof.
  revert f. induction needle as [| y needle IH]; intros f; [by intros [= ->] |].
  destruct f as [| x f]; [done |]. cbn. destruct (x =? y) eqn:E; bool_facts; [| done]. subst.
  intros H. by rewrite (IH _ H).
Qed.

Lemma zdrop_zdrop {A} n m (l : list A) : 0 <= n -> 0 <= m -> zdrop n (zdrop m l) = zdrop (m + n) l.
Proof. intros. unfold zdrop. rewrite drop_drop. f_equal. lia. Qed.

Lemma zlen_zdrop {A} n (l : list A) : 0 <= n <= zlen l -> zlen (zdrop n l) = zlen l - n.
Proof. intros. unfold zdrop, zlen in *. rewrite length_drop. lia. Qed.

Lemma ztake_zdrop {A} n (l : list A) : ztake n l ++ zdrop n l = l.
Proof. apply take_drop. Qed.

Lemma zdrop_ge {A} n (l : list A) : zlen l <= n -> zdrop n l = [].
Proof. intros. unfold zdrop, zlen in *. apply drop_ge. lia. Qed.

(** The field a scanning loop is at: from [p] to the next [c] or the end. *)
Lemma field_at c s p :
  0 <= p <= zlen s ->
  let e := default (zlen s) (find_from c s p) in
  let f := slice p (e - p) s in
  p <= e <= zlen s /\ zlen f = e - p /\ zdrop p s = f ++ zdrop e s /\ (forall x, x ∈ take 1 (zdrop e s) -> x = c) /\
  fields c (zdrop p s) = f :: (if e <? zlen s then fields c (zdrop (e + 1) s) else []).
Proof.
  intros Hp. pose proof (find_char_fields c (zdrop p s)) as H. pose proof (zlen_zdrop p s Hp) as Hl.
  unfold find_from, slice. destruct (find_char c (zdrop p s)) as [e |] eqn:E; cbn [option_map default id].
  - destruct H as (He & Hf & Hc). replace (p + e - p) with e by lia. rewrite (proj2 (Z.ltb_lt _ _)) by lia.
    rewrite zdrop_zdrop in Hf, Hc by lia. replace (p + e + 1) with (p + (e + 1)) by lia.
    split_and!; [lia | lia | unfold ztake, zlen in *; rewrite length_take; lia | | | done].
    + by rewrite <- (zdrop_zdrop e p), ztake_zdrop by lia.
    + rewrite <- (zdrop_zdrop e p), zdrop_zdrop, Hc by lia. cbn. intros x Hx. by apply list_elem_of_singleton in Hx.
  - rewrite Z.ltb_irrefl, (zdrop_ge (zlen s)) by lia. unfold ztake.
    rewrite take_ge by (unfold zlen in *; lia). rewrite app_nil_r. split_and!; [lia | lia | lia | done | | done].
    intros x Hx. by apply elem_of_nil in Hx.
Qed.

(** The test and the extraction of both loops, at a position [q] of a field
    that ends at [e]. *)
Lemma match_field c s needle q e g :
  0 <= q -> zlen s < 2 ^ 64 -> c ∉ needle -> zlen g = e - q -> zdrop q s = g ++ zdrop e s -> e <= zlen s ->
  (forall x, x ∈ take 1 (zdrop e s) -> x = c) ->
  after_prefix needle g =
    if compare_eq q (zlen needle) s needle then
      Some (substr (q + zlen needle) (u64 (e - q - zlen needle)) s) else None.
Proof.
  intros Hq Hs Hc Hg Hz He Hr. pose proof (zlen_nonneg g). pose proof (zlen_nonneg needle).
  destruct (compare_prefix q needle s ltac:(lia)) as [-> Hv]. rewrite Hz in *.
  rewrite after_prefix_app in * by (intros x Hx; by rewrite (Hr x Hx)).
  destruct (after_prefix needle g) as [v |] eqn:E; cbn [option_map] in *; [| done]. f_equal.
  pose proof (after_prefix_some _ _ _ E) as ->. rewrite zlen_app in Hg. pose proof (zlen_nonneg v).
  unfold u64. rewrite wrap_small by (unfold is_uint; lia). unfold substr, slice.
  rewrite <- (zdrop_zdrop (zlen needle) q), Hz, <- app_assoc, zdrop_app, Z.min_l by (done || lia).
  replace (e - q - zlen needle) with (zlen v) by lia. unfold ztake, zlen. by rewrite Nat2Z.id, take_app_length.
Qed.

Lemma query_loop_fields fuel s needle p :
  0 <= p -> zlen s < 2 ^ 64 -> 38 ∉ needle -> needle <> [] -> zlen s - p < Z.of_nat fuel ->
  query_loop fuel s needle p = first_sel (after_prefix needle) (if p <=? zlen s then fields 38 (zdrop p s) else []).
Proof.
  intros Hp Hs Hc Hn. revert p Hp. induction fuel as [| fuel IH]; intros p Hp Hf.
  { by rewrite (proj2 (Z.leb_gt _ _)) by lia. }
  cbn [query_loop]. destruct (p <? zlen s) eqn:E; bool_facts.
  - rewrite (proj2 (Z.leb_le p _)) by lia.
    destruct (field_at 38 s p ltac:(lia)) as (He & Hl & Hz & Hr & ->). set (e := default _ _) in *. clearbody e.
    cbn [first_sel]. rewrite (match_field 38 s needle p e) by (done || lia).
    destruct (compare_eq _ _ _ _); [done |]. rewrite IH by lia.
    destruct (e <? zlen s) eqn:Ee; bool_facts; destruct (e + 1 <=? zlen s) eqn:E2; bool_facts; done || lia.
  - destruct (p <=? zlen s); [| done]. rewrite zdrop_ge by lia. by destruct needle.
Qed.

Lemma skip_blanks_trim fuel s start e f r :
  (Z.to_nat (e - start) <= fuel)%nat -> 0 <= start -> zdrop start s = f ++ r -> zlen f = e - start ->
  let q := skip_blanks fuel s start e in
  0 <= q /\ zdrop q s = trim_left f ++ r /\ zlen (trim_left f) = e - q.
Proof.
  revert start f. induction fuel as [| fuel IH]; intros start f Hf Hs Hz Hl.
  { destruct f as [| x f]; [done | rewrite zlen_cons in Hl; pose proof (zlen_nonneg f); lia]. }
  cbn [skip_blanks]. destruct f as [| x f].
  { change (zlen []) with 0 in Hl. rewrite (proj2 (Z.ltb_ge start e)) by lia. done. }
  rewrite zlen_cons in Hl. pose proof (zlen_nonneg f). rewrite (proj2 (Z.ltb_lt start e)) by lia.
  assert (Hx : znth 0 s start = x).
  { unfold znth, zdrop in *. rewrite nth_lookup, <- (Nat.add_0_r (Z.to_nat start)), <- lookup_drop, Hz. done. }
  rewrite Hx. cbn [andb trim_left]. destruct (is_blank x).
  - apply IH; [lia | lia | | lia]. rewrite <- zdrop_zdrop, Hz by lia. done.
  - split_and!; [done | done | rewrite zlen_cons; lia].
Qed.

Lemma cookie_loop_fields fuel s needle p :
  0 <= p -> zlen s < 2 ^ 64 -> 59 ∉ needle -> needle <> [] -> zlen s - p < Z.of_nat fuel ->
  cookie_loop fuel s needle p =
  default [] (first_sel (fun f => after_prefix needle (trim_left f)) (if p <=? zlen s then fields 59 (zdrop p s) else [])).
Proof.
  intros Hp Hs Hc Hn. revert p Hp. induction fuel as [| fuel IH]; intros p Hp Hf.
  { by rewrite (proj2 (Z.leb_gt _ _)) by lia. }
  cbn [cookie_loop]. destruct (p <? zlen s) eqn:E; bool_facts.
  - rewrite (proj2 (Z.leb_le p _)) by lia.
    destruct (field_at 59 s p ltac:(lia)) as (He & Hl & Hz & Hr & ->). set (e := default (zlen s) _) in *. clearbody e.
    destruct (skip_blanks_trim (Z.to_nat (e - p)) s p e _ _ ltac:(done) Hp Hz Hl) as (Hq & Hzq & Hlq).
    set (q := skip_blanks _ _ _ _) in *. clearbody q. cbn [first_sel].
    rewrite (match_field 59 s needle q e) by (done || lia).
    destruct (compare_eq _ _ _ _); [done |]. rewrite IH by lia.
    destruct (e <? zlen s) eqn:Ee; bool_facts; destruct (e + 1 <=? zlen s) eqn:E2; bool_facts; done || lia.
  - destruct (p <=? zlen s); [| done]. rewrite zdrop_ge by lia. by destruct needle.
Qed.

(** ** The contract *)

(** C28: The scanning loops are the obvious definitions on the split text:
    cookie_value() is the value of the first cookie of that name among the
    ';'-separated fields of the header (leading blanks dropped), query_str()
    the text after [key=] of the first '&'-separated field that starts with
    it, "" when there is none; a name never matches across a separator. *)
Theorem first_field_found (header query name key : bytes) :
  zlen header < 2 ^ 64 -> zlen query < 2 ^ 64 -> 59 ∉ c_str name -> 38 ∉ c_str key ->
  cookie_value header name =
    default [] (first_sel (fun f => after_prefix (c_str name ++ [61]) (trim_left f)) (fields 59 header)) /\
  query_str query key = default [] (first_sel (after_prefix (c_str key ++ [61])) (fields 38 query)).
Proof.
  intros Hh Hq Hn Hk. unfold cookie_value, query_str, query_find. pose proof (zlen_nonneg header). pose proof (zlen_nonneg query).
  rewrite cookie_loop_fields, query_loop_fields;
    [by rewrite !(proj2 (Z.leb_le _ _)) by lia | | done | | by intros []%app_nil | unfold zlen; lia
     | | done | | by intros []%app_nil | unfold zlen; lia]; try lia;
    rewrite elem_of_app, list_elem_of_singleton; intros [? | ?]; done.
Qed.

Lemma first_field_found_witness :
  let header := str "a=1; csid=2; sid=xy; sid=z" in
  let query := str "n=1&since=5&since=6" in
  cookie_value header (str "sid") = str "xy" /\ query_str query (str "since") = str "5" /\
  cookie_value header (str "sid") =
    default [] (first_sel (fun f => after_prefix (c_str (str "sid") ++ [61]) (trim_left f)) (fields 59 header)) /\
  query_str query (str "since") = default [] (first_sel (after_prefix (c_str (str "since") ++ [61])) (fields 38 query)).
Proof.
  intros header query. split; [vm_compute; reflexivity |]. split; [vm_compute; reflexivity |].
  apply (first_field_found header query (str "sid") (str "since")).
  1-2: vm_compute; reflexivity.
  1-2: apply (bool_decide_unpack _); vm_compute; exact I.
Defined.

Lemma digits_loop_value fallback out ds :
  forallb is_digit ds = true -> 0 <= out <= UINT64_MAX ->
  digits_loop fallback out ds = Z.min UINT64_MAX (decimal_from out ds).
Proof.
  revert out. induction ds as [| c ds IH]; intros out Hd Ho; [cbn; lia |]. cbn [forallb] in Hd.
  apply andb_true_iff in Hd as [Hc Hd]. unfold is_digit in Hc. bool_facts. unfold decimal_from in *. cbn [digits_loop fold_left]. fold (decimal_from (out * 10 + (c - 48)) ds).
  rewrite (proj2 (Z.ltb_ge c 48)), (proj2 (Z.ltb_ge 57 c)) by lia. cbn [orb].
  pose proof (decimal_from_mono ds (out * 10 + (c - 48)) Hd ltac:(lia)).
  destruct (_ <? out) eqn:E; bool_facts.
  - assert (UINT64_MAX < out * 10 + (c - 48)) by (Z.to_euclidean_division_equations; lia). lia.
  - assert (out * 10 + (c - 48) <= UINT64_MAX) by (Z.to_euclidean_division_equations; lia).
    unfold u64. rewrite (wrap_small 64 (out * 10)) by (unfold is_uint, UINT64_MAX in *; lia).
    rewrite wrap_small by (unfold is_uint, UINT64_MAX in *; lia). apply IH; [done | lia].
Qed.

Lemma digits_loop_other fallback out ds :
  forallb is_digit ds = false -> digits_loop fallback out ds = fallback \/ digits_loop fallback out ds = UINT64_MAX.
Proof.
  revert out. induction ds as [| c ds IH]; intros out Hd; [done |]. cbn [forallb] in Hd. cbn [digits_loop].
  unfold is_digit in Hd at 1. destruct ((c <? 48) || (57 <? c)) eqn:E; [by left |]. bool_facts.
  rewrite (proj2 (Z.leb_le 48 c)), (proj2 (Z.leb_le c 57)) in Hd by lia. destruct (_ <? out); [by right | by apply IH].
Qed.

(** query_u64() never wraps: for a value of digits it is the decimal number
    saturated at UINT64_MAX, whatever its length; for a key that is absent or
    empty it is the fallback; and for a value with another character it is the
    fallback or, when the digits before it are past UINT64_MAX, UINT64_MAX. *)
Theorem query_u64_saturates (query key : bytes) fallback :
  match query_find query key with
  | None | Some [] => query_u64 query key fallback = fallback
  | Some val =>
      (forallb is_digit val = true -> query_u64 query key fallback = Z.min UINT64_MAX (decimal val)) /\
      (forallb is_digit val = false ->
       query_u64 query key fallback = fallback \/ query_u64 query key fallback = UINT64_MAX)
  end.
Proof.
  unfold query_u64, decimal. destruct (query_find query key) as [[| c val] |]; [done | | done].
  split; intros H; [apply digits_loop_value | apply digits_loop_other]; done.
Qed.

Lemma split_target_spec target :
  let '(path, query) := split_target target in
  (63 ∉ path) /\ ((path = target /\ query = []) \/ target = path ++ [63] ++ query).
Proof.
  unfold split_target, find_from. pose proof (find_char_fields 63 target) as H. change (zdrop 0 target) with target.
  assert (Hno : forall s n, find_char 63 s = n -> 63 ∉ match n with Some e => ztake e s | None => s end).
  { clear. induction s as [| x s IH]; intros n <-; [apply not_elem_of_nil |]. cbn [find_char].
    destruct (x =? 63) eqn:E; bool_facts; [apply not_elem_of_nil |]. specialize (IH _ eq_refl).
    pose proof (find_char_fields 63 s) as H. destruct (find_char 63 s) as [e |]; cbn [option_map].
    - unfold ztake in *. replace (Z.to_nat (1 + e)) with (S (Z.to_nat e)) by lia. cbn.
      rewrite not_elem_of_cons. by split.
    - rewrite not_elem_of_cons. by split. }
  specialize (Hno target _ eq_refl). destruct (find_char 63 target) as [e |]; cbn [option_map]; [| auto].
  destruct H as (He & _ & Hc). unfold substr. rewrite !Z.add_0_l, Z.sub_0_r, Z.min_l, Z.min_id by lia.
  unfold slice. change (zdrop 0 target) with target. split; [done | right].
  assert (Ha : ztake (zlen target - (e + 1)) (zdrop (e + 1) target) = zdrop (e + 1) target).
  { unfold ztake, zdrop, zlen in *. apply take_ge. rewrite length_drop. lia. }
  rewrite Ha. cbn [app]. rewrite <- Hc. symmetry. apply ztake_zdrop.
Qed.

(** The needle is somewhere in the text, case aside. *)
Lemma prefix_ieq_spec needle hay :
  prefix_ieq needle hay = true <-> exists m r, hay = m ++ r /\ map tolower m = map tolower needle.
Proof.
  revert hay. induction needle as [| y needle IH]; intros hay; cbn.
  - split; [by exists [], hay | done].
  - destruct hay as [| x hay]; [split; [done | by intros ([| ? m] & r & ? & ?)] |].
    rewrite andb_true_iff, IH, Z.eqb_eq. split.
    + intros (Hx & m & r & -> & Hm). exists (x :: m), r. split; [done | cbn; congruence].
    + intros ([| x' m] & r & Hr & Hm); [done |]. injection Hr as -> ->. injection Hm as Hx Hm. split; [done | by exists m, r].
Qed.

(** ascii_icontains() finds the needle exactly when some part of the text
    equals it but for the case of ASCII letters, and ascii_ieq() compares the
    whole texts so. *)
Theorem ascii_compare_spec hay needle :
  (ascii_icontains hay needle = true <->
   exists a m b, hay = a ++ m ++ b /\ map tolower m = map tolower (c_str needle)) /\
  (ascii_ieq hay needle = true <-> map tolower hay = map tolower (c_str needle)).
Proof.
  split.
  - unfold ascii_icontains. generalize (c_str needle). clear. intros needle. destruct (zlen needle =? 0) eqn:E; bool_facts.
    { destruct needle; [| rewrite zlen_cons in E; pose proof (zlen_nonneg needle); lia].
      split; [by exists [], [], hay | done]. }
    clear E. induction hay as [| x hay IH]; cbn [icontains_loop]; rewrite andb_true_iff, orb_true_iff, prefix_ieq_spec.
    + split; [intros (_ & [(m & r & ? & ?) | ?]); [by exists [], m, r | done] |]. intros (a & m & b & Hab & Hm).
      apply eq_sym, app_nil in Hab as [-> Hab]. apply (f_equal (@length Z)) in Hm as Hlen. rewrite !length_map in Hlen.
      split; [| left; by exists m, b]. apply app_nil in Hab as [-> ->]. unfold zlen. cbn in *. apply Z.leb_le. lia.
    + rewrite IH. split.
      * intros (_ & [(m & r & ? & ?) | (a & m & b & -> & ?)]); [by exists [], m, r | by exists (x :: a), m, b].
      * intros (a & m & b & Hab & Hm). apply (f_equal (@length Z)) in Hm as Hlen. rewrite !length_map in Hlen.
        split; [apply Z.leb_le; rewrite Hab; unfold zlen; rewrite !length_app; lia |].
        destruct a as [| y a]; [left; by exists m, b | right]. injection Hab as -> ->. by exists a, m, b.
  - unfold ascii_ieq. generalize (c_str needle). clear. intros b. revert b.
    induction hay as [| x hay IH]; intros [| y b]; cbn [map];
      [split; done | split; intros H; discriminate H | split; intros H; discriminate H |].
    specialize (IH b). rewrite !zlen_cons. replace (1 + zlen hay =? 1 + zlen b) with (zlen hay =? zlen b) by (apply bool_decide_ext || lia).
    destruct (zlen hay =? zlen b); cbn [negb combine forallb fst snd] in *.
    + rewrite andb_true_iff, IH, Z.eqb_eq. split; [intros [-> ->]; done | by intros [= -> ->]].
    + split; [done |]. intros [= Hx Hb]. by apply IH.
Qed.
