(* ===== verification/Sha1Base64.v ===== *)
(** The digest and encoding of the WebSocket handshake and of the session
    file's credential line (src/web/sha1_base64.h, src/web/sha1_base64.cpp).
    The streaming hash keeps a 64-byte buffer that sha1_init() leaves
    uninitialised; the theorems hold for whatever it contains.  The block
    function is the source's; the reference is the padding and chaining of
    RFC 3174 over the whole message. *)
From Stdlib Require Import ZArith Lia List Bool.
From stdpp Require Import base numbers list strings.
From S2P Require Import Prelude.
Open Scope Z_scope.

(** ** The block function *)

Definition rol (v n : Z) : Z := Z.lor (u32 (Z.shiftl v n)) (Z.shiftr v (32 - n)).

(** Four bytes, the most significant first, as the source joins and splits
    them. *)
Definition be32 (block : bytes) (i : Z) : Z :=
  Z.lor (Z.lor (Z.lor (Z.shiftl (znth 0 block (i * 4)) 24) (Z.shiftl (znth 0 block (i * 4 + 1)) 16))
               (Z.shiftl (znth 0 block (i * 4 + 2)) 8))
        (znth 0 block (i * 4 + 3)).

(** [w[i]] for the next [i], appended. *)
Definition w_next (w : list Z) : list Z :=
  let i := zlen w in
  w ++ [rol (Z.lxor (Z.lxor (Z.lxor (znth 0 w (i - 3)) (znth 0 w (i - 8))) (znth 0 w (i - 14))) (znth 0 w (i - 16))) 1].

Definition w_schedule (block : bytes) : list Z :=
  Nat.iter 64 w_next (map (be32 block) (seqZ 0 16)).

(** The five chaining words. *)
Record Words := mkWords { wa : Z; wb : Z; wc : Z; wd : Z; we : Z }.

Definition round_fk (i b c d : Z) : Z * Z :=
  if i <? 20 then (Z.lor (Z.land b c) (Z.land (u32 (Z.lnot b)) d), 0x5A827999)
  else if i <? 40 then (Z.lxor (Z.lxor b c) d, 0x6ED9EBA1)
  else if i <? 60 then (Z.lor (Z.lor (Z.land b c) (Z.land b d)) (Z.land c d), 0x8F1BBCDC)
  else (Z.lxor (Z.lxor b c) d, 0xCA62C1D6).

Definition sha1_round (w : list Z) (s : Words) (i : Z) : Words :=
  let '(f, k) := round_fk i (wb s) (wc s) (wd s) in
  let t := u32 (rol (wa s) 5 + f + we s + k + znth 0 w i) in
  mkWords t (wa s) (rol (wb s) 30) (wc s) (wd s).

Definition sha1_block (state : Words) (block : bytes) : Words :=
  let s := fold_left (sha1_round (w_schedule block)) (seqZ 0 80) state in
  mkWords (u32 (wa state + wa s)) (u32 (wb state + wb s)) (u32 (wc state + wc s)) (u32 (wd state + wd s))
    (u32 (we state + we s)).

(** ** The streaming hash *)

Record Sha1 := mkSha1 { st : Words; bits : Z; buf : bytes; buflen : Z }.

Definition initial_words : Words := mkWords 0x67452301 0xEFCDAB89 0x98BADCFE 0x10325476 0xC3D2E1F0.
Definition sha1_init (s : Sha1) : Sha1 := mkSha1 initial_words 0 (buf s) 0.

(** [while (len >= 64)]: the blocks of [p], then what is left of it. *)
Fixpoint update_blocks (fuel : nat) (state : Words) (p : bytes) : Words * bytes :=
  match fuel with
  | O => (state, p)
  | S fuel =>
      if 64 <=? zlen p then update_blocks fuel (sha1_block state (ztake 64 p)) (zdrop 64 p) else (state, p)
  end.

(** The buffer is filled first when it holds something; a full one is hashed. *)
Definition fill_buffer (s : Sha1) (p : bytes) : Sha1 * bytes :=
  if 0 <? buflen s then
    let take := Z.min (zlen p) (64 - buflen s) in
    let b := splice (buflen s) (ztake take p) (buf s) in
    let n := buflen s + take in
    (if n =? 64 then mkSha1 (sha1_block (st s) b) (bits s) b 0 else mkSha1 (st s) (bits s) b n, zdrop take p)
  else (s, p).

Definition sha1_update (s : Sha1) (data : bytes) : Sha1 :=
  let '(s, p) := fill_buffer (mkSha1 (st s) (u64 (bits s + u64 (zlen data * 8))) (buf s) (buflen s)) data in
  let '(state, p) := update_blocks (length p) (st s) p in
  if 0 <? zlen p then mkSha1 state (bits s) (splice 0 p (buf s)) (zlen p)
  else mkSha1 state (bits s) (buf s) (buflen s).

Definition be_bytes (n : nat) (v : Z) : bytes :=
  map (fun i => Z.land (Z.shiftr v (8 * (Z.of_nat n - 1 - i))) 0xFF) (seqZ 0 (Z.of_nat n)).

Definition digest (w : Words) : bytes :=
  be_bytes 4 (wa w) ++ be_bytes 4 (wb w) ++ be_bytes 4 (wc w) ++ be_bytes 4 (wd w) ++ be_bytes 4 (we w).

(** [uint8_t pad[64] = {0x80}] *)
Definition pad64 : bytes := 0x80 :: replicate 63 0.

Definition sha1_final (s : Sha1) : bytes :=
  let total_bits := bits s in
  let pad_len := if buflen s <? 56 then 56 - buflen s else 120 - buflen s in
  let s := sha1_update s (ztake pad_len pad64) in
  let s := sha1_update s (be_bytes 8 total_bits) in
  digest (st s).

Definition sha1 (garbage : Sha1) (data : bytes) : bytes := sha1_final (sha1_update (sha1_init garbage) data).

(** ** Base64 *)

Definition kB64Alphabet : bytes :=
  str "ABCDEFGHIJKLMNOPQRSTUVWXYZ" ++ str "abcdefghijklmnopqrstuvwxyz" ++ str "0123456789+/".

Definition b64 (v : Z) : Z := znth 0 kB64Alphabet (Z.land v 0x3F).

Fixpoint base64_encode (p : bytes) : bytes :=
  match p with
  | a :: b :: c :: r =>
      let triple := Z.lor (Z.lor (Z.shiftl a 16) (Z.shiftl b 8)) c in
      b64 (Z.shiftr triple 18) :: b64 (Z.shiftr triple 12) :: b64 (Z.shiftr triple 6) :: b64 triple :: base64_encode r
  | [a; b] =>
      let triple := Z.lor (Z.shiftl a 16) (Z.shiftl b 8) in
      [b64 (Z.shiftr triple 18); b64 (Z.shiftr triple 12); b64 (Z.shiftr triple 6); 61]
  | [a] =>
      let triple := Z.lor (Z.shiftl a 16) (Z.shiftl 0 8) in
      [b64 (Z.shiftr triple 18); b64 (Z.shiftr triple 12); 61; 61]
  | [] => []
  end.

Example sha1_abc :
  sha1 (mkSha1 initial_words 7 (replicate 64 170) 3) (str "abc") =
  [0xa9; 0x99; 0x3e; 0x36; 0x47; 0x06; 0x81; 0x6a; 0xba; 0x3e; 0x25; 0x71; 0x78; 0x50; 0xc2; 0x6c; 0x9c; 0xd0; 0xd8; 0x9d].
Proof. vm_compute. reflexivity. Qed.

(** ** The reference: RFC 3174 on the whole message *)

(** The first [k] 64-byte blocks of [p]. *)
Fixpoint chunks (k : nat) (p : bytes) : list bytes :=
  match k with
  | O => []
  | S k => ztake 64 p :: chunks k (zdrop 64 p)
  end.

Definition hash_chunks (k : nat) (p : bytes) (w : Words) : Words := fold_left sha1_block (chunks k p) w.

(** The message, a one bit, zeros up to 8 bytes below a multiple of 64, and
    the length in bits, most significant byte first. *)
Definition padded (m : bytes) : bytes :=
  m ++ [0x80] ++ replicate (Z.to_nat ((55 - zlen m) mod 64)) 0 ++ be_bytes 8 (u64 (8 * zlen m)).

Definition sha1_rfc3174 (m : bytes) : bytes :=
  digest (hash_chunks (Z.to_nat (zlen (padded m) / 64)) (padded m) initial_words).

Lemma chunks_app k j p q :
  zlen p = 64 * Z.of_nat k -> chunks (k + j) (p ++ q) = chunks k p ++ chunks j q.
Proof.
  revert p. induction k as [| k IH]; intros p Hp; [destruct p as [| x p]; [done | rewrite zlen_cons in Hp; pose proof (zlen_nonneg p); lia] |].
  cbn [Nat.add chunks app]. unfold ztake, zdrop, zlen in *. f_equal.
  - apply take_app_le. lia.
  - rewrite drop_app_le by lia. apply IH. rewrite length_drop. lia.
Qed.

Lemma hash_chunks_app k j p q w :
  zlen p = 64 * Z.of_nat k -> hash_chunks (k + j) (p ++ q) w = hash_chunks j q (hash_chunks k p w).
Proof. intros H. unfold hash_chunks. by rewrite chunks_app, fold_left_app. Qed.

Lemma hash_one p w : zlen p = 64 -> hash_chunks 1 p w = sha1_block w p.
Proof. intros H. unfold hash_chunks. cbn. f_equal. unfold ztake, zlen in *. apply take_ge. lia. Qed.

Lemma update_blocks_spec fuel w p :
  (length p <= fuel)%nat ->
  exists k pre rest, p = pre ++ rest /\ zlen pre = 64 * Z.of_nat k /\ zlen rest < 64 /\
    update_blocks fuel w p = (hash_chunks k pre w, rest).
Proof.
  revert w p. induction fuel as [| fuel IH]; intros w p Hf.
  - exists 0%nat, [], p. destruct p; [done | cbn in Hf; lia].
  - cbn [update_blocks]. destruct (64 <=? zlen p) eqn:E; bool_facts; [| by exists 0%nat, [], p].
    destruct (IH (sha1_block w (ztake 64 p)) (zdrop 64 p)) as (k & pre & rest & Hp & Hk & Hr & Hu).
    { unfold zdrop, zlen in *. rewrite length_drop. lia. }
    assert (Ht : zlen (ztake 64 p) = 64) by (unfold ztake, zlen in *; rewrite length_take; lia).
    exists (1 + k)%nat, (ztake 64 p ++ pre), rest. split_and!; [| rewrite zlen_app; lia | done |].
    + rewrite <- app_assoc, <- Hp. unfold ztake, zdrop. by rewrite take_drop.
    + by rewrite hash_chunks_app, hash_one, Hu by (rewrite ?Ht; done).
Qed.

(** What the streaming state says of the bytes it was fed. *)
Record sha1_holds (s : Sha1) (m : bytes) : Prop := {
  sh_split : exists k pre, m = pre ++ ztake (buflen s) (buf s) /\ zlen pre = 64 * Z.of_nat k /\
    st s = hash_chunks k pre initial_words;
  sh_buflen : 0 <= buflen s < 64;
  sh_buf : zlen (buf s) = 64;
  sh_bits : bits s = u64 (8 * zlen m)
}.

Lemma sha1_init_holds garbage : zlen (buf garbage) = 64 -> sha1_holds (sha1_init garbage) [].
Proof. intros H. split; cbn; [by exists 0%nat, [] | lia | done | done]. Qed.

Lemma bits_add (m data : bytes) : u64 (u64 (8 * zlen m) + u64 (zlen data * 8)) = u64 (8 * zlen (m ++ data)).
Proof. unfold u64, wrap. rewrite <- Z.add_mod by lia. rewrite zlen_app. f_equal. lia. Qed.

Lemma take_splice_extend n (d b : bytes) :
  0 <= n -> n + zlen d <= zlen b -> ztake (n + zlen d) (splice n d b) = ztake n b ++ d.
Proof.
  intros Hn Hd. unfold splice, ztake, zdrop, zlen in *.
  rewrite app_assoc, take_app_le by (rewrite length_app, length_take; lia).
  apply take_ge. rewrite length_app, length_take. lia.
Qed.

(** Filling the buffer: what is left is hashed or buffered next, and something
    is left only if the buffer was emptied. *)
Lemma fill_buffer_holds s m data :
  sha1_holds s m ->
  let '(s1, p) := fill_buffer (mkSha1 (st s) (u64 (bits s + u64 (zlen data * 8))) (buf s) (buflen s)) data in
  exists d, data = d ++ p /\ (p <> [] -> buflen s1 = 0) /\ bits s1 = u64 (8 * zlen (m ++ data)) /\
    0 <= buflen s1 < 64 /\ zlen (buf s1) = 64 /\
    exists k pre, m ++ d = pre ++ ztake (buflen s1) (buf s1) /\ zlen pre = 64 * Z.of_nat k /\
      st s1 = hash_chunks k pre initial_words.
Proof.
  intros [(k & pre & Hm & Hk & Hst) Hl Hb Hbits]. pose proof (bits_add m data) as Hba. rewrite <- Hbits in Hba.
  unfold fill_buffer. cbn [buflen st bits buf]. destruct (0 <? buflen s) eqn:E0; bool_facts.
  2:{ exists []. replace (buflen s) with 0 in * by lia. rewrite !app_nil_r. split_and!; try done; lia || (by exists k, pre). }
  set (take := Z.min (zlen data) (64 - buflen s)). pose proof (zlen_nonneg data).
  assert (Ht : 0 <= take <= zlen data /\ take <= 64 - buflen s) by (unfold take; lia).
  assert (Hd : zlen (ztake take data) = take) by (unfold ztake, zlen in *; rewrite length_take; lia).
  set (b := splice _ _ _). assert (Hzb : zlen b = 64) by (unfold b; rewrite zlen_splice; lia).
  assert (Htake : ztake (buflen s + take) b = ztake (buflen s) (buf s) ++ ztake take data).
  { rewrite <- Hd at 1. apply take_splice_extend; lia. }
  exists (ztake take data). split; [unfold ztake, zdrop; by rewrite take_drop |].
  destruct (buflen s + take =? 64) eqn:E; bool_facts; cbn [buflen st bits buf]; split_and!; try done; try lia.
  - exists (k + 1)%nat, (pre ++ b).
    assert (Hb64 : b = ztake (buflen s) (buf s) ++ ztake take data).
    { rewrite <- Htake, E. unfold ztake, zlen in *. symmetry. apply take_ge. lia. }
    split_and!; [by rewrite Hm, Hb64, <- !app_assoc, app_nil_r | rewrite zlen_app; lia |].
    by rewrite hash_chunks_app, hash_one, Hst.
  - intros Hp. exfalso. apply Hp. assert (take = zlen data) by lia. unfold zdrop, zlen in *. apply drop_ge. lia.
  - exists k, pre. split_and!; [by rewrite Hm, <- app_assoc, Htake | done | done].
Qed.

Lemma update_holds s m data : sha1_holds s m -> sha1_holds (sha1_update s data) (m ++ data).
Proof.
  intros H. unfold sha1_update. pose proof (fill_buffer_holds s m data H) as Hf.
  destruct (fill_buffer _ data) as [s1 p]. destruct Hf as (d & -> & Hz & Hbits & Hl & Hb & k & pre & Hm & Hk & Hst).
  destruct (update_blocks_spec (length p) (st s1) p ltac:(lia)) as (j & pre' & rest & -> & Hj & Hr & ->).
  rewrite Hst, <- hash_chunks_app by done.
  destruct (0 <? zlen rest) eqn:E; bool_facts; pose proof (zlen_nonneg rest).
  - assert (Hz0 : buflen s1 = 0) by (apply Hz; intros [-> ->]%app_nil; cbn in E; lia).
    rewrite Hz0, app_nil_r in Hm. split; cbn [buflen st bits buf]; [| lia | rewrite zlen_splice; lia | done].
    exists (k + j)%nat, (pre ++ pre'). split_and!; [| rewrite zlen_app; lia | done].
    pose proof (take_splice_extend 0 rest (buf s1) ltac:(lia) ltac:(lia)) as Ht. rewrite Z.add_0_l in Ht. rewrite Ht.
    change (ztake 0 (buf s1)) with (@nil Z). cbn [app]. by rewrite !app_assoc, Hm.
  - assert (rest = []) as -> by (destruct rest as [| x rest]; [done | rewrite zlen_cons in *; pose proof (zlen_nonneg rest); lia]).
    rewrite app_nil_r in *. split; cbn [buflen st bits buf]; [| done | done | done].
    exists (k + j)%nat, (pre ++ pre'). split_and!; [| rewrite zlen_app; lia | done].
    destruct pre' as [| x pre']; [by rewrite !app_nil_r in * |].
    specialize (Hz ltac:(done)). rewrite Hz in *. change (ztake 0 (buf s1)) with (@nil Z) in *.
    rewrite app_nil_r in *. by rewrite app_assoc, Hm.
Qed.

Lemma updates_hold pieces s m :
  sha1_holds s m -> sha1_holds (fold_left sha1_update pieces s) (m ++ concat pieces).
Proof.
  revert s m. induction pieces as [| p pieces IH]; intros s m H; cbn [fold_left concat]; [by rewrite app_nil_r |].
  rewrite app_assoc. by apply IH, update_holds.
Qed.

Lemma holds_length s m : sha1_holds s m -> exists k : nat, zlen m = 64 * Z.of_nat k + buflen s.
Proof.
  intros [(k & pre & -> & Hk & _) Hl Hb _]. exists k. rewrite zlen_app, Hk.
  unfold ztake, zlen in *. rewrite length_take. lia.
Qed.

Lemma pad_bytes n : 0 < n <= 64 -> ztake n pad64 = [0x80] ++ replicate (Z.to_nat (n - 1)) 0.
Proof.
  intros H. unfold ztake, pad64. replace (Z.to_nat n) with (S (Z.to_nat (n - 1))) by lia. cbn [take app].
  f_equal. rewrite take_replicate. f_equal. lia.
Qed.

Lemma final_holds s m : sha1_holds s m -> sha1_final s = sha1_rfc3174 m.
Proof.
  intros H. pose proof (holds_length s m H) as [k Hk]. unfold sha1_final. rewrite (sh_bits _ _ H).
  pose proof (sh_buflen _ _ H) as Hl. set (pad_len := if buflen s <? 56 then 56 - buflen s else 120 - buflen s).
  assert (Hp : 0 < pad_len <= 64 /\ pad_len - 1 = (55 - zlen m) mod 64).
  { unfold pad_len. destruct (buflen s <? 56) eqn:E; bool_facts; split; try lia; rewrite Hk;
      Z.to_euclidean_division_equations; lia. }
  rewrite pad_bytes by lia. rewrite (proj2 Hp).
  pose proof (update_holds _ _ (be_bytes 8 (u64 (8 * zlen m))) (update_holds _ _ ([0x80] ++ replicate (Z.to_nat ((55 - zlen m) mod 64)) 0) H)) as H2.
  rewrite <- !app_assoc in H2. fold (padded m) in H2. set (s2 := sha1_update _ _) in *. clearbody s2. clear H.
  pose proof (holds_length s2 _ H2) as [k2 Hk2]. unfold sha1_rfc3174. pose proof (sh_buflen _ _ H2) as Hl2.
  assert (Hlen : exists q, zlen (padded m) = 64 * q).
  { unfold padded. rewrite !zlen_app, zlen_replicate. change (zlen [128]) with 1. rewrite (zlen_map _ (seqZ 0 (Z.of_nat 8)) : zlen (be_bytes 8 _) = _). change (zlen (seqZ 0 (Z.of_nat 8))) with 8.
    exists ((zlen m + 9 + (55 - zlen m) mod 64) / 64). Z.to_euclidean_division_equations; lia. }
  destruct Hlen as [q Hq]. assert (Hz : buflen s2 = 0) by lia.
  destruct (sh_split _ _ H2) as (j & pre & Hm & Hj & Hst). rewrite Hz in Hm. change (ztake 0 (buf s2)) with (@nil Z) in Hm.
  rewrite app_nil_r in Hm. rewrite Hst, Hm, Hj. f_equal. f_equal.
  rewrite Z.mul_comm, Z.div_mul, Nat2Z.id by lia. done.
Qed.



(** ** Base64 decodes back *)

(** RFC 4648, section 4, strict: padding only at the end, the bits that carry
    nothing zero. *)
Definition b64_value (c : Z) : option Z :=
  if (65 <=? c) && (c <=? 90) then Some (c - 65)
  else if (97 <=? c) && (c <=? 122) then Some (c - 71)
  else if (48 <=? c) && (c <=? 57) then Some (c + 4)
  else if c =? 43 then Some 62 else if c =? 47 then Some 63 else None.

Fixpoint base64_decode (s : bytes) : option bytes :=
  match s with
  | [] => Some []
  | c1 :: c2 :: c3 :: c4 :: r =>
      match b64_value c1, b64_value c2 with
      | Some v1, Some v2 =>
          match b64_value c3, b64_value c4 with
          | Some v3, Some v4 =>
              option_map (app [v1 * 4 + v2 / 16; v2 mod 16 * 16 + v3 / 4; v3 mod 4 * 64 + v4]) (base64_decode r)
          | Some v3, None =>
              match r with
              | [] => if (c4 =? 61) && (v3 mod 4 =? 0) then Some [v1 * 4 + v2 / 16; v2 mod 16 * 16 + v3 / 4] else None
              | _ => None
              end
          | None, _ =>
              match r with
              | [] => if (c3 =? 61) && (c4 =? 61) && (v2 mod 16 =? 0) then Some [v1 * 4 + v2 / 16] else None
              | _ => None
              end
          end
      | _, _ => None
      end
  | _ => None
  end.

Lemma b64_value_b64 v : b64_value (b64 v) = Some (v mod 64).
Proof.
  unfold b64. change 63 with (Z.ones 6). rewrite Z.land_ones by lia. change (2 ^ 6) with 64.
  assert (H : Forall (fun i => b64_value (znth 0 kB64Alphabet i) = Some i) (seqZ 0 64)) by (vm_compute; repeat constructor).
  rewrite List.Forall_forall in H. apply H, list_elem_of_In, elem_of_seqZ. pose proof (Z.mod_pos_bound v 64 ltac:(lia)). lia.
Qed.

Lemma triple_value a b c :
  is_uint 8 a -> is_uint 8 b -> is_uint 8 c ->
  Z.lor (Z.lor (Z.shiftl a 16) (Z.shiftl b 8)) c = a * 65536 + b * 256 + c.
Proof.
  intros Ha Hb Hc.
  assert (Hj : forall x y n, 0 <= n -> is_uint n y -> Z.lor (Z.shiftl x n) y = x * 2 ^ n + y).
  { intros x y n Hn Hy. rewrite <- Z.shiftl_mul_pow2 by lia. rewrite <- Z.lxor_lor, Z.add_nocarry_lxor; try done;
      apply Z.bits_inj'; intros i Hi; rewrite Z.land_spec, Z.shiftl_spec, Z.bits_0 by lia;
      (destruct (Z.lt_ge_cases i n); [by rewrite Z.testbit_neg_r by lia | rewrite (is_uint_testbit n y) by done; by rewrite andb_false_r]). }
  replace (Z.lor (Z.shiftl a 16) (Z.shiftl b 8)) with (Z.shiftl (a * 256 + b) 8).
  - rewrite Hj by done. lia.
  - replace (a * 256 + b) with (Z.lor (Z.shiftl a 8) b) by (rewrite Hj by done; lia). rewrite Z.shiftl_lor, Z.shiftl_shiftl by lia. done.
Qed.

(** base64_encode() is RFC 4648's encoding: a strict decoder (final padding
    only, unused bits zero) gives the data back, and the text has the
    [((len + 2) / 3) * 4] characters the source reserves. *)
Theorem base64_roundtrip p :
  is_bytes p -> base64_decode (base64_encode p) = Some p /\ zlen (base64_encode p) = (zlen p + 2) / 3 * 4.
Proof.
  revert p. fix IH 1. intros [| a [| b [| c r]]] Hp.
  - done.
  - apply Forall_cons_1 in Hp as [Ha _]. split; [| done]. unfold base64_encode, base64_decode. rewrite !b64_value_b64.
    change (Z.lor (Z.shiftl a 16) (Z.shiftl 0 8)) with (Z.lor (Z.shiftl a 16) 0). rewrite Z.lor_0_r, Z.shiftl_mul_pow2 by lia.
    rewrite !Z.shiftr_div_pow2 by lia. unfold is_uint in *. change (b64_value 61) with (@None Z). cbn [andb Z.eqb].
    rewrite (proj2 (Z.eqb_eq _ _)) by (Z.to_euclidean_division_equations; lia). do 2 f_equal.
    Z.to_euclidean_division_equations; lia.
  - apply Forall_cons_1 in Hp as [Ha [Hb _]%Forall_cons_1]. split; [| done].
    unfold base64_encode, base64_decode. rewrite !b64_value_b64. change (b64_value 61) with (@None Z).
    pose proof (triple_value a b 0 Ha Hb ltac:(done)) as Ht. rewrite Z.lor_0_r in Ht. rewrite Ht.
    rewrite !Z.shiftr_div_pow2 by lia. unfold is_uint in *. cbn [andb Z.eqb].
    rewrite (proj2 (Z.eqb_eq _ _)) by (Z.to_euclidean_division_equations; lia).
    do 2 f_equal; [| f_equal]; Z.to_euclidean_division_equations; lia.
  - apply Forall_cons_1 in Hp as [Ha [Hb [Hc Hr]%Forall_cons_1]%Forall_cons_1].
    destruct (IH r Hr) as [Hd Hl]. cbn [base64_encode base64_decode]. rewrite !b64_value_b64, triple_value by done.
    rewrite Hd, !Z.shiftr_div_pow2 by lia. cbn [option_map app]. unfold is_uint in *. split.
    + do 2 f_equal; [| f_equal; [| f_equal]]; Z.to_euclidean_division_equations; lia.
    + rewrite !zlen_cons, Hl. Z.to_euclidean_division_equations; lia.
Qed.

Lemma base64_roundtrip_witness :
  base64_encode (str "any carnal pleas") = str "YW55IGNhcm5hbCBwbGVhcw==" /\
  base64_decode (base64_encode (str "any carnal pleas")) = Some (str "any carnal pleas") /\
  zlen (base64_encode (str "any carnal pleas")) = (zlen (str "any carnal pleas") + 2) / 3 * 4.
Proof.
  split; [vm_compute; reflexivity |]. apply (base64_roundtrip (str "any carnal pleas")).
  apply (bool_decide_unpack _). vm_compute. exact I.
Defined.
