(* ===== verification/Session.v ===== *)
(** The dashboard's sessions (src/web/session.h, src/web/session.cpp) and the
    tokens they are made under (new_session_token() of src/web/auth.cpp).  The
    table is a finite map from token to deadline; the file system is a map from
    path to contents, and every system call's result is an argument.  The
    mutexes make each operation atomic, so operations are functions.  Theorems:
    the lifetime of a session under sliding expiration, the table surviving a
    restart, a password change dropping it, a failed save leaving the file. *)
From Stdlib Require Import ZArith Lia List Bool.
From stdpp Require Import base numbers list gmap sorting strings.
From S2P Require Import Prelude TextNum HttpUtil Sha1Base64.
Open Scope Z_scope.

Definition EINVAL : Z := 22.
Definition EIO : Z := 5.
Definition ENOENT : Z := 2.

(** ** Tokens *)

Definition kHex : bytes := str "0123456789abcdef".

(** [random] is what read_random() filled in, 32 bytes, or its failure. *)
Definition new_session_token (random : option bytes) : bytes :=
  match random with
  | None => []
  | Some buf => flat_map (fun b => [znth 0 kHex (Z.land (Z.shiftr b 4) 0xF); znth 0 kHex (Z.land b 0xF)]) buf
  end.

(** ** The store *)

Abbreviation table := (gmap bytes Z).
Abbreviation files := (gmap bytes bytes).

Record SessionStore := mkSessionStore {
  ttl_ns_ : Z;
  deadline_ : table;
  persist_path_ : bytes;
  credential_ : bytes;
  last_save_rc_ : Z
}.

Definition new_SessionStore (ttl_seconds : Z) : SessionStore :=
  mkSessionStore (u64 (ttl_seconds * 1000000000)) ∅ [] [] 0.

Definition set_deadlines (t : table) (s : SessionStore) : SessionStore :=
  mkSessionStore (ttl_ns_ s) t (persist_path_ s) (credential_ s) (last_save_rc_ s).
Definition set_last_save_rc (rc : Z) (s : SessionStore) : SessionStore :=
  mkSessionStore (ttl_ns_ s) (deadline_ s) (persist_path_ s) (credential_ s) rc.
Definition set_persist_path (path : bytes) (s : SessionStore) : SessionStore :=
  mkSessionStore (ttl_ns_ s) (deadline_ s) path (credential_ s) (last_save_rc_ s).

(** [hash_state]: the uninitialised digest on the stack. *)
Definition set_credential (hash_state : Sha1) (password_hash : bytes) (s : SessionStore) : SessionStore :=
  mkSessionStore (ttl_ns_ s) (deadline_ s) (persist_path_ s)
    (match password_hash with [] => [] | _ => base64_encode (sha1 hash_state password_hash) end)
    (last_save_rc_ s).

Definition size (s : SessionStore) : Z := Z.of_nat (base.size (deadline_ s)).

(** ** The file *)

Definition kCredentialLine : bytes := str "# credential ".

(** [std::map<std::string, …>] is walked in the order of the keys' bytes. *)
Fixpoint bytes_leb (a b : bytes) : bool :=
  match a, b with
  | [], _ => true
  | _ :: _, [] => false
  | x :: a, y :: b => (x <? y) || ((x =? y) && bytes_leb a b)
  end.
Definition key_le (a b : bytes * Z) : Prop := bytes_leb a.1 b.1 = true.
#[export] Instance key_le_dec a b : Decision (key_le a b).
Proof. unfold key_le. apply _. Defined.
Definition in_key_order (t : table) : list (bytes * Z) := merge_sort key_le (map_to_list t).

(** [fprintf(f, "%s\t%llu\n", kv.first.c_str(), kv.second)] *)
Definition entry_line (kv : bytes * Z) : bytes := c_str kv.1 ++ [9] ++ u64_text kv.2 ++ [10].

Definition sessions_text (credential : bytes) (snap : table) : bytes :=
  str "# budyk sessions v2" ++ [10] ++
  (match credential with [] => [] | _ => kCredentialLine ++ c_str credential ++ [10] end) ++
  str "# token" ++ [9] ++ str "deadline_ns" ++ [10] ++
  flat_map entry_line (in_key_order snap).

(** The outcomes of the calls of one save: an [errno] where one fails.
    [io_errno] is what [errno] holds after fclose(). *)
Record SaveIo := mkSaveIo {
  io_open : option Z; io_fdopen : option Z; io_flush : option Z; io_close : option Z; io_errno : Z;
  io_rename : option Z
}.
Definition save_ok : SaveIo := mkSaveIo None None None None 0 None.

Definition failed (r : option Z) : bool := match r with Some _ => true | None => false end.

Definition save (path : option bytes) (io : SaveIo) (s : SessionStore) (fs : files) : Z * files :=
  match path with
  | None => (- EINVAL, fs)
  | Some path =>
      let tmp := path ++ str ".tmp" in
      match io_open io with
      | Some e => (- e, fs)
      | None =>
          let fs := <[tmp := []]> fs in
          match io_fdopen io with
          | Some e => (- e, delete tmp fs)
          | None =>
              let text := sessions_text (credential_ s) (deadline_ s) in
              let fs := <[tmp := text]> fs in
              let werr := default 0 (io_flush io) in
              if failed (io_close io) || failed (io_flush io) then
                let e := if werr =? 0 then io_errno io else werr in
                (- (if e =? 0 then EIO else e), delete tmp fs)
              else match io_rename io with
                   | Some e => (- e, delete tmp fs)
                   | None => (0, <[path := text]> (delete tmp fs))
                   end
          end
      end
  end.

(** The process: the store, the files, and the results autosave() has said on
    stderr, newest first (0 is "saved again"). *)
Record World := mkWorld { store : SessionStore; disk : files; said : list Z }.

Definition with_table (f : table -> table) (w : World) : World :=
  mkWorld (set_deadlines (f (deadline_ (store w))) (store w)) (disk w) (said w).

Definition autosave (io : SaveIo) (w : World) : World :=
  let path := persist_path_ (store w) in
  match path with
  | [] => w
  | _ =>
      let '(rc, fs) := save (Some (c_str path)) io (store w) (disk w) in
      let before := last_save_rc_ (store w) in
      mkWorld (set_last_save_rc rc (store w)) fs (if rc =? before then said w else rc :: said w)
  end.

(** ** Operations *)

Definition create (random : option bytes) (now : Z) (io : SaveIo) (w : World) : bytes * World :=
  let tok := new_session_token random in
  match tok with
  | [] => (tok, w)
  | _ =>
      let deadline := u64 (now + ttl_ns_ (store w)) in
      (tok, autosave io (with_table <[tok := deadline]> w))
  end.

Definition verify (token : bytes) (now : Z) (io : SaveIo) (w : World) : bool * World :=
  match token with
  | [] => (false, w)
  | _ =>
      match deadline_ (store w) !! token with
      | None => (false, w)
      | Some d =>
          if d <=? now then (false, autosave io (with_table (delete token) w))
          else
            let fresh := u64 (now + ttl_ns_ (store w)) in
            (true, if fresh <? d then with_table <[token := fresh]> w else w)
      end
  end.

Definition touch (token : bytes) (now : Z) (io : SaveIo) (w : World) : bool * World :=
  match token with
  | [] => (false, w)
  | _ =>
      match deadline_ (store w) !! token with
      | None => (false, w)
      | Some d =>
          if d <=? now then (false, autosave io (with_table (delete token) w))
          else
            let fresh := u64 (now + ttl_ns_ (store w)) in
            if ((d <? fresh) && (ttl_ns_ (store w) / 8 <=? u64 (fresh - d))) || (fresh <? d) then
              (true, autosave io (with_table <[token := fresh]> w))
            else (true, w)
      end
  end.

Definition revoke (token : bytes) (io : SaveIo) (w : World) : World :=
  match deadline_ (store w) !! token with
  | None => w
  | Some _ => autosave io (with_table (delete token) w)
  end.

Definition live (now : Z) (t : table) : table := filter (fun kv => now < kv.2) t.

Definition purge_expired (now : Z) (w : World) : Z * World :=
  let t := deadline_ (store w) in
  (Z.of_nat (base.size t) - Z.of_nat (base.size (live now t)), with_table (live now) w).

(** ** Loading *)

(** [fgets] into a buffer of [n + 1] bytes: the line read and what follows. *)
Fixpoint fgets (n : nat) (s : bytes) : bytes * bytes :=
  match n, s with
  | O, _ => ([], s)
  | _, [] => ([], [])
  | S n, x :: r => if x =? 10 then ([x], r) else let '(l, r) := fgets n r in (x :: l, r)
  end.

Definition is_eol (c : Z) : bool := (c =? 10) || (c =? 13).
Definition strip_eol (s : bytes) : bytes := reverse (skip_while is_eol (reverse s)).

Record Loading := mkLoading { file_credential : bytes; got : table }.

(** One line of the file, as the C string in [line]. *)
Definition load_line (ttl_ns now : Z) (line : bytes) (acc : Loading) : Loading :=
  let line := c_str line in
  if znth 0 line 0 =? 35 then
    if bool_decide (ztake (zlen kCredentialLine) line = kCredentialLine) then
      mkLoading (strip_eol (zdrop (zlen kCredentialLine) line)) (got acc)
    else acc
  else if znth 0 line 0 =? 10 then acc
  else match find_char 9 line with
       | None => acc
       | Some tab =>
           let tok_str := ztake tab line in
           match strtoull (zdrop (tab + 1) line) with
           | None => acc
           | Some dl =>
               match tok_str with
               | [] => acc
               | _ =>
                   if dl <=? now then acc
                   else mkLoading (file_credential acc) (<[tok_str := Z.min dl (u64 (now + ttl_ns))]> (got acc))
               end
           end
       end.

Fixpoint load_loop (fuel : nat) (ttl_ns now : Z) (s : bytes) (acc : Loading) : Loading :=
  match fuel with
  | O => acc
  | S fuel =>
      match s with
      | [] => acc
      | _ => let '(line, r) := fgets 255 s in load_loop fuel ttl_ns now r (load_line ttl_ns now line acc)
      end
  end.

(** The result, [*stale] and the store. [open_err] is fopen()'s [errno] for a
    file that is there, [read_err] ferror()'s (0 for none). *)
Definition load (path : option bytes) (open_err : option Z) (read_err : Z) (now : Z) (fs : files) (s : SessionStore)
  : Z * bool * SessionStore :=
  match path with
  | None => (- EINVAL, false, s)
  | Some path =>
      match fs !! path, open_err with
      | None, _ => (0, false, s)
      | Some _, Some e => (if e =? ENOENT then 0 else - e, false, s)
      | Some text, None =>
          let acc := load_loop (length text) (ttl_ns_ s) now text (mkLoading [] ∅) in
          if negb (read_err =? 0) then (- read_err, false, s)
          else if negb (bool_decide (credential_ s = [])) && negb (bool_decide (file_credential acc = credential_ s)) then
            (0, negb (bool_decide (got acc = ∅)), s)
          else (0, false, set_deadlines (got acc ∪ deadline_ s) s)
      end
  end.

Example load_ex :
  let s := set_persist_path (str "/s") (new_SessionStore 10) in
  let w := (create (Some (replicate 32 171)) 5 save_ok (mkWorld s ∅ [])).2 in
  disk w !! str "/s" = Some (sessions_text [] (deadline_ (store w))) /\
  (load (Some (str "/s")) None 0 7 (disk w) (new_SessionStore 10)).2 = set_persist_path [] (store w).
Proof. vm_compute. auto. Qed.

(** ** Runs of operations *)

Inductive op :=
| OCreate (random : option bytes)
| OVerify (token : bytes)
| OTouch (token : bytes)
| ORevoke (token : bytes)
| OPurge.

(** An operation at a time, with the outcome of the save it may make. *)
Record event := mkEvent { ev_op : op; ev_now : Z; ev_io : SaveIo }.

Definition step (e : event) (w : World) : World :=
  let now := ev_now e in
  let io := ev_io e in
  match ev_op e with
  | OCreate random => (create random now io w).2
  | OVerify token => (verify token now io w).2
  | OTouch token => (touch token now io w).2
  | ORevoke token => revoke token io w
  | OPurge => (purge_expired now w).2
  end.

Definition run (es : list event) (w : World) : World := fold_left (fun w e => step e w) es w.

(** The clock does not step back and stays far below 2^64 ns. *)
Fixpoint steady (now : Z) (es : list event) : Prop :=
  match es with
  | [] => True
  | e :: es => now <= ev_now e < 2 ^ 62 /\ steady (ev_now e) es
  end.

(** What autosave() leaves alone. *)
Lemma autosave_table io w :
  deadline_ (store (autosave io w)) = deadline_ (store w) /\ ttl_ns_ (store (autosave io w)) = ttl_ns_ (store w) /\
  persist_path_ (store (autosave io w)) = persist_path_ (store w) /\
  credential_ (store (autosave io w)) = credential_ (store w).
Proof. unfold autosave. destruct (persist_path_ (store w)) eqn:E; [by rewrite E |]. by destruct (save _ _ _ _). Qed.

(** The table an operation leaves, the file apart. *)
Definition touched (ttl now d : Z) : Z :=
  let fresh := u64 (now + ttl) in
  if ((d <? fresh) && (ttl / 8 <=? u64 (fresh - d))) || (fresh <? d) then fresh else d.

Definition step_table (ttl : Z) (o : op) (now : Z) (t : table) : table :=
  match o with
  | OCreate random =>
      match new_session_token random with [] => t | tok => <[tok := u64 (now + ttl)]> t end
  | OVerify [] | OTouch [] => t
  | OVerify tok =>
      match t !! tok with
      | None => t
      | Some d => if d <=? now then delete tok t else <[tok := Z.min d (u64 (now + ttl))]> t
      end
  | OTouch tok =>
      match t !! tok with
      | None => t
      | Some d => if d <=? now then delete tok t else <[tok := touched ttl now d]> t
      end
  | ORevoke tok => delete tok t
  | OPurge => live now t
  end.

Lemma step_store e w :
  deadline_ (store (step e w)) = step_table (ttl_ns_ (store w)) (ev_op e) (ev_now e) (deadline_ (store w)) /\
  ttl_ns_ (store (step e w)) = ttl_ns_ (store w) /\ persist_path_ (store (step e w)) = persist_path_ (store w) /\
  credential_ (store (step e w)) = credential_ (store w).
Proof.
  destruct e as [o now io]. unfold step. cbn [ev_op ev_now ev_io].
  destruct o as [random | tok | tok | tok |]; cbn [step_table].
  - unfold create. destruct (new_session_token random); [done |].
    destruct (autosave_table io (with_table <[z :: l := u64 (now + ttl_ns_ (store w))]> w)) as (H1 & H2 & H3 & H4).
    cbn [snd]. by rewrite H1, H2, H3, H4.
  - unfold verify. destruct tok as [| x tok]; [done |]. destruct (deadline_ (store w) !! (x :: tok)) as [d |] eqn:E; [| done].
    destruct (d <=? now); cbn [snd].
    + destruct (autosave_table io (with_table (delete (x :: tok)) w)) as (-> & -> & -> & ->). done.
    + destruct (_ <? d) eqn:Ef; bool_facts; cbn; [by rewrite Z.min_r by lia |].
      rewrite Z.min_l, insert_id by (lia || done). done.
  - unfold touch. destruct tok as [| x tok]; [done |]. destruct (deadline_ (store w) !! (x :: tok)) as [d |] eqn:E; [| done].
    destruct (d <=? now); cbn [snd].
    + destruct (autosave_table io (with_table (delete (x :: tok)) w)) as (-> & -> & -> & ->). done.
    + unfold touched. destruct (_ || _); cbn [snd]; [| by rewrite insert_id].
      destruct (autosave_table io (with_table <[x :: tok := u64 (now + ttl_ns_ (store w))]> w)) as (-> & -> & -> & ->). done.
  - unfold revoke. destruct (deadline_ (store w) !! tok) eqn:E; [| by rewrite delete_id].
    destruct (autosave_table io (with_table (delete tok) w)) as (-> & -> & -> & ->). done.
  - done.
Qed.

Lemma run_cons e es w : run (e :: es) w = run es (step e w).
Proof. done. Qed.

Lemma run_params es w :
  ttl_ns_ (store (run es w)) = ttl_ns_ (store w) /\ persist_path_ (store (run es w)) = persist_path_ (store w) /\
  credential_ (store (run es w)) = credential_ (store w).
Proof.
  revert w. induction es as [| e es IH]; intros w; [done |]. rewrite run_cons. destruct (IH (step e w)) as (-> & -> & ->).
  apply step_store.
Qed.

Lemma verify_result token now io w :
  (verify token now io w).1 = match token with [] => false | _ => match deadline_ (store w) !! token with
                                                                  | Some d => negb (d <=? now) | None => false end end.
Proof. unfold verify. destruct token; [done |]. destruct (_ !! _) as [d |]; [| done]. by destruct (d <=? now). Qed.

(** ** The lifetime of a session *)

(** What the events say of one session, its last touch (or login) having been
    at [l]: [None] once it was revoked, or not touched for as long as its
    deadline may have come. *)
Fixpoint last_touch (ttl : Z) (tok : bytes) (l : Z) (es : list event) : option Z :=
  match es with
  | [] => Some l
  | e :: es =>
      if l + ttl - ttl / 8 <=? ev_now e then None
      else match ev_op e with
           | OTouch t => last_touch ttl tok (if decide (t = tok) then ev_now e else l) es
           | ORevoke t => if decide (t = tok) then None else last_touch ttl tok l es
           | OCreate r => if decide (new_session_token r = tok) then None else last_touch ttl tok l es
           | OVerify _ | OPurge => last_touch ttl tok l es
           end
  end.

(** The deadline of a session last touched at [l]. *)
Definition kept (ttl l : Z) (d : option Z) : Prop :=
  match d with Some d => l + ttl - ttl / 8 <= d <= l + ttl | None => False end.

Lemma u64_small z : 0 <= z < 2 ^ 64 -> u64 z = z.
Proof. intros. unfold u64. by apply wrap_small. Qed.

Lemma step_keeps ttl tok l e t :
  0 < ttl < 2 ^ 62 -> tok <> [] -> 0 <= l <= ev_now e -> ev_now e < 2 ^ 62 -> ev_now e < l + ttl - ttl / 8 ->
  kept ttl l (t !! tok) ->
  match ev_op e with
  | OTouch t' => kept ttl (if decide (t' = tok) then ev_now e else l) (step_table ttl (ev_op e) (ev_now e) t !! tok)
  | ORevoke t' => t' <> tok -> kept ttl l (step_table ttl (ev_op e) (ev_now e) t !! tok)
  | OCreate r => new_session_token r <> tok -> kept ttl l (step_table ttl (ev_op e) (ev_now e) t !! tok)
  | _ => kept ttl l (step_table ttl (ev_op e) (ev_now e) t !! tok)
  end.
Proof.
  intros Httl Htok Hl Hn Hlive Hk. destruct e as [o now io]. cbn [ev_op ev_now] in *.
  destruct (t !! tok) as [d |] eqn:Ed; [| done]. cbn [kept] in Hk.
  assert (H8 : 0 <= ttl / 8 <= ttl) by (Z.to_euclidean_division_equations; lia).
  assert (Hf : u64 (now + ttl) = now + ttl) by (apply u64_small; lia).
  destruct o as [r | tk | tk | tk |]; cbn [step_table].
  - intros Hne. destruct (new_session_token r); [by rewrite Ed | by rewrite lookup_insert_ne, Ed].
  - destruct tk as [| x tk]; [by rewrite Ed |]. destruct (decide (x :: tk = tok)) as [<- | Hne].
    + rewrite Ed, (proj2 (Z.leb_gt d now)), lookup_insert_eq, Hf by lia. cbn [kept]. lia.
    + destruct (t !! (x :: tk)) as [d' |]; [| by rewrite Ed].
      destruct (d' <=? now); [by rewrite lookup_delete_ne, Ed | by rewrite lookup_insert_ne, Ed].
  - destruct tk as [| x tk]; [destruct (decide _); [congruence | by rewrite Ed] |].
    destruct (decide (x :: tk = tok)) as [<- | Hne].
    + rewrite Ed, (proj2 (Z.leb_gt d now)), lookup_insert_eq by lia. unfold touched. rewrite Hf. cbn [kept].
      destruct (d <? now + ttl) eqn:E1; bool_facts; cbn [andb orb].
      * rewrite (u64_small (now + ttl - d)) by lia. destruct (ttl / 8 <=? now + ttl - d) eqn:E2; bool_facts; cbn [orb].
        { lia. }
        rewrite (proj2 (Z.ltb_ge (now + ttl) d)) by lia. lia.
      * destruct (now + ttl <? d); lia.
    + destruct (t !! (x :: tk)) as [d' |]; [| by rewrite Ed].
      destruct (d' <=? now); [by rewrite lookup_delete_ne, Ed | by rewrite lookup_insert_ne, Ed].
  - intros Hne. by rewrite lookup_delete_ne, Ed.
  - assert (Hv : live now t !! tok = Some d) by (apply map_lookup_filter_Some; split; [done | cbn; lia]). by rewrite Hv.
Qed.

Lemma run_keeps ttl tok es now l w :
  0 < ttl < 2 ^ 62 -> tok <> [] -> 0 <= l <= now -> steady now es -> ttl_ns_ (store w) = ttl ->
  kept ttl l (deadline_ (store w) !! tok) ->
  match last_touch ttl tok l es with
  | Some l' => kept ttl l' (deadline_ (store (run es w)) !! tok) /\ ttl_ns_ (store (run es w)) = ttl /\ l <= l'
  | None => True
  end.
Proof.
  intros Httl Htok. revert now l w. induction es as [| e es IH]; intros now l w Hl Hs Hw Hk; [by split_and! |].
  destruct Hs as [Hn Hs]. cbn [last_touch]. destruct (_ <=? ev_now e) eqn:El; bool_facts; [done |].
  destruct (step_store e w) as (Ht & Htt & _). rewrite Hw in Ht.
  pose proof (step_keeps ttl tok l e (deadline_ (store w)) Httl Htok ltac:(lia) ltac:(lia) El Hk) as Hstep.
  rewrite <- Ht in Hstep. rewrite run_cons.
  assert (Hgo : forall l', l <= l' <= ev_now e -> kept ttl l' (deadline_ (store (step e w)) !! tok) ->
    match last_touch ttl tok l' es with
    | Some l'' => kept ttl l'' (deadline_ (store (run es (step e w))) !! tok) /\ ttl_ns_ (store (run es (step e w))) = ttl /\ l <= l''
    | None => True
    end).
  { intros l' Hl' Hk'. specialize (IH (ev_now e) l' (step e w) ltac:(lia) Hs ltac:(congruence) Hk').
    destruct (last_touch ttl tok l' es); [| done]. destruct IH as (? & ? & ?). split_and!; done || lia. }
  destruct (ev_op e) as [r | tk | tk | tk |].
  - destruct (decide _); [done |]. apply Hgo; [lia | by apply Hstep].
  - apply Hgo; [lia | done].
  - apply Hgo; [destruct (decide _); lia | done].
  - destruct (decide _); [done |]. apply Hgo; [lia | by apply Hstep].
  - apply Hgo; [lia | done].
Qed.

Lemma created_kept random now io w :
  0 < ttl_ns_ (store w) < 2 ^ 62 -> 0 <= now < 2 ^ 62 -> (create random now io w).1 <> [] ->
  kept (ttl_ns_ (store w)) now (deadline_ (store (create random now io w).2) !! (create random now io w).1).
Proof.
  intros Httl Hn. unfold create. destruct (new_session_token random); [done |]. intros _. cbn [fst snd].
  destruct (autosave_table io (with_table <[z :: l := u64 (now + ttl_ns_ (store w))]> w)) as (-> & _).
  cbn. rewrite lookup_insert_eq, u64_small by lia. cbn. Z.to_euclidean_division_equations; lia.
Qed.



(** ** The file read back *)

(** A token as new_session_token() makes them: no tab, newline or NUL, no '#'
    at the start, and short of fgets()'s buffer with a deadline after it. *)
Definition tok_ok (t : bytes) : Prop := t <> [] /\ Forall (fun c => 35 < c) t /\ (length t <= 200)%nat.
Definition table_ok (t : table) : Prop := map_Forall (fun k d => tok_ok k /\ is_uint 64 d) t.
(** The fingerprint of set_credential(), or none. *)
Definition cred_ok (c : bytes) : Prop := Forall (fun x => 35 < x) c /\ (length c <= 200)%nat.

Lemma fgets_line n l r : 10 ∉ l -> (length l < n)%nat -> fgets n (l ++ 10 :: r) = (l ++ [10], r).
Proof.
  revert n. induction l as [| x l IH]; intros n Hl Hn; (destruct n as [| n]; [cbn in Hn; lia |]); [done |].
  rewrite not_elem_of_cons in Hl. destruct Hl as [Hx Hl]. cbn [app fgets].
  rewrite (proj2 (Z.eqb_neq x 10)) by done. rewrite IH by (cbn in Hn; done || lia). done.
Qed.

Lemma c_str_id l : Forall (fun c => 0 < c) l -> c_str l = l.
Proof. induction 1 as [| x l Hx _ IH]; [done |]. cbn. by rewrite (proj2 (Z.eqb_neq x 0)), IH by lia. Qed.

Lemma above_not_in c l : Forall (fun x => c < x) l -> c ∉ l.
Proof. intros H Hin. rewrite Forall_forall in H. specialize (H c Hin). lia. Qed.

Lemma text_digits d : is_uint 64 d -> Forall (fun c => 35 < c) (u64_text d) /\ (length (u64_text d) <= 20)%nat.
Proof.
  intros Hd. destruct (u64_text_spec d Hd) as (_ & H & _ & Hl). split; [| unfold zlen in Hl; lia].
  apply Forall_forall. intros x Hx. rewrite forallb_forall in H. specialize (H x (proj1 (list_elem_of_In _ _) Hx)).
  unfold is_digit in H. bool_facts. lia.
Qed.

Definition load_entry (ttl now : Z) (m : table) (kv : bytes * Z) : table :=
  if kv.2 <=? now then m else <[kv.1 := Z.min kv.2 (u64 (now + ttl))]> m.

Lemma entry_shape k d : tok_ok k -> is_uint 64 d ->
  entry_line (k, d) = (k ++ [9] ++ u64_text d) ++ [10] /\ (10 ∉ k ++ [9] ++ u64_text d) /\
  (length (k ++ [9%Z] ++ u64_text d) < 255)%nat.
Proof.
  intros (Hn & Hk & Hl) Hd. destruct (text_digits d Hd) as [Ht Hlt]. unfold entry_line. cbn [fst snd].
  rewrite c_str_id by (eapply Forall_impl; [exact Hk | cbn; lia]). split_and!.
  - by rewrite <- !app_assoc.
  - rewrite !elem_of_app, list_elem_of_singleton. intros [H | [H | H]]; [| done |];
      [rewrite Forall_forall in Hk; specialize (Hk _ H) | rewrite Forall_forall in Ht; specialize (Ht _ H)]; lia.
  - rewrite !length_app. cbn [length]. lia.
Qed.

Lemma load_line_entry ttl now k d acc :
  tok_ok k -> is_uint 64 d ->
  load_line ttl now (entry_line (k, d)) acc = mkLoading (file_credential acc) (load_entry ttl now (got acc) (k, d)).
Proof.
  intros Hk Hd. destruct (entry_shape k d Hk Hd) as (-> & _ & _). destruct (text_digits d Hd) as [Ht _].
  destruct Hk as (Hn & Hk & _). unfold load_line. rewrite c_str_id.
  2:{ rewrite !Forall_app. split_and!; try (by repeat constructor; lia); (eapply Forall_impl; [eassumption | cbn; lia]). }
  destruct k as [| c k]; [done |]. apply Forall_cons_1 in Hk as Hc. destruct Hc as [Hc _].
  change (znth 0 _ 0) with c. rewrite (proj2 (Z.eqb_neq c 35)), (proj2 (Z.eqb_neq c 10)) by lia.
  rewrite <- !app_assoc.
  assert (Htab : find_char 9 ((c :: k) ++ [9] ++ u64_text d ++ [10]) = Some (zlen (c :: k))).
  { apply find_char_app, above_not_in. eapply Forall_impl; [exact Hk | cbn; lia]. }
  rewrite Htab.
  replace (zdrop (zlen (c :: k) + 1) _) with (u64_text d ++ [10]).
  2:{ rewrite app_assoc. symmetry. apply zdrop_app. rewrite zlen_app. done. }
  rewrite strtoull_u64_text; [| done |].
  2:{ intros x Hx. cbn in Hx. apply list_elem_of_singleton in Hx as ->. done. }
  replace (ztake (zlen (c :: k)) _) with (c :: k) by (unfold ztake, zlen; by rewrite Nat2Z.id, take_app_length).
  unfold load_entry. cbn [fst snd]. destruct (d <=? now); [by destruct acc | done].
Qed.

Lemma load_loop_line fuel ttl now l r acc :
  10 ∉ l -> (length l < 255)%nat -> (length (l ++ 10%Z :: r) <= fuel)%nat ->
  exists fuel', load_loop fuel ttl now (l ++ 10 :: r) acc = load_loop fuel' ttl now r (load_line ttl now (l ++ [10]) acc) /\
    (length r <= fuel')%nat.
Proof.
  intros Hl Hn Hf. rewrite length_app in Hf. cbn in Hf. destruct fuel as [| fuel]; [lia |]. exists fuel. split; [| lia].
  cbn [load_loop]. rewrite (fgets_line 255) by done. by destruct l.
Qed.

Lemma load_entries ttl now kvs fuel acc :
  Forall (fun kv => tok_ok kv.1 /\ is_uint 64 kv.2) kvs -> (length (flat_map entry_line kvs) <= fuel)%nat ->
  load_loop fuel ttl now (flat_map entry_line kvs) acc =
  mkLoading (file_credential acc) (fold_left (load_entry ttl now) kvs (got acc)).
Proof.
  intros H. revert fuel acc. induction H as [| [k d] kvs [Hk Hd] H IH]; intros fuel acc Hf; cbn [flat_map fold_left] in *.
  - destruct fuel; by destruct acc.
  - cbn [fst snd] in Hk, Hd. destruct (entry_shape k d Hk Hd) as (He & Hnl & Hlen).
    pose proof (load_line_entry ttl now k d acc Hk Hd) as Hload. rewrite He in Hload, Hf |- *.
    set (L := k ++ [9] ++ u64_text d) in *. clearbody L. rewrite <- app_assoc in Hf |- *. cbn [app] in Hf |- *.
    destruct (load_loop_line fuel ttl now _ (flat_map entry_line kvs) acc Hnl Hlen Hf) as (fuel' & -> & Hf').
    rewrite Hload. by rewrite IH.
Qed.

Lemma fold_entries ttl now kvs m k :
  NoDup kvs.*1 ->
  fold_left (load_entry ttl now) kvs m !! k =
  match (list_to_map kvs : table) !! k with
  | Some d => if d <=? now then m !! k else Some (Z.min d (u64 (now + ttl)))
  | None => m !! k
  end.
Proof.
  revert m. induction kvs as [| [k0 d0] kvs IH]; intros m Hnd; [done |]. cbn [fmap list_fmap fst] in Hnd.
  apply NoDup_cons in Hnd as [Hk0 Hnd]. cbn [fold_left list_to_map]. rewrite IH by done.
  unfold load_entry. cbn [fst snd list_to_map foldr]. destruct (decide (k0 = k)) as [-> | Hne].
  - rewrite lookup_insert_eq, (not_elem_of_list_to_map_1 _ _ Hk0). destruct (d0 <=? now); [done | by rewrite lookup_insert_eq].
  - rewrite lookup_insert_ne by done. destruct (list_to_map kvs !! k) as [d |]; destruct (d0 <=? now); rewrite ?lookup_insert_ne by done; done.
Qed.

Lemma in_key_order_spec t :
  list_to_map (in_key_order t) = t /\ NoDup (in_key_order t).*1 /\ (forall kv, kv ∈ in_key_order t -> t !! kv.1 = Some kv.2).
Proof.
  assert (Hp : in_key_order t ≡ₚ map_to_list t) by apply merge_sort_Permutation.
  assert (Hnd : NoDup (in_key_order t).*1) by (rewrite Hp; apply NoDup_fst_map_to_list).
  split_and!; [| done |].
  - rewrite <- (list_to_map_to_list t) at 2. by apply list_to_map_proper.
  - intros [k d] Hin. rewrite Hp in Hin. by apply elem_of_map_to_list in Hin.
Qed.

(** The table a file of [t] gives a daemon that starts at [now]. *)
Definition reloaded (ttl now : Z) (t : table) : table :=
  fmap (fun d => Z.min d (u64 (now + ttl))) (live now t).

Lemma fold_table ttl now t : fold_left (load_entry ttl now) (in_key_order t) ∅ = reloaded ttl now t.
Proof.
  destruct (in_key_order_spec t) as (Ht & Hnd & _). apply map_eq. intros k. rewrite fold_entries, Ht by done.
  unfold reloaded, live. rewrite lookup_fmap. destruct (t !! k) as [d |] eqn:E.
  - destruct (d <=? now) eqn:El; bool_facts.
    + rewrite lookup_empty. replace (filter _ t !! k) with (@None Z); [done |]. symmetry.
      apply map_lookup_filter_None. right. intros x Hx. cbn. rewrite E in Hx. injection Hx as <-. lia.
    + replace (filter _ t !! k) with (Some d); [done |]. symmetry. apply map_lookup_filter_Some. cbn. split; [done | lia].
  - rewrite lookup_empty. replace (filter _ t !! k) with (@None Z); [done |]. symmetry. apply map_lookup_filter_None. by left.
Qed.

Lemma strip_eol_line c : Forall (fun x => 35 < x) c -> strip_eol (c ++ [10]) = c.
Proof.
  intros H. unfold strip_eol. rewrite reverse_snoc. change (skip_while is_eol (10 :: reverse c)) with (skip_while is_eol (reverse c)).
  apply Forall_reverse in H. destruct (reverse c) as [| x l] eqn:E.
  - apply (f_equal reverse) in E. by rewrite reverse_involutive in E.
  - apply Forall_cons_1 in H as [Hx _]. cbn [skip_while].
    assert (is_eol x = false) as -> by (unfold is_eol; apply orb_false_iff; split; apply Z.eqb_neq; lia).
    by rewrite <- E, reverse_involutive.
Qed.

Lemma load_credential_line ttl now c acc :
  Forall (fun x => 35 < x) c -> load_line ttl now ((kCredentialLine ++ c) ++ [10]) acc = mkLoading c (got acc).
Proof.
  intros H. unfold load_line. rewrite c_str_id.
  2:{ rewrite !Forall_app. split_and!; [by vm_compute; repeat constructor | | by repeat constructor].
      eapply Forall_impl; [exact H | cbn; lia]. }
  rewrite <- app_assoc. change (znth 0 (kCredentialLine ++ c ++ [10]) 0 =? 35) with true. cbv iota.
  replace (ztake (zlen kCredentialLine) _) with kCredentialLine by (unfold ztake, zlen; by rewrite Nat2Z.id, take_app_length).
  rewrite bool_decide_true by done. rewrite zdrop_app by done. by rewrite strip_eol_line.
Qed.

(** Reading the file of a table and a credential. *)
Lemma load_text ttl now cred t fuel :
  cred_ok cred -> table_ok t -> (length (sessions_text cred t) <= fuel)%nat ->
  load_loop fuel ttl now (sessions_text cred t) (mkLoading [] ∅) = mkLoading cred (reloaded ttl now t).
Proof.
  intros [Hc Hcl] Ht. unfold sessions_text.
  assert (Hkvs : Forall (fun kv => tok_ok kv.1 /\ is_uint 64 kv.2) (in_key_order t)).
  { apply Forall_forall. intros [k d] Hin. apply (in_key_order_spec t) in Hin. apply (Ht k d Hin). }
  set (h1 := str "# budyk sessions v2"). set (h2 := str "# token" ++ [9] ++ str "deadline_ns").
  set (es := flat_map entry_line _).
  assert (Htail : forall fuel acc, (length (h2 ++ 10%Z :: es) <= fuel)%nat ->
    load_loop fuel ttl now (h2 ++ 10 :: es) acc = mkLoading (file_credential acc) (fold_left (load_entry ttl now) (in_key_order t) (got acc))).
  { intros f acc Hf. destruct (load_loop_line f ttl now h2 es acc) as (f' & -> & Hf').
    - apply (bool_decide_unpack _). vm_compute. exact I.
    - apply (bool_decide_unpack _). vm_compute. exact I.
    - done.
    - change (load_line ttl now (h2 ++ [10]) acc) with acc. by apply load_entries. }
  change (str "# token" ++ [9] ++ str "deadline_ns" ++ [10] ++ es) with (h2 ++ 10 :: es). cbn [app].
  intros Hf.
  destruct (load_loop_line fuel ttl now h1 (match cred with [] => [] | _ => kCredentialLine ++ c_str cred ++ [10] end ++ h2 ++ 10 :: es)
    (mkLoading [] ∅)) as (f1 & Hl1 & Hf1).
  - apply (bool_decide_unpack _). vm_compute. exact I.
  - apply (bool_decide_unpack _). vm_compute. exact I.
  - exact Hf.
  - rewrite Hl1. change (load_line ttl now (h1 ++ [10]) (mkLoading [] ∅)) with (mkLoading [] ∅). clear Hf Hl1.
    destruct cred as [| x cred]; cbn [app] in Hf1 |- *; [rewrite Htail by done; by rewrite fold_table |].
    rewrite (c_str_id (x :: cred)) in * by (eapply Forall_impl; [exact Hc | cbn; lia]).
    rewrite !(app_assoc kCredentialLine), <- (app_assoc _ [10]) in *. set (L := kCredentialLine ++ x :: cred) in *.
    assert (HL : (10 ∉ L) /\ (length L < 255)%nat).
    { split; [| unfold L; rewrite length_app; change (length kCredentialLine) with 13%nat; lia].
      unfold L. rewrite elem_of_app. intros [H | H]; [| rewrite Forall_forall in Hc; specialize (Hc _ H); lia].
      revert H. apply (bool_decide_unpack (10 ∉ kCredentialLine)). vm_compute. exact I. }
    destruct HL as [HL1 HL2]. cbn [app] in Hf1 |- *.
    destruct (load_loop_line f1 ttl now L (h2 ++ 10 :: es) (mkLoading [] ∅) HL1 HL2 Hf1) as (f2 & -> & Hf2).
    unfold L. rewrite load_credential_line by done. rewrite Htail by done. cbn [file_credential got]. by rewrite fold_table.
Qed.

(** ** A restart *)

(** Every request's token comes from create(); what create() drew is 32
    bytes; and the saves succeed. *)
Definition random_ok (r : option bytes) : Prop := match r with Some b => is_bytes b /\ zlen b = 32 | None => True end.
Definition event_ok (e : event) : Prop :=
  ev_io e = save_ok /\ match ev_op e with OCreate r => random_ok r | _ => True end.

Lemma hex_above v : 35 < znth 0 kHex (Z.land v 0xF).
Proof.
  change 15 with (Z.ones 4). rewrite Z.land_ones by lia. change (2 ^ 4) with 16. pose proof (Z.mod_pos_bound v 16 ltac:(lia)) as Hb.
  assert (H : Forall (fun i => 35 < znth 0 kHex i) (seqZ 0 16)) by (vm_compute; repeat constructor).
  rewrite Forall_forall in H. apply H, elem_of_seqZ. lia.
Qed.

Lemma token_ok r : random_ok r -> new_session_token r <> [] -> tok_ok (new_session_token r).
Proof.
  intros Hr Hn. destruct r as [b |]; [| done]. destruct Hr as [_ Hl]. split; [done |].
  assert (Hgen : forall b, Forall (fun c => 35 < c) (new_session_token (Some b)) /\ (length (new_session_token (Some b)) = 2 * length b)%nat).
  { clear. induction b as [| x b [IH1 IH2]]; [by split |]. cbn [new_session_token flat_map app] in *. split.
    - constructor; [apply hex_above |]. constructor; [apply hex_above | done].
    - cbn [length]. rewrite IH2. lia. }
  destruct (Hgen b) as [H1 H2]. split; [done |]. rewrite H2. unfold zlen in Hl. lia.
Qed.

Lemma autosave_ok w :
  persist_path_ (store w) <> [] -> c_str (persist_path_ (store w)) = persist_path_ (store w) ->
  disk (autosave save_ok w) !! persist_path_ (store w) = Some (sessions_text (credential_ (store w)) (deadline_ (store w))).
Proof.
  intros Hp Hc. unfold autosave. destruct (persist_path_ (store w)) as [| x p] eqn:E; [done |]. rewrite Hc. cbn.
  apply lookup_insert_eq.
Qed.

(** The table and its file while the saves succeed and the clock runs
    forward: the file's live entries are the table's. *)
Record saved (now : Z) (w : World) : Prop := {
  sv_ttl : 0 <= ttl_ns_ (store w) < 2 ^ 62;
  sv_path : persist_path_ (store w) <> [] /\ c_str (persist_path_ (store w)) = persist_path_ (store w);
  sv_now : 0 <= now < 2 ^ 62;
  sv_table : map_Forall (fun k d => tok_ok k /\ 0 <= d <= now + ttl_ns_ (store w)) (deadline_ (store w));
  sv_file : exists t, table_ok t /\ live now t = live now (deadline_ (store w)) /\
    map_Forall (fun _ d => d <= now + ttl_ns_ (store w)) t /\
    (disk w !! persist_path_ (store w) = Some (sessions_text (credential_ (store w)) t) \/
     (disk w !! persist_path_ (store w) = None /\ t = ∅))
}.

Lemma live_lookup now t k d : live now t !! k = Some d <-> t !! k = Some d /\ now < d.
Proof. unfold live. by rewrite map_lookup_filter_Some. Qed.

Lemma live_later now now' t : now <= now' -> live now' (live now t) = live now' t.
Proof.
  intros H. apply map_eq. intros k. apply option_eq. intros d. rewrite !live_lookup. intuition lia.
Qed.

Lemma live_live now now' t u : now <= now' -> live now t = live now u -> live now' t = live now' u.
Proof. intros H E. by rewrite <- (live_later now now' t), <- (live_later now now' u), E. Qed.

Lemma saved_later now now' w : saved now w -> now <= now' < 2 ^ 62 -> saved now' w.
Proof.
  intros [H1 H2 H3 H4 (t & T1 & T2 & T3 & T4)] Hn. constructor; try done; [lia | |].
  - eapply map_Forall_impl; [exact H4 |]. cbn. intros k d [? ?]. split; [done | lia].
  - exists t. split_and!; [done | by eapply live_live; [| exact T2]; lia | | done].
    eapply map_Forall_impl; [exact T3 |]. cbn. lia.
Qed.

Lemma saved_autosave now w f :
  saved now w -> map_Forall (fun k d => tok_ok k /\ 0 <= d <= now + ttl_ns_ (store w)) (f (deadline_ (store w))) ->
  saved now (autosave save_ok (with_table f w)).
Proof.
  intros [H1 H2 H3 _ _] Ht. set (w1 := with_table f w).
  pose proof (autosave_ok w1 (proj1 H2) (proj2 H2)) as Hd. destruct (autosave_table save_ok w1) as (T & L & P & C).
  constructor; rewrite ?T, ?L, ?P, ?C; try done.
  exists (f (deadline_ (store w))). split_and!; [| done | | by left].
  - eapply map_Forall_impl; [exact Ht |]. cbn. intros k d [Hk Hb]. split; [done |]. unfold is_uint. lia.
  - eapply map_Forall_impl; [exact Ht |]. cbn. lia.
Qed.

Lemma step_saved e w : event_ok e -> saved (ev_now e) w -> saved (ev_now e) (step e w).
Proof.
  destruct e as [o now io]. intros [Hio Ho] H. cbn in Hio. subst io. pose proof H as [H1 H2 H3 H4 H5]. unfold step. cbn [ev_op ev_now ev_io] in *.
  assert (Hf : u64 (now + ttl_ns_ (store w)) = now + ttl_ns_ (store w)) by (apply u64_small; lia).
  assert (Hins : forall tok, tok_ok tok -> saved now (autosave save_ok (with_table <[tok := u64 (now + ttl_ns_ (store w))]> w))).
  { intros tok Hk. apply saved_autosave; [done |]. apply map_Forall_insert_2; [rewrite Hf; split; [done | lia] | done]. }
  assert (Hdel : forall tok, saved now (autosave save_ok (with_table (delete tok) w))).
  { intros tok. apply saved_autosave; [done |]. by apply map_Forall_delete. }
  destruct o as [r | tok | tok | tok |].
  - unfold create. destruct (new_session_token r) eqn:E; [done |]. cbn [snd]. apply Hins. rewrite <- E.
    apply token_ok; [done | by rewrite E].
  - unfold verify. destruct tok as [| x tok]; [done |]. destruct (deadline_ (store w) !! (x :: tok)) as [d |] eqn:E; [| done].
    destruct (d <=? now); cbn [snd]; [apply Hdel |]. pose proof (H4 _ _ E) as [_ Hd]. cbn in Hd.
    by rewrite Hf, (proj2 (Z.ltb_ge _ _)) by lia.
  - unfold touch. destruct tok as [| x tok]; [done |]. destruct (deadline_ (store w) !! (x :: tok)) as [d |] eqn:E; [| done].
    destruct (d <=? now); cbn [snd]; [apply Hdel |]. destruct (_ || _); cbn [snd]; [| done].
    apply Hins. apply (H4 _ _ E).
  - unfold revoke. destruct (deadline_ (store w) !! tok); [apply Hdel | done].
  - cbn [purge_expired snd]. destruct H5 as (t & T1 & T2 & T3 & T4). constructor; try done.
    + cbn. intros k d Hk. apply live_lookup in Hk as [Hk _]. by apply H4.
    + exists t. split_and!; try done. cbn. rewrite T2. by rewrite live_later.
Qed.

Lemma run_saved es now w :
  Forall event_ok es -> steady now es -> saved now w -> forall now', Forall (fun e => ev_now e <= now') es -> now <= now' < 2 ^ 62 ->
  saved now' (run es w).
Proof.
  revert now w. induction es as [| e es IH]; intros now w He Hs Hw now' Hall Hn; [by eapply saved_later |].
  apply Forall_cons_1 in He as [He Hes]. apply Forall_cons_1 in Hall as [Ha Hall]. destruct Hs as [Hn1 Hs].
  rewrite run_cons. apply (IH (ev_now e)); try done; [| lia]. apply step_saved; [done |].
  eapply saved_later; [exact Hw | done].
Qed.

Lemma load_saved s cred t now fs path :
  fs !! path = Some (sessions_text cred t) -> cred_ok cred -> table_ok t ->
  load (Some path) None 0 now fs s =
  if negb (bool_decide (credential_ s = [])) && negb (bool_decide (cred = credential_ s)) then
    (0, negb (bool_decide (reloaded (ttl_ns_ s) now t = ∅)), s)
  else (0, false, set_deadlines (reloaded (ttl_ns_ s) now t ∪ deadline_ s) s).
Proof. intros Hf Hc Ht. unfold load. rewrite Hf, (load_text _ _ cred t) by done. done. Qed.

Lemma reloaded_live ttl now t :
  0 <= now -> 0 <= ttl -> now + ttl < 2 ^ 64 -> map_Forall (fun _ d => d <= now + ttl) t -> reloaded ttl now t = live now t.
Proof.
  intros Hn Httl Hb Ht. unfold reloaded. rewrite <- (map_fmap_id (live now t)) at 2. apply map_fmap_ext. intros k d Hk.
  apply live_lookup in Hk as [Hk _]. specialize (Ht k d Hk). cbn in Ht. rewrite u64_small by lia. cbn. lia.
Qed.

(** The daemon as it starts: a store with its path and credential set. *)
Definition started (ttl_seconds : Z) (path cred : bytes) : SessionStore :=
  mkSessionStore (u64 (ttl_seconds * 1000000000)) ∅ path cred 0.

Lemma started_saved ttl_seconds path cred fs t0 said :
  0 <= ttl_seconds -> ttl_seconds * 1000000000 < 2 ^ 62 -> path <> [] -> c_str path = path -> 0 <= t0 < 2 ^ 62 ->
  fs !! path = None -> saved t0 (mkWorld (started ttl_seconds path cred) fs said).
Proof.
  intros H1 H2 Hp Hc Ht Hfs. constructor; cbn; [rewrite u64_small; lia | done | done | apply map_Forall_empty |].
  exists ∅. split_and!; [apply map_Forall_empty | done | apply map_Forall_empty | by right].
Qed.

(** C23: A restart ends no session.  After any operations of a daemon whose saves
    succeed and whose clock runs forward, a new daemon that loads the file has
    exactly the sessions of the old one that have not expired, with their
    deadlines: load() returns 0, *stale stays false, and every token is
    accepted or refused as before. *)
Theorem sessions_survive_restart ttl_seconds path cred fs t0 es now' :
  0 <= ttl_seconds -> ttl_seconds * 1000000000 < 2 ^ 62 -> path <> [] -> c_str path = path -> cred_ok cred ->
  fs !! path = None -> 0 <= t0 -> steady t0 es -> Forall event_ok es ->
  Forall (fun e => ev_now e <= now') es -> t0 <= now' < 2 ^ 62 ->
  let w := run es (mkWorld (started ttl_seconds path cred) fs []) in
  let '(rc, stale, s) := load (Some path) None 0 now' (disk w) (started ttl_seconds path cred) in
  rc = 0 /\ stale = false /\ deadline_ s = live now' (deadline_ (store w)) /\
  forall token io said, (verify token now' io (mkWorld s (disk w) said)).1 = (verify token now' io w).1.
Proof.
  intros H1 H2 Hp Hc Hcred Hfs Ht0 Hs Hes Hall Hn w.
  pose proof (run_saved es t0 _ Hes Hs (started_saved ttl_seconds path cred fs t0 [] H1 H2 Hp Hc ltac:(lia) Hfs) now' Hall Hn) as Hw.
  fold w in Hw. assert (Hpar : ttl_ns_ (store w) = u64 (ttl_seconds * 1000000000) /\ persist_path_ (store w) = path /\ credential_ (store w) = cred).
  { apply (run_params es (mkWorld (started ttl_seconds path cred) fs [])). }
  destruct Hpar as (Htt & Hpp & Hcc). destruct Hw as [W1 W2 W3 W4 (t & T1 & T2 & T3 & T4)]. rewrite Hpp, Hcc in T4. rewrite Htt in *.
  assert (Hl : load (Some path) None 0 now' (disk w) (started ttl_seconds path cred) =
    (0, false, set_deadlines (live now' (deadline_ (store w))) (started ttl_seconds path cred))).
  { destruct T4 as [T4 | [T4 ->]].
    - rewrite (load_saved _ cred t) by done. cbn [credential_ started ttl_ns_ deadline_].
      rewrite reloaded_live, T2, map_union_empty by (done || lia). rewrite (bool_decide_true (cred = cred)) by done. by rewrite andb_false_r.
    - unfold load. rewrite T4. rewrite <- T2. done. }
  rewrite Hl. split_and!; try done. intros token io said. rewrite !verify_result. destruct token as [| x tok]; [done |].
  cbn [store deadline_ set_deadlines]. destruct (deadline_ (store w) !! (x :: tok)) as [d |] eqn:E.
  - destruct (live now' (deadline_ (store w)) !! (x :: tok)) as [d' |] eqn:E'.
    + apply live_lookup in E' as [E' _]. rewrite E in E'. by injection E' as <-.
    + destruct (d <=? now') eqn:El; bool_facts; [done |].
      assert (live now' (deadline_ (store w)) !! (x :: tok) = Some d) by (by apply live_lookup). congruence.
  - replace (live now' (deadline_ (store w)) !! (x :: tok)) with (@None Z); [done |]. symmetry.
    unfold live. apply map_lookup_filter_None. by left.
Qed.

Lemma sessions_survive_restart_witness :
  let es := [mkEvent (OCreate (Some (replicate 32 171))) 5 save_ok; mkEvent (OCreate (Some (replicate 32 7))) 6 save_ok] in
  let w := run es (mkWorld (started 10 (str "/s") (str "ABC=")) ∅ []) in
  let '(rc, stale, s) := load (Some (str "/s")) None 0 9 (disk w) (started 10 (str "/s") (str "ABC=")) in
  rc = 0 /\ stale = false /\ deadline_ s = live 9 (deadline_ (store w)) /\
  forall token io said, (verify token 9 io (mkWorld s (disk w) said)).1 = (verify token 9 io w).1.
Proof.
  set (es := [mkEvent (OCreate (Some (replicate 32 171))) 5 save_ok; mkEvent (OCreate (Some (replicate 32 7))) 6 save_ok]).
  apply (sessions_survive_restart 10 (str "/s") (str "ABC=") ∅ 5 es 9); try done.
  - split; [vm_compute; repeat constructor | vm_compute; lia].
  - repeat (constructor; [split; [reflexivity | split; [apply (bool_decide_unpack _); vm_compute; exact I | reflexivity]] |]). constructor.
  - repeat (constructor; [cbn; lia |]). constructor.
Defined.

(** C25: A password change ends every session.  A daemon started under another
    credential leaves the whole of a saved file out: load() returns 0, the
    table is as it was, and *stale says whether the file held a session that
    was still live. *)
Theorem password_change_ends_sessions cred t fs path now s :
  fs !! path = Some (sessions_text cred t) -> cred_ok cred -> table_ok t ->
  credential_ s <> [] -> credential_ s <> cred ->
  load (Some path) None 0 now fs s = (0, negb (bool_decide (live now t = ∅)), s).
Proof.
  intros Hf Hc Ht Hne Hcr. rewrite (load_saved s cred t) by done.
  rewrite (bool_decide_false (credential_ s = [])), (bool_decide_false (cred = credential_ s)) by congruence. cbn [negb andb].
  do 3 f_equal. apply bool_decide_ext. unfold reloaded. apply fmap_empty_iff.
Qed.

Lemma password_change_ends_sessions_witness :
  let t := <[str "ab" := 50]> (∅ : table) in
  load (Some (str "/s")) None 0 9 (<[str "/s" := sessions_text (str "OLD=") t]> ∅) (started 10 (str "/s") (str "NEW=")) =
    (0, true, started 10 (str "/s") (str "NEW=")) /\
  load (Some (str "/s")) None 0 9 (<[str "/s" := sessions_text (str "OLD=") t]> ∅) (started 10 (str "/s") (str "NEW=")) =
    (0, negb (bool_decide (live 9 t = ∅)), started 10 (str "/s") (str "NEW=")).
Proof.
  set (t := <[str "ab" := 50]> (∅ : table)). split; [vm_compute; reflexivity |].
  apply (password_change_ends_sessions (str "OLD=") t).
  - reflexivity.
  - split; [vm_compute; repeat constructor | vm_compute; lia].
  - apply map_Forall_insert_2; [| apply map_Forall_empty]. split; [| done].
    split_and!; [done | vm_compute; repeat constructor | vm_compute; lia].
  - discriminate.
  - discriminate.
Defined.


