(* ===== verification/HttpServer.v ===== *)
(** The HTTP server's reading of a request and writing of a response
    (src/web/server.h, src/web/server.cpp).  A connection is what its recv()
    calls return, in order; a send() takes what the script says.  The waits
    (poll(), the deadlines) appear as their outcome: a recv that fails when
    time is up.  Theorems: the request does not depend on how the bytes arrive,
    a printed head parses back, two Content-Length headers never disagree. *)
From Stdlib Require Import ZArith Lia List Bool.
From stdpp Require Import base numbers list strings.
From S2P Require Import Prelude TextNum HttpUtil.
Open Scope Z_scope.

(** ** Requests and responses *)

Abbreviation header_list := (list (bytes * bytes)).

Record HttpRequest := mkHttpRequest {
  method : bytes; path : bytes; query : bytes; peer : bytes; headers : header_list; body : bytes
}.

Fixpoint find_header (headers : header_list) (name : bytes) : bytes :=
  match headers with
  | [] => []
  | kv :: r => if ascii_ieq kv.1 name then kv.2 else find_header r name
  end.
Definition header (req : HttpRequest) (name : bytes) : bytes := find_header (headers req) name.

Record HttpResponse := mkHttpResponse {
  status : Z; content_type : bytes; rbody : bytes; extra_headers : header_list; hijack : bool
}.
Definition response (s : Z) (type text : bytes) : HttpResponse := mkHttpResponse s type text [] false.

(** ** Reading *)

Definition kHeaderReadCap : Z := 16 * 1024.
Definition kMaxBodyBytes : Z := 64 * 1024.

(** A recv() that returned bytes (none: the peer closed), or -1: an error or
    the end of the time. *)
Inductive recv_res := RData (b : bytes) | RFail.

(** At most [cap] bytes; what does not fit stays in the socket. *)
Definition recv_bounded (cap : Z) (ins : list recv_res) : option bytes * list recv_res :=
  match ins with
  | [] => (None, [])
  | RFail :: r => (None, r)
  | RData b :: r => if zlen b <=? cap then (Some b, r) else (Some (ztake cap b), RData (zdrop cap b) :: r)
  end.

(** The blank line: "\n\n" or "\n\r\n", its length, or 0. *)
Definition ends_here (b : bytes) : Z :=
  match b with
  | x :: y :: r =>
      if x =? 10 then
        if y =? 10 then 2
        else if y =? 13 then match r with z :: _ => if z =? 10 then 3 else 0 | [] => 0 end
        else 0
      else 0
  | _ => 0
  end.

(** The loop of find_header_end(), [i] the index of the suffix looked at. *)
Fixpoint find_end_from (i : Z) (b : bytes) : Z :=
  match b with
  | [] => 0
  | _ :: r => if ends_here b =? 0 then find_end_from (i + 1) r else i + ends_here b
  end.
Definition find_header_end (b : bytes) (from : Z) : Z := find_end_from from (zdrop from b).

Inductive head_res := HeadAt (end_ : Z) (buf : bytes) (ins : list recv_res) | HeadEof | HeadError | HeadersTooLarge.

Fixpoint read_until_headers (fuel : nat) (buf : bytes) (ins : list recv_res) : head_res :=
  match fuel with
  | O => HeadersTooLarge
  | S fuel =>
      if zlen buf <? kHeaderReadCap then
        match recv_bounded 1024 ins with
        | (None, _) => HeadError
        | (Some [], _) => HeadEof
        | (Some tmp, ins) =>
            let from := if 2 <? zlen buf then zlen buf - 2 else 0 in
            let buf := buf ++ tmp in
            let end_ := find_header_end buf from in
            if end_ =? 0 then read_until_headers fuel buf ins else HeadAt end_ buf ins
        end
      else HeadersTooLarge
  end.

(** [None] is -1; a short result is the peer closing. *)
Fixpoint read_full (fuel : nat) (want : Z) (ins : list recv_res) : option bytes :=
  match fuel with
  | O => Some []
  | S fuel =>
      if 0 <? want then
        match recv_bounded want ins with
        | (None, _) => None
        | (Some [], _) => Some []
        | (Some b, ins) => option_map (app b) (read_full fuel (want - zlen b) ins)
        end
      else Some []
  end.

(** ** The head *)

Definition trim (s : bytes) : bytes := reverse (skip_while is_space (reverse (skip_while is_space s))).

(** The lines that end in a newline, without it and a carriage return before
    it. *)
Fixpoint lines_of (cur : bytes) (b : bytes) : list bytes :=
  match b with
  | [] => []
  | x :: b =>
      if x =? 10 then
        (match reverse cur with 13 :: r => reverse r | _ => cur end) :: lines_of [] b
      else lines_of (cur ++ [x]) b
  end.

Definition in_A_Z (c : Z) : bool := (65 <=? c) && (c <=? 90).

(** Cut at the first [c]: before it and after it. *)
Definition cut_at (c : Z) (s : bytes) : option (bytes * bytes) :=
  option_map (fun i => (ztake i s, zdrop (i + 1) s)) (find_char c s).

Definition parse_request_line (l : bytes) : option (bytes * (bytes * bytes)) :=
  match cut_at 32 l with
  | None => None
  | Some (meth, r) =>
      if zlen meth =? 0 then None
      else match cut_at 32 r with
      | None => None
      | Some (target, version) =>
          if zlen target =? 0 then None
          else if negb (bool_decide (ztake 7 version = str "HTTP/1.")) || negb (zlen version =? 8) then None
          else if negb (forallb in_A_Z meth) then None
          else if negb (znth 0 target 0 =? 47) then None
          else Some (meth, split_target target)
      end
  end.

Definition parse_header_line (l : bytes) : option (bytes * bytes) :=
  if zlen l =? 0 then None
  else if is_blank (znth 0 l 0) then None
  else match cut_at 58 l with
  | None => None
  | Some (key, value) =>
      if zlen key =? 0 then None else if existsb is_blank key then None else Some (key, trim value)
  end.

Fixpoint parse_header_lines (ls : list bytes) : option header_list :=
  match ls with
  | [] => Some []
  | l :: ls =>
      match parse_header_line l with
      | None => None
      | Some kv => option_map (cons kv) (parse_header_lines ls)
      end
  end.

(** [None] is [false]; [peer] and [body] are the caller's. *)
Definition parse_headers (buf : bytes) : option HttpRequest :=
  let lines := lines_of [] buf in
  match last lines with
  | None => None
  | Some blank =>
      if (zlen lines <? 2) || negb (zlen blank =? 0) then None
      else match removelast lines with
      | [] => None
      | rl :: hls =>
          match parse_request_line rl with
          | None => None
          | Some (meth, (p, q)) =>
              option_map (fun hs => mkHttpRequest meth p q [] hs []) (parse_header_lines hls)
          end
      end
  end.

Fixpoint length_digits (n : Z) (v : bytes) : Z :=
  match v with
  | [] => n
  | c :: v => if (c <? 48) || (57 <? c) then -1 else length_digits (n * 10 + (c - 48)) v
  end.

(** [seen] is [*present] with [value]. *)
Fixpoint declared_length (hs : header_list) (seen : option Z) : Z :=
  match hs with
  | [] => default 0 seen
  | kv :: hs =>
      if ascii_ieq kv.1 (str "Content-Length") then
        let v := kv.2 in
        if (zlen v =? 0) || (18 <? zlen v) then -1
        else
          let n := length_digits 0 v in
          if n =? -1 then -1
          else match seen with
               | Some value => if n =? value then declared_length hs (Some n) else -1
               | None => declared_length hs (Some n)
               end
      else declared_length hs seen
  end.

(** ** One connection *)

Inductive served :=
| NoResponse
| Replied (r : HttpResponse)
| Hijacked (r : HttpResponse).

Definition with_body (req : HttpRequest) (peer b : bytes) : HttpRequest :=
  mkHttpRequest (method req) (path req) (query req) peer (headers req) b.

(** Enough for every byte that can arrive. *)
Definition input_fuel (ins : list recv_res) : nat :=
  S (length (flat_map (fun r => match r with RData b => b | RFail => [] end) ins)).

(** What handle_client() does once the first byte is there: the request handed
    to the handler, or the response made without it. *)
Definition read_request (client : bytes) (ins : list recv_res) : HttpRequest + served :=
  match read_until_headers (input_fuel ins) [] ins with
  | HeadersTooLarge => inr (Replied (response 431 (str "text/plain") (str "request headers too large" ++ [10])))
  | HeadEof | HeadError => inr NoResponse
  | HeadAt hdr_end buf ins =>
      match parse_headers (ztake hdr_end buf) with
      | None => inr (Replied (response 400 (str "text/plain") (str "bad request" ++ [10])))
      | Some req =>
          let req := with_body req client (zdrop hdr_end buf) in
          if negb (zlen (header req (str "Transfer-Encoding")) =? 0) then
            inr (Replied (response 501 (str "text/plain") (str "transfer-encoding not supported" ++ [10])))
          else
            let want := declared_length (headers req) None in
            if want <? 0 then inr (Replied (response 400 (str "text/plain") (str "bad content-length" ++ [10])))
            else if kMaxBodyBytes <? want then
              inr (Replied (response 413 (str "text/plain") (str "body too large" ++ [10])))
            else if zlen (body req) <? want then
              match read_full (input_fuel ins) (want - zlen (body req)) ins with
              | None => inr NoResponse
              | Some rest => inl (with_body req client (body req ++ rest))
              end
            else inl (with_body req client (ztake want (body req)))
      end
  end.

(** [first_byte]: something came within kFirstByteMs. *)
Definition handle_client (handler : HttpRequest -> HttpResponse) (client : bytes) (first_byte : bool)
    (ins : list recv_res) : served :=
  if negb first_byte then NoResponse
  else match read_request client ins with
       | inr r => r
       | inl req => let resp := handler req in if hijack resp then Hijacked resp else Replied resp
       end.

(** ** Writing *)

Definition status_phrase (status : Z) : bytes :=
  match status with
  | 200 => str "OK" | 204 => str "No Content" | 400 => str "Bad Request" | 401 => str "Unauthorized"
  | 403 => str "Forbidden" | 404 => str "Not Found" | 405 => str "Method Not Allowed" | 413 => str "Payload Too Large"
  | 431 => str "Request Header Fields Too Large" | 429 => str "Too Many Requests" | 500 => str "Internal Server Error"
  | 501 => str "Not Implemented" | 503 => str "Service Unavailable" | _ => str "OK"
  end.

Definition crlf : bytes := [13; 10].

Definition response_head (r : HttpResponse) : bytes :=
  str "HTTP/1.1 " ++ u64_text (status r) ++ [32] ++ status_phrase (status r) ++
  crlf ++ str "Content-Type: " ++ (if zlen (content_type r) =? 0 then str "text/plain" else content_type r) ++
  crlf ++ str "Content-Length: " ++ u64_text (zlen (rbody r)) ++ crlf ++ str "Connection: close" ++ crlf ++
  flat_map (fun kv => kv.1 ++ str ": " ++ kv.2 ++ crlf) (extra_headers r) ++ crlf.

(** What send() and the wait for room did: bytes taken, or the end (the peer
    gone, no room in time). *)
Inductive send_res := STook (n : Z) | SFail.

Fixpoint send_all (data : bytes) (outs : list send_res) : bool * bytes * list send_res :=
  if zlen data =? 0 then (true, [], outs)
  else match outs with
  | [] => (false, [], [])
  | SFail :: r => (false, [], r)
  | STook n :: r =>
      let n := Z.min n (zlen data) in
      if n <=? 0 then (false, [], r)
      else let '(ok, wire, outs) := send_all (zdrop n data) r in (ok, ztake n data ++ wire, outs)
  end.

(** What the peer got, and whether it got all of it. *)
Definition send_response (r : HttpResponse) (outs : list send_res) : bool * bytes :=
  let '(ok, wire, outs) := send_all (response_head r) outs in
  if negb ok || (zlen (rbody r) =? 0) then (ok, wire)
  else let '(ok, wire2, _) := send_all (rbody r) outs in (ok, wire ++ wire2).

Definition rate_allowance (size min_rate : Z) : Z := u64 (u64 size * 1000) / (if 0 <? min_rate then min_rate else 1).

Example read_ex :
  read_request (str "1.2.3.4") [RData (str "POST /a?b=1 HTTP/1.1"); RData (crlf ++ str "Content-Length:  3" ++ [13]);
                                RData ([10] ++ crlf ++ str "x"); RData (str "yz+")] =
  inl (mkHttpRequest (str "POST") (str "/a") (str "b=1") (str "1.2.3.4") [(str "Content-Length", str "3")] (str "xyz")).
Proof. vm_compute. reflexivity. Qed.

(** ** The bytes however they arrive *)

Lemma ends_here_app b x : (3 <= length b)%nat -> ends_here (b ++ x) = ends_here b.
Proof. intros H. destruct b as [| b1 [| b2 [| b3 b]]]; cbn [length] in H; try lia. reflexivity. Qed.

Lemma ends_here_range b : 0 <= ends_here b <= zlen b.
Proof.
  destruct b as [| x [| y r]]; [done | done |]. cbn [ends_here]. rewrite !zlen_cons. pose proof (zlen_nonneg r).
  destruct (x =? 10); [| lia]. destruct (y =? 10); [lia |]. destruct (y =? 13); [| lia].
  destruct r as [| z r]; [lia |]. rewrite zlen_cons in *. pose proof (zlen_nonneg r). destruct (z =? 10); lia.
Qed.

(** A search that found nothing need not be made again: only the last two
    bytes can begin a blank line that the next chunk ends. *)
Lemma find_end_resume i b x :
  0 <= i -> find_end_from i b = 0 ->
  let k := Z.min 2 (zlen b) in
  find_end_from i (b ++ x) = find_end_from (i + zlen b - k) (zdrop (zlen b - k) (b ++ x)).
Proof.
  revert i. induction b as [| y b IH]; intros i Hi H; [cbn zeta; change (zlen []) with 0; by rewrite Z.add_0_r, Z.min_r, !Z.sub_0_r |].
  destruct (Z.le_gt_cases (zlen (y :: b)) 2) as [Hs | Hs].
  { cbn zeta. rewrite Z.min_r by done. replace (i + zlen (y :: b) - zlen (y :: b)) with i by lia. by rewrite Z.sub_diag. }
  cbn [find_end_from] in H. pose proof (ends_here_range (y :: b)). destruct (ends_here (y :: b) =? 0) eqn:E; bool_facts; [| lia].
  specialize (IH (i + 1) ltac:(lia) H). cbn zeta in *. change ((y :: b) ++ x) with (y :: (b ++ x)) in *.
  cbn [find_end_from]. change (y :: (b ++ x)) with ((y :: b) ++ x). rewrite ends_here_app, E by (unfold zlen in *; cbn in *; lia).
  cbn [Z.eqb]. rewrite IH. rewrite zlen_cons in *. rewrite !Z.min_l by lia. f_equal; [lia |].
  unfold zdrop. replace (Z.to_nat (1 + zlen b - 2)) with (S (Z.to_nat (zlen b - 2))) by lia. done.
Qed.

Lemma find_end_app i b x : 0 <= i -> find_end_from i b <> 0 -> find_end_from i (b ++ x) = find_end_from i b.
Proof.
  revert i. induction b as [| y b IH]; intros i Hi H; [done |]. cbn [app find_end_from] in *.
  destruct (ends_here (y :: b) =? 0) eqn:E.
  - assert ((ends_here (y :: b ++ x) =? 0) = true) as ->.
    { destruct (Nat.le_gt_cases 3 (length (y :: b))) as [Hl | Hl]; [change (y :: b ++ x) with ((y :: b) ++ x); by rewrite ends_here_app |].
      exfalso. apply H. destruct b as [| y2 [| y3 b]]; cbn in Hl; [done | | lia].
      cbn [find_end_from ends_here]. done. }
    apply IH; [lia | done].
  - assert (ends_here (y :: b ++ x) = ends_here (y :: b)) as ->; [| by rewrite E].
    destruct b as [| y2 b]; [done |]. cbn [ends_here app] in *. destruct (y =? 10); [| done]. destruct (y2 =? 10); [done |].
    destruct (y2 =? 13); [| done]. by destruct b.
Qed.

Lemma find_end_bound i b : 0 <= i -> 0 <= find_end_from i b <= i + zlen b.
Proof.
  revert i. induction b as [| y b IH]; intros i Hi; cbn [find_end_from]; [change (zlen []) with 0; lia |].
  pose proof (ends_here_range (y :: b)). destruct (_ =? 0); [| lia]. specialize (IH (i + 1) ltac:(lia)). rewrite zlen_cons. lia.
Qed.

(** The bytes still to come from data chunks. *)
Definition pending (cs : list bytes) : bytes := concat cs.

Lemma recv_data cap cs tail :
  0 < cap -> Forall (fun c => c <> []) cs -> cs <> [] ->
  exists b cs', recv_bounded cap (map RData cs ++ tail) = (Some b, map RData cs' ++ tail) /\ b <> [] /\ zlen b <= cap /\
    b ++ concat cs' = concat cs /\ Forall (fun c => c <> []) cs'.
Proof.
  intros Hcap Hne Hcs. destruct cs as [| c cs]; [done |]. apply Forall_cons_1 in Hne as [Hc Hne]. cbn [map app recv_bounded].
  destruct (zlen c <=? cap) eqn:E; bool_facts; [by exists c, cs |].
  exists (ztake cap c), (zdrop cap c :: cs). unfold ztake, zdrop, zlen in *. split_and!.
  - done.
  - intros H. apply (f_equal (@length Z)) in H. rewrite length_take in H. cbn in H. lia.
  - rewrite length_take. lia.
  - cbn [concat]. by rewrite app_assoc, take_drop.
  - constructor; [| done]. intros H. apply (f_equal (@length Z)) in H. rewrite length_drop in H. cbn in H. lia.
Qed.

Lemma ends_here_more b x : ends_here b <> 0 -> ends_here (b ++ x) = ends_here b.
Proof.
  destruct b as [| y [| y2 b]]; [done | done |]. cbn [ends_here app]. destruct (y =? 10); [| done]. destruct (y2 =? 10); [done |].
  destruct (y2 =? 13); [| done]. by destruct b.
Qed.

Lemma ends_here_low b : ends_here b <> 0 -> 2 <= ends_here b.
Proof.
  destruct b as [| y [| y2 b]]; [done | done |]. cbn [ends_here]. destruct (y =? 10); [| done]. destruct (y2 =? 10); [lia |].
  destruct (y2 =? 13); [| done]. destruct b as [| z b]; [done |]. destruct (z =? 10); [lia | done].
Qed.

Lemma ends_here_within b x : ends_here (b ++ x) <> 0 -> ends_here (b ++ x) <= zlen b -> ends_here b = ends_here (b ++ x).
Proof.
  intros H Hl. pose proof (ends_here_low _ H). destruct b as [| y [| y2 b]];
    [change (zlen []) with 0 in Hl; lia | change (zlen [y]) with 1 in Hl; lia |].
  rewrite !zlen_cons in Hl. cbn [ends_here app] in *. destruct (y =? 10); [| done]. destruct (y2 =? 10); [done |].
  destruct (y2 =? 13); [| done]. destruct b as [| z b]; [| done]. cbn [app] in *.
  destruct x as [| z x]; [done |]. destruct (z =? 10); [| done]. change (zlen []) with 0 in Hl. lia.
Qed.

Lemma find_end_low i b : 0 <= i -> find_end_from i b <> 0 -> i + 2 <= find_end_from i b.
Proof.
  revert i. induction b as [| y b IH]; intros i Hi H; [done |]. cbn [find_end_from] in *.
  destruct (ends_here (y :: b) =? 0) eqn:E; bool_facts; [specialize (IH (i + 1) ltac:(lia) H); lia |].
  pose proof (ends_here_low _ E). lia.
Qed.

(** A blank line that ends inside [b] is found in [b]. *)
Lemma find_end_within i b x :
  0 <= i -> find_end_from i (b ++ x) <> 0 -> find_end_from i (b ++ x) <= i + zlen b ->
  find_end_from i b = find_end_from i (b ++ x).
Proof.
  revert i. induction b as [| y b IH]; intros i Hi H Hl.
  { pose proof (find_end_low i _ Hi H). cbn [app] in *. change (zlen []) with 0 in Hl. lia. }
  cbn [app find_end_from] in *. change (y :: b ++ x) with ((y :: b) ++ x) in *.
  destruct (ends_here ((y :: b) ++ x) =? 0) eqn:E; bool_facts.
  - assert (ends_here (y :: b) = 0) as ->.
    { destruct (Z.eq_dec (ends_here (y :: b)) 0) as [| Hn]; [done |]. rewrite (ends_here_more _ x Hn) in E. congruence. }
    cbn [Z.eqb]. rewrite zlen_cons in Hl. apply IH; [lia | done | lia].
  - rewrite (ends_here_within (y :: b) x E) by lia. by rewrite (proj2 (Z.eqb_neq _ _) E).
Qed.

Lemma read_until_headers_data fuel buf cs tail :
  Forall (fun c => c <> []) cs -> (length (concat cs) < fuel)%nat ->
  find_header_end buf 0 = 0 -> 0 < find_header_end (buf ++ concat cs) 0 <= kHeaderReadCap ->
  exists got cs', read_until_headers fuel buf (map RData cs ++ tail) =
      HeadAt (find_header_end (buf ++ concat cs) 0) (buf ++ got) (map RData cs' ++ tail) /\
    got ++ concat cs' = concat cs /\ Forall (fun c => c <> []) cs' /\ find_header_end (buf ++ concat cs) 0 <= zlen (buf ++ got).
Proof.
  unfold find_header_end. change (zdrop 0 buf) with buf. change (zdrop 0 (buf ++ concat cs)) with (buf ++ concat cs).
  revert buf cs. induction fuel as [| fuel IH]; intros buf cs Hne Hf H0 He; [lia |]. cbn [read_until_headers].
  assert (Hcs : cs <> []) by (intros ->; cbn [concat] in He; rewrite app_nil_r in He; lia).
  destruct (zlen buf <? kHeaderReadCap) eqn:Ebuf; bool_facts.
  2:{ exfalso. rewrite (find_end_within 0 buf (concat cs)) in H0; [lia | lia | lia | lia]. }
  destruct (recv_data 1024 cs tail ltac:(lia) Hne Hcs) as (b & cs1 & -> & Hb & _ & Hcat & Hne1).
  destruct b as [| x b]; [done |]. set (tmp := x :: b) in *.
  set (from := if 2 <? zlen buf then zlen buf - 2 else 0).
  assert (Hfind : find_header_end (buf ++ tmp) from = find_end_from 0 (buf ++ tmp)).
  { unfold find_header_end. rewrite (find_end_resume 0 buf tmp ltac:(lia) H0). cbn zeta.
    assert (from = 0 + zlen buf - Z.min 2 (zlen buf)) as ->.
    { unfold from. pose proof (zlen_nonneg buf). destruct (2 <? zlen buf) eqn:E; bool_facts; lia. }
    by rewrite Z.add_0_l. }
  assert (Hlen : (length (concat cs1) < fuel)%nat).
  { apply (f_equal (@length Z)) in Hcat. rewrite length_app in Hcat. unfold tmp in Hcat. cbn [length] in Hcat. lia. }
  rewrite Hfind, <- Hcat, app_assoc. rewrite <- Hcat, app_assoc in He. clear Hcat Hf Hfind.
  destruct (find_end_from 0 (buf ++ tmp) =? 0) eqn:E; bool_facts.
  - destruct (IH (buf ++ tmp) cs1 Hne1 Hlen E He) as (got & cs' & -> & Hgot & Hne' & Hl).
    exists (tmp ++ got), cs'. rewrite <- Hgot, !app_assoc in *. done.
  - exists tmp, cs1. pose proof (find_end_bound 0 (buf ++ tmp) ltac:(lia)). rewrite (find_end_app 0 (buf ++ tmp) (concat cs1) ltac:(lia) E).
    split_and!; [done | done | done | lia].
Qed.

Lemma read_full_data fuel want cs tail :
  Forall (fun c => c <> []) cs -> (length (concat cs) < fuel)%nat -> want <= zlen (concat cs) ->
  read_full fuel want (map RData cs ++ tail) = Some (ztake want (concat cs)).
Proof.
  revert want cs. induction fuel as [| fuel IH]; intros want cs Hne Hf Hw; [lia |]. cbn [read_full].
  destruct (0 <? want) eqn:E; bool_facts; [| unfold ztake; by replace (Z.to_nat want) with 0%nat by lia].
  assert (Hcs : cs <> []) by (intros ->; change (zlen (concat [])) with 0 in Hw; lia).
  destruct (recv_data want cs tail E Hne Hcs) as (b & cs1 & -> & Hb & Hbw & Hcat & Hne1).
  destruct b as [| x b]; [done |]. set (t := x :: b) in *.
  rewrite <- Hcat, zlen_app in Hw. rewrite IH; [| done | | lia].
  - rewrite <- Hcat. cbn [option_map]. f_equal. unfold ztake, zlen in *. rewrite take_app.
    rewrite (take_ge t) by lia. do 2 f_equal. lia.
  - apply (f_equal (@length Z)) in Hcat. rewrite length_app in Hcat. unfold t in Hcat. cbn [length] in Hcat. lia.
Qed.

Lemma pending_length cs tail : (length (concat cs) <= length (flat_map (fun r => match r with RData b => b | RFail => [] end) (map RData cs ++ tail)))%nat.
Proof.
  rewrite flat_map_app, length_app. induction cs as [| c cs IH]; cbn; [lia |]. rewrite !length_app in *. lia.
Qed.

Lemma ztake_app_le {A} n (a b : list A) : n <= zlen a -> ztake n (a ++ b) = ztake n a.
Proof. intros H. unfold ztake, zlen in *. apply take_app_le. lia. Qed.

Lemma zdrop_app_le {A} n (a b : list A) : n <= zlen a -> zdrop n (a ++ b) = zdrop n a ++ b.
Proof. intros H. unfold zdrop, zlen in *. apply drop_app_le. lia. Qed.

(** C31: The request handed to the handler depends on the bytes and not on how
    they arrive.  Whatever non-empty pieces recv() returns them in, a head that
    ends within the 16 KiB window and parses, with a declared body of at most
    64 KiB that has arrived, gives the request of the head with exactly the
    declared bytes after it as its body; what follows them is dropped. *)
Theorem request_any_chunking client cs tail (s : bytes) e req n :
  concat cs = s -> Forall (fun c => c <> []) cs -> e = find_header_end s 0 -> 0 < e <= kHeaderReadCap ->
  parse_headers (ztake e s) = Some req -> header req (str "Transfer-Encoding") = [] ->
  declared_length (headers req) None = n -> 0 <= n <= kMaxBodyBytes -> e + n <= zlen s ->
  read_request client (map RData cs ++ tail) = inl (with_body req client (slice e n s)).
Proof.
  intros <- Hne -> He Hp Hte Hn Hnb Hs. unfold read_request.
  destruct (read_until_headers_data (input_fuel (map RData cs ++ tail)) [] cs tail Hne) as (got & cs' & Hr & Hgot & Hne' & Hl).
  { unfold input_fuel. pose proof (pending_length cs tail). lia. }
  { done. }
  { done. }
  cbn [app] in Hr, Hl. rewrite Hr. clear Hr. set (e := find_header_end (concat cs) 0) in *. rewrite <- Hgot in Hp, Hs |- *.
  rewrite ztake_app_le in Hp by done. rewrite Hp. cbn zeta.
  change (header (with_body req client (zdrop e got)) (str "Transfer-Encoding")) with (header req (str "Transfer-Encoding")).
  rewrite Hte. change (negb (zlen [] =? 0)) with false. cbv iota.
  change (headers (with_body req client (zdrop e got))) with (headers req). rewrite Hn.
  rewrite (proj2 (Z.ltb_ge n 0)), (proj2 (Z.ltb_ge kMaxBodyBytes n)) by lia. cbn [body with_body].
  pose proof (zlen_zdrop e got ltac:(lia)) as Hz. rewrite zlen_app in Hs. unfold slice. rewrite zdrop_app_le by lia.
  destruct (zlen (zdrop e got) <? n) eqn:E; bool_facts.
  - rewrite read_full_data; [| done | unfold input_fuel; pose proof (pending_length cs' tail); lia | lia].
    do 2 f_equal. unfold ztake, zlen in *. rewrite take_app, (take_ge (zdrop e got)) by lia. do 2 f_equal. lia.
  - by rewrite ztake_app_le by lia.
Qed.

Lemma request_any_chunking_witness :
  let s := str "POST /a HTTP/1.1" ++ [10] ++ str "Content-Length: 3" ++ [10; 10] ++ str "xyz+" in
  read_request (str "1.2.3.4") (map RData [ztake 20 s; zdrop 20 s] ++ [RFail]) =
  inl (with_body (mkHttpRequest (str "POST") (str "/a") [] [] [(str "Content-Length", str "3")] []) (str "1.2.3.4")
         (slice (find_header_end s 0) 3 s)).
Proof.
  set (s := str "POST /a HTTP/1.1" ++ [10] ++ str "Content-Length: 3" ++ [10; 10] ++ str "xyz+").
  apply (request_any_chunking (str "1.2.3.4") [ztake 20 s; zdrop 20 s] [RFail] s (find_header_end s 0)); try (vm_compute; reflexivity).
  - repeat constructor; vm_compute; discriminate.
  - vm_compute. split; [reflexivity | discriminate].
  - vm_compute. split; discriminate.
  - vm_compute. discriminate.
Defined.

(** ** A printed head *)

Definition eol (cr : bool) : bytes := if cr then [13; 10] else [10].

(** [raw] is the text after the colon, blanks and all. *)
Definition head_text (cr : bool) (meth target : bytes) (minor : Z) (hs : header_list) : bytes :=
  meth ++ [32] ++ target ++ [32] ++ str "HTTP/1." ++ [minor] ++ eol cr ++
  flat_map (fun kv => kv.1 ++ [58] ++ kv.2 ++ eol cr) hs ++ eol cr.

Definition key_ok (k : bytes) : Prop := k <> [] /\ Forall (fun c => c <> 32 /\ c <> 9 /\ c <> 58 /\ c <> 10) k.

Definition chop (l : bytes) : bytes := match reverse l with 13 :: r => reverse r | _ => l end.

Lemma chop_cr l : chop (l ++ [13]) = l.
Proof. unfold chop. rewrite reverse_snoc. apply reverse_involutive. Qed.

Lemma chop_none l x : x <> 13 -> chop (l ++ [x]) = l ++ [x].
Proof.
  intros H. unfold chop. rewrite reverse_snoc. destruct x as [| p | p]; try done.
  do 4 (destruct p as [p | p |]; try done).
Qed.

Lemma lines_of_line cur l b : 10 ∉ l -> lines_of cur (l ++ 10 :: b) = chop (cur ++ l) :: lines_of [] b.
Proof.
  revert cur. induction l as [| x l IH]; intros cur Hl; cbn [app lines_of].
  - change (10 =? 10) with true. by rewrite app_nil_r.
  - rewrite not_elem_of_cons in Hl. destruct Hl as [Hx Hl]. rewrite (proj2 (Z.eqb_neq x 10)) by congruence.
    rewrite IH by done. by rewrite <- app_assoc.
Qed.

Lemma cut_at_app c a b : c ∉ a -> cut_at c (a ++ c :: b) = Some (a, b).
Proof.
  intros H. unfold cut_at. rewrite find_char_app by done. cbn [option_map]. do 2 f_equal.
  - unfold ztake, zlen. by rewrite Nat2Z.id, take_app_length.
  - change (c :: b) with ([c] ++ b). rewrite app_assoc. apply zdrop_app. by rewrite zlen_app.
Qed.

Lemma skip_while_snoc p s x : p x = true -> skip_while p (reverse (s ++ [x])) = skip_while p (reverse s).
Proof. intros H. rewrite reverse_snoc. cbn. by rewrite H. Qed.

Lemma trim_cr s : trim (s ++ [13]) = trim s.
Proof.
  unfold trim. assert (H : skip_while is_space (s ++ [13]) = match skip_while is_space s with [] => [] | r => r ++ [13] end).
  { induction s as [| x s IH]; [done |]. cbn [app skip_while]. by destruct (is_space x). }
  rewrite H. destruct (skip_while is_space s) as [| x r]; [done |]. by rewrite skip_while_snoc.
Qed.

Definition cr_of (cr : bool) : bytes := if cr then [13] else [].

(** A line of the block as the parser sees it, with either line end. *)
Lemma trim_chop (cr : bool) s : trim (chop (s ++ cr_of cr)) = trim s.
Proof.
  destruct cr; cbn [cr_of]; [by rewrite chop_cr |]. rewrite app_nil_r. destruct s as [| x s _] using rev_ind; [done |].
  destruct (decide (x = 13)) as [-> | Hx]; [by rewrite chop_cr, trim_cr | by rewrite chop_none].
Qed.

Lemma chop_app a t : chop (a ++ [58] ++ t) = a ++ [58] ++ chop t.
Proof.
  destruct t as [| x t _] using rev_ind; [by rewrite app_nil_r, chop_none |]. rewrite !app_assoc.
  destruct (decide (x = 13)) as [-> | Hx]; [by rewrite !chop_cr | by rewrite !chop_none, !app_assoc].
Qed.

Lemma eol_split cr b : eol cr ++ b = cr_of cr ++ 10 :: b.
Proof. by destruct cr. Qed.

Lemma not_in_cr c cr (l : bytes) : c <> 13 -> c ∉ l -> c ∉ l ++ cr_of cr.
Proof. intros Hc Hl. rewrite elem_of_app. destruct cr; cbn; rewrite ?list_elem_of_singleton, ?elem_of_nil; tauto. Qed.

Lemma key_not_in k c : key_ok k -> c = 58 \/ c = 10 \/ c = 32 \/ c = 9 -> c ∉ k.
Proof. intros [_ Hk] Hc Hin. rewrite Forall_forall in Hk. specialize (Hk c Hin). lia. Qed.

Lemma header_lines cr hs rest :
  Forall (fun kv => key_ok kv.1 /\ (10 ∉ kv.2)) hs ->
  lines_of [] (flat_map (fun kv => kv.1 ++ [58] ++ kv.2 ++ eol cr) hs ++ rest) =
  map (fun kv => kv.1 ++ [58] ++ chop (kv.2 ++ cr_of cr)) hs ++ lines_of [] rest.
Proof.
  induction 1 as [| [k v] hs [Hk Hv] _ IH]; [done |]. cbn [flat_map map fst snd]. rewrite <- !app_assoc, eol_split.
  cbn [fst snd] in *. etransitivity; [| exact (f_equal (cons (k ++ [58] ++ chop (v ++ cr_of cr))) IH)]. clear IH.
  replace (k ++ [58] ++ v ++ cr_of cr ++ 10 :: flat_map _ hs ++ rest) with
    ((k ++ [58] ++ v ++ cr_of cr) ++ 10 :: flat_map (fun kv => kv.1 ++ [58] ++ kv.2 ++ eol cr) hs ++ rest) by (by rewrite <- !app_assoc).
  rewrite lines_of_line, app_nil_l, chop_app; [done |].
  rewrite !elem_of_app, list_elem_of_singleton. intros [H | [H | [H | H]]]; [| done | done |].
  - revert H. apply key_not_in; [done | tauto].
  - destruct cr; cbn in H; [by apply list_elem_of_singleton in H | by apply elem_of_nil in H].
Qed.

Lemma parse_printed_header k v : key_ok k -> parse_header_line (k ++ [58] ++ v) = Some (k, trim v).
Proof.
  intros Hk. pose proof (cut_at_app 58 k v (key_not_in k 58 Hk ltac:(tauto))) as Hcut. unfold parse_header_line.
  destruct Hk as [Hn Hk]. destruct k as [| c k]; [done |]. change ([58] ++ v) with (58 :: v). rewrite Hcut.
  apply Forall_cons_1 in Hk as Hc. destruct Hc as [Hc _].
  assert (Hz : (zlen ((c :: k) ++ 58 :: v) =? 0) = false) by (rewrite zlen_app, zlen_cons; apply Z.eqb_neq; pose proof (zlen_nonneg k); pose proof (zlen_nonneg (58 :: v)); lia).
  rewrite Hz. change (znth 0 ((c :: k) ++ 58 :: v) 0) with c.
  assert (Hb : forall x, x <> 32 -> x <> 9 -> is_blank x = false) by (intros x H1 H2; unfold is_blank; apply orb_false_iff; split; by apply Z.eqb_neq).
  rewrite Hb by tauto. rewrite zlen_cons, (proj2 (Z.eqb_neq _ 0)) by (pose proof (zlen_nonneg k); lia).
  replace (existsb is_blank (c :: k)) with false; [done |]. symmetry. clear -Hk Hb.
  induction Hk as [| x l Hx _ IH]; [done |]. cbn [existsb]. rewrite Hb, IH by tauto. done.
Qed.

Lemma parse_printed_headers cr hs :
  Forall (fun kv => key_ok kv.1 /\ (10 ∉ kv.2)) hs ->
  parse_header_lines (map (fun kv => kv.1 ++ [58] ++ chop (kv.2 ++ cr_of cr)) hs) = Some (map (fun kv => (kv.1, trim kv.2)) hs).
Proof.
  induction 1 as [| [k v] hs [Hk Hv] _ IH]; [done |]. cbn [map parse_header_lines fst snd] in *.
  by rewrite parse_printed_header, IH, trim_chop.
Qed.

(** C32: A request head that is printed is parsed back: for a method of capital
    letters, a target that starts with '/' and has no blank, and any header
    lines with a plain name, whichever of CRLF and LF ends the lines,
    parse_headers() gives the method, the target split at its first '?' and
    the headers in order, each value without the blanks around it. *)
Theorem head_roundtrip cr meth target minor (hs : header_list) :
  meth <> [] -> forallb in_A_Z meth = true -> znth 0 target 0 = 47 -> (32 ∉ target) -> (10 ∉ target) ->
  is_digit minor = true -> Forall (fun kv => key_ok kv.1 /\ (10 ∉ kv.2)) hs ->
  parse_headers (head_text cr meth target minor hs) =
  Some (mkHttpRequest meth (split_target target).1 (split_target target).2 [] (map (fun kv => (kv.1, trim kv.2)) hs) []).
Proof.
  intros Hm HmA Ht Ht32 Ht10 Hmin Hhs.
  assert (Hmeth : forall c, c < 65 -> c ∉ meth).
  { intros c Hc Hin. rewrite forallb_forall in HmA. specialize (HmA c (proj1 (list_elem_of_In _ _) Hin)). unfold in_A_Z in HmA. bool_facts. lia. }
  assert (Hmin' : 48 <= minor <= 57) by (unfold is_digit in Hmin; bool_facts; lia).
  set (rl := meth ++ [32] ++ target ++ [32] ++ str "HTTP/1." ++ [minor]).
  assert (Hrl : 10 ∉ rl).
  { unfold rl. rewrite !elem_of_app, !list_elem_of_singleton. intros [H | [H | [H | [H | [H | H]]]]]; try done; [by apply (Hmeth 10) | | lia].
    revert H. apply (bool_decide_unpack (10 ∉ str "HTTP/1.")). vm_compute. exact I. }
  assert (Hlines : lines_of [] (head_text cr meth target minor hs) = rl :: map (fun kv => kv.1 ++ [58] ++ chop (kv.2 ++ cr_of cr)) hs ++ [[]]).
  { unfold head_text. rewrite !(app_assoc _ _ (eol cr ++ _)). fold rl. rewrite eol_split.
    replace (rl ++ cr_of cr ++ 10 :: _) with ((rl ++ cr_of cr) ++ 10 :: flat_map (fun kv => kv.1 ++ [58] ++ kv.2 ++ eol cr) hs ++ eol cr) by (by rewrite <- app_assoc).
    rewrite lines_of_line, header_lines by done || (apply not_in_cr; [done |]; exact Hrl). rewrite app_nil_l. f_equal; [| by destruct cr].
    unfold rl. rewrite !app_assoc. destruct cr; cbn [cr_of]; [apply chop_cr | rewrite app_nil_r; apply chop_none; lia]. }
  unfold parse_headers. rewrite Hlines.
  assert (Hlast : last (rl :: map (fun kv => kv.1 ++ [58] ++ chop (kv.2 ++ cr_of cr)) hs ++ [[]]) = Some []) by (rewrite app_comm_cons; apply last_snoc).
  rewrite Hlast. change (zlen [] =? 0) with true. cbn [negb]. rewrite orb_false_r, (proj2 (Z.ltb_ge _ 2)).
  2:{ rewrite zlen_cons, zlen_app. change (zlen [[]]) with 1. pose proof (zlen_nonneg (map (fun kv => kv.1 ++ [58] ++ chop (kv.2 ++ cr_of cr)) hs)). lia. }
  rewrite app_comm_cons, removelast_last, parse_printed_headers by done. unfold parse_request_line, rl.
  assert (Hc1 : cut_at 32 (meth ++ [32] ++ target ++ [32] ++ str "HTTP/1." ++ [minor]) = Some (meth, target ++ [32] ++ str "HTTP/1." ++ [minor]))
    by (apply (cut_at_app 32 meth), Hmeth; lia).
  assert (Hc2 : cut_at 32 (target ++ [32] ++ str "HTTP/1." ++ [minor]) = Some (target, str "HTTP/1." ++ [minor]))
    by (by apply (cut_at_app 32 target)).
  rewrite Hc1, Hc2.
  assert (Hnz : forall l : bytes, l <> [] -> (zlen l =? 0) = false).
  { intros [| x l] H; [done |]. rewrite zlen_cons. pose proof (zlen_nonneg l). apply Z.eqb_neq. lia. }
  rewrite Hnz by done. rewrite Hnz by (by intros ->). change (ztake 7 (str "HTTP/1." ++ [minor])) with (str "HTTP/1.").
  rewrite bool_decide_true by done. change (zlen (str "HTTP/1." ++ [minor]) =? 8) with true. rewrite HmA, Ht. cbn.
  by destruct (split_target target).
Qed.

Lemma head_roundtrip_witness :
  parse_headers (head_text true (str "GET") (str "/api/range?x=1") 49 [(str "Host", str "  a.b" ++ [9])]) =
  Some (mkHttpRequest (str "GET") (split_target (str "/api/range?x=1")).1 (split_target (str "/api/range?x=1")).2 []
          (map (fun kv => (kv.1, trim kv.2)) [(str "Host", str "  a.b" ++ [9])]) []).
Proof.
  apply (head_roundtrip true (str "GET") (str "/api/range?x=1") 49 [(str "Host", str "  a.b" ++ [9])]);
    try (vm_compute; reflexivity); try (apply (bool_decide_unpack _); vm_compute; exact I); try discriminate.
Defined.

(** ** Content-Length *)

Definition content_lengths (hs : header_list) : list bytes :=
  map snd (List.filter (fun kv => ascii_ieq kv.1 (str "Content-Length")) hs).
Definition length_ok (v : bytes) : bool := (0 <? zlen v) && (zlen v <=? 18) && forallb is_digit v.

Lemma length_digits_spec n v :
  0 <= n -> length_digits n v = if forallb is_digit v then decimal_from n v else -1.
Proof.
  revert n. induction v as [| c v IH]; intros n Hn; [done |]. cbn [length_digits forallb]. unfold is_digit at 1.
  destruct ((c <? 48) || (57 <? c)) eqn:E.
  - replace ((48 <=? c) && (c <=? 57)) with false; [done |]. symmetry. apply andb_false_iff. apply orb_true_iff in E. lia.
  - bool_facts. rewrite (proj2 (Z.leb_le 48 c)), (proj2 (Z.leb_le c 57)) by lia. cbn [andb]. rewrite IH by lia. done.
Qed.

Lemma length_value v :
  (if (zlen v =? 0) || (18 <? zlen v) then -1 else length_digits 0 v) = if length_ok v then decimal v else -1.
Proof.
  unfold length_ok. rewrite length_digits_spec by lia. pose proof (zlen_nonneg v).
  destruct ((zlen v =? 0) || (18 <? zlen v)) eqn:E.
  - replace ((0 <? zlen v) && (zlen v <=? 18)) with false; [done |]. symmetry. apply andb_false_iff. apply orb_true_iff in E. lia.
  - bool_facts. by rewrite (proj2 (Z.ltb_lt 0 (zlen v))), (proj2 (Z.leb_le (zlen v) 18)) by lia.
Qed.

Lemma decimal_ok v : length_ok v = true -> 0 <= decimal v.
Proof. unfold length_ok. intros H. bool_facts. by apply decimal_nonneg. Qed.

(** One Content-Length header, in the form of the specification. *)
Lemma declared_length_step kv hs seen :
  declared_length (kv :: hs) seen =
  if ascii_ieq kv.1 (str "Content-Length") then
    if length_ok kv.2 && match seen with Some m => decimal kv.2 =? m | None => true end
    then declared_length hs (Some (decimal kv.2)) else -1
  else declared_length hs seen.
Proof.
  cbn [declared_length]. destruct (ascii_ieq _ _); [| done]. pose proof (length_value kv.2) as H.
  destruct ((zlen kv.2 =? 0) || (18 <? zlen kv.2)); destruct (length_ok kv.2) eqn:E; cbn [andb].
  - pose proof (decimal_ok _ E). lia.
  - done.
  - pose proof (decimal_ok _ E). rewrite H, (proj2 (Z.eqb_neq _ (-1))) by lia. destruct seen; [| done]. by destruct (_ =? z).
  - by rewrite H.
Qed.

Lemma declared_length_seen hs m :
  declared_length hs (Some m) =
  if forallb (fun v => length_ok v && (decimal v =? m)) (content_lengths hs) then m else -1.
Proof.
  unfold content_lengths. induction hs as [| kv hs IH]; [done |]. rewrite declared_length_step. cbn [List.filter].
  destruct (ascii_ieq _ _); [| done]. cbn [map forallb]. destruct (length_ok kv.2); [| done].
  destruct (decimal kv.2 =? m) eqn:E; bool_facts; [| done]. by rewrite E, IH.
Qed.

(** The body length of a request is never ambiguous.  declared_length() is 0
    without a Content-Length header; otherwise it is the value all of them
    give, and -1 as soon as one is empty, longer than 18 characters, not all
    digits, or differs from another. *)
Theorem content_length_unambiguous hs :
  declared_length hs None =
  match content_lengths hs with
  | [] => 0
  | v :: vs => if length_ok v && forallb (fun w => length_ok w && (decimal w =? decimal v)) vs then decimal v else -1
  end.
Proof.
  unfold content_lengths. induction hs as [| kv hs IH]; [done |]. rewrite declared_length_step. cbn [List.filter].
  destruct (ascii_ieq _ _); [| done]. cbn [map]. rewrite andb_true_r. destruct (length_ok kv.2); [| done].
  rewrite declared_length_seen. done.
Qed.

(** ** The response on the wire *)

Lemma send_all_wire data outs :
  let '(ok, wire, _) := send_all data outs in
  exists rest, data = wire ++ rest /\ (ok = true -> rest = []).
Proof.
  revert data. induction outs as [| o outs IH]; intros data; cbn [send_all]; destruct (zlen data =? 0) eqn:E; bool_facts;
    try (exists []; assert (data = []) as -> by (destruct data as [| x l]; [done | rewrite zlen_cons in E; pose proof (zlen_nonneg l); lia]); done);
    try (by exists data).
  destruct o as [n |]; [| by exists data]. set (m := Z.min n (zlen data)). destruct (m <=? 0) eqn:Em; [by exists data |]. bool_facts.
  specialize (IH (zdrop m data)). destruct (send_all (zdrop m data) outs) as [[ok wire] outs']. destruct IH as (rest & Hd & Hok).
  exists rest. split; [| done]. rewrite <- app_assoc, <- Hd. symmetry. apply ztake_zdrop.
Qed.

(** A response reaches the peer whole, or as a prefix when the sending failed. *)
Lemma send_response_wire r outs :
  let '(ok, wire) := send_response r outs in
  exists rest, response_head r ++ rbody r = wire ++ rest /\ (ok = true -> rest = []).
Proof.
  unfold send_response. pose proof (send_all_wire (response_head r) outs) as H. destruct (send_all _ outs) as [[ok wire] outs1].
  destruct H as (rest & Hh & Hok). rewrite Hh. destruct ok; cbn [negb orb].
  - rewrite (Hok eq_refl), app_nil_r. destruct (zlen (rbody r) =? 0) eqn:E; bool_facts.
    + exists []. split; [| done]. destruct (rbody r) as [| x l]; [by rewrite app_nil_r | rewrite zlen_cons in E; pose proof (zlen_nonneg l); lia].
    + pose proof (send_all_wire (rbody r) outs1) as H2. destruct (send_all _ outs1) as [[ok2 wire2] outs2].
      destruct H2 as (rest2 & -> & Hok2). exists rest2. split; [by rewrite app_assoc | done].
  - exists (rest ++ rbody r). split; [by rewrite app_assoc | done].
Qed.

(** The router's 415 goes out as "415 OK": the table has no phrase for it. *)
Lemma phrase_of_415 ct text : ztake 15 (response_head (response 415 ct text)) = str "HTTP/1.1 415 OK".
Proof. reflexivity. Qed.
