(* ===== verification/WsHub.v ===== *)
(** The WebSocket hub (src/web/ws_hub.h, src/web/ws_hub.cpp).  A client's
    socket is the script of what its send() and recv() calls will do and the
    bytes that went out on it; the hub is its clients in order and, for the
    theorems, the clients it has closed.  The mutex makes each operation atomic
    but for drop_sessions() and flush_owed(), which release it: what other
    threads do to the hub meanwhile is an argument of theirs.  Theorems: what a
    client receives is the frames sent to it, whole and in order; how its own
    bytes arrive does not matter; a client is closed once. *)
From Stdlib Require Import ZArith Lia List Bool.
From stdpp Require Import base numbers list strings.
From S2P Require Import Prelude TextNum HttpUtil Sha1Base64 HttpServer.
Open Scope Z_scope.

(** ** Frames and the handshake *)

Definition kWsMagic : bytes := str "258EAFA5-E914-47DA-95CA-C5AB0DC85B11".

Definition ws_control_frame (opcode : Z) (payload : bytes) : bytes :=
  let len := if zlen payload <? 125 then zlen payload else 125 in
  [Z.lor 0x80 (Z.land opcode 0x0F); len] ++ ztake len payload.

Definition kOpClose : Z := 0x8.
Definition kOpPing : Z := 0x9.
Definition kMaxInbuf : Z := 1024.
Definition kMaxClients : Z := 64.
Definition kMaxBacklog : Z := 1024 * 1024.
Definition kServiceReadBudget : Z := 4096.

(** [hash_state]: the uninitialised digest on sha1()'s stack. *)
Definition ws_accept_key (hash_state : Sha1) (key : bytes) : bytes := base64_encode (sha1 hash_state (key ++ kWsMagic)).

Definition ws_text_frame (payload : bytes) : bytes :=
  let n := zlen payload in
  [0x81] ++
  (if n <? 126 then [n]
   else if n <=? 0xFFFF then [126; Z.land (Z.shiftr n 8) 0xFF; Z.land n 0xFF]
   else 127 :: map (fun i => Z.land (Z.shiftr n (i * 8)) 0xFF) [7; 6; 5; 4; 3; 2; 1; 0]) ++
  payload.

Definition ws_handshake_response (hash_state : Sha1) (sec_websocket_key : bytes) : bytes :=
  str "HTTP/1.1 101 Switching Protocols" ++ crlf ++ str "Upgrade: websocket" ++ crlf ++ str "Connection: Upgrade" ++ crlf ++
  str "Sec-WebSocket-Accept: " ++ ws_accept_key hash_state sec_websocket_key ++ crlf ++ crlf.

Definition is_websocket_upgrade (req : HttpRequest) : bool :=
  if negb (bool_decide (method req = str "GET")) then false
  else if negb (ascii_ieq (header req (str "Upgrade")) (str "websocket")) then false
  else if negb (ascii_icontains (header req (str "Connection")) (str "upgrade")) then false
  else if negb (bool_decide (header req (str "Sec-WebSocket-Version") = str "13")) then false
  else negb (zlen (header req (str "Sec-WebSocket-Key")) =? 0).

(** ** Sockets *)

(** A send(): at most so many bytes taken, no room, or an error. *)
Inductive ws_send := Took (n : Z) | NoRoom | SendError.
(** A recv(): bytes (none: the peer closed), nothing now, or an error. *)
Inductive ws_recv := Got (b : bytes) | RecvAgain | RecvError.

Record Socket := mkSocket { outs : list ws_send; ins : list ws_recv; wire : bytes }.

Definition send_some (data : bytes) (s : Socket) : Z * Socket :=
  match outs s with
  | [] => (0, s)
  | Took n :: r =>
      let n := Z.max 0 (Z.min n (zlen data)) in
      (n, mkSocket r (ins s) (wire s ++ ztake n data))
  | NoRoom :: r => (0, mkSocket r (ins s) (wire s))
  | SendError :: r => (-1, mkSocket r (ins s) (wire s))
  end.

Definition recv_some (want : Z) (s : Socket) : ws_recv * Socket :=
  match ins s with
  | [] => (RecvAgain, s)
  | Got b :: r =>
      if zlen b <=? want then (Got b, mkSocket (outs s) r (wire s))
      else (Got (ztake want b), mkSocket (outs s) (Got (zdrop want b) :: r) (wire s))
  | x :: r => (x, mkSocket (outs s) r (wire s))
  end.

(** ** Clients *)

Record Client := mkClient { fd : Z; inbuf : bytes; skip : Z; session : bytes; outbuf : bytes; sock : Socket }.

Definition set_out (out : bytes) (s : Socket) (c : Client) : Client :=
  mkClient (fd c) (inbuf c) (skip c) (session c) out s.
Definition set_in (b : bytes) (sk : Z) (c : Client) : Client :=
  mkClient (fd c) b sk (session c) (outbuf c) (sock c).

(** One round per byte owed is enough. *)
Fixpoint flush_loop (fuel : nat) (out : bytes) (s : Socket) : bool * bytes * Socket :=
  match fuel with
  | O => (true, out, s)
  | S fuel =>
      if zlen out =? 0 then (true, out, s)
      else
        let '(n, s) := send_some out s in
        if n <? 0 then (false, out, s)
        else if n =? 0 then (true, out, s)
        else flush_loop fuel (zdrop n out) s
  end.

Definition flush_out (c : Client) : bool * Client :=
  let '(ok, out, s) := flush_loop (S (length (outbuf c))) (outbuf c) (sock c) in (ok, set_out out s c).

Definition queue_out (frame : bytes) (c : Client) : bool * Client :=
  let '(ok, c) := flush_out c in
  if negb ok then (false, c)
  else
    let '(sent, s) := if zlen (outbuf c) =? 0 then send_some frame (sock c) else (0, sock c) in
    if sent <? 0 then (false, set_out (outbuf c) s c)
    else
      let out := if sent <? zlen frame then outbuf c ++ zdrop sent frame else outbuf c in
      (zlen out <=? kMaxBacklog, set_out out s c).

(** ** Parsing a client's bytes *)

(** What the top of consume_frames()'s loop finds in [b]. *)
Inductive parsed :=
| NeedMore (skip : Z) (b : bytes)
| NotAFrame
| Control (opcode : Z) (payload : bytes) (b : bytes)
| Data (len : Z) (b : bytes).

(** The payload unmasked with the four bytes at [mask_at]. *)
Definition unmask (mask payload : bytes) : bytes :=
  map (fun i => Z.lxor (znth 0 payload i) (znth 0 mask (i mod 4))) (seqZ 0 (zlen payload)).

Definition be_value (b : bytes) : Z := fold_left (fun v x => Z.lor (u64 (Z.shiftl v 8)) x) b 0.

(** A data frame's payload still to discard. *)
Definition discard (skip : Z) (b : bytes) : Z * bytes :=
  if 0 <? skip then
    let take := if zlen b <? skip then zlen b else skip in (skip - take, zdrop take b)
  else (skip, b).

Definition opcode_of (b : bytes) : Z := Z.land (znth 0 b 0) 0x0F.
(** RSV bits set, or not masked. *)
Definition bad_bits (b : bytes) : bool :=
  negb (Z.land (znth 0 b 0) 0x70 =? 0) || negb (negb (Z.land (znth 0 b 1) 0x80 =? 0)).
Definition bad_opcode (opcode : Z) : bool := (2 <? opcode) && ((opcode <? 8) || (10 <? opcode)).

(** The header's size up to the mask, and the payload's. *)
Definition hdr_size (b : bytes) : Z :=
  let len := Z.land (znth 0 b 1) 0x7F in 2 + (if len =? 126 then 2 else if len =? 127 then 8 else 0).
Definition payload_len (b : bytes) : Z :=
  let len := Z.land (znth 0 b 1) 0x7F in
  if (len =? 126) || (len =? 127) then be_value (slice 2 (hdr_size b - 2) b) else len.

(** A frame header at the start of [b], and a control frame's payload. *)
Definition parse_head (b : bytes) : parsed :=
  if zlen b <? 2 then NeedMore 0 b
  else if bad_bits b then NotAFrame
  else if bad_opcode (opcode_of b) then NotAFrame
  else if zlen b <? hdr_size b then NeedMore 0 b
  else
    let hdr := hdr_size b + 4 in
    let len := payload_len b in
    if zlen b <? hdr then NeedMore 0 b
    else if 8 <=? opcode_of b then
      if (125 <? len) || (Z.land (znth 0 b 0) 0x80 =? 0) then NotAFrame
      else if zlen b <? hdr + len then NeedMore 0 b
      else Control (opcode_of b) (unmask (slice (hdr_size b) 4 b) (slice hdr len b)) (zdrop (hdr + len) b)
    else Data len (zdrop hdr b).

Definition parse_frame (skip : Z) (b : bytes) : parsed :=
  let '(skip, b) := discard skip b in
  if 0 <? skip then NeedMore skip b else parse_head b.

(** One frame takes at least six bytes: one round per byte is enough. *)
Fixpoint consume_loop (fuel : nat) (c : Client) : bool * Client :=
  match fuel with
  | O => (true, c)
  | S fuel =>
      match parse_frame (skip c) (inbuf c) with
      | NeedMore sk b => (true, set_in b sk c)
      | NotAFrame => (false, c)
      | Control opcode payload b =>
          let c := set_in b 0 c in
          if opcode =? kOpClose then
            if zlen (outbuf c) =? 0 then
              let reply := ws_control_frame kOpClose (if 2 <=? zlen payload then ztake 2 payload else []) in
              (false, set_out (outbuf c) (send_some reply (sock c)).2 c)
            else (false, c)
          else if opcode =? kOpPing then
            let '(ok, c) := queue_out (ws_control_frame 0xA payload) c in
            if ok then consume_loop fuel c else (false, c)
          else consume_loop fuel c
      | Data len b => consume_loop fuel (set_in b len c)
      end
  end.

Definition consume_frames (c : Client) : bool * Client := consume_loop (S (length (inbuf c))) c.

(** ** The hub *)

Record Hub := mkHub { clients_ : list Client; closed : list Client }.
Definition new_Hub : Hub := mkHub [] [].

(** Every client in turn: kept, or closed and erased. *)
Fixpoint each_client (f : Client -> bool * Client) (cs : list Client) : list Client * list Client :=
  match cs with
  | [] => ([], [])
  | c :: cs =>
      let '(keep, c) := f c in
      let '(kept, gone) := each_client f cs in
      if keep then (c :: kept, gone) else (kept, c :: gone)
  end.

Definition sweep_clients (f : Client -> bool * Client) (h : Hub) : Hub :=
  let '(kept, gone) := each_client f (clients_ h) in mkHub kept (closed h ++ gone).

Definition add (fd : Z) (session : bytes) (s : Socket) (h : Hub) : Hub :=
  mkHub (clients_ h ++ [mkClient fd [] 0 session [] s]) (closed h).

Definition add_with_frame (fd : Z) (session : bytes) (first_frame : bytes) (s : Socket) (h : Hub) : Hub :=
  let '(ok, c) := flush_out (mkClient fd [] 0 session first_frame s) in
  if ok then mkHub (clients_ h ++ [c]) (closed h) else mkHub (clients_ h) (closed h ++ [c]).

Definition broadcast (payload : bytes) (h : Hub) : Hub := sweep_clients (queue_out (ws_text_frame payload)) h.

(** The reads of one client in one service() call. *)
Fixpoint service_reads (fuel : nat) (budget : Z) (c : Client) : bool * Client :=
  match fuel with
  | O => (true, c)
  | S fuel =>
      if 0 <? budget then
        let want := if budget <? 512 then budget else 512 in
        let '(r, s) := recv_some want (sock c) in
        let c := mkClient (fd c) (inbuf c) (skip c) (session c) (outbuf c) s in
        match r with
        | Got [] => (false, c)
        | Got b =>
            let '(ok, c) := consume_frames (set_in (inbuf c ++ b) (skip c) c) in
            if negb ok || (kMaxInbuf <? zlen (inbuf c)) then (false, c)
            else service_reads fuel (budget - zlen b) c
        | RecvAgain => (true, c)
        | RecvError => (false, c)
        end
      else (true, c)
  end.

Definition service_client (c : Client) : bool * Client :=
  let '(keep, c) := flush_out c in
  if keep then service_reads (Z.to_nat kServiceReadBudget) kServiceReadBudget c else (false, c).

Definition service (h : Hub) : Z * Hub :=
  let h' := sweep_clients service_client h in (zlen (clients_ h) - zlen (clients_ h'), h').

Definition close_frame_1008 : bytes := ws_control_frame kOpClose [3; 0xF0].

Definition drop_client (gone : list (Z * bytes)) (c : Client) : bool * Client :=
  if bool_decide ((fd c, session c) ∈ gone) then
    (false, if zlen (outbuf c) =? 0 then set_out (outbuf c) (send_some close_frame_1008 (sock c)).2 c else c)
  else (true, c).

(** [meanwhile]: what other threads did while [valid] ran without the lock. *)
Definition drop_sessions (valid : bytes -> bool) (meanwhile : Hub -> Hub) (h : Hub) : Z * Hub :=
  let tokens := map (fun c => (fd c, session c)) (List.filter (fun c => negb (bool_decide (session c = []))) (clients_ h)) in
  let gone := List.filter (fun t => negb (valid t.2)) tokens in
  let h := meanwhile h in
  match gone with
  | [] => (0, h)
  | _ => let h' := sweep_clients (drop_client gone) h in (zlen (clients_ h) - zlen (clients_ h'), h')
  end.

(** A round of flush_owed()'s wait: the time is up, poll() failed or was
    interrupted, or there is room, other threads having run meanwhile. *)
Inductive wait_res := TimeUp | PollFailed | Interrupted | Room (meanwhile : Hub -> Hub).

Fixpoint find_fd (f : Z) (cs : list Client) : option Client :=
  match cs with
  | [] => None
  | c :: cs => if fd c =? f then Some c else find_fd f cs
  end.

(** The first client with the descriptor: kept or closed. *)
Fixpoint on_fd (f : Z) (g : Client -> bool * Client) (cs : list Client) : list Client * list Client :=
  match cs with
  | [] => ([], [])
  | c :: cs =>
      if fd c =? f then let '(keep, c) := g c in if keep then (c :: cs, []) else (cs, [c])
      else let '(kept, gone) := on_fd f g cs in (c :: kept, gone)
  end.

Fixpoint flush_waits (f owed : Z) (waits : list wait_res) (h : Hub) : Z * Hub :=
  match waits with
  | [] | TimeUp :: _ | PollFailed :: _ => (owed, h)
  | Interrupted :: ws => flush_waits f owed ws h
  | Room meanwhile :: ws =>
      let h := meanwhile h in
      match find_fd f (clients_ h) with
      | None => (0, h)
      | Some _ =>
          let '(kept, gone) := on_fd f flush_out (clients_ h) in
          let h := mkHub kept (closed h ++ gone) in
          match gone with
          | _ :: _ => (0, h)
          | [] =>
              let owed := match find_fd f kept with Some c => zlen (outbuf c) | None => 0 end in
              if owed =? 0 then (0, h) else flush_waits f owed ws h
          end
      end
  end.

Definition flush_owed (f : Z) (waits : list wait_res) (h : Hub) : Z * Hub :=
  match find_fd f (clients_ h) with
  | None => (0, h)
  | Some c => if zlen (outbuf c) =? 0 then (0, h) else flush_waits f (zlen (outbuf c)) waits h
  end.

Definition close_all (h : Hub) : Hub := mkHub [] (closed h ++ clients_ h).
Definition hub_size (h : Hub) : Z := zlen (clients_ h).

Example accept_ex :
  ws_accept_key (mkSha1 initial_words 7 (replicate 64 170) 3) (str "dGhlIHNhbXBsZSBub25jZQ==") = str "s3pPLMBiTxaQ9kYGzzhZRbK+xOo=".
Proof. vm_compute. reflexivity. Qed.

(** ** How a client's bytes arrive does not matter *)

Lemma zlen_slice_le {A} off n (l : list A) : 0 <= off -> 0 <= n -> off + n <= zlen l -> zlen (slice off n l) = n.
Proof. intros. by apply zlen_slice. Qed.

Lemma slice_app_before {A} off n (a b : list A) : 0 <= off -> 0 <= n -> off + n <= zlen a -> slice off n (a ++ b) = slice off n a.
Proof.
  intros. unfold slice. rewrite zdrop_app_le by lia. apply ztake_app_le. rewrite zlen_zdrop by lia. lia.
Qed.

Lemma znth_app {A} (d : A) i a b : 0 <= i < zlen a -> znth d (a ++ b) i = znth d a i.
Proof. intros. unfold znth, zlen in *. apply app_nth1. lia. Qed.

(** More bytes after a whole header or frame change nothing but what follows. *)
Definition more (r : parsed) (b x : bytes) : parsed :=
  match r with
  | NeedMore _ _ => parse_head (b ++ x)
  | NotAFrame => NotAFrame
  | Control op p r => Control op p (r ++ x)
  | Data len r => Data len (r ++ x)
  end.

Lemma be_value_nonneg b : is_bytes b -> 0 <= be_value b.
Proof.
  unfold be_value. assert (H : 0 <= 0) by lia. revert H. generalize 0 at 2 4. intros v Hv Hb. revert v Hv.
  induction Hb as [| x b Hx _ IH]; intros v Hv; [done |]. cbn [fold_left]. apply IH, Z.lor_nonneg. split; [| apply Hx].
  apply (wrap_range 64). lia.
Qed.

Lemma hdr_size_range b : 2 <= hdr_size b <= 10.
Proof. unfold hdr_size. cbn zeta. destruct (_ =? 126); [lia |]. destruct (_ =? 127); lia. Qed.

Lemma payload_len_nonneg b : is_bytes b -> 0 <= payload_len b.
Proof.
  intros Hb. unfold payload_len. cbn zeta. destruct (_ || _); [by apply be_value_nonneg, is_bytes_slice | apply Z.land_nonneg; lia].
Qed.

(** The header's fields are in its bytes. *)
Lemma head_fields_app b x :
  2 <= zlen b ->
  bad_bits (b ++ x) = bad_bits b /\ opcode_of (b ++ x) = opcode_of b /\ hdr_size (b ++ x) = hdr_size b /\
  znth 0 (b ++ x) 0 = znth 0 b 0 /\ (hdr_size b <= zlen b -> payload_len (b ++ x) = payload_len b).
Proof.
  intros H. assert (H0 : znth 0 (b ++ x) 0 = znth 0 b 0) by (apply znth_app; lia).
  assert (H1 : znth 0 (b ++ x) 1 = znth 0 b 1) by (apply znth_app; lia).
  assert (Hh : hdr_size (b ++ x) = hdr_size b) by (unfold hdr_size; by rewrite H1).
  unfold bad_bits, opcode_of. rewrite H0, H1. split_and!; try done. intros Hl. unfold payload_len.
  pose proof (hdr_size_range b). by rewrite H1, Hh, slice_app_before by lia.
Qed.

Lemma parse_head_more b x : is_bytes b -> parse_head (b ++ x) = more (parse_head b) b x.
Proof.
  intros Hb. unfold parse_head at 2. pose proof (zlen_nonneg x). destruct (zlen b <? 2) eqn:E2; [done |]. bool_facts.
  destruct (head_fields_app b x E2) as (Hbits & Hop & Hh & H0 & Hlen). pose proof (hdr_size_range b).
  pose proof (payload_len_nonneg b Hb). assert (Hl : zlen (b ++ x) = zlen b + zlen x) by apply zlen_app.
  assert (Hgo : parse_head (b ++ x) =
    if bad_bits b then NotAFrame else if bad_opcode (opcode_of b) then NotAFrame
    else if zlen b + zlen x <? hdr_size b then NeedMore 0 (b ++ x)
    else if zlen b + zlen x <? hdr_size b + 4 then NeedMore 0 (b ++ x)
    else if 8 <=? opcode_of b then
      if (125 <? payload_len (b ++ x)) || (Z.land (znth 0 b 0) 0x80 =? 0) then NotAFrame
      else if zlen b + zlen x <? hdr_size b + 4 + payload_len (b ++ x) then NeedMore 0 (b ++ x)
      else Control (opcode_of b) (unmask (slice (hdr_size b) 4 (b ++ x)) (slice (hdr_size b + 4) (payload_len (b ++ x)) (b ++ x)))
             (zdrop (hdr_size b + 4 + payload_len (b ++ x)) (b ++ x))
    else Data (payload_len (b ++ x)) (zdrop (hdr_size b + 4) (b ++ x))).
  { unfold parse_head. rewrite Hbits, Hop, Hh, H0, Hl, (proj2 (Z.ltb_ge _ 2)) by lia. done. }
  destruct (bad_bits b); [done |]. destruct (bad_opcode (opcode_of b)); [done |].
  destruct (zlen b <? hdr_size b) eqn:Ec; [done |]. bool_facts. cbn zeta.
  destruct (zlen b <? hdr_size b + 4) eqn:Ed; [done |]. bool_facts.
  rewrite (proj2 (Z.ltb_ge _ (hdr_size b))), (proj2 (Z.ltb_ge _ (hdr_size b + 4))), Hlen in Hgo by lia.
  destruct (8 <=? opcode_of b).
  - destruct (_ || _); [done |]. destruct (zlen b <? hdr_size b + 4 + payload_len b) eqn:Ef; bool_facts; [done |].
    rewrite Hgo, (proj2 (Z.ltb_ge _ (hdr_size b + 4 + payload_len b))), !slice_app_before, zdrop_app_le by lia. done.
  - rewrite Hgo, zdrop_app_le by lia. done.
Qed.

Lemma discard_more sk b x :
  0 <= sk -> discard sk (b ++ x) = let '(sk', b') := discard sk b in discard sk' (b' ++ x).
Proof.
  intros Hs. pose proof (zlen_nonneg b). pose proof (zlen_nonneg x). unfold discard. rewrite zlen_app.
  destruct (0 <? sk) eqn:E0; bool_facts; [| by replace (0 <? sk) with false by (symmetry; apply Z.ltb_ge; lia)].
  destruct (zlen b <? sk) eqn:E1; bool_facts.
  - rewrite (proj2 (Z.ltb_lt 0 (sk - zlen b))), (zdrop_ge (zlen b) b) by lia. cbn [app].
    assert (Hd : forall n, 0 <= n -> zdrop (zlen b + n) (b ++ x) = zdrop n x) by (intros n Hn; by rewrite <- zdrop_zdrop, zdrop_app by lia).
    destruct (zlen b + zlen x <? sk) eqn:E2, (zlen x <? sk - zlen b) eqn:E3; bool_facts; try lia; f_equal; try lia.
    + by rewrite Hd by lia.
    + replace sk with (zlen b + (sk - zlen b)) at 1 by lia. by rewrite Hd by lia.
  - rewrite (proj2 (Z.ltb_ge _ sk)), (proj2 (Z.ltb_ge 0 (sk - sk))), zdrop_app_le by lia. done.
Qed.

Lemma discard_spec sk b :
  0 <= sk -> let '(sk', b') := discard sk b in 0 <= sk' /\ (0 < sk' -> b' = []) /\ zlen b' <= zlen b /\ (is_bytes b -> is_bytes b').
Proof.
  intros Hs. pose proof (zlen_nonneg b). unfold discard. destruct (0 <? sk) eqn:E0; bool_facts; [| split_and!; done || lia].
  destruct (zlen b <? sk) eqn:E1; bool_facts; (split_and!; [lia | | rewrite zlen_zdrop; lia | apply is_bytes_drop]).
  - intros _. by apply zdrop_ge.
  - lia.
Qed.

(** The state parse_frame() leaves when it needs more is where it resumes. *)
Lemma parse_frame_more sk b x :
  0 <= sk -> is_bytes b ->
  match parse_frame sk b with
  | NeedMore sk' b' => 0 <= sk' /\ is_bytes b' /\ zlen b' <= zlen b /\ parse_frame sk (b ++ x) = parse_frame sk' (b' ++ x)
  | NotAFrame => parse_frame sk (b ++ x) = NotAFrame
  | Control op p r => parse_frame sk (b ++ x) = Control op p (r ++ x)
  | Data len r => parse_frame sk (b ++ x) = Data len (r ++ x)
  end.
Proof.
  intros Hs Hb. unfold parse_frame. rewrite discard_more by done. pose proof (discard_spec sk b Hs) as Hd.
  destruct (discard sk b) as [sk1 b1]. destruct Hd as (Hs1 & Hnil & Hlen & Hb1). specialize (Hb1 Hb).
  destruct (0 <? sk1) eqn:E; bool_facts; [done |].
  assert (sk1 = 0) as -> by lia. change (discard 0 (b1 ++ x)) with (0, b1 ++ x). cbv iota beta. change (0 <? 0) with false. cbv iota.
  pose proof (parse_head_more b1 x Hb1) as Hm. destruct (parse_head b1) as [sk2 b2 | | op p r | len r] eqn:Ep; cbn [more] in Hm; try done.
  assert (sk2 = 0 /\ b2 = b1) as [-> ->]; [| done]. clear -Ep. unfold parse_head in Ep.
  repeat match type of Ep with (if ?c then _ else _) = _ => destruct c | (let _ := _ in _) = _ => cbn zeta in Ep end; by simplify_eq.
Qed.

(** Each frame takes bytes off the buffer. *)
Lemma parse_frame_shorter sk b :
  0 <= sk -> is_bytes b ->
  match parse_frame sk b with
  | Control op p r => zlen r + 6 <= zlen b /\ is_bytes r
  | Data len r => zlen r + 6 <= zlen b /\ 0 <= len /\ is_bytes r
  | _ => True
  end.
Proof.
  intros Hs Hb. unfold parse_frame. pose proof (discard_spec sk b Hs) as Hd.
  destruct (discard sk b) as [sk1 b1]. destruct Hd as (Hs1 & Hnil & Hlen & Hb1). specialize (Hb1 Hb). destruct (0 <? sk1); [done |].
  pose proof (hdr_size_range b1). pose proof (payload_len_nonneg b1 Hb1). unfold parse_head.
  destruct (_ <? 2); [done |]. destruct (bad_bits b1); [done |]. destruct (bad_opcode _); [done |].
  destruct (_ <? hdr_size b1); [done |]. cbn zeta. destruct (zlen b1 <? hdr_size b1 + 4) eqn:E4; [done |]. bool_facts.
  destruct (8 <=? _).
  - destruct (_ || _); [done |]. destruct (zlen b1 <? _) eqn:E5; [done |]. bool_facts.
    rewrite zlen_zdrop by lia. split; [lia | by apply is_bytes_drop].
  - rewrite zlen_zdrop by lia. split_and!; [lia | done | by apply is_bytes_drop].
Qed.

Definition in_ok (c : Client) : Prop := 0 <= skip c /\ is_bytes (inbuf c).

(** The sending side does not look at the receiving side. *)
Lemma queue_out_set_in frame b sk c :
  queue_out frame (set_in b sk c) = let '(ok, c1) := queue_out frame c in (ok, set_in b sk c1).
Proof.
  unfold queue_out, flush_out. cbn [outbuf sock set_in]. destruct (flush_loop _ _ _) as [[ok out] s]. destruct ok; [| done].
  cbn [negb outbuf sock set_out set_in]. destruct (if zlen out =? 0 then send_some frame s else (0, s)) as [sent s1]. by destruct (sent <? 0).
Qed.

Lemma queue_out_fields frame c :
  let '(_, c1) := queue_out frame c in
  inbuf c1 = inbuf c /\ skip c1 = skip c /\ fd c1 = fd c /\ session c1 = session c /\ ins (sock c1) = ins (sock c).
Proof.
  unfold queue_out, flush_out.
  assert (Hs : forall d s, ins (send_some d s).2 = ins s) by (intros d s; unfold send_some; by destruct (outs s) as [| [] ?]).
  assert (Hf : forall fuel out s, ins (flush_loop fuel out s).2 = ins s).
  { induction fuel as [| fuel IH]; intros out s; [done |]. cbn [flush_loop]. destruct (zlen out =? 0); [done |].
    pose proof (Hs out s) as H. destruct (send_some out s) as [n s1]. cbn [snd] in H. destruct (n <? 0); [done |].
    destruct (n =? 0); [done |]. by rewrite IH. }
  pose proof (Hf (S (length (outbuf c))) (outbuf c) (sock c)) as H. destruct (flush_loop _ _ _) as [[ok out] s]. cbn [snd] in H.
  destruct ok; cbn [negb set_out outbuf sock]; [| done].
  assert (H2 : ins (if zlen out =? 0 then send_some frame s else (0, s)).2 = ins (sock c)) by (destruct (_ =? 0); [by rewrite Hs | done]).
  destruct (if zlen out =? 0 then _ else _) as [sent s1]. cbn [snd] in H2. by destruct (sent <? 0).
Qed.

Lemma consume_loop_fuel f1 f2 c :
  in_ok c -> (length (inbuf c) < f1)%nat -> (length (inbuf c) < f2)%nat -> consume_loop f1 c = consume_loop f2 c.
Proof.
  revert f2 c. induction f1 as [| f1 IH]; intros f2 c [Hs Hb] H1 H2; [lia |]. destruct f2 as [| f2]; [lia |]. cbn [consume_loop].
  pose proof (parse_frame_shorter (skip c) (inbuf c) Hs Hb) as Hp.
  destruct (parse_frame (skip c) (inbuf c)) as [sk b | | op p b | len b]; [done | done | |].
  - destruct Hp as [Hl Hb']. destruct (op =? kOpClose); [done |]. destruct (op =? kOpPing).
    + pose proof (queue_out_fields (ws_control_frame 0xA p) (set_in b 0 c)) as Hq.
      destruct (queue_out _ _) as [ok c1]. destruct Hq as (Hi & Hk & _). destruct ok; [| done].
      apply IH; [split; [by rewrite Hk | by rewrite Hi] | |]; rewrite Hi; cbn [inbuf set_in]; unfold zlen in Hl; lia.
    + apply IH; [by split | |]; cbn [inbuf set_in]; unfold zlen in Hl; lia.
  - destruct Hp as (Hl & Hn & Hb'). apply IH; [by split | |]; cbn [inbuf set_in]; unfold zlen in Hl; lia.
Qed.

(** consume_frames() without fuel: one frame, then the rest. *)
Lemma consume_frames_eq c :
  in_ok c ->
  consume_frames c =
  match parse_frame (skip c) (inbuf c) with
  | NeedMore sk b => (true, set_in b sk c)
  | NotAFrame => (false, c)
  | Control opcode payload b =>
      let c := set_in b 0 c in
      if opcode =? kOpClose then
        if zlen (outbuf c) =? 0 then
          (false, set_out (outbuf c)
             (send_some (ws_control_frame kOpClose (if 2 <=? zlen payload then ztake 2 payload else [])) (sock c)).2 c)
        else (false, c)
      else if opcode =? kOpPing then
        let '(ok, c) := queue_out (ws_control_frame 0xA payload) c in if ok then consume_frames c else (false, c)
      else consume_frames c
  | Data len b => consume_frames (set_in b len c)
  end.
Proof.
  intros [Hs Hb]. unfold consume_frames at 1. cbn [consume_loop].
  pose proof (parse_frame_shorter (skip c) (inbuf c) Hs Hb) as Hp.
  destruct (parse_frame (skip c) (inbuf c)) as [sk b | | op p b | len b]; [done | done | |].
  - destruct Hp as [Hl Hb']. cbn zeta. destruct (op =? kOpClose); [done |]. destruct (op =? kOpPing).
    + pose proof (queue_out_fields (ws_control_frame 0xA p) (set_in b 0 c)) as Hq.
      destruct (queue_out _ _) as [ok c1]. destruct Hq as (Hi & Hk & _). destruct ok; [| done].
      apply consume_loop_fuel; [split; [by rewrite Hk | by rewrite Hi] | |]; rewrite ?Hi; cbn [inbuf set_in] in *; unfold zlen in Hl; lia.
    + apply consume_loop_fuel; [by split | |]; cbn [inbuf set_in]; unfold zlen in Hl; lia.
  - destruct Hp as (Hl & Hn & Hb'). apply consume_loop_fuel; [by split | |]; cbn [inbuf set_in]; unfold zlen in Hl; lia.
Qed.

(** The client with more bytes received, and what a dropped client leaves. *)
Definition receive (x : bytes) (c : Client) : Client := set_in (inbuf c ++ x) (skip c) c.
Definition same_end (a b : bool * Client) : Prop :=
  a.1 = b.1 /\ outbuf a.2 = outbuf b.2 /\ sock a.2 = sock b.2 /\ (a.1 = true -> inbuf a.2 = inbuf b.2 /\ skip a.2 = skip b.2).

Lemma same_end_refl a : same_end a a.
Proof. by split_and!. Qed.

Lemma same_end_trans a b c : same_end a b -> same_end b c -> same_end a c.
Proof.
  intros (H1 & H2 & H3 & H4) (K1 & K2 & K3 & K4). split_and!; try congruence. intros H.
  destruct (H4 H) as [-> ->]. apply K4. congruence.
Qed.

Lemma same_end_sym a b : same_end a b -> same_end b a.
Proof. intros (H1 & H2 & H3 & H4). split_and!; try done. intros H. destruct H4 as [-> ->]; [congruence | done]. Qed.

Lemma consume_more x c :
  in_ok c -> is_bytes x ->
  let '(ok, c1) := consume_frames c in
  if ok then in_ok c1 /\ fd c1 = fd c /\ session c1 = session c /\ same_end (consume_frames (receive x c)) (consume_frames (receive x c1))
  else same_end (consume_frames (receive x c)) (false, c1).
Proof.
  remember (length (inbuf c)) as n eqn:En. assert (Hn : (length (inbuf c) <= n)%nat) by lia. clear En.
  revert c Hn. induction n as [n IH] using lt_wf_ind. intros c Hlen [Hs Hb] Hx.
  assert (Hrec : in_ok (receive x c)) by (split; [done | by apply is_bytes_app]).
  rewrite (consume_frames_eq c) by done. rewrite (consume_frames_eq (receive x c)) by done. cbn [receive skip inbuf set_in].
  pose proof (parse_frame_more (skip c) (inbuf c) x Hs Hb) as Hm. pose proof (parse_frame_shorter (skip c) (inbuf c) Hs Hb) as Hp.
  destruct (parse_frame (skip c) (inbuf c)) as [sk b | | op p b | len b].
  - destruct Hm as (Hsk & Hb' & _ & Hm). rewrite Hm. split_and!; [done | done | done |].
    rewrite (consume_frames_eq (receive x (set_in b sk c))) by (split; [done | by apply is_bytes_app]).
    cbn [receive skip inbuf set_in]. destruct (parse_frame sk (b ++ x)); try apply same_end_refl. by split_and!.
  - rewrite Hm. by split_and!.
  - rewrite Hm. destruct Hp as [Hl Hb']. cbn zeta. destruct (op =? kOpClose).
    { cbn [outbuf sock set_in receive]. destruct (zlen (outbuf c) =? 0); by split_and!. }
    assert (Hrest : forall c1, inbuf c1 = b -> skip c1 = 0 -> fd c1 = fd c -> session c1 = session c ->
      let '(ok, c2) := consume_frames c1 in
      if ok then in_ok c2 /\ fd c2 = fd c /\ session c2 = session c /\ same_end (consume_frames (receive x c1)) (consume_frames (receive x c2))
      else same_end (consume_frames (receive x c1)) (false, c2)).
    { intros c1 Hi Hk Hfd Hse. specialize (IH (length b) ltac:(unfold zlen in Hl; lia) c1 ltac:(rewrite Hi; lia) ltac:(split; [by rewrite Hk | by rewrite Hi]) Hx).
      destruct (consume_frames c1) as [ok c2]. destruct ok; [| done]. rewrite Hfd, Hse in IH. done. }
    destruct (op =? kOpPing).
    + change (set_in (b ++ x) 0 (receive x c)) with (set_in (b ++ x) 0 c). rewrite !queue_out_set_in.
      pose proof (queue_out_fields (ws_control_frame 0xA p) c) as Hq. destruct (queue_out _ c) as [ok c1]. destruct Hq as (_ & _ & Hfd & Hse & _).
      destruct ok; [apply (Hrest (set_in b 0 c1)); done | by split_and!].
    + apply (Hrest (set_in b 0 c)); done.
  - rewrite Hm. destruct Hp as (Hl & Hn & Hb').
    specialize (IH (length b) ltac:(unfold zlen in Hl; lia) (set_in b len c) ltac:(done) ltac:(by split) Hx).
    destruct (consume_frames (set_in b len c)) as [ok c2]. destruct ok; done.
Qed.

(** Reads one after the other, until the client is dropped: what service()
    does with them. *)
Fixpoint feed (chunks : list bytes) (c : Client) : bool * Client :=
  match chunks with
  | [] => (true, c)
  | b :: chunks =>
      let '(ok, c) := consume_frames (receive b c) in
      if ok then feed chunks c else (false, c)
  end.

Lemma feed_concat chunks x c :
  in_ok c -> is_bytes x -> Forall is_bytes chunks ->
  same_end (let '(ok, c1) := consume_frames (receive x c) in if ok then feed chunks c1 else (false, c1))
           (consume_frames (receive (x ++ concat chunks) c)).
Proof.
  revert x c. induction chunks as [| y chunks IH]; intros x c Hc Hx Hall.
  { cbn [concat]. rewrite app_nil_r. destruct (consume_frames (receive x c)) as [[] c1]; apply same_end_refl. }
  apply Forall_cons_1 in Hall as [Hy Hall].
  assert (Hrx : in_ok (receive x c)) by (destruct Hc; split; [done | by apply is_bytes_app]).
  assert (Hyc : is_bytes (y ++ concat chunks)).
  { apply is_bytes_app. split; [done |]. clear -Hall. induction Hall as [| z l Hz _ IHl]; [apply Forall_nil_2 | by apply is_bytes_app]. }
  pose proof (consume_more (y ++ concat chunks) (receive x c) Hrx Hyc) as Hm.
  assert (Hr2 : forall a b c, receive a (receive b c) = receive (b ++ a) c) by (intros; unfold receive; cbn; by rewrite app_assoc).
  rewrite Hr2 in Hm. cbn [concat]. destruct (consume_frames (receive x c)) as [ok c1]. destruct ok.
  - destruct Hm as (Hc1 & _ & _ & Hm). cbn [feed]. eapply same_end_trans; [by apply IH | by apply same_end_sym].
  - apply same_end_sym, Hm.
Qed.

(** ** Frames a client sends *)

Inductive cframe :=
| CData (fin : bool) (opcode : Z) (mask payload : bytes)
| CControl (opcode : Z) (mask payload : bytes).

Definition len_field (mask_bit n : Z) : bytes :=
  if n <? 126 then [mask_bit + n] else if n <=? 0xFFFF then (mask_bit + 126) :: be_bytes 2 n else (mask_bit + 127) :: be_bytes 8 n.

(** RFC 6455, section 5.2, masked with the frame's four bytes. *)
Definition cframe_bytes (f : cframe) : bytes :=
  match f with
  | CData fin op mask p => [(if fin then 128 else 0) + op] ++ len_field 128 (zlen p) ++ mask ++ unmask mask p
  | CControl op mask p => [128 + op] ++ len_field 128 (zlen p) ++ mask ++ unmask mask p
  end.

Definition mask_ok (mask payload : bytes) : Prop := is_bytes mask /\ zlen mask = 4 /\ is_bytes payload.
Definition cframe_ok (f : cframe) : Prop :=
  match f with
  | CData _ op mask p => op ∈ [0; 1; 2] /\ mask_ok mask p /\ zlen p < 2 ^ 63
  | CControl op mask p => op ∈ [8; 9; 10] /\ mask_ok mask p /\ zlen p <= 125
  end.

#[export] Instance cframe_ok_dec f : Decision (cframe_ok f).
Proof. destruct f; cbn; unfold mask_ok; apply _. Defined.

(** What the hub should do with them: pongs to the pings, the close echoed. *)
Fixpoint respond (fs : list cframe) (c : Client) : bool * Client :=
  match fs with
  | [] => (true, c)
  | CControl op _ p :: fs =>
      if op =? kOpClose then
        (false, if zlen (outbuf c) =? 0 then
                  set_out (outbuf c) (send_some (ws_control_frame kOpClose (if 2 <=? zlen p then ztake 2 p else [])) (sock c)).2 c
                else c)
      else if op =? kOpPing then
        let '(ok, c) := queue_out (ws_control_frame 0xA p) c in if ok then respond fs c else (false, c)
      else respond fs c
  | CData _ _ _ _ :: fs => respond fs c
  end.

Lemma zlen_unmask mask p : zlen (unmask mask p) = zlen p.
Proof. unfold unmask. rewrite zlen_map. unfold zlen. rewrite length_seqZ. lia. Qed.

Lemma znth_unmask mask p i : 0 <= i < zlen p -> znth 0 (unmask mask p) i = Z.lxor (znth 0 p i) (znth 0 mask (i mod 4)).
Proof.
  intros H. unfold unmask, znth at 1. rewrite nth_lookup, list_lookup_fmap, lookup_seqZ_lt by lia.
  cbn [fmap option_fmap option_map default id]. by replace (0 + Z.of_nat (Z.to_nat i)) with i by lia.
Qed.

Lemma unmask_unmask mask p : unmask mask (unmask mask p) = p.
Proof.
  apply (list_eq_same_length _ _ (length p)); [done | |].
  - assert (H : zlen (unmask mask (unmask mask p)) = zlen p) by (by rewrite !zlen_unmask). unfold zlen in H. lia.
  - intros i x y Hi Hx Hy. assert (Hz : 0 <= Z.of_nat i < zlen p) by (unfold zlen; lia).
    assert (Hx' : x = znth 0 (unmask mask (unmask mask p)) (Z.of_nat i)) by (unfold znth; rewrite Nat2Z.id; symmetry; by apply nth_lookup_Some).
    assert (Hy' : y = znth 0 p (Z.of_nat i)) by (unfold znth; rewrite Nat2Z.id; symmetry; by apply nth_lookup_Some).
    rewrite Hx', Hy', znth_unmask by (by rewrite zlen_unmask). rewrite znth_unmask by done.
    by rewrite Z.lxor_assoc, Z.lxor_nilpotent, Z.lxor_0_r.
Qed.

Lemma znth_byte b i : is_bytes b -> is_uint 8 (znth 0 b i).
Proof.
  intros H. unfold znth. destruct (Nat.lt_ge_cases (Z.to_nat i) (length b)) as [Hl | Hl]; [| by rewrite nth_overflow].
  unfold is_bytes in H. rewrite Forall_forall in H. by apply H, list_elem_of_In, nth_In.
Qed.

Lemma unmask_bytes mask p : is_bytes mask -> is_bytes p -> is_bytes (unmask mask p).
Proof.
  intros Hm Hp. apply Forall_forall. intros x Hx. apply list_elem_of_fmap in Hx as (i & -> & _).
  apply is_uint_lxor; [lia | |]; by apply znth_byte.
Qed.

(** ** Big-endian lengths *)

Lemma be_bytes_snoc n v : 0 <= v -> be_bytes (S n) v = be_bytes n (v / 256) ++ [v mod 256].
Proof.
  intros Hv. unfold be_bytes. rewrite seqZ_S, map_app. f_equal.
  - apply map_ext_in. intros i Hi. apply list_elem_of_In, elem_of_seqZ in Hi. f_equal.
    change 256 with (2 ^ 8). rewrite <- (Z.shiftr_div_pow2 v 8), Z.shiftr_shiftr by lia. f_equal. lia.
  - cbn [map]. f_equal. replace (8 * _) with 0 by lia. rewrite Z.shiftr_0_r. change 255 with (Z.ones 8). by rewrite Z.land_ones.
Qed.

Lemma be_bytes_bytes n v : is_bytes (be_bytes n v).
Proof.
  apply Forall_forall. intros x Hx. apply list_elem_of_fmap in Hx as (i & -> & _). apply is_uint_land; [lia | done].
Qed.

Lemma zlen_be_bytes n v : zlen (be_bytes n v) = Z.of_nat n.
Proof. unfold be_bytes. rewrite zlen_map. unfold zlen. rewrite length_seqZ. lia. Qed.

Lemma lor_byte v x : 0 <= v -> is_uint 8 x -> Z.lor (Z.shiftl v 8) x = v * 256 + x.
Proof.
  intros Hv Hx. change 256 with (2 ^ 8). rewrite <- (Z.shiftl_mul_pow2 v 8) by lia. rewrite <- Z.lxor_lor, Z.add_nocarry_lxor; [done | |];
    apply Z.bits_inj'; intros i Hi; rewrite Z.land_spec, Z.shiftl_spec, Z.bits_0 by lia;
    (destruct (Z.lt_ge_cases i 8); [by rewrite Z.testbit_neg_r by lia | by rewrite (is_uint_testbit 8 x), andb_false_r by (done || lia)]).
Qed.

Lemma be_value_be_bytes n v : (n <= 8)%nat -> 0 <= v < 256 ^ Z.of_nat n -> be_value (be_bytes n v) = v.
Proof.
  revert v. induction n as [| n IH]; intros v Hn Hv.
  { change (256 ^ Z.of_nat 0) with 1 in Hv. by replace v with 0 by lia. }
  rewrite Nat2Z.inj_succ, Z.pow_succ_r in Hv by lia. rewrite be_bytes_snoc by lia. unfold be_value in *. rewrite fold_left_app. cbn [fold_left].
  rewrite IH by (lia || (Z.to_euclidean_division_equations; lia)).
  assert (Hp : 256 ^ Z.of_nat n <= 256 ^ 7) by (apply Z.pow_le_mono_r; lia). change (256 ^ 7) with (2 ^ 56) in Hp.
  assert (Hd : 0 <= v / 256 < 2 ^ 56) by (Z.to_euclidean_division_equations; lia).
  unfold u64. rewrite wrap_small by (unfold is_uint; rewrite Z.shiftl_mul_pow2; lia).
  rewrite lor_byte by (unfold is_uint; Z.to_euclidean_division_equations; lia). Z.to_euclidean_division_equations; lia.
Qed.

Lemma len_byte n : 0 <= n < 128 -> Z.land (128 + n) 0x7F = n /\ Z.land (128 + n) 0x80 = 128.
Proof.
  intros H. assert (Hall : Forall (fun n => Z.land (128 + n) 0x7F = n /\ Z.land (128 + n) 0x80 = 128) (seqZ 0 128))
    by (apply (bool_decide_unpack _); vm_compute; exact I).
  rewrite Forall_forall in Hall. apply Hall, elem_of_seqZ. lia.
Qed.

Lemma first_byte op fin :
  op ∈ [0; 1; 2; 8; 9; 10] ->
  let b0 := (if fin : bool then 128 else 0) + op in
  Z.land b0 0x0F = op /\ (Z.land b0 0x70 =? 0) = true /\ (Z.land b0 0x80 =? 0) = negb fin /\ bad_opcode op = false.
Proof.
  rewrite !elem_of_cons, elem_of_nil. intros [-> | [-> | [-> | [-> | [-> | [-> | []]]]]]]; destruct fin; vm_compute; auto.
Qed.

(** The fields of a header that was printed. *)
Lemma printed_head b0 n mask rest :
  0 <= n < 2 ^ 63 -> zlen mask = 4 -> (Z.land b0 0x70 =? 0) = true ->
  let b := [b0] ++ len_field 128 n ++ mask ++ rest in
  let h := 1 + zlen (len_field 128 n) in
  znth 0 b 0 = b0 /\ opcode_of b = Z.land b0 0x0F /\ bad_bits b = false /\ hdr_size b = h /\ payload_len b = n /\ 2 <= h /\
  zlen b = h + 4 + zlen rest /\ slice h 4 b = mask /\ zdrop (h + 4) b = rest.
Proof.
  intros Hn Hm Hb0 b h.
  assert (Hcut : zlen b = h + 4 + zlen rest /\ slice h 4 b = mask /\ zdrop (h + 4) b = rest).
  { unfold b, h. rewrite !zlen_app, Hm. change (zlen [b0]) with 1. split_and!; [lia | |].
    - unfold slice. rewrite (app_assoc [b0]), zdrop_app by (rewrite zlen_app; done).
      rewrite ztake_app_le by lia. unfold ztake, zlen in *. apply take_ge. lia.
    - rewrite (app_assoc [b0]), (app_assoc _ mask). apply zdrop_app. rewrite !zlen_app, Hm. done. }
  assert (Hbits : forall c, bad_bits ([b0; c] ++ c :: rest) = bad_bits ([b0; c] ++ c :: rest)) by done. clear Hbits.
  split; [done |]. split; [done |].
  assert (Hgo : forall c r, b = [b0; c] ++ r -> Z.land c 0x80 = 128 ->
    bad_bits b = false /\ hdr_size b = 2 + (if Z.land c 0x7F =? 126 then 2 else if Z.land c 0x7F =? 127 then 8 else 0)).
  { intros c r -> Hc. unfold bad_bits, hdr_size. change (znth 0 ([b0; c] ++ r) 0) with b0. change (znth 0 ([b0; c] ++ r) 1) with c.
    by rewrite Hb0, Hc. }
  unfold payload_len. unfold len_field in *. destruct (n <? 126) eqn:E1; bool_facts.
  - destruct (len_byte n ltac:(lia)) as [Hl Hl'].
    destruct (Hgo (128 + n) (mask ++ rest) eq_refl Hl') as [-> ->]. rewrite Hl, (proj2 (Z.eqb_neq n 126)), (proj2 (Z.eqb_neq n 127)) by lia.
    change (znth 0 b 1) with (128 + n). cbn zeta. rewrite Hl, (proj2 (Z.eqb_neq n 126)), (proj2 (Z.eqb_neq n 127)) by lia.
    split_and!; try done; tauto.
  - assert (Hslice : forall c w, len_field 128 n = c :: w -> slice 2 (zlen w) b = w).
    { intros c w Hw. unfold b. unfold len_field in Hw. rewrite (proj2 (Z.ltb_ge n 126) E1) in Hw. rewrite Hw. unfold slice.
      change ([b0] ++ (c :: w) ++ mask ++ rest) with ([b0; c] ++ w ++ mask ++ rest). rewrite zdrop_app by done.
      unfold ztake, zlen. by rewrite Nat2Z.id, take_app_length. }
    unfold len_field in Hslice. rewrite (proj2 (Z.ltb_ge n 126) E1) in Hslice.
    destruct (n <=? 65535) eqn:E2; bool_facts.
    + destruct (Hgo (128 + 126) (be_bytes 2 n ++ mask ++ rest) eq_refl eq_refl) as [-> Hh].
      assert (Hh4 : hdr_size b = 4) by (rewrite Hh; reflexivity). clear Hh. rewrite Hh4.
      specialize (Hslice _ _ eq_refl). rewrite zlen_be_bytes in Hslice.
      change (znth 0 b 1) with (128 + 126). change ((Z.land (128 + 126) 127 =? 126) || (Z.land (128 + 126) 127 =? 127)) with true.
      change (4 - 2) with (Z.of_nat 2). cbv iota zeta. rewrite Hslice, be_value_be_bytes by (cbn; lia).
      destruct Hcut as (Hc1 & Hc2 & Hc3). split_and!; done || lia.
    + destruct (Hgo (128 + 127) (be_bytes 8 n ++ mask ++ rest) eq_refl eq_refl) as [-> Hh].
      assert (Hh10 : hdr_size b = 10) by (rewrite Hh; reflexivity). clear Hh. rewrite Hh10.
      specialize (Hslice _ _ eq_refl). rewrite zlen_be_bytes in Hslice.
      change (znth 0 b 1) with (128 + 127). change ((Z.land (128 + 127) 127 =? 126) || (Z.land (128 + 127) 127 =? 127)) with true.
      change (10 - 2) with (Z.of_nat 8). cbv iota zeta. rewrite Hslice, be_value_be_bytes by (lia || (change (256 ^ Z.of_nat 8) with (2 ^ 64); lia)).
      destruct Hcut as (Hc1 & Hc2 & Hc3). split_and!; done || lia.
Qed.

Lemma parse_data fin op mask p x :
  op ∈ [0; 1; 2] -> mask_ok mask p -> zlen p < 2 ^ 63 ->
  parse_head (cframe_bytes (CData fin op mask p) ++ x) = Data (zlen p) (unmask mask p ++ x).
Proof.
  intros Hop (_ & Hm & _) Hl. pose proof (zlen_nonneg p).
  assert (Hop' : op ∈ [0; 1; 2; 8; 9; 10]) by (rewrite !elem_of_cons in *; tauto).
  destruct (first_byte op fin Hop') as (F1 & F2 & F3 & F4). cbn [cframe_bytes]. rewrite <- !app_assoc.
  destruct (printed_head ((if fin then 128 else 0) + op) (zlen p) mask (unmask mask p ++ x) ltac:(lia) Hm F2)
    as (H0 & H1 & H2 & H3 & H4 & H5 & H6 & H7 & H8).
  set (b := [_] ++ _) in *. set (h := 1 + _) in *. unfold parse_head. rewrite H2, H1, F1, F4, H3, H4, H6, H8.
  pose proof (zlen_nonneg (unmask mask p ++ x)).
  rewrite (proj2 (Z.ltb_ge _ 2)), (proj2 (Z.ltb_ge _ h)), (proj2 (Z.ltb_ge _ (h + 4))) by lia.
  rewrite !elem_of_cons, elem_of_nil in Hop. rewrite (proj2 (Z.leb_gt 8 op)) by (destruct Hop as [-> | [-> | [-> | []]]]; lia). done.
Qed.

Lemma parse_control op mask p x :
  op ∈ [8; 9; 10] -> mask_ok mask p -> zlen p <= 125 ->
  parse_head (cframe_bytes (CControl op mask p) ++ x) = Control op p x.
Proof.
  intros Hop (_ & Hm & _) Hl. pose proof (zlen_nonneg p).
  assert (Hop' : op ∈ [0; 1; 2; 8; 9; 10]) by (rewrite !elem_of_cons in *; tauto).
  destruct (first_byte op true Hop') as (F1 & F2 & F3 & F4). cbn [cframe_bytes]. rewrite <- !app_assoc.
  destruct (printed_head (128 + op) (zlen p) mask (unmask mask p ++ x) ltac:(lia) Hm F2)
    as (H0 & H1 & H2 & H3 & H4 & H5 & H6 & H7 & H8).
  set (b := [_] ++ _) in *. set (h := 1 + _) in *. unfold parse_head. rewrite H2, H1, F1, F4, H3, H4, H6, H7, H0, F3.
  rewrite zlen_app, zlen_unmask. pose proof (zlen_nonneg x).
  rewrite (proj2 (Z.ltb_ge _ 2)), (proj2 (Z.ltb_ge _ h)), (proj2 (Z.ltb_ge _ (h + 4))) by lia. cbn zeta.
  rewrite !elem_of_cons, elem_of_nil in Hop. rewrite (proj2 (Z.leb_le 8 op)) by (destruct Hop as [-> | [-> | [-> | []]]]; lia).
  rewrite (proj2 (Z.ltb_ge 125 (zlen p))), (proj2 (Z.ltb_ge _ (h + 4 + zlen p))) by lia. cbn [orb negb]. f_equal.
  - unfold slice. rewrite H8, ztake_app_le by (rewrite zlen_unmask; lia). transitivity (unmask mask (unmask mask p)); [f_equal | apply unmask_unmask].
    unfold ztake, zlen. pose proof (zlen_unmask mask p) as Hz. unfold zlen in Hz. apply take_ge. lia.
  - rewrite <- zdrop_zdrop, H8 by lia. apply zdrop_app. apply zlen_unmask.
Qed.

Lemma queue_out_receiving frame b sk c :
  set_in b sk (queue_out frame c).2 = (queue_out frame (set_in b sk c)).2 /\
  (queue_out frame c).1 = (queue_out frame (set_in b sk c)).1.
Proof. rewrite queue_out_set_in. by destruct (queue_out frame c). Qed.

(** One frame at the front of the buffer, then what follows it. *)
Lemma consume_data fin op mask p x c :
  inbuf c = cframe_bytes (CData fin op mask p) ++ x -> skip c = 0 -> is_bytes (inbuf c) -> cframe_ok (CData fin op mask p) ->
  same_end (consume_frames c) (consume_frames (set_in x 0 c)).
Proof.
  intros Hi Hk Hb (Hop & Hm & Hl). pose proof (zlen_nonneg p).
  assert (Hx : is_bytes x) by (rewrite Hi in Hb; by apply is_bytes_app in Hb as [_ ?]).
  rewrite (consume_frames_eq c) by (split; [lia | done]). rewrite Hk, Hi. unfold parse_frame at 1.
  change (discard 0 ?b) with (0, b). cbv iota beta. change (0 <? 0) with false. cbv iota. rewrite parse_data by done.
  destruct Hm as (Hm1 & Hm2 & Hp).
  rewrite (consume_frames_eq (set_in (unmask mask p ++ x) (zlen p) c)).
  2:{ split; [done |]. cbn [inbuf set_in]. apply is_bytes_app. split; [by apply unmask_bytes | done]. }
  rewrite (consume_frames_eq (set_in x 0 c)) by (split; [done | done]). cbn [skip inbuf set_in].
  assert (Hd : parse_frame (zlen p) (unmask mask p ++ x) = parse_frame 0 x).
  { unfold parse_frame. rewrite discard_more by done. unfold discard at 1. rewrite zlen_unmask, Z.ltb_irrefl.
    destruct (0 <? zlen p) eqn:E; bool_facts.
    - rewrite Z.sub_diag, zdrop_ge by (rewrite zlen_unmask; lia). done.
    - assert (zlen p = 0) as Hz by lia. rewrite Hz. destruct (unmask mask p) as [| y l] eqn:Eu; [done |].
      pose proof (zlen_unmask mask p) as Hzu. rewrite Eu, zlen_cons in Hzu. pose proof (zlen_nonneg l). lia. }
  rewrite Hd. destruct (parse_frame 0 x); try apply same_end_refl. by split_and!.
Qed.

Lemma consume_control op mask p x c :
  inbuf c = cframe_bytes (CControl op mask p) ++ x -> skip c = 0 -> is_bytes (inbuf c) -> cframe_ok (CControl op mask p) ->
  consume_frames c =
  let c := set_in x 0 c in
  if op =? kOpClose then
    (false, if zlen (outbuf c) =? 0 then
              set_out (outbuf c) (send_some (ws_control_frame kOpClose (if 2 <=? zlen p then ztake 2 p else [])) (sock c)).2 c
            else c)
  else if op =? kOpPing then let '(ok, c) := queue_out (ws_control_frame 0xA p) c in if ok then consume_frames c else (false, c)
  else consume_frames c.
Proof.
  intros Hi Hk Hb (Hop & Hm & Hl).
  rewrite (consume_frames_eq c) by (split; [lia | done]). rewrite Hk, Hi. unfold parse_frame at 1.
  change (discard 0 ?b) with (0, b). cbv iota beta. change (0 <? 0) with false. cbv iota. rewrite parse_control by done.
  cbn zeta. destruct (op =? kOpClose); [| done]. by destruct (zlen (outbuf (set_in x 0 c)) =? 0).
Qed.

Definition obs (r : bool * Client) : bool * bytes * Socket := (r.1, outbuf r.2, sock r.2).

Lemma respond_set_in fs b sk c : obs (respond fs (set_in b sk c)) = obs (respond fs c).
Proof.
  revert b sk c. induction fs as [| [fin op mask p | op mask p] fs IH]; intros b sk c; [done | apply IH |]. cbn [respond].
  destruct (op =? kOpClose); [cbn [outbuf sock set_in]; by destruct (zlen (outbuf c) =? 0) |].
  destruct (op =? kOpPing); [| apply IH]. rewrite queue_out_set_in. destruct (queue_out _ c) as [[] c1]; [apply IH | done].
Qed.

Lemma consume_respond fs c :
  inbuf c = flat_map cframe_bytes fs -> skip c = 0 -> is_bytes (inbuf c) -> Forall cframe_ok fs ->
  obs (consume_frames c) = obs (respond fs c).
Proof.
  intros Hi Hk Hb Hok. revert c Hi Hk Hb. induction Hok as [| f fs Hf Hok IH]; intros c Hi Hk Hb.
  { cbn [flat_map] in Hi. rewrite (consume_frames_eq c) by (split; [lia | done]). by rewrite Hk, Hi. }
  cbn [flat_map] in Hi.
  assert (Hbx : is_bytes (flat_map cframe_bytes fs)) by (rewrite Hi in Hb; by apply is_bytes_app in Hb as [_ ?]).
  destruct f as [fin op mask p | op mask p].
  - destruct (consume_data fin op mask p _ c Hi Hk Hb Hf) as (S1 & S2 & S3 & _). unfold obs at 1. rewrite S1, S2, S3.
    fold (obs (consume_frames (set_in (flat_map cframe_bytes fs) 0 c))). rewrite IH by done. cbn [respond]. apply respond_set_in.
  - rewrite (consume_control op mask p _ c Hi Hk Hb Hf). cbn zeta. cbn [respond].
    destruct (op =? kOpClose); [cbn [outbuf sock set_in]; by destruct (zlen (outbuf c) =? 0) |].
    destruct (op =? kOpPing).
    + rewrite queue_out_set_in. destruct (queue_out _ c) as [ok c1]. destruct ok; [| done].
      rewrite IH by done. apply respond_set_in.
    + rewrite IH by done. apply respond_set_in.
Qed.

(** C34: How a client's bytes are cut by the network does not matter.  Whatever
    pieces recv() returns of well-formed masked frames (data frames of any
    length, pings, pongs, a close), a client that was between frames ends as
    if each frame had come alone: its payloads skipped, a pong with the
    payload queued for each ping, the close's status echoed, and dropped at the
    same frame or kept. *)
Theorem client_frames_any_chunking chunks fs c :
  inbuf c = [] -> skip c = 0 -> Forall is_bytes chunks -> Forall cframe_ok fs ->
  concat chunks = flat_map cframe_bytes fs ->
  obs (feed chunks c) = obs (respond fs c).
Proof.
  intros Hi Hk Hall Hok Hcat.
  assert (Hc : in_ok c) by (split; [lia | rewrite Hi; apply Forall_nil_2]).
  pose proof (feed_concat chunks [] c Hc (Forall_nil_2 _) Hall) as Hf.
  assert (H0 : consume_frames (receive [] c) = (true, c)).
  { rewrite (consume_frames_eq (receive [] c)) by (unfold receive; cbn; rewrite Hi; split; [cbn; lia | apply Forall_nil_2]).
    unfold receive. cbn. rewrite Hi, Hk. cbn. destruct c; cbn in *. by subst. }
  rewrite H0 in Hf. destruct Hf as (S1 & S2 & S3 & _). unfold obs at 1. rewrite S1, S2, S3. cbn [app].
  fold (obs (consume_frames (receive (concat chunks) c))).
  rewrite (consume_respond fs (receive (concat chunks) c)); [apply respond_set_in | | done | | done].
  - cbn. by rewrite Hi, Hcat.
  - cbn. rewrite Hi. cbn. clear -Hall. induction Hall as [| z l Hz _ IHl]; [apply Forall_nil_2 | by apply is_bytes_app].
Qed.

Lemma client_frames_any_chunking_witness :
  let fs := [CData true 1 [1; 2; 3; 4] (str "hi"); CControl 9 [5; 6; 7; 8] (str "ping"); CControl 8 [0; 0; 0; 0] [3; 232]] in
  let s := flat_map cframe_bytes fs in
  let c := mkClient 7 [] 0 [] [] (mkSocket [Took 100; Took 100] [] []) in
  obs (feed [ztake 9 s; zdrop 9 s] c) = (false, [], mkSocket [] [] ([138; 4] ++ str "ping" ++ [136; 2; 3; 232])) /\
  obs (feed [ztake 9 s; zdrop 9 s] c) = obs (respond fs c).
Proof.
  set (fs := [CData true 1 [1; 2; 3; 4] (str "hi"); CControl 9 [5; 6; 7; 8] (str "ping"); CControl 8 [0; 0; 0; 0] [3; 232]]).
  set (s := flat_map cframe_bytes fs). set (c := mkClient 7 [] 0 [] [] (mkSocket [Took 100; Took 100] [] [])).
  split; [vm_compute; reflexivity |].
  apply (client_frames_any_chunking [ztake 9 s; zdrop 9 s] fs c); [done | done | | | vm_compute; reflexivity].
  - repeat constructor; apply (bool_decide_unpack _); vm_compute; exact I.
  - apply (bool_decide_unpack _); vm_compute; exact I.
Defined.

(** ** What a client receives *)

Inductive sframe := SText (p : bytes) | SPong (p : bytes) | SClose (p : bytes).

Definition sframe_bytes (f : sframe) : bytes :=
  match f with
  | SText p => ws_text_frame p
  | SPong p => ws_control_frame 0xA p
  | SClose p => ws_control_frame kOpClose p
  end.
Definition stream (fs : list sframe) : bytes := flat_map sframe_bytes fs.

(** The peer's reading of an unmasked frame (RFC 6455, section 5.2): opcode,
    payload and what follows. *)
Definition peer_frame (b : bytes) : option (Z * bytes * bytes) :=
  match b with
  | b0 :: b1 :: r =>
      let '(n, r) := if b1 <? 126 then (b1, r)
                     else if b1 =? 126 then (be_value (ztake 2 r), zdrop 2 r) else (be_value (ztake 8 r), zdrop 8 r) in
      if zlen r <? n then None else Some (Z.land b0 0x0F, ztake n r, zdrop n r)
  | _ => None
  end.

Fixpoint peer_frames (fuel : nat) (b : bytes) : option (list (Z * bytes)) :=
  match fuel with
  | O => None
  | S fuel =>
      match b with
      | [] => Some []
      | _ => match peer_frame b with
             | None => None
             | Some (op, p, r) => option_map (cons (op, p)) (peer_frames fuel r)
             end
      end
  end.

(** The text messages among the frames. *)
Definition text_messages (vs : list (Z * bytes)) : list bytes := map snd (List.filter (fun v => v.1 =? 1) vs).

Definition view (f : sframe) : Z * bytes :=
  match f with SText p => (1, p) | SPong p => (10, ztake 125 p) | SClose p => (8, ztake 125 p) end.
Definition text_of (f : sframe) : list bytes := match f with SText p => [p] | _ => [] end.
Definition sframe_ok (f : sframe) : Prop := match f with SText p => zlen p < 2 ^ 63 | _ => True end.

Lemma peer_text p r : zlen p < 2 ^ 63 -> peer_frame (ws_text_frame p ++ r) = Some (1, p, r).
Proof.
  intros Hp. pose proof (zlen_nonneg p). pose proof (zlen_nonneg r). unfold ws_text_frame.
  assert (Hcut : forall q : bytes, q = p ++ r -> (if zlen q <? zlen p then None else Some (Z.land 129 15, ztake (zlen p) q, zdrop (zlen p) q)) = Some (1, p, r)).
  { intros q ->. rewrite zlen_app, (proj2 (Z.ltb_ge _ (zlen p))), zdrop_app by (done || lia). unfold ztake, zlen. by rewrite Nat2Z.id, take_app_length. }
  destruct (zlen p <? 126) eqn:E1; bool_facts; [| destruct (zlen p <=? 65535) eqn:E2; bool_facts].
  - cbn [app peer_frame]. rewrite (proj2 (Z.ltb_lt _ 126)) by lia. by apply Hcut.
  - assert (Hb : [Z.land (Z.shiftr (zlen p) 8) 255; Z.land (zlen p) 255] = be_bytes 2 (zlen p)) by (unfold be_bytes; cbn; by rewrite ?Z.shiftr_0_r).
    change [126; Z.land (Z.shiftr (zlen p) 8) 255; Z.land (zlen p) 255] with (126 :: [Z.land (Z.shiftr (zlen p) 8) 255; Z.land (zlen p) 255]).
    rewrite Hb. rewrite <- !app_assoc. cbn [app peer_frame]. change (126 <? 126) with false. change (126 =? 126) with true. cbv iota.
    rewrite zdrop_app, ztake_app_le by (rewrite zlen_be_bytes; lia).
    assert (Ht : ztake 2 (be_bytes 2 (zlen p)) = be_bytes 2 (zlen p)) by (unfold ztake; apply take_ge; unfold be_bytes; rewrite length_map, length_seqZ; lia).
    rewrite Ht, be_value_be_bytes by (cbn; lia). by apply Hcut.
  - change (map _ [7; 6; 5; 4; 3; 2; 1; 0]) with (be_bytes 8 (zlen p)).
    rewrite <- !app_assoc. cbn [app peer_frame]. change (127 <? 126) with false. change (127 =? 126) with false. cbv iota.
    rewrite zdrop_app, ztake_app_le by (rewrite zlen_be_bytes; lia).
    assert (Ht : ztake 8 (be_bytes 8 (zlen p)) = be_bytes 8 (zlen p)) by (unfold ztake; apply take_ge; unfold be_bytes; rewrite length_map, length_seqZ; lia).
    rewrite Ht, be_value_be_bytes by (lia || (change (256 ^ Z.of_nat 8) with (2 ^ 64); lia)). by apply Hcut.
Qed.

Lemma peer_control op p r :
  Z.land (Z.lor 0x80 (Z.land op 0x0F)) 0x0F = op -> peer_frame (ws_control_frame op p ++ r) = Some (op, ztake 125 p, r).
Proof.
  intros Hop. unfold ws_control_frame. pose proof (zlen_nonneg p). pose proof (zlen_nonneg r).
  set (len := if zlen p <? 125 then zlen p else 125).
  assert (Hlen : 0 <= len <= 125 /\ len <= zlen p /\ ztake len p = ztake 125 p).
  { unfold len. destruct (zlen p <? 125) eqn:E; bool_facts; split_and!; try done || lia.
    unfold ztake, zlen in *. rewrite !take_ge; [done | lia | lia]. }
  destruct Hlen as (H1 & H2 & H3). rewrite H3. rewrite <- !app_assoc. cbn [app peer_frame].
  assert (Hz : zlen (ztake 125 p) = len) by (rewrite <- H3; unfold ztake, zlen in *; rewrite length_take; lia).
  rewrite (proj2 (Z.ltb_lt len 126)), zlen_app, Hz, (proj2 (Z.ltb_ge _ len)), zdrop_app, Hop by (done || lia).
  rewrite ztake_app_le by lia. do 3 f_equal. rewrite <- H3. unfold ztake. rewrite take_take. f_equal. lia.
Qed.

Lemma peer_sframe f r : sframe_ok f -> peer_frame (sframe_bytes f ++ r) = Some ((view f).1, (view f).2, r).
Proof. destruct f as [p | p | p]; intros H; [by apply peer_text | by apply peer_control | by apply peer_control]. Qed.

Lemma peer_stream fs fuel :
  Forall sframe_ok fs -> (length (stream fs) < fuel)%nat -> peer_frames fuel (stream fs) = Some (map view fs).
Proof.
  intros H. revert fuel. induction H as [| f fs Hf _ IH]; intros fuel Hl; (destruct fuel as [| fuel]; [lia |]); [done |].
  cbn [stream flat_map map] in *. change (flat_map sframe_bytes fs) with (stream fs) in *.
  assert (Hne : exists x l, sframe_bytes f = x :: l) by (destruct f; eexists _, _; done).
  destruct Hne as (x & l & Hne). destruct (sframe_bytes f ++ stream fs) as [| y t] eqn:E; [by rewrite Hne in E |].
  assert (Hlen : (length (stream fs) < fuel)%nat).
  { apply (f_equal (@length Z)) in E. rewrite length_app, Hne in E. cbn [length] in E, Hl. lia. }
  cbn [peer_frames]. rewrite <- E, peer_sframe, IH by done. cbn [option_map]. by destruct (view f).
Qed.

Lemma text_messages_view fs : text_messages (map view fs) = flat_map text_of fs.
Proof. unfold text_messages. induction fs as [| [p | p | p] fs IH]; cbn; [done | by rewrite IH | done | done]. Qed.

(** ** The hub sends frames whole and in order *)

(** All that was given to a client's socket or is owed to it. *)
Definition owes (c : Client) : bytes := wire (sock c) ++ outbuf c.

Lemma send_some_wire d s :
  let '(n, s1) := send_some d s in
  (n = -1 /\ wire s1 = wire s) \/ (0 <= n <= zlen d /\ wire s1 = wire s ++ ztake n d).
Proof.
  pose proof (zlen_nonneg d). unfold send_some. destruct (outs s) as [| [n | |] r].
  - right. split; [lia | by rewrite app_nil_r].
  - right. split; [lia | done].
  - right. split; [lia | by rewrite app_nil_r].
  - by left.
Qed.

Lemma flush_loop_wire fuel out s :
  let '(_, out1, s1) := flush_loop fuel out s in wire s1 ++ out1 = wire s ++ out.
Proof.
  revert out s. induction fuel as [| fuel IH]; intros out s; [done |]. cbn [flush_loop]. destruct (zlen out =? 0); [done |].
  pose proof (send_some_wire out s) as H. destruct (send_some out s) as [n s1].
  destruct H as [[-> Hw] | [Hn Hw]]; [cbn; by rewrite Hw |]. rewrite (proj2 (Z.ltb_ge n 0)) by lia.
  destruct (n =? 0) eqn:E; bool_facts; [subst; rewrite Hw; cbn; by rewrite app_nil_r |].
  specialize (IH (zdrop n out) s1). destruct (flush_loop fuel _ s1) as [[ok out1] s2]. rewrite IH, Hw, <- app_assoc. by rewrite ztake_zdrop.
Qed.

Lemma flush_out_owes c : let '(_, c1) := flush_out c in owes c1 = owes c /\ fd c1 = fd c /\ session c1 = session c.
Proof.
  unfold flush_out. pose proof (flush_loop_wire (S (length (outbuf c))) (outbuf c) (sock c)) as H.
  by destruct (flush_loop _ _ _) as [[ok out] s].
Qed.

(** A frame queued is owed after what was; when the client is dropped over it,
    what went out is a prefix. *)
Lemma queue_out_owes frame c :
  let '(ok, c1) := queue_out frame c in
  (ok = true -> owes c1 = owes c ++ frame) /\ (exists rest, owes c ++ frame = wire (sock c1) ++ rest).
Proof.
  unfold queue_out. pose proof (flush_out_owes c) as Hf. destruct (flush_out c) as [ok c1]. destruct Hf as (Ho & _ & _).
  destruct ok; cbn [negb].
  2:{ split; [done |]. exists (outbuf c1 ++ frame). rewrite <- Ho. unfold owes. by rewrite <- app_assoc. }
  destruct (zlen (outbuf c1) =? 0) eqn:E; bool_facts.
  - assert (Hnil : outbuf c1 = []) by (destruct (outbuf c1) as [| x l]; [done | rewrite zlen_cons in E; pose proof (zlen_nonneg l); lia]).
    pose proof (send_some_wire frame (sock c1)) as Hs. destruct (send_some frame (sock c1)) as [n s1].
    unfold owes in *. rewrite Hnil in *. rewrite app_nil_r in Ho. cbn [app].
    destruct Hs as [[-> Hw] | [Hn Hw]].
    + split; [done |]. exists frame. cbn. by rewrite Hw, Ho.
    + rewrite (proj2 (Z.ltb_ge n 0)) by lia. cbn [sock outbuf set_out]. rewrite Hw, <- Ho.
      assert (Hall : ztake n frame ++ (if n <? zlen frame then zdrop n frame else []) = frame).
      { destruct (n <? zlen frame) eqn:En; bool_facts; [apply ztake_zdrop |]. rewrite app_nil_r. unfold ztake, zlen in *. apply take_ge. lia. }
      split; [intros _ | exists (if n <? zlen frame then zdrop n frame else [])]; rewrite <- app_assoc, Hall; done.
  - rewrite (proj2 (Z.ltb_ge 0 0)) by lia. cbn [sock outbuf set_out]. pose proof (zlen_nonneg frame).
    assert (Hall : (if 0 <? zlen frame then outbuf c1 ++ zdrop 0 frame else outbuf c1) = outbuf c1 ++ frame).
    { destruct (0 <? zlen frame) eqn:En; bool_facts; [done |]. destruct frame as [| x l]; [by rewrite app_nil_r | rewrite zlen_cons in *; pose proof (zlen_nonneg l); lia]. }
    rewrite Hall. unfold owes in *. cbn [sock outbuf set_out].
    split; [intros _ | exists (outbuf c1 ++ frame)]; by rewrite app_assoc, Ho.
Qed.

(** A step of one client: it is given the texts [ts] (and control frames); if
    kept it owes them after what it owed, if dropped a prefix went out. *)
Definition sends (ts : list bytes) (c : Client) (r : bool * Client) : Prop :=
  exists fs, flat_map text_of fs = ts /\ Forall sframe_ok fs /\ fd r.2 = fd c /\ session r.2 = session c /\
    (r.1 = true -> owes r.2 = owes c ++ stream fs) /\ (exists rest, owes c ++ stream fs = wire (sock r.2) ++ rest).

Lemma stream_app a b : stream (a ++ b) = stream a ++ stream b.
Proof. apply flat_map_app. Qed.

Lemma sends_same ok c c1 : owes c1 = owes c -> fd c1 = fd c -> session c1 = session c -> sends [] c (ok, c1).
Proof.
  intros Ho Hf Hs. exists []. cbn. rewrite app_nil_r. split_and!; try done. exists (outbuf c1). by rewrite <- Ho.
Qed.

Lemma sends_trans t1 t2 c c1 r : sends t1 c (true, c1) -> sends t2 c1 r -> sends (t1 ++ t2) c r.
Proof.
  intros (f1 & T1 & K1 & F1 & S1 & O1 & _) (f2 & T2 & K2 & F2 & S2 & O2 & rest & P2). cbn in *. specialize (O1 eq_refl).
  exists (f1 ++ f2). rewrite flat_map_app, stream_app, app_assoc. rewrite O1 in *. split_and!; try congruence.
  - by apply Forall_app.
  - done.
  - by exists rest.
Qed.

Lemma flush_sends c : sends [] c (flush_out c).
Proof. pose proof (flush_out_owes c) as H. destruct (flush_out c) as [ok c1]. destruct H as (H1 & H2 & H3). by apply sends_same. Qed.

Lemma queue_sends f c : sframe_ok f -> sends (text_of f) c (queue_out (sframe_bytes f) c).
Proof.
  intros Hf. pose proof (queue_out_owes (sframe_bytes f) c) as Ho. pose proof (queue_out_fields (sframe_bytes f) c) as Hq.
  destruct (queue_out (sframe_bytes f) c) as [ok c1]. destruct Ho as [Ho Hp]. destruct Hq as (_ & _ & Hfd & Hse & _).
  exists [f]. cbn. rewrite !app_nil_r. split_and!; try done. by repeat constructor.
Qed.

(** The close frame sent when nothing is owed. *)
Lemma close_sends p c : sends [] c (false, if zlen (outbuf c) =? 0 then set_out (outbuf c) (send_some (ws_control_frame kOpClose p) (sock c)).2 c else c).
Proof.
  destruct (zlen (outbuf c) =? 0) eqn:E; bool_facts; [| by apply sends_same].
  assert (Hnil : outbuf c = []) by (destruct (outbuf c) as [| x l]; [done | rewrite zlen_cons in E; pose proof (zlen_nonneg l); lia]).
  pose proof (send_some_wire (ws_control_frame kOpClose p) (sock c)) as Hs. destruct (send_some _ (sock c)) as [n s1].
  exists [SClose p]. cbn [flat_map text_of app fst snd fd session set_out sock]. split_and!; try done; [by repeat constructor |].
  unfold owes. rewrite Hnil, app_nil_r. cbn [stream flat_map sframe_bytes]. rewrite app_nil_r.
  destruct Hs as [[_ ->] | [Hn ->]]; [by eexists |]. exists (zdrop n (ws_control_frame kOpClose p)).
  by rewrite <- app_assoc, ztake_zdrop.
Qed.

Lemma consume_sends fuel c : sends [] c (consume_loop fuel c).
Proof.
  revert c. induction fuel as [| fuel IH]; intros c; [by apply sends_same |]. cbn [consume_loop].
  assert (Hset : forall b sk ok, sends [] c (ok, set_in b sk c)) by (intros; by apply sends_same).
  destruct (parse_frame _ _) as [sk b | | op p b | len b]; [apply Hset | by apply sends_same | |].
  - destruct (op =? kOpClose).
    + pose proof (close_sends (if 2 <=? zlen p then ztake 2 p else []) (set_in b 0 c)) as Hc.
      pose proof (sends_trans [] [] c (set_in b 0 c) _ (Hset b 0 true) Hc) as H.
      by destruct (zlen (outbuf (set_in b 0 c)) =? 0).
    + destruct (op =? kOpPing); [| apply (sends_trans [] [] c _ _ (Hset b 0 true)), IH].
      pose proof (queue_sends (SPong p) (set_in b 0 c) I) as Hq. cbn [text_of sframe_bytes] in Hq.
      destruct (queue_out _ _) as [[] c1].
      * apply (sends_trans [] [] c _ _ (Hset b 0 true)), (sends_trans [] [] _ _ _ Hq), IH.
      * apply (sends_trans [] [] c _ _ (Hset b 0 true) Hq).
  - apply (sends_trans [] [] c _ _ (Hset b len true)), IH.
Qed.

Lemma recv_wire want s : wire (recv_some want s).2 = wire s.
Proof. unfold recv_some. destruct (ins s) as [| [b | |] r]; try done. by destruct (_ <=? want). Qed.

Lemma reads_sends fuel budget c : sends [] c (service_reads fuel budget c).
Proof.
  revert budget c. induction fuel as [| fuel IH]; intros budget c; [by apply sends_same |]. cbn [service_reads].
  destruct (0 <? budget); [| by apply sends_same]. set (want := if budget <? 512 then budget else 512).
  pose proof (recv_wire want (sock c)) as Hw. destruct (recv_some want (sock c)) as [r s]. cbn [snd] in Hw.
  set (c0 := mkClient _ _ _ _ _ s). assert (H0 : forall ok, sends [] c (ok, c0)) by (intros; apply sends_same; [unfold owes; cbn; by rewrite Hw | done | done]).
  destruct r as [b | |]; [| apply H0 | apply H0]. destruct b as [| x b]; [apply H0 |].
  set (c1 := set_in _ _ c0). assert (H1 : sends [] c (true, c1)) by (apply sends_same; [unfold owes; cbn; by rewrite Hw | done | done]).
  pose proof (consume_sends (S (length (inbuf c1))) c1) as Hc. fold (consume_frames c1) in Hc.
  pose proof (sends_trans [] [] _ _ _ H1 Hc) as H. destruct (consume_frames c1) as [ok c2].
  destruct (negb ok || (kMaxInbuf <? zlen (inbuf c2))) eqn:E.
  - destruct H as (fs & ? & ? & ? & ? & ? & ?). exists fs. cbn [app fst snd] in *. by split_and!.
  - apply orb_false_iff in E as [->%negb_false_iff _]. apply (sends_trans [] [] _ _ _ H), IH.
Qed.

Lemma service_sends c : sends [] c (service_client c).
Proof.
  unfold service_client. pose proof (flush_sends c) as Hf. destruct (flush_out c) as [[] c1]; [| done].
  apply (sends_trans [] [] _ _ _ Hf), reads_sends.
Qed.

Lemma drop_sends gone c : sends [] c (drop_client gone c).
Proof. unfold drop_client. destruct (bool_decide _); [apply close_sends | by apply sends_same]. Qed.

(** ** The contract *)

(** A client of the abstract hub: its descriptor, its session and the texts
    sent since it connected. *)
Record SpecClient := mkSpecClient { s_fd : Z; s_session : bytes; s_texts : list bytes }.
Record SpecHub := mkSpecHub { s_clients : list SpecClient; s_closed : list SpecClient }.

(** A list split in two, each part in order. *)
Inductive parts {A} : list A -> list A -> list A -> Prop :=
| parts_nil : parts [] [] []
| parts_keep x l k g : parts l k g -> parts (x :: l) (x :: k) g
| parts_gone x l k g : parts l k g -> parts (x :: l) k (x :: g).

(** The operations, in the order in which the lock lets them in. *)
Inductive hub_op :=
| HAdd (fd : Z) (session : bytes) (first : option bytes) (s : Socket)
| HBroadcast (payload : bytes)
| HService
| HDrop (gone : list (Z * bytes))
| HFlush (fd : Z)
| HCloseAll.

Definition hub_apply (o : hub_op) (h : Hub) : Hub :=
  match o with
  | HAdd fd session None s => add fd session s h
  | HAdd fd session (Some p) s => add_with_frame fd session (ws_text_frame p) s h
  | HBroadcast p => broadcast p h
  | HService => (service h).2
  | HDrop gone => sweep_clients (drop_client gone) h
  | HFlush f => let '(kept, gone) := on_fd f flush_out (clients_ h) in mkHub kept (closed h ++ gone)
  | HCloseAll => close_all h
  end.

Definition say (p : bytes) (c : SpecClient) : SpecClient := mkSpecClient (s_fd c) (s_session c) (s_texts c ++ [p]).

(** What the abstract hub may do: any client may be lost at any operation, and
    otherwise a broadcast reaches every client. *)
Inductive spec_op : hub_op -> SpecHub -> SpecHub -> Prop :=
| spec_add fd session first s S kept gone :
    parts [mkSpecClient fd session (match first with Some p => [p] | None => [] end)] kept gone ->
    spec_op (HAdd fd session first s) S (mkSpecHub (s_clients S ++ kept) (s_closed S ++ gone))
| spec_broadcast p S kept gone :
    parts (map (say p) (s_clients S)) kept gone ->
    spec_op (HBroadcast p) S (mkSpecHub kept (s_closed S ++ gone))
| spec_lose o S kept gone :
    match o with HService | HDrop _ | HFlush _ => True | _ => False end ->
    parts (s_clients S) kept gone -> spec_op o S (mkSpecHub kept (s_closed S ++ gone))
| spec_close S : spec_op HCloseAll S (mkSpecHub [] (s_closed S ++ s_clients S)).

Inductive spec_run : list hub_op -> SpecHub -> SpecHub -> Prop :=
| spec_run_nil S : spec_run [] S S
| spec_run_cons o os S S1 S2 : spec_op o S S1 -> spec_run os S1 S2 -> spec_run (o :: os) S S2.

Definition hub_op_ok (o : hub_op) : Prop :=
  match o with
  | HAdd _ _ first s => wire s = [] /\ match first with Some p => zlen p < 2 ^ 63 | None => True end
  | HBroadcast p => zlen p < 2 ^ 63
  | _ => True
  end.

(** What a peer reads of [b]. *)
Definition reads (b : bytes) (ts : list bytes) : Prop :=
  exists vs, peer_frames (S (length b)) b = Some vs /\ text_messages vs = ts.

(** A connected client's peer, once it has got all it is owed, has read exactly
    the texts; a closed one has got a prefix of such a stream. *)
Definition client_sees (c : Client) (sc : SpecClient) : Prop :=
  fd c = s_fd sc /\ session c = s_session sc /\ reads (owes c) (s_texts sc).
Definition closed_saw (c : Client) (sc : SpecClient) : Prop :=
  fd c = s_fd sc /\ session c = s_session sc /\ exists rest, reads (wire (sock c) ++ rest) (s_texts sc).
Definition hub_sim (h : Hub) (S : SpecHub) : Prop :=
  Forall2 client_sees (clients_ h) (s_clients S) /\ Forall2 closed_saw (closed h) (s_closed S).

(** The simulation, on the frames themselves. *)
Definition client_inv (c : Client) (sc : SpecClient) : Prop :=
  fd c = s_fd sc /\ session c = s_session sc /\
  exists fs, owes c = stream fs /\ Forall sframe_ok fs /\ flat_map text_of fs = s_texts sc.
Definition closed_inv (c : Client) (sc : SpecClient) : Prop :=
  fd c = s_fd sc /\ session c = s_session sc /\
  exists fs rest, stream fs = wire (sock c) ++ rest /\ Forall sframe_ok fs /\ flat_map text_of fs = s_texts sc.

Definition say_all (ts : list bytes) (c : SpecClient) : SpecClient := mkSpecClient (s_fd c) (s_session c) (s_texts c ++ ts).

Lemma say_none c : say_all [] c = c.
Proof. unfold say_all. rewrite app_nil_r. by destruct c. Qed.

Lemma sends_inv ts c sc r :
  client_inv c sc -> sends ts c r ->
  (r.1 = true -> client_inv r.2 (say_all ts sc)) /\ closed_inv r.2 (say_all ts sc).
Proof.
  intros (Hf & Hs & fs & Ho & Hok & Ht) (fs' & Ht' & Hok' & Hf' & Hs' & Hkeep & rest & Hpre).
  assert (Hall : Forall sframe_ok (fs ++ fs')) by by apply Forall_app.
  assert (Htx : flat_map text_of (fs ++ fs') = s_texts (say_all ts sc)) by (rewrite flat_map_app; cbn; congruence).
  rewrite Ho, <- stream_app in *. split.
  - intros H. split_and!; [cbn; congruence | cbn; congruence |]. exists (fs ++ fs'). split_and!; [by apply Hkeep | done | done].
  - split_and!; [cbn; congruence | cbn; congruence |]. exists (fs ++ fs'), rest. by split_and!.
Qed.

Lemma each_client_inv ts f cs scs :
  Forall2 client_inv cs scs -> (forall c, sends ts c (f c)) ->
  let '(kept, gone) := each_client f cs in
  exists sk sg, parts (map (say_all ts) scs) sk sg /\ Forall2 client_inv kept sk /\ Forall2 closed_inv gone sg.
Proof.
  intros H Hf. induction H as [| c sc cs scs Hc _ IH]; cbn [each_client map].
  { exists [], []. split_and!; [constructor | done | done]. }
  destruct (sends_inv ts c sc (f c) Hc (Hf c)) as [Hk Hg]. destruct (f c) as [keep c1]. destruct (each_client f cs) as [kept gone].
  destruct IH as (sk & sg & Hp & H1 & H2). destruct keep.
  - exists (say_all ts sc :: sk), sg. split_and!; [by constructor | constructor; [by apply Hk | done] | done].
  - exists sk, (say_all ts sc :: sg). split_and!; [by constructor | done | by constructor].
Qed.

Lemma on_fd_inv fd' f cs scs :
  Forall2 client_inv cs scs -> (forall c, sends [] c (f c)) ->
  let '(kept, gone) := on_fd fd' f cs in
  exists sk sg, parts scs sk sg /\ Forall2 client_inv kept sk /\ Forall2 closed_inv gone sg.
Proof.
  intros H Hf. assert (Hid : forall l : list SpecClient, parts l l []) by (induction l; by constructor).
  induction H as [| c sc cs scs Hc Hcs IH]; cbn [on_fd].
  { exists [], []. split_and!; [constructor | done | done]. }
  destruct (fd c =? fd').
  - destruct (sends_inv [] c sc (f c) Hc (Hf c)) as [Hk Hg]. rewrite say_none in *. destruct (f c) as [keep c1]. destruct keep.
    + exists (sc :: scs), []. split_and!; [apply Hid | constructor; [by apply Hk | done] | done].
    + exists scs, [sc]. split_and!; [constructor; apply Hid | done | by constructor].
  - destruct (on_fd fd' f cs) as [kept gone]. destruct IH as (sk & sg & Hp & H1 & H2).
    exists (sc :: sk), sg. split_and!; [by constructor | by constructor | done].
Qed.

Definition hub_inv (h : Hub) (S : SpecHub) : Prop :=
  Forall2 client_inv (clients_ h) (s_clients S) /\ Forall2 closed_inv (closed h) (s_closed S).

Lemma sweep_clients_inv ts f h S :
  hub_inv h S -> (forall c, sends ts c (f c)) ->
  exists sk sg, parts (map (say_all ts) (s_clients S)) sk sg /\ hub_inv (sweep_clients f h) (mkSpecHub sk (s_closed S ++ sg)).
Proof.
  intros [H1 H2] Hf. pose proof (each_client_inv ts f _ _ H1 Hf) as H. unfold sweep_clients.
  destruct (each_client f (clients_ h)) as [kept gone]. destruct H as (sk & sg & Hp & Hk & Hg).
  exists sk, sg. split; [done |]. split; [done |]. by apply Forall2_app.
Qed.

Lemma map_say_none l : map (say_all []) l = l.
Proof. induction l as [| c l IH]; [done |]. cbn [map]. by rewrite say_none, IH. Qed.

Lemma closed_of_client c sc : client_inv c sc -> closed_inv c sc.
Proof. intros (H1 & H2 & fs & H3 & H4 & H5). split_and!; try done. exists fs, (outbuf c). by rewrite <- H3. Qed.

Lemma hub_op_sim o h S : hub_op_ok o -> hub_inv h S -> exists S1, spec_op o S S1 /\ hub_inv (hub_apply o h) S1.
Proof.
  intros Hok [H1 H2]. assert (Hlose : forall f o', match o' with HService | HDrop _ | HFlush _ => True | _ => False end ->
    (forall c, sends [] c (f c)) -> exists S1, spec_op o' S S1 /\ hub_inv (sweep_clients f h) S1).
  { intros f o' Ho' Hf. destruct (sweep_clients_inv [] f h S (conj H1 H2) Hf) as (sk & sg & Hp & Hi). rewrite map_say_none in Hp.
    exists (mkSpecHub sk (s_closed S ++ sg)). split; [by apply spec_lose | done]. }
  destruct o as [f se first s | p | | gone | f |]; cbn [hub_op_ok hub_apply] in *.
  - destruct Hok as [Hw Hf]. destruct first as [p |].
    + unfold add_with_frame. set (c := mkClient f [] 0 se (ws_text_frame p) s).
      assert (Hc : client_inv c (mkSpecClient f se [p])).
      { split_and!; [done | done |]. exists [SText p]. cbn. rewrite !app_nil_r. unfold owes. cbn. rewrite Hw. split_and!; [done | by repeat constructor | done]. }
      destruct (sends_inv [] c _ _ Hc (flush_sends c)) as [Hk Hg]. rewrite say_none in *. destruct (flush_out c) as [ok c1]. destruct ok.
      * exists (mkSpecHub (s_clients S ++ [mkSpecClient f se [p]]) (s_closed S ++ [])). split; [apply (spec_add f se (Some p)); repeat constructor |].
        split; cbn; [apply Forall2_app; [done | constructor; [by apply Hk | done]] | by rewrite app_nil_r].
      * exists (mkSpecHub (s_clients S ++ []) (s_closed S ++ [mkSpecClient f se [p]])). split; [apply (spec_add f se (Some p)); repeat constructor |].
        split; cbn; [by rewrite app_nil_r | apply Forall2_app; [done | by constructor]].
    + exists (mkSpecHub (s_clients S ++ [mkSpecClient f se []]) (s_closed S ++ [])). split; [apply (spec_add f se None); repeat constructor |].
      split; cbn; [| by rewrite app_nil_r]. apply Forall2_app; [done |]. constructor; [| done]. split_and!; [done | done |].
      exists []. unfold owes. cbn. by rewrite Hw.
  - destruct (sweep_clients_inv [p] (queue_out (ws_text_frame p)) h S (conj H1 H2)) as (sk & sg & Hp & Hi).
    { intros c. apply (queue_sends (SText p) c Hok). }
    exists (mkSpecHub sk (s_closed S ++ sg)). split; [by apply spec_broadcast | done].
  - apply Hlose; [done | apply service_sends].
  - apply Hlose; [done | apply drop_sends].
  - pose proof (on_fd_inv f flush_out _ _ H1 flush_sends) as H. destruct (on_fd f flush_out (clients_ h)) as [kept gone].
    destruct H as (sk & sg & Hp & Hk & Hg). exists (mkSpecHub sk (s_closed S ++ sg)). split; [by apply spec_lose |].
    split; [done | by apply Forall2_app].
  - exists (mkSpecHub [] (s_closed S ++ s_clients S)). split; [apply spec_close |]. split; [done |]. cbn. apply Forall2_app; [done |].
    eapply Forall2_impl; [exact H1 |]. apply closed_of_client.
Qed.

Lemma reads_stream fs b rest : stream fs = b ++ rest -> Forall sframe_ok fs -> reads (b ++ rest) (flat_map text_of fs).
Proof.
  intros <- Hok. exists (map view fs). split; [apply peer_stream; [done | lia] | apply text_messages_view].
Qed.


