(* ===== verification/NumText.v ===== *)
(** The numbers of the JSON the daemon writes (append_uint(), append_int() and
    append_double() of src/web/json.cpp): snprintf's %llu, %lld, %.0f and %.Ng
    on the bit pattern of a double, in exact integer arithmetic with the
    round-half-even of IEEE printing.  Theorem: what is written is a JSON
    number, exact or off by at most half a unit of its last digit. *)
From Stdlib Require Import ZArith Lia List Bool.
From stdpp Require Import base numbers list strings.
From S2P Require Import Prelude Float64 TextNum.
Open Scope Z_scope.

(** ** printf *)

(** The magnitude of a finite double, as a fraction. *)
Definition f64_ratio (v : f64) : Z * Z :=
  let e := f64_expo v in
  let m := if e =? 0 then f64_frac v else 2 ^ 52 + f64_frac v in
  let x := (if e =? 0 then 1 else e) - 1075 in
  if 0 <=? x then (m * 2 ^ x, 1) else (m, 2 ^ (- x)).

(** [n / d] to the nearest integer, ties to even. *)
Definition div_even (n d : Z) : Z :=
  let q := n / d in
  let r := n mod d in
  if 2 * r <? d then q else if d <? 2 * r then q + 1 else if Z.even q then q else q + 1.

(** The decimal exponent of [n / d]: upwards from 1, and downwards. *)
Fixpoint expo_up (fuel : nat) (n d x : Z) : Z :=
  match fuel with
  | O => x
  | S fuel => if d * 10 <=? n then expo_up fuel n (d * 10) (x + 1) else x
  end.
Fixpoint expo_down (fuel : nat) (n d x : Z) : Z :=
  match fuel with
  | O => x
  | S fuel => if n <? d then expo_down fuel (n * 10) d (x - 1) else x
  end.
(** 400 turns reach every exponent of a double (at most 308, at least -324). *)
Definition decimal_expo (n d : Z) : Z := if d <=? n then expo_up 400 n d 0 else expo_down 400 n d 0.

(** The [P] digits of [n / d] and their exponent: [D * 10^(x - P + 1)]. *)
Definition round_digits (P n d : Z) : Z * Z :=
  let x := decimal_expo n d in
  let k := P - 1 - x in
  let D := if 0 <=? k then div_even (n * 10 ^ k) d else div_even n (d * 10 ^ (- k)) in
  if D =? 10 ^ P then (10 ^ (P - 1), x + 1) else (D, x).

Definition is_zero_digit (c : Z) : bool := c =? 48.
Definition strip_zeros (fs : bytes) : bytes := reverse (skip_while is_zero_digit (reverse fs)).
(** The decimals without their trailing zeros, and no point without decimals. *)
Definition decimals (fs : bytes) : bytes := match strip_zeros fs with [] => [] | fs => 46 :: fs end.
Definition expo_text (x : Z) : bytes :=
  [101] ++ (if x <? 0 then [45] else [43]) ++ (if Z.abs x <? 10 then [48] else []) ++ u64_text (Z.abs x).

Definition minus_if (b : bool) : bytes := if b then [45] else [].

(** "%.Pg" *)
Definition printf_g (P : Z) (v : f64) : bytes :=
  let '(n, d) := f64_ratio v in
  minus_if (f64_neg v) ++
  if n =? 0 then [48]
  else
    let '(D, x) := round_digits P n d in
    let ds := u64_text D in
    if (-4 <=? x) && (x <? P) then
      if 0 <=? x then ztake (x + 1) ds ++ decimals (zdrop (x + 1) ds)
      else [48] ++ decimals (replicate (Z.to_nat (- x - 1)) 48 ++ ds)
    else ztake 1 ds ++ decimals (zdrop 1 ds) ++ expo_text x.

(** "%.0f" of a value below 2^64. *)
Definition printf_0f (v : f64) : bytes :=
  let '(n, d) := f64_ratio v in minus_if (f64_neg v) ++ u64_text (div_even n d).

(** ** The numbers of json.cpp *)

Definition append_uint (v : Z) : bytes := u64_text v.
Definition append_int (v : Z) : bytes := minus_if (v <? 0) ++ u64_text (Z.abs v).

Definition f64_finite (v : f64) : bool := f64_mag v <? f64_inf_mag.
(** [v == std::floor(v)] *)
Definition f64_whole (v : f64) : bool := let '(n, d) := f64_ratio v in n mod d =? 0.

Definition append_double (v : f64) : bytes :=
  let v := if f64_finite v then v else f64_zero in
  if f64_ltb (f64_abs v) (f64_of_Z 1000000) then printf_g 6 v
  else if f64_whole v && f64_ltb (f64_abs v) (f64_of_Z 1000000000000000) then printf_0f v
  else printf_g 15 v.

Definition f64_of_ratio (n d : Z) : f64 := f64_div (f64_of_Z n) (f64_of_Z d).

Example append_double_ex :
  map append_double [f64_of_Z 17280042; f64_of_ratio 1 3; f64_of_ratio 1 30000; f64_of_ratio 1 300000; f64_of_Z (-25);
    f64_of_ratio 9999995 10; f64_of_ratio 5 2; f64_nan; f64_of_ratio 100000000000000000 3; f64_zero; 1; 2047 * 2 ^ 52 - 1] =
  [str "17280042"; str "0.333333"; str "3.33333e-05"; str "3.33333e-06"; str "-25"; str "1e+06"; str "2.5"; str "0";
   str "3.33333333333333e+16"; str "0"; str "4.94066e-324"; str "1.79769313486232e+308"].
Proof. vm_compute. reflexivity. Qed.

(** ** JSON numbers (RFC 8259, section 6) *)

Definition num_int (s : bytes) : option (bytes * bytes) :=
  match take_while is_digit s with
  | [] => None
  | c :: r => if (c =? 48) && negb (zlen r =? 0) then None else Some (c :: r, skip_while is_digit s)
  end.
Definition num_frac (s : bytes) : option (bytes * bytes) :=
  match s with
  | [] => Some ([], [])
  | c :: r =>
      if c =? 46 then match take_while is_digit r with [] => None | fs => Some (fs, skip_while is_digit r) end
      else Some ([], c :: r)
  end.
Definition num_digits (r : bytes) : option Z :=
  match r with [] => None | _ => if forallb is_digit r then Some (decimal r) else None end.
Definition num_expo (s : bytes) : option Z :=
  match s with
  | [] => Some 0
  | c :: r =>
      if (c =? 101) || (c =? 69) then
        match r with
        | [] => None
        | x :: r' => if x =? 45 then Z.opp <$> num_digits r' else if x =? 43 then num_digits r' else num_digits r
        end
      else None
  end.

(** The sign, [m] and [e] of the number [m * 10^e] a text is; [None] if it is
    not a JSON number. *)
Definition json_number (s : bytes) : option (bool * Z * Z) :=
  let '(neg, s) := match s with c :: r => if c =? 45 then (true, r) else (false, s) | [] => (false, []) end in
  '(ds, s) ← num_int s; '(fs, s) ← num_frac s; e ← num_expo s;
  Some (neg, decimal (ds ++ fs), e - zlen fs).

(** [m * 10^e] equals [n / d], or differs from it by at most 5 parts in 10^P. *)
Definition num_exact (m e n d : Z) : Prop := m * 10 ^ Z.max e 0 * d = n * 10 ^ Z.max (- e) 0.
Definition num_near (P m e n d : Z) : Prop :=
  2 * 10 ^ (P - 1) * Z.abs (m * 10 ^ Z.max e 0 * d - n * 10 ^ Z.max (- e) 0) <= n * 10 ^ Z.max (- e) 0.

(** ** The value of a double *)

(** In units of 2^-1074. *)
Definition f64_units (v : f64) : Z :=
  let e := f64_expo v in if e =? 0 then f64_frac v else (2 ^ 52 + f64_frac v) * 2 ^ (e - 1).

Lemma ratio_units v : let '(n, d) := f64_ratio v in n * 2 ^ 1074 = f64_units v * d /\ 0 < d /\ 0 <= n.
Proof.
  pose proof (f64_expo_range v) as He. pose proof (f64_frac_range v) as Hf. unfold f64_ratio, f64_units.
  assert (Hgo : forall m x, 0 <= m -> -1074 <= x -> let '(n, d) := if 0 <=? x then (m * 2 ^ x, 1) else (m, 2 ^ (- x)) in
    n * 2 ^ 1074 = m * 2 ^ (x + 1074) * d /\ 0 < d /\ 0 <= n).
  { intros m x Hm Hx. destruct (0 <=? x) eqn:E; bool_facts.
    - rewrite Z.pow_add_r by lia. pose proof (Z.pow_pos_nonneg 2 x). split_and!; nia.
    - pose proof (Z.pow_pos_nonneg 2 (- x)). split_and!; try lia.
      rewrite <- Z.mul_assoc, <- Z.pow_add_r by lia. by replace (x + 1074 + - x) with 1074 by lia. }
  destruct (f64_expo v =? 0) eqn:E; bool_facts.
  - specialize (Hgo (f64_frac v) (1 - 1075) ltac:(lia) ltac:(lia)). destruct (if 0 <=? 1 - 1075 then _ else _) as [n d].
    replace (1 - 1075 + 1074) with 0 in Hgo by lia. by rewrite Z.mul_1_r in Hgo.
  - specialize (Hgo (2 ^ 52 + f64_frac v) (f64_expo v - 1075) ltac:(lia) ltac:(lia)).
    destruct (if 0 <=? f64_expo v - 1075 then _ else _) as [n d].
    by replace (f64_expo v - 1075 + 1074) with (f64_expo v - 1) in Hgo by lia.
Qed.

Lemma units_mono a b : f64_mag a < f64_mag b -> f64_units a < f64_units b.
Proof.
  pose proof (f64_mag_split a) as Ha. pose proof (f64_mag_split b) as Hb.
  pose proof (f64_frac_range a) as Fa. pose proof (f64_frac_range b) as Fb.
  pose proof (f64_expo_range a) as Ea. pose proof (f64_expo_range b) as Eb.
  intros Hlt. rewrite Ha, Hb in Hlt. unfold f64_units.
  assert (f64_expo a <= f64_expo b) as Hle by nia.
  destruct (f64_expo a =? 0) eqn:Ea0, (f64_expo b =? 0) eqn:Eb0; bool_facts; [nia | | lia |].
  - pose proof (Z.pow_pos_nonneg 2 (f64_expo b - 1)). nia.
  - pose proof (Z.pow_pos_nonneg 2 (f64_expo a - 1)). destruct (Z.eq_dec (f64_expo a) (f64_expo b)) as [He | He].
    + rewrite <- He in *. nia.
    + pose proof (Z.pow_le_mono_r 2 (1 + (f64_expo a - 1)) (f64_expo b - 1) ltac:(lia) ltac:(lia)) as Hp.
      rewrite Z.pow_add_r in Hp by lia. change (2 ^ 1) with 2 in Hp.
      apply Z.lt_le_trans with (2 ^ 53 * 2 ^ (f64_expo a - 1)); [change (2 ^ 53) with (2 * 2 ^ 52); nia |].
      change (2 ^ 53) with (2 ^ 52 * 2). nia.
Qed.

Lemma units_lt a b : f64_mag a < f64_mag b <-> f64_units a < f64_units b.
Proof.
  split; [apply units_mono |]. intros H. destruct (Z.lt_trichotomy (f64_mag a) (f64_mag b)) as [| [He | Hg]]; [done | |].
  - unfold f64_units, f64_expo, f64_frac in H. rewrite He in H. lia.
  - apply units_mono in Hg. lia.
Qed.

(** The source's comparisons with a whole bound. *)
Lemma abs_ltb v c b :
  f64_finite v = true -> f64_finite c = true -> f64_neg c = false -> f64_units c = b * 2 ^ 1074 ->
  f64_ltb (f64_abs v) c = let '(n, d) := f64_ratio v in n <? b * d.
Proof.
  intros Hv Hc Hn Hb. pose proof (ratio_units v) as Hr. destruct (f64_ratio v) as [n d]. destruct Hr as (Hr & Hd & H0).
  unfold f64_finite in *. bool_facts.
  assert (Hm : f64_mag (f64_abs v) = f64_mag v).
  { unfold f64_abs, f64_mag. rewrite Z.mod_mod by lia. done. }
  assert (Hna : f64_neg (f64_abs v) = false).
  { unfold f64_neg, f64_abs, f64_mag. apply Z.leb_gt. apply Z.mod_pos_bound. lia. }
  unfold f64_ltb, f64_is_nan, f64_key. rewrite Hm, Hna, Hn.
  rewrite (proj2 (Z.ltb_ge f64_inf_mag (f64_mag v))), (proj2 (Z.ltb_ge f64_inf_mag (f64_mag c))) by lia. cbn [orb negb andb].
  pose proof (units_lt v c) as Hu. pose proof (Z.pow_pos_nonneg 2 1074 ltac:(lia) ltac:(lia)) as Hp.
  assert (Heq : f64_units v < f64_units c <-> n < b * d).
  { rewrite Hb. split; intros H.
    - apply (Z.mul_lt_mono_pos_r (2 ^ 1074)); [done |]. rewrite Hr. nia.
    - apply (Z.mul_lt_mono_pos_r d); [done |]. rewrite <- Hr. nia. }
  destruct (f64_mag v <? f64_mag c) eqn:E, (n <? b * d) eqn:E2; bool_facts; try done; exfalso; lia.
Qed.

(** ** Rounding to digits *)

Lemma expo_up_spec fuel n d x :
  0 < d -> d <= n -> n < d * 10 ^ (Z.of_nat fuel + 1) ->
  exists k, 0 <= k <= Z.of_nat fuel /\ expo_up fuel n d x = x + k /\ d * 10 ^ k <= n < d * 10 ^ (k + 1).
Proof.
  revert d x. induction fuel as [| fuel IH]; intros d x Hd Hl Hu; cbn [expo_up].
  { exists 0. split_and!; try lia. }
  destruct (d * 10 <=? n) eqn:E; bool_facts.
  - destruct (IH (d * 10) (x + 1)) as (k & Hk & -> & H1 & H2); [lia | lia | |].
    { rewrite <- Z.mul_assoc, <- Z.pow_succ_r by lia. by replace (Z.succ (Z.of_nat fuel + 1)) with (Z.of_nat (S fuel) + 1) by lia. }
    exists (k + 1). rewrite <- Z.mul_assoc, <- Z.pow_succ_r in H1, H2 by lia. unfold Z.succ in *. split_and!; done || lia.
  - exists 0. split_and!; try lia.
Qed.

Lemma expo_down_spec fuel n d x :
  0 < n -> d <= n * 10 ^ Z.of_nat fuel ->
  exists k, 0 <= k <= Z.of_nat fuel /\ expo_down fuel n d x = x - k /\ d <= n * 10 ^ k /\ (k = 0 \/ n * 10 ^ k < d * 10).
Proof.
  revert n x. induction fuel as [| fuel IH]; intros n x Hn Hl; cbn [expo_down].
  { exists 0. rewrite Z.mul_1_r in Hl. split_and!; try lia. }
  destruct (n <? d) eqn:E; bool_facts.
  - destruct (IH (n * 10) (x - 1)) as (k & Hk & -> & H1 & H2); [lia | |].
    { rewrite <- Z.mul_assoc, <- Z.pow_succ_r by lia. by replace (Z.succ (Z.of_nat fuel)) with (Z.of_nat (S fuel)) by lia. }
    exists (k + 1). rewrite <- Z.mul_assoc, <- Z.pow_succ_r in H1 by lia. unfold Z.succ in *. split_and!; [lia | lia | lia | done |].
    right. destruct H2 as [-> | H2]; [cbn; lia |]. rewrite <- Z.mul_assoc, <- Z.pow_succ_r in H2 by lia. done.
  - exists 0. split_and!; try lia.
Qed.

(** [10^x <= n / d < 10^(x + 1)]. *)
Lemma decimal_expo_spec n d :
  0 < d -> 0 < n -> n < d * 10 ^ 400 -> d <= n * 10 ^ 400 ->
  let x := decimal_expo n d in
  -400 <= x <= 400 /\ 10 ^ Z.max x 0 * d <= n * 10 ^ Z.max (- x) 0 < 10 ^ Z.max x 0 * d * 10.
Proof.
  intros Hd Hn Hu Hl. unfold decimal_expo. destruct (d <=? n) eqn:E; bool_facts.
  - destruct (expo_up_spec 400 n d 0) as (k & Hk & -> & H1 & H2); [done | done | |].
    { rewrite Z.pow_add_r by lia. change (10 ^ 1) with 10. change (Z.of_nat 400) with 400. lia. }
    rewrite Z.pow_add_r in H2 by lia. change (10 ^ 1) with 10 in H2.
    rewrite Z.max_l, Z.max_r by lia. cbn [Z.pow]. change (10 ^ 0) with 1. replace (0 + k) with k by lia. split; [lia | nia].
  - destruct (expo_down_spec 400 n d 0) as (k & Hk & -> & H1 & H2); [done | done |].
    replace (0 - k) with (- k) by lia. rewrite Z.opp_involutive, Z.max_r, Z.max_l by lia. change (10 ^ 0) with 1.
    split; [lia |]. split; [lia |]. destruct H2 as [-> | H2]; [cbn in H1; lia | lia].
Qed.

Lemma div_even_spec n d :
  0 < d -> let q := div_even n d in
  2 * Z.abs (q * d - n) <= d /\ (n mod d = 0 -> q * d = n) /\ (forall L, L * d <= n -> L <= q) /\ (forall U, n < U * d -> q <= U).
Proof.
  intros Hd. unfold div_even. pose proof (Z.div_mod n d ltac:(lia)) as Hn. pose proof (Z.mod_pos_bound n d Hd) as Hr.
  assert (HL : forall L, L * d <= n -> L <= n / d) by (intros; apply Z.div_le_lower_bound; lia).
  assert (HU : forall U, n < U * d -> n / d < U) by (intros; apply Z.div_lt_upper_bound; lia).
  assert (Hq : forall q, q = n / d \/ q = n / d + 1 -> (forall L, L * d <= n -> L <= q) /\ (forall U, n < U * d -> q <= U)).
  { intros q Hq. split; [intros L H; apply HL in H; lia | intros U H; apply HU in H; lia]. }
  destruct (2 * (n mod d) <? d) eqn:E1; [| destruct (d <? 2 * (n mod d)) eqn:E2; [| destruct (Z.even (n / d))]]; bool_facts.
  all: split; [nia |]; split; [intros; nia |]; apply Hq; auto.
Qed.

(** Moving powers of ten between the digits and the exponent. *)
Lemma shift_exact m j e n d : 0 <= j -> num_exact (m * 10 ^ j) (e - j) n d <-> num_exact m e n d.
Proof.
  intros Hj. unfold num_exact.
  assert (H : 10 ^ j * 10 ^ Z.max (e - j) 0 * 10 ^ Z.max (- e) 0 = 10 ^ Z.max e 0 * 10 ^ Z.max (- (e - j)) 0)
    by (rewrite <- !Z.pow_add_r by lia; f_equal; lia).
  pose proof (Z.pow_pos_nonneg 10 (Z.max (- e) 0) ltac:(lia) ltac:(lia)) as H1.
  pose proof (Z.pow_pos_nonneg 10 (Z.max (- (e - j)) 0) ltac:(lia) ltac:(lia)) as H2.
  set (A := 10 ^ Z.max (e - j) 0) in *. set (B := 10 ^ Z.max (- (e - j)) 0) in *.
  set (A' := 10 ^ Z.max e 0) in *. set (B' := 10 ^ Z.max (- e) 0) in *. clearbody A B A' B'.
  rewrite <- (Z.mul_cancel_r (m * 10 ^ j * A * d) (n * B) B') by lia.
  rewrite <- (Z.mul_cancel_r (m * A' * d) (n * B') B) by lia.
  replace (m * 10 ^ j * A * d * B') with (m * d * (10 ^ j * A * B')) by ring. rewrite H.
  replace (m * A' * d * B) with (m * d * (A' * B)) by ring. replace (n * B' * B) with (n * B * B') by ring. done.
Qed.

Lemma shift_near P m j e n d : 0 <= j -> num_near P (m * 10 ^ j) (e - j) n d <-> num_near P m e n d.
Proof.
  intros Hj. unfold num_near.
  assert (H : 10 ^ j * 10 ^ Z.max (e - j) 0 * 10 ^ Z.max (- e) 0 = 10 ^ Z.max e 0 * 10 ^ Z.max (- (e - j)) 0)
    by (rewrite <- !Z.pow_add_r by lia; f_equal; lia).
  pose proof (Z.pow_pos_nonneg 10 (Z.max (- e) 0) ltac:(lia) ltac:(lia)) as H1.
  pose proof (Z.pow_pos_nonneg 10 (Z.max (- (e - j)) 0) ltac:(lia) ltac:(lia)) as H2.
  set (A := 10 ^ Z.max (e - j) 0) in *. set (B := 10 ^ Z.max (- (e - j)) 0) in *.
  set (A' := 10 ^ Z.max e 0) in *. set (B' := 10 ^ Z.max (- e) 0) in *. set (T := 2 * 10 ^ (P - 1)). clearbody A B A' B' T.
  rewrite (Z.mul_le_mono_pos_r (T * Z.abs (m * 10 ^ j * A * d - n * B)) (n * B) B') by lia.
  rewrite (Z.mul_le_mono_pos_r (T * Z.abs (m * A' * d - n * B')) (n * B') B) by lia.
  rewrite <- !Z.mul_assoc. rewrite <- (Z.abs_eq B') at 1 by lia. rewrite <- (Z.abs_eq B) at 3 by lia.
  rewrite <- !Z.abs_mul, !Z.mul_sub_distr_r.
  replace (m * (10 ^ j * (A * d)) * B') with (m * d * (10 ^ j * A * B')) by ring. rewrite H.
  replace (m * d * (A' * B)) with (m * (A' * d) * B) by ring. replace (n * B * B') with (n * B' * B) by ring.
  by replace (n * (B * B')) with (n * (B' * B)) by ring.
Qed.

Lemma round_digits_spec P n d :
  1 <= P -> 0 < d -> 0 < n -> n < d * 10 ^ 400 -> d <= n * 10 ^ 400 ->
  let '(D, x) := round_digits P n d in
  10 ^ (P - 1) <= D < 10 ^ P /\ -400 <= x <= 401 /\ num_near P D (x - P + 1) n d /\
  (n mod d = 0 -> n < 10 ^ P * d -> num_exact D (x - P + 1) n d).
Proof.
  intros HP Hd Hn Hu Hl. unfold round_digits. destruct (decimal_expo_spec n d Hd Hn Hu Hl) as (Hx & H1 & H2).
  set (x := decimal_expo n d) in *. clearbody x. set (k := P - 1 - x).
  assert (HPp : 10 ^ P = 10 * 10 ^ (P - 1)) by (rewrite <- Z.pow_succ_r by lia; f_equal; lia).
  pose proof (Z.pow_pos_nonneg 10 (P - 1) ltac:(lia) ltac:(lia)) as Hpp.
  set (D := if 0 <=? k then div_even (n * 10 ^ k) d else div_even n (d * 10 ^ (- k))).
  assert (HD : 10 ^ (P - 1) <= D <= 10 ^ P /\ num_near P D (x - P + 1) n d /\
    (n mod d = 0 -> n < 10 ^ P * d -> num_exact D (x - P + 1) n d /\ D < 10 ^ P)).
  { unfold D, num_near, num_exact. replace (x - P + 1) with (- k) by lia. rewrite Z.opp_involutive.
    destruct (0 <=? k) eqn:Ek; bool_facts.
    - rewrite (Z.max_r (- k)), (Z.max_l k) by lia. change (10 ^ 0) with 1. rewrite !Z.mul_1_r.
      destruct (div_even_spec (n * 10 ^ k) d Hd) as (A1 & A2 & A3 & A4).
      assert (Hlo : 10 ^ (P - 1) * d <= n * 10 ^ k).
      { destruct (Z.le_gt_cases 0 x).
        - rewrite (Z.max_l x), (Z.max_r (- x)) in H1 by lia. change (10 ^ 0) with 1 in H1. replace (P - 1) with (x + k) by lia.
          rewrite Z.pow_add_r by lia. nia.
        - rewrite (Z.max_r x), (Z.max_l (- x)) in H1 by lia. change (10 ^ 0) with 1 in H1. replace k with (- x + (P - 1)) by lia.
          rewrite Z.pow_add_r by lia. nia. }
      assert (Hhi : n * 10 ^ k < 10 ^ P * d).
      { rewrite HPp. destruct (Z.le_gt_cases 0 x).
        - rewrite (Z.max_l x), (Z.max_r (- x)) in H2 by lia. change (10 ^ 0) with 1 in H2. replace (P - 1) with (x + k) by lia.
          rewrite Z.pow_add_r by lia. pose proof (Z.pow_pos_nonneg 10 k). nia.
        - rewrite (Z.max_r x), (Z.max_l (- x)) in H2 by lia. change (10 ^ 0) with 1 in H2. replace k with (- x + (P - 1)) by lia.
          rewrite Z.pow_add_r by lia. nia. }
      split; [split; [apply A3; lia | apply A4; lia] |]. split; [nia |]. intros Hw _.
      assert (HE : div_even (n * 10 ^ k) d * d = n * 10 ^ k).
      { apply A2. by rewrite Z.mul_mod, Hw by lia. }
      split; [lia | nia].
    - rewrite (Z.max_l (- k)), (Z.max_r k) by lia. change (10 ^ 0) with 1. rewrite !Z.mul_1_r.
      pose proof (Z.pow_pos_nonneg 10 (- k) ltac:(lia) ltac:(lia)) as Hk.
      destruct (div_even_spec n (d * 10 ^ (- k)) ltac:(nia)) as (A1 & _ & A3 & A4).
      rewrite (Z.max_l x), (Z.max_r (- x)) in H1, H2 by lia. change (10 ^ 0) with 1 in H1, H2.
      assert (Hxk : 10 ^ x = 10 ^ (P - 1) * 10 ^ (- k)) by (rewrite <- Z.pow_add_r by lia; f_equal; lia).
      rewrite Hxk in H1, H2.
      split; [split; [apply A3; nia | apply A4; rewrite HPp; nia] |].
      split; [rewrite <- !Z.mul_assoc in *; rewrite (Z.mul_comm (10 ^ (- k)) d); nia |].
      intros _ Hlt. exfalso. rewrite HPp in Hlt.
      pose proof (Z.pow_le_mono_r 10 1 (- k) ltac:(lia) ltac:(lia)) as HK. change (10 ^ 1) with 10 in HK.
      pose proof (Z.mul_le_mono_nonneg_l 10 (10 ^ (- k)) (10 ^ (P - 1) * d) ltac:(nia) HK). lia. }
  destruct HD as ((HD1 & HD2) & Hnear & Hex). destruct (D =? 10 ^ P) eqn:ED; bool_facts.
  - split; [lia |]. split; [lia |].
    assert (HDe : D = 10 ^ (P - 1) * 10 ^ 1) by lia. rewrite HDe in Hnear, Hex.
    replace (x - P + 1) with (x + 1 - P + 1 - 1) in * by lia. split; [by apply (shift_near _ _ 1) |].
    intros Hw Hlt. apply (shift_exact _ 1); [lia |]. by apply Hex.
  - split; [lia |]. split; [lia |]. split; [done |]. intros. by apply Hex.
Qed.

(** ** The digits in the text *)

Lemma digits_of_head fuel v acc :
  0 < v < 10 ^ Z.of_nat fuel -> exists c r, digits_of fuel v acc = c :: r ++ acc /\ 49 <= c <= 57 /\ forallb is_digit r = true.
Proof.
  revert v acc. induction fuel as [| fuel IH]; intros v acc Hv; [cbn in Hv; lia |]. cbn [digits_of].
  destruct (v <? 10) eqn:E; bool_facts.
  - exists (48 + v mod 10), []. split_and!; try done; Z.to_euclidean_division_equations; lia.
  - rewrite Nat2Z.inj_succ, Z.pow_succ_r in Hv by lia.
    destruct (IH (v / 10) ((48 + v mod 10) :: acc)) as (c & r & -> & Hc & Hr); [Z.to_euclidean_division_equations; lia |].
    exists c, (r ++ [48 + v mod 10]). rewrite <- app_assoc, forallb_app, Hr. cbn. split_and!; try lia; [done |].
    unfold is_digit. apply andb_true_iff. split; [| done]. apply andb_true_iff. split; apply Z.leb_le; Z.to_euclidean_division_equations; lia.
Qed.

Lemma u64_text_head v :
  0 < v < 2 ^ 64 -> exists c r, u64_text v = c :: r /\ 49 <= c <= 57 /\ forallb is_digit r = true.
Proof.
  intros Hv. destruct (digits_of_head 20 v [] ltac:(cbn; lia)) as (c & r & H & Hc & Hr). rewrite app_nil_r in H. by exists c, r.
Qed.

Lemma decimal_bounds ds : forallb is_digit ds = true -> 0 <= decimal ds < 10 ^ zlen ds.
Proof.
  unfold decimal. induction ds as [| c ds IH] using rev_ind; intros Hd; [split; [done | reflexivity] |].
  rewrite forallb_app in Hd. cbn in Hd. apply andb_true_iff in Hd as [Hd Hc]. rewrite andb_true_r in Hc. unfold is_digit in Hc.
  bool_facts. specialize (IH Hd). rewrite decimal_from_app, zlen_app. change (zlen [c]) with 1.
  rewrite Z.pow_add_r by (pose proof (zlen_nonneg ds); lia). change (10 ^ 1) with 10. unfold decimal_from at 1 3. cbn [fold_left]. lia.
Qed.

Lemma decimal_from_shift v ds : decimal_from v ds = v * 10 ^ zlen ds + decimal ds.
Proof.
  unfold decimal. revert v. induction ds as [| c ds IH] using rev_ind; intros v; [change (zlen []) with 0; change (10 ^ 0) with 1; cbn; lia |].
  rewrite !decimal_from_app, zlen_app, IH. change (zlen [c]) with 1. pose proof (zlen_nonneg ds).
  rewrite Z.pow_add_r by lia. change (10 ^ 1) with 10. set (a := decimal_from 0 ds). clearbody a. cbn. lia.
Qed.

Lemma decimal_app a b : decimal (a ++ b) = decimal a * 10 ^ zlen b + decimal b.
Proof. unfold decimal. rewrite decimal_from_app. apply decimal_from_shift. Qed.

(** [P] digits, the first not zero. *)
Lemma digits_shape P D :
  1 <= P <= 19 -> 10 ^ (P - 1) <= D < 10 ^ P ->
  exists c r, u64_text D = c :: r /\ 49 <= c <= 57 /\ forallb is_digit r = true /\ zlen r = P - 1 /\ decimal (c :: r) = D.
Proof.
  intros HP HD. pose proof (Z.pow_pos_nonneg 10 (P - 1) ltac:(lia) ltac:(lia)) as H0.
  pose proof (Z.pow_le_mono_r 10 P 19 ltac:(lia) ltac:(lia)) as H19. change (10 ^ 19) with 10000000000000000000 in H19.
  destruct (u64_text_head D ltac:(lia)) as (c & r & Hu & Hc & Hr). exists c, r.
  destruct (u64_text_spec D ltac:(unfold is_uint; lia)) as (_ & _ & Hv & _). rewrite Hu in Hv.
  split_and!; try done || lia. pose proof (decimal_bounds r Hr) as Hb. pose proof (zlen_nonneg r) as Hz.
  assert (HDr : D = (c - 48) * 10 ^ zlen r + decimal r).
  { rewrite <- Hv. change (c :: r) with ([c] ++ r). rewrite decimal_app. by unfold decimal at 1, decimal_from at 1. }
  destruct (Z.lt_trichotomy (zlen r) (P - 1)) as [Hl | [| Hl]]; [| done |].
  - pose proof (Z.pow_le_mono_r 10 (Z.succ (zlen r)) (P - 1) ltac:(lia) ltac:(lia)) as Hp. rewrite Z.pow_succ_r in Hp by lia. nia.
  - pose proof (Z.pow_le_mono_r 10 P (zlen r) ltac:(lia) ltac:(lia)) as Hp. nia.
Qed.

Lemma strip_zeros_spec fs :
  forallb is_digit fs = true -> exists j, fs = strip_zeros fs ++ replicate j 48 /\ forallb is_digit (strip_zeros fs) = true.
Proof.
  unfold strip_zeros. induction fs as [| c fs IH] using rev_ind; intros Hd; [by exists 0%nat |].
  rewrite forallb_app in Hd. cbn in Hd. rewrite andb_true_r in Hd. apply andb_true_iff in Hd as [Hd Hc].
  rewrite reverse_app. cbn [reverse app]. change (reverse [c]) with [c]. cbn [app skip_while].
  destruct (is_zero_digit c) eqn:E.
  - destruct (IH Hd) as (j & Hj & Hs). exists (S j). split; [| done]. unfold is_zero_digit in E. bool_facts. subst.
    rewrite Hj at 1. rewrite <- app_assoc. f_equal. change [48] with (replicate 1 48). rewrite <- replicate_add. f_equal. lia.
  - exists 0%nat. cbn [replicate]. rewrite app_nil_r, reverse_cons, reverse_involutive.
    split; [done |]. rewrite forallb_app, Hd. cbn. by rewrite Hc.
Qed.

Lemma decimal_zeros j : decimal (replicate j 48) = 0.
Proof. induction j as [| j IH]; [done |]. cbn [replicate]. change (48 :: replicate j 48) with ([48] ++ replicate j 48). rewrite decimal_app, IH. done. Qed.

Lemma digits_then ds r :
  forallb is_digit ds = true -> (forall x, x ∈ take 1 r -> is_digit x = false) ->
  take_while is_digit (ds ++ r) = ds /\ skip_while is_digit (ds ++ r) = r.
Proof. apply take_while_all. Qed.

(** An exponent part, or none. *)
Definition expo_part (ex : bytes) (e : Z) : Prop := num_expo ex = Some e /\ (ex = [] \/ exists r, ex = 101 :: r).

(** A number put together from its integer digits, its decimals and its exponent. *)
Lemma json_number_parts neg ip fs ex e :
  (ip = [48] \/ exists c r, ip = c :: r /\ 49 <= c <= 57 /\ forallb is_digit r = true) -> forallb is_digit fs = true -> expo_part ex e ->
  exists m j, 0 <= j /\ json_number (minus_if neg ++ ip ++ decimals fs ++ ex) = Some (neg, m, e - zlen fs + j) /\ decimal (ip ++ fs) = m * 10 ^ j.
Proof.
  intros Hip Hfs [Hex Hex']. destruct (strip_zeros_spec fs Hfs) as (j & Hj & Hs).
  exists (decimal (ip ++ strip_zeros fs)), (Z.of_nat j). split; [lia |].
  assert (Hlen : zlen fs = zlen (strip_zeros fs) + Z.of_nat j) by (rewrite Hj at 1; by rewrite zlen_app, zlen_replicate).
  split; [| rewrite Hj at 1; rewrite app_assoc, decimal_app, zlen_replicate, decimal_zeros; lia].
  assert (forallb is_digit ip = true /\ znth 0 ip 0 <> 45) as [Hdip H45].
  { destruct Hip as [-> | (c & r & -> & Hc & Hr)]; [done |]. split; [| change (znth 0 (c :: r) 0) with c; lia].
    cbn [forallb]. rewrite Hr, andb_true_r. unfold is_digit. bool_solve. }
  assert (Htail : forall x, x ∈ take 1 ex -> is_digit x = false).
  { destruct Hex' as [-> | [r ->]]; intros x Hx; [by apply elem_of_nil in Hx |]. apply list_elem_of_singleton in Hx. by subst. }
  assert (Hdec : forall x, x ∈ take 1 (decimals fs ++ ex) -> is_digit x = false).
  { unfold decimals. destruct (strip_zeros fs); [done |]. intros x Hx. apply list_elem_of_singleton in Hx. by subst. }
  assert (Hint : num_int (ip ++ decimals fs ++ ex) = Some (ip, decimals fs ++ ex)).
  { unfold num_int. destruct (digits_then ip (decimals fs ++ ex) Hdip Hdec) as [-> ->].
    destruct Hip as [-> | (c & r & -> & Hc & Hr)]; [done |]. by rewrite (proj2 (Z.eqb_neq c 48)) by lia. }
  assert (Hfrac : num_frac (decimals fs ++ ex) = Some (strip_zeros fs, ex)).
  { unfold decimals. destruct (strip_zeros fs) as [| x st] eqn:Est.
    - cbn [app]. unfold num_frac. destruct Hex' as [-> | [r ->]]; done.
    - change (num_frac ((46 :: x :: st) ++ ex)) with
        (match take_while is_digit ((x :: st) ++ ex) with [] => None | fs => Some (fs, skip_while is_digit ((x :: st) ++ ex)) end).
      destruct (digits_then (x :: st) ex Hs Htail) as [-> ->]. done. }
  unfold json_number.
  assert (Hsign : match minus_if neg ++ ip ++ decimals fs ++ ex with
                  | c :: r => if c =? 45 then (true, r) else (false, minus_if neg ++ ip ++ decimals fs ++ ex) | [] => (false, [])
                  end = (neg, ip ++ decimals fs ++ ex)).
  { destruct neg; [done |]. cbn [minus_if app]. destruct ip as [| c r]; [by destruct Hip as [| (? & ? & ? & _)] |]. cbn [app].
    change (znth 0 (c :: r) 0) with c in H45. by rewrite (proj2 (Z.eqb_neq c 45)). }
  rewrite Hsign, Hint. cbn [mbind option_bind]. rewrite Hfrac. cbn [mbind option_bind]. rewrite Hex. cbn [mbind option_bind].
  do 2 f_equal. lia.
Qed.

Lemma expo_text_part x : -999 <= x <= 999 -> expo_part (expo_text x) x.
Proof.
  intros Hx. split; [| right; by eexists]. unfold expo_text.
  destruct (u64_text_spec (Z.abs x) ltac:(unfold is_uint; lia)) as (Hn & Hd & Hv & _).
  assert (Hgo : num_digits ((if Z.abs x <? 10 then [48] else []) ++ u64_text (Z.abs x)) = Some (Z.abs x)).
  { unfold num_digits. destruct (Z.abs x <? 10); cbn [app].
    - cbn [forallb]. rewrite Hd. cbn. f_equal. exact Hv.
    - destruct (u64_text (Z.abs x)) eqn:E; [done |]. rewrite Hd. by rewrite Hv. }
  destruct (x <? 0) eqn:E; bool_facts; cbn [app num_expo orb]; change (101 =? 101) with true; cbn [orb]; rewrite Hgo; cbn; f_equal; lia.
Qed.

Lemma zeros_digits k : forallb is_digit (replicate k 48) = true.
Proof. by induction k. Qed.

(** ** What is printed *)

(** The text of a printf is a JSON number with the sign, of digits [D] times
    [10^y] whatever zeros are not written. *)
Definition prints (t : bytes) (neg : bool) (D y : Z) : Prop :=
  exists m j, 0 <= j /\ json_number t = Some (neg, m, y + j) /\ D = m * 10 ^ j.

Lemma prints_near t neg D y P n d : prints t neg D y -> num_near P D y n d -> exists m e, json_number t = Some (neg, m, e) /\ num_near P m e n d.
Proof.
  intros (m & j & Hj & Ht & ->) H. exists m, (y + j). split; [done |]. apply (shift_near P m j); [done |].
  by replace (y + j - j) with y by lia.
Qed.

Lemma prints_exact t neg D y n d : prints t neg D y -> num_exact D y n d -> exists m e, json_number t = Some (neg, m, e) /\ num_exact m e n d.
Proof.
  intros (m & j & Hj & Ht & ->) H. exists m, (y + j). split; [done |]. apply (shift_exact m j); [done |].
  by replace (y + j - j) with y by lia.
Qed.

Lemma expo_none : expo_part [] 0.
Proof. split; [done | by left]. Qed.

Lemma printf_digits neg P D x :
  1 <= P <= 19 -> 10 ^ (P - 1) <= D < 10 ^ P -> -999 <= x <= 999 ->
  let ds := u64_text D in
  prints (minus_if neg ++
    if (-4 <=? x) && (x <? P) then
      if 0 <=? x then ztake (x + 1) ds ++ decimals (zdrop (x + 1) ds)
      else [48] ++ decimals (replicate (Z.to_nat (- x - 1)) 48 ++ ds)
    else ztake 1 ds ++ decimals (zdrop 1 ds) ++ expo_text x) neg D (x - P + 1).
Proof.
  intros HP HD Hx ds. destruct (digits_shape P D HP HD) as (c & r & Hu & Hc & Hr & Hl & Hv). unfold ds. rewrite Hu. clear ds Hu.
  assert (Hcd : is_digit c = true) by (unfold is_digit; bool_solve).
  assert (Hgo : forall k ex e, 1 <= k <= P -> expo_part ex e -> e - (P - k) = x - P + 1 ->
    prints (minus_if neg ++ ztake k (c :: r) ++ decimals (zdrop k (c :: r)) ++ ex) neg D (x - P + 1)).
  { intros k ex e Hk He Hex.
    destruct (json_number_parts neg (ztake k (c :: r)) (zdrop k (c :: r)) ex e) as (m & j & Hj & Ht & Hm); [| | done |].
    - right. exists c, (ztake (k - 1) r). split_and!; try lia.
      + unfold ztake. replace (Z.to_nat k) with (S (Z.to_nat (k - 1))) by lia. done.
      + unfold ztake. rewrite <- (take_drop (Z.to_nat (k - 1)) r), forallb_app in Hr. by apply andb_true_iff in Hr as [Hr _].
    - assert (Hall : forallb is_digit (c :: r) = true) by (cbn; by rewrite Hcd).
      unfold zdrop. rewrite <- (take_drop (Z.to_nat k) (c :: r)), forallb_app in Hall. by apply andb_true_iff in Hall as [_ Hall].
    - assert (Hz : zlen (zdrop k (c :: r)) = P - k).
      { unfold zdrop, zlen in *. rewrite length_drop. cbn [length]. lia. }
      exists m, j. split; [done |]. rewrite Ht, Hz, Hex. split; [done |]. rewrite <- Hm. unfold ztake, zdrop. by rewrite take_drop. }
  destruct ((-4 <=? x) && (x <? P)) eqn:E1; [destruct (0 <=? x) eqn:E2 |]; bool_facts.
  - specialize (Hgo (x + 1) [] 0 ltac:(lia) expo_none ltac:(lia)). by rewrite app_nil_r in Hgo.
  - destruct (json_number_parts neg [48] (replicate (Z.to_nat (- x - 1)) 48 ++ c :: r) [] 0) as (m & j & Hj & Ht & Hm).
    + by left.
    + rewrite forallb_app, zeros_digits. cbn. by rewrite Hcd.
    + apply expo_none.
    + rewrite app_nil_r in Ht. exists m, j. split; [done |]. split.
      * rewrite Ht. do 2 f_equal. rewrite zlen_app, zlen_replicate, zlen_cons. lia.
      * rewrite <- Hm, !decimal_app, decimal_zeros, Hv. change (decimal [48]) with 0. lia.
  - apply (Hgo 1 (expo_text x) x); [lia | by apply expo_text_part | lia].
Qed.

Lemma ratio_bounds v : let '(n, d) := f64_ratio v in 0 < d < 10 ^ 400 /\ 0 <= n < 10 ^ 400.
Proof.
  pose proof (f64_expo_range v) as He. pose proof (f64_frac_range v) as Hf. unfold f64_ratio.
  assert (H1 : 2 ^ 53 * 2 ^ 1074 < 10 ^ 400) by (vm_compute; reflexivity).
  assert (Hp : forall z, z <= 1074 -> 2 ^ z <= 2 ^ 1074) by (intros; apply Z.pow_le_mono_r; lia).
  assert (Hm : 0 <= (if f64_expo v =? 0 then f64_frac v else 2 ^ 52 + f64_frac v) < 2 ^ 53)
    by (change (2 ^ 53) with (2 * 2 ^ 52); destruct (f64_expo v =? 0); lia).
  set (m := if f64_expo v =? 0 then _ else _) in *. clearbody m.
  set (x := (if f64_expo v =? 0 then 1 else f64_expo v) - 1075).
  assert (Hx : -1074 <= x <= 1074) by (unfold x; destruct (f64_expo v =? 0) eqn:E; bool_facts; lia). clearbody x.
  destruct (0 <=? x) eqn:E; bool_facts.
  - pose proof (Z.pow_pos_nonneg 2 x ltac:(lia) ltac:(lia)). specialize (Hp x ltac:(lia)). nia.
  - pose proof (Z.pow_pos_nonneg 2 (- x) ltac:(lia) ltac:(lia)). specialize (Hp (- x) ltac:(lia)). nia.
Qed.

Lemma printf_g_value P v :
  1 <= P <= 19 ->
  let '(n, d) := f64_ratio v in
  (exists m e, json_number (printf_g P v) = Some (f64_neg v, m, e) /\ num_near P m e n d) /\
  (n mod d = 0 -> n < 10 ^ P * d -> exists m e, json_number (printf_g P v) = Some (f64_neg v, m, e) /\ num_exact m e n d).
Proof.
  intros HP. pose proof (ratio_bounds v) as Hb. unfold printf_g. destruct (f64_ratio v) as [n d]. destruct Hb as [Hd Hn].
  destruct (n =? 0) eqn:En; bool_facts.
  - assert (Hj : json_number (minus_if (f64_neg v) ++ [48]) = Some (f64_neg v, 0, 0)) by (by destruct (f64_neg v)).
    rewrite Hj. subst n. split; [| intros _ _]; exists 0, 0; (split; [done |]); unfold num_near, num_exact; cbn; lia.
  - pose proof (round_digits_spec P n d ltac:(lia) ltac:(lia) ltac:(lia) ltac:(nia) ltac:(nia)) as Hr.
    destruct (round_digits P n d) as [D x]. destruct Hr as (HD & Hx & Hnear & Hex).
    pose proof (printf_digits (f64_neg v) P D x HP HD ltac:(lia)) as Hp. cbv zeta in Hp. split.
    + by eapply prints_near.
    + intros Hw Hlt. eapply prints_exact; [exact Hp |]. by apply Hex.
Qed.

Lemma append_double_number v :
  let w := if f64_finite v then v else f64_zero in
  let '(n, d) := f64_ratio w in
  exists m e, json_number (append_double v) = Some (f64_neg w, m, e) /\
    if (n mod d =? 0) && (n <? 10 ^ 15 * d) then num_exact m e n d else num_near (if n <? 10 ^ 6 * d then 6 else 15) m e n d.
Proof.
  intros w. assert (Hw : f64_finite w = true) by (unfold w; by destruct (f64_finite v) eqn:E). unfold append_double. fold w. clearbody w. clear v.
  pose proof (abs_ltb w (f64_of_Z 1000000) (10 ^ 6) Hw eq_refl eq_refl eq_refl) as H6.
  pose proof (abs_ltb w (f64_of_Z 1000000000000000) (10 ^ 15) Hw eq_refl eq_refl eq_refl) as H15.
  pose proof (printf_g_value 6 w ltac:(lia)) as G6. pose proof (printf_g_value 15 w ltac:(lia)) as G15.
  pose proof (ratio_bounds w) as Hb. unfold f64_whole, printf_0f. rewrite H6, H15.
  destruct (f64_ratio w) as [n d]. destruct Hb as [Hd Hn]. destruct G6 as [N6 X6]. destruct G15 as [N15 X15].
  destruct (n mod d =? 0) eqn:Ewh, (n <? 10 ^ 6 * d) eqn:E6; cbn [andb]; bool_facts; try done.
  - rewrite (proj2 (Z.ltb_lt n (10 ^ 15 * d))) by lia. by apply X6.
  - destruct (n <? 10 ^ 15 * d) eqn:E15; bool_facts; [| done].
    destruct (div_even_spec n d ltac:(lia)) as (_ & A2 & A3 & _). specialize (A2 Ewh). set (q := div_even n d) in *. clearbody q.
    assert (Hq : 10 ^ 6 <= q < 10 ^ 15) by (split; [apply A3; lia | nia]).
    destruct (u64_text_head q ltac:(lia)) as (c & r & Hu & Hc & Hr).
    destruct (json_number_parts (f64_neg w) (u64_text q) [] [] 0 ltac:(right; by exists c, r) eq_refl expo_none) as (m & j & Hj & Ht & Hm).
    change (decimals [] ++ []) with (@nil Z) in Ht. rewrite app_nil_r in Ht, Hm. destruct (u64_text_spec q ltac:(unfold is_uint; lia)) as (_ & _ & Hv & _).
    rewrite Hv in Hm. exists m, j. split; [by rewrite Ht |].
    apply (shift_exact m j); [done |]. replace (j - j) with 0 by lia. rewrite <- Hm. unfold num_exact.
    change (10 ^ Z.max 0 0) with 1. change (10 ^ Z.max (- 0) 0) with 1. lia.
Qed.

Lemma double_is_number v : exists neg m e, json_number (append_double v) = Some (neg, m, e).
Proof. pose proof (append_double_number v) as H. cbv zeta in H. destruct (f64_ratio _) as [n d]. destruct H as (m & e & H & _). by exists (f64_neg (if f64_finite v then v else f64_zero)), m, e. Qed.

(** C35: append_double() always writes a JSON number (RFC 8259), with the sign of
    the value: a whole number below 10^15 exactly, anything else within 5 parts
    in 10^6 below a million and 5 parts in 10^15 from there; an infinity or a
    NaN as 0. *)
Theorem append_double_value v :
  let w := if f64_finite v then v else f64_zero in
  let '(n, d) := f64_ratio w in
  exists m e, json_number (append_double v) = Some (f64_neg w, m, e) /\
    if (n mod d =? 0) && (n <? 10 ^ 15 * d) then num_exact m e n d else num_near (if n <? 10 ^ 6 * d then 6 else 15) m e n d.
Proof. apply append_double_number. Qed.
