(* ===== verification/Json.v ===== *)
(** The JSON the HTTP server writes and reads (src/web/json.h,
    src/web/json.cpp): samples, the newest sample's detail, alerts, and the one
    field of the login form.  A string is bytes; a [char[]] of the C structs is
    the bytes before its NUL.  Theorems: what is written reads back, by a
    reference reader of RFC 8259, as the tree of the values it was made from;
    json_get_string() gives back the password a client escaped. *)
From Stdlib Require Import ZArith Lia List Bool.
From stdpp Require Import base numbers list strings.
From S2P Require Import Prelude Float64 TextNum NumText Sample MetricSet JsonText HttpUtil.
Open Scope Z_scope.

(** ** Members *)

Definition comma : bytes := [44].
(** ["key":] *)
Definition key_text (key : string) : bytes := [34] ++ str key ++ [34; 58].

Definition append_kv_double (key : string) (v : f64) : bytes := key_text key ++ append_double v.
Definition append_kv_uint (key : string) (v : Z) : bytes := key_text key ++ append_uint v.
Definition append_kv_int (key : string) (v : Z) : bytes := key_text key ++ append_int v.
Definition append_kv_str (key : string) (v : bytes) : bytes := key_text key ++ [34] ++ json_escape (c_str v) ++ [34].
Definition append_kv_bool (key : string) (v : bool) : bytes := key_text key ++ (if v then str "true" else str "false").

(** The loop over the bits up to [last]; [n] bounds its turns. *)
Fixpoint names_loop (n : nat) (bits bit last : Z) (name_of : Z -> option bytes) (first : bool) : bytes :=
  match n with
  | O => []
  | S n =>
      if bit <=? last then
        match (if negb (Z.land bits bit =? 0) then name_of bit else None) with
        | None => names_loop n bits (u32 (Z.shiftl bit 1)) last name_of first
        | Some name =>
            (if first then [] else comma) ++ [34] ++ name ++ [34] ++
            names_loop n bits (u32 (Z.shiftl bit 1)) last name_of false
        end
      else []
  end.
Definition append_names (key : string) (bits : Z) (name_of : Z -> option bytes) (last : Z) : bytes :=
  key_text key ++ [91] ++ names_loop 32 bits 1 last name_of true ++ [93; 44].

(** ** A sample *)

Definition obj_open (key : string) : bytes := key_text key ++ [123].
Definition obj_close : bytes := [125; 44].

Definition cpu_json (c : CpuStats) : bytes :=
  obj_open "cpu" ++
  append_kv_double "total_percent" (cpu_total_percent c) ++ comma ++
  append_kv_uint "count" (cpu_count c) ++ comma ++
  append_kv_double "user_percent" (cpu_user_percent c) ++ comma ++
  append_kv_double "system_percent" (cpu_system_percent c) ++ comma ++
  append_kv_double "iowait_percent" (cpu_iowait_percent c) ++ comma ++
  append_kv_double "irq_percent" (cpu_irq_percent c) ++ comma ++
  append_kv_double "steal_percent" (cpu_steal_percent c) ++ comma ++
  append_kv_double "idle_percent" (cpu_idle_percent c) ++
  obj_close.

Definition mem_json (m : MemStats) : bytes :=
  obj_open "mem" ++
  append_kv_uint "total" (mem_total m) ++ comma ++
  append_kv_uint "available" (mem_available m) ++ comma ++
  append_kv_double "available_percent" (mem_available_percent m) ++
  obj_close.

Definition swap_json (s : SwapStats) : bytes :=
  obj_open "swap" ++
  append_kv_uint "total" (swap_total s) ++ comma ++
  append_kv_uint "used" (swap_used s) ++ comma ++
  append_kv_double "used_percent" (swap_used_percent s) ++
  obj_close.

Definition load_json (l : LoadStats) : bytes :=
  obj_open "load" ++
  append_kv_double "avg_1m" (load_avg_1m l) ++ comma ++
  append_kv_double "avg_5m" (load_avg_5m l) ++ comma ++
  append_kv_double "avg_15m" (load_avg_15m l) ++
  obj_close.

Definition disk_json (d : DiskStats) : bytes :=
  obj_open "disk" ++
  append_kv_uint "read_bytes_per_sec" (disk_read_bytes_per_sec d) ++ comma ++
  append_kv_uint "write_bytes_per_sec" (disk_write_bytes_per_sec d) ++ comma ++
  append_kv_uint "device_count" (disk_device_count d) ++
  obj_close.

Definition net_json (n : NetStats) : bytes :=
  obj_open "net" ++
  append_kv_uint "rx_bytes_per_sec" (net_rx_bytes_per_sec n) ++ comma ++
  append_kv_uint "tx_bytes_per_sec" (net_tx_bytes_per_sec n) ++ comma ++
  append_kv_uint "interface_count" (net_interface_count n) ++
  obj_close.

Definition proc_json (p : ProcessStats) : bytes :=
  obj_open "proc" ++
  append_kv_uint "total" (proc_total p) ++ comma ++
  append_kv_uint "running" (proc_running p) ++ comma ++
  append_kv_uint "sleeping" (proc_sleeping p) ++ comma ++
  append_kv_uint "blocked" (proc_blocked p) ++ comma ++
  append_kv_uint "stopped" (proc_stopped p) ++ comma ++
  append_kv_uint "zombie" (proc_zombie p) ++ comma ++
  append_kv_uint "threads" (proc_threads p) ++
  obj_close.

Definition entropy_json (e : EntropyStats) : bytes :=
  obj_open "entropy" ++
  append_kv_uint "available_bits" (entropy_available_bits e) ++ comma ++
  append_kv_bool "present" (entropy_present e) ++
  obj_close.

Definition self_json (s : SelfStats) : bytes :=
  obj_open "self" ++
  append_kv_uint "rss_bytes" (self_rss_bytes s) ++ comma ++
  append_kv_uint "peak_rss_bytes" (self_peak_rss_bytes s) ++ comma ++
  append_kv_double "cpu_user_seconds" (self_cpu_user_seconds s) ++ comma ++
  append_kv_double "cpu_system_seconds" (self_cpu_system_seconds s) ++
  obj_close.

Definition thermal_json (t : ThermalStats) : bytes :=
  obj_open "thermal" ++
  append_kv_double "max_celsius" (thermal_max_celsius t) ++ comma ++
  append_kv_uint "sensor_count" (thermal_sensor_count t) ++ comma ++
  append_kv_bool "present" (thermal_present t) ++
  obj_close.

Definition file_watch_json (f : FileWatchSample) : bytes :=
  obj_open "file_watch" ++
  append_kv_uint "events_this_tick" (file_watch_events_this_tick f) ++ comma ++
  append_kv_uint "watched_count" (file_watch_watched_count f) ++ comma ++
  append_kv_bool "present" (file_watch_present f) ++
  obj_close.

Definition tcp_json (t : TcpStats) : bytes :=
  obj_open "tcp" ++
  append_kv_uint "established" (tcp_established t) ++ comma ++
  append_kv_uint "time_wait" (tcp_time_wait t) ++ comma ++
  append_kv_double "active_opens_per_sec" (tcp_active_opens_per_sec t) ++ comma ++
  append_kv_double "passive_opens_per_sec" (tcp_passive_opens_per_sec t) ++ comma ++
  append_kv_double "retransmits_per_sec" (tcp_retransmits_per_sec t) ++ comma ++
  append_kv_double "in_segments_per_sec" (tcp_in_segments_per_sec t) ++ comma ++
  append_kv_double "out_segments_per_sec" (tcp_out_segments_per_sec t) ++ comma ++
  append_kv_double "in_errors_per_sec" (tcp_in_errors_per_sec t) ++ comma ++
  append_kv_bool "present" (tcp_present t) ++
  obj_close.

Definition udp_json (u : UdpStats) : bytes :=
  obj_open "udp" ++
  append_kv_double "in_datagrams_per_sec" (udp_in_datagrams_per_sec u) ++ comma ++
  append_kv_double "out_datagrams_per_sec" (udp_out_datagrams_per_sec u) ++ comma ++
  append_kv_double "no_port_per_sec" (udp_no_port_per_sec u) ++ comma ++
  append_kv_double "in_errors_per_sec" (udp_in_errors_per_sec u) ++ comma ++
  append_kv_bool "present" (udp_present u) ++
  obj_close.

Definition icmp_json (i : IcmpStats) : bytes :=
  obj_open "icmp" ++
  append_kv_double "in_msgs_per_sec" (icmp_in_msgs_per_sec i) ++ comma ++
  append_kv_double "out_msgs_per_sec" (icmp_out_msgs_per_sec i) ++ comma ++
  append_kv_double "in_errors_per_sec" (icmp_in_errors_per_sec i) ++ comma ++
  append_kv_double "in_dest_unreachs_per_sec" (icmp_in_dest_unreachs_per_sec i) ++ comma ++
  append_kv_bool "present" (icmp_present i) ++
  obj_close.

Definition fs_json (f : FsStats) : bytes :=
  obj_open "fs" ++
  append_kv_uint "count" (fs_count f) ++ comma ++
  append_kv_double "max_used_percent" (fs_max_used_percent f) ++ comma ++
  append_kv_double "max_inodes_used_percent" (fs_max_inodes_used_percent f) ++ comma ++
  append_kv_bool "present" (fs_present f) ++
  obj_close.

Definition clock_json (c : ClockStats) : bytes :=
  obj_open "clock" ++
  append_kv_double "offset_ms" (clock_offset_ms c) ++ comma ++
  append_kv_double "max_error_ms" (clock_max_error_ms c) ++ comma ++
  append_kv_bool "synced" (clock_synced c) ++ comma ++
  append_kv_bool "present" (clock_present c) ++
  obj_close.

Definition sample_to_json (s : Sample) : bytes :=
  [123] ++
  append_kv_uint "ts" (timestamp_nanos s) ++ comma ++
  append_kv_int "level" (level s) ++ comma ++
  (if folded s then key_text "folded" ++ str "true," else []) ++
  append_names "groups" (groups s) metric_group_name kGroupsAll ++
  (if negb (baseline s =? 0) then append_names "baseline" (baseline s) metric_group_name kGroupsAll else []) ++
  cpu_json (cpu s) ++ mem_json (mem s) ++ swap_json (swap s) ++ load_json (load s) ++ disk_json (disk s) ++
  net_json (net s) ++ proc_json (proc s) ++ entropy_json (entropy s) ++ self_json (self_ s) ++
  thermal_json (thermal s) ++ file_watch_json (file_watch s) ++ tcp_json (tcp s) ++ udp_json (udp s) ++
  icmp_json (icmp s) ++ fs_json (fs s) ++ clock_json (clock s) ++
  append_kv_double "uptime_seconds" (uptime_seconds s) ++
  [125].

(** ** The detail of the newest sample *)

(** The structs of src/core/sample_c.h, the lists as far as they are filled. *)
Record budyk_core_c := mk_core_c {
  co_total_percent : f64; co_user_percent : f64; co_system_percent : f64; co_iowait_percent : f64;
  co_irq_percent : f64; co_steal_percent : f64; co_idle_percent : f64; co_id : Z
}.
Record budyk_disk_dev_c := mk_disk_dev_c {
  dk_name : bytes; dk_read_bytes_per_sec : Z; dk_write_bytes_per_sec : Z;
  dk_reads_per_sec : f64; dk_writes_per_sec : f64; dk_busy_percent : f64
}.
Record budyk_iface_c := mk_iface_c {
  if_name : bytes; if_rx_bytes_per_sec : Z; if_tx_bytes_per_sec : Z; if_rx_packets_per_sec : f64;
  if_tx_packets_per_sec : f64; if_rx_errors_per_sec : f64; if_tx_errors_per_sec : f64; if_rx_drops_per_sec : f64; if_up : Z
}.
Record budyk_mount_c := mk_mount_c {
  mo_mount : bytes; mo_type : bytes; mo_device : bytes; mo_total_bytes : Z; mo_used_bytes : Z; mo_avail_bytes : Z;
  mo_used_percent : f64; mo_inodes_total : Z; mo_inodes_used : Z; mo_inodes_used_percent : f64
}.
Record budyk_process_c := mk_process_c {
  pr_pid : Z; pr_name : bytes; pr_state : Z; pr_threads : Z; pr_cpu_percent : f64; pr_rss_bytes : Z
}.
Record budyk_detail_c := mk_detail_c {
  collected : Z; d_baseline : Z; cores : list budyk_core_c; disks : list budyk_disk_dev_c; ifaces : list budyk_iface_c;
  mounts : list budyk_mount_c; procs : list budyk_process_c
}.

Definition core_json (c : budyk_core_c) : bytes :=
  [123] ++
  append_kv_uint "id" (co_id c) ++ comma ++
  append_kv_double "total_percent" (co_total_percent c) ++ comma ++
  append_kv_double "user_percent" (co_user_percent c) ++ comma ++
  append_kv_double "system_percent" (co_system_percent c) ++ comma ++
  append_kv_double "iowait_percent" (co_iowait_percent c) ++ comma ++
  append_kv_double "irq_percent" (co_irq_percent c) ++ comma ++
  append_kv_double "steal_percent" (co_steal_percent c) ++ comma ++
  append_kv_double "idle_percent" (co_idle_percent c) ++
  [125].

Definition disk_dev_json (x : budyk_disk_dev_c) : bytes :=
  [123] ++
  append_kv_str "name" (dk_name x) ++ comma ++
  append_kv_uint "read_bytes_per_sec" (dk_read_bytes_per_sec x) ++ comma ++
  append_kv_uint "write_bytes_per_sec" (dk_write_bytes_per_sec x) ++ comma ++
  append_kv_double "reads_per_sec" (dk_reads_per_sec x) ++ comma ++
  append_kv_double "writes_per_sec" (dk_writes_per_sec x) ++ comma ++
  append_kv_double "busy_percent" (dk_busy_percent x) ++
  [125].

Definition iface_json (x : budyk_iface_c) : bytes :=
  [123] ++
  append_kv_str "name" (if_name x) ++ comma ++
  append_kv_uint "rx_bytes_per_sec" (if_rx_bytes_per_sec x) ++ comma ++
  append_kv_uint "tx_bytes_per_sec" (if_tx_bytes_per_sec x) ++ comma ++
  append_kv_double "rx_packets_per_sec" (if_rx_packets_per_sec x) ++ comma ++
  append_kv_double "tx_packets_per_sec" (if_tx_packets_per_sec x) ++ comma ++
  append_kv_double "rx_errors_per_sec" (if_rx_errors_per_sec x) ++ comma ++
  append_kv_double "tx_errors_per_sec" (if_tx_errors_per_sec x) ++ comma ++
  append_kv_double "rx_drops_per_sec" (if_rx_drops_per_sec x) ++ comma ++
  append_kv_bool "up" (negb (if_up x =? 0)) ++
  [125].

Definition mount_json (x : budyk_mount_c) : bytes :=
  [123] ++
  append_kv_str "mount" (mo_mount x) ++ comma ++
  append_kv_str "type" (mo_type x) ++ comma ++
  append_kv_str "device" (mo_device x) ++ comma ++
  append_kv_uint "total_bytes" (mo_total_bytes x) ++ comma ++
  append_kv_uint "used_bytes" (mo_used_bytes x) ++ comma ++
  append_kv_uint "avail_bytes" (mo_avail_bytes x) ++ comma ++
  append_kv_double "used_percent" (mo_used_percent x) ++ comma ++
  append_kv_uint "inodes_total" (mo_inodes_total x) ++ comma ++
  append_kv_uint "inodes_used" (mo_inodes_used x) ++ comma ++
  append_kv_double "inodes_used_percent" (mo_inodes_used_percent x) ++
  [125].

Definition process_json (p : budyk_process_c) : bytes :=
  let state := [pr_state p] in
  [123] ++
  append_kv_int "pid" (pr_pid p) ++ comma ++
  append_kv_str "name" (pr_name p) ++ comma ++
  append_kv_str "state" state ++ comma ++
  append_kv_uint "threads" (pr_threads p) ++ comma ++
  append_kv_double "cpu_percent" (pr_cpu_percent p) ++ comma ++
  append_kv_uint "rss_bytes" (pr_rss_bytes p) ++
  [125].

(** The loops that put a comma before every element but the first. *)
Definition commas (l : list bytes) : bytes :=
  match l with [] => [] | x :: l => x ++ flat_map (fun y => comma ++ y) l end.
Definition arr_open (key : string) : bytes := key_text key ++ [91].
Definition arr_close : bytes := [93; 44].

Definition detail_to_json (d : budyk_detail_c) : bytes :=
  [123] ++
  append_names "collected" (collected d) metric_detail_name kDetailAll ++
  (if negb (d_baseline d =? 0) then append_names "baseline" (d_baseline d) metric_detail_name kDetailAll else []) ++
  arr_open "cores" ++ commas (map core_json (cores d)) ++ arr_close ++
  arr_open "disks" ++ commas (map disk_dev_json (disks d)) ++ arr_close ++
  arr_open "interfaces" ++ commas (map iface_json (ifaces d)) ++ arr_close ++
  arr_open "filesystems" ++ commas (map mount_json (mounts d)) ++ arr_close ++
  arr_open "processes" ++ commas (map process_json (procs d)) ++ [93; 125].

(** ** The bodies *)

Definition samples_to_json (samples : list Sample) (detail_json : option bytes) : bytes :=
  [123] ++ append_kv_uint "count" (zlen samples) ++ comma ++
  key_text "samples" ++ [91] ++ commas (map sample_to_json samples) ++ [93] ++
  (match detail_json with
   | Some (x :: r) => comma ++ key_text "detail" ++ x :: r
   | _ => []
   end) ++ [125; 10].

(** [AlertEvent] of src/core/alert_event.h *)
Record AlertEvent := mkAlertEvent { ts_ns : Z; severity : bytes; rule : bytes; message : bytes }.

Definition alert_json (a : AlertEvent) : bytes :=
  [123] ++
  append_kv_uint "ts" (ts_ns a) ++ comma ++
  append_kv_str "severity" (severity a) ++ comma ++
  append_kv_str "rule" (rule a) ++ comma ++
  append_kv_str "message" (message a) ++
  [125].

Definition alerts_to_json (alerts : list AlertEvent) : bytes :=
  [123] ++ append_kv_uint "count" (zlen alerts) ++ comma ++
  key_text "alerts" ++ [91] ++ commas (map alert_json alerts) ++ [93; 125; 10].

(** ** The login form's field *)

Definition json_blank (c : Z) : bool := (c =? 32) || (c =? 9) || (c =? 10) || (c =? 13).

(** [s.find(needle, p)] *)
Fixpoint starts_with (needle s : bytes) : bool :=
  match needle, s with
  | [], _ => true
  | _, [] => false
  | x :: needle, y :: s => (x =? y) && starts_with needle s
  end.
Fixpoint find_sub (needle s : bytes) : option Z :=
  if starts_with needle s then Some 0
  else match s with [] => None | _ :: s => option_map (Z.add 1) (find_sub needle s) end.

(** The two loops over blanks, down from [before] and up from [after]. *)
Fixpoint back_over (fuel : nat) (body : bytes) (before : Z) : Z :=
  match fuel with
  | O => before
  | S fuel => if (0 <? before) && json_blank (znth 0 body (before - 1)) then back_over fuel body (before - 1) else before
  end.
Fixpoint over_blanks (fuel : nat) (body : bytes) (after : Z) : Z :=
  match fuel with
  | O => after
  | S fuel => if (after <? zlen body) && json_blank (znth 0 body after) then over_blanks fuel body (after + 1) else after
  end.

(** The key's place: the colon after it. *)
Fixpoint find_colon (fuel : nat) (body needle : bytes) (kpos : Z) : option Z :=
  match fuel with
  | O => None
  | S fuel =>
      match find_sub needle (zdrop kpos body) with
      | None => None
      | Some k =>
          let kpos := kpos + k in
          let before := back_over (length body) body kpos in
          let after := over_blanks (length body) body (kpos + zlen needle) in
          let c := znth 0 body (before - 1) in
          if ((before =? 0) || (c =? 123) || (c =? 44)) && (after <? zlen body) && (znth 0 body after =? 58)
          then Some after else find_colon fuel body needle (kpos + 1)
      end
  end.

(** The closing quote; past the end when there is none. *)
Fixpoint find_close (fuel : nat) (body : bytes) (close : Z) : Z :=
  match fuel with
  | O => close
  | S fuel =>
      if close <? zlen body then
        if znth 0 body close =? 92 then find_close fuel body (close + 2)
        else if znth 0 body close =? 34 then close
        else find_close fuel body (close + 1)
      else close
  end.

(** [None] is [false]; [*out] is only written with [true]. *)
Definition json_get_string (body : bytes) (key : bytes) : option bytes :=
  match find_colon (S (length body)) body ([34] ++ c_str key ++ [34]) 0 with
  | None => None
  | Some colon =>
      let open_ := over_blanks (length body) body (colon + 1) in
      if (zlen body <=? open_) || negb (znth 0 body open_ =? 34) then None
      else
        let close := find_close (length body) body (open_ + 1) in
        if zlen body <=? close then None
        else Some (json_unescape (slice (open_ + 1) (close - open_ - 1) body))
  end.

Definition q (s : string) : bytes := [34] ++ str s ++ [34].
Example json_get_string_ex :
  json_get_string ([123] ++ q "user" ++ [58] ++ q "password" ++ [44; 32] ++ q "password" ++ [32; 58; 32] ++ q "abc" ++ [125]) (str "password")
    = Some (str "abc") /\
  json_get_string ([123] ++ q "password" ++ [58] ++ str "12" ++ [125]) (str "password") = None.
Proof. vm_compute. auto. Qed.

(** The key is taken where it stands in the text, in an inner object too. *)
Example json_get_string_nested :
  json_get_string ([123] ++ q "x" ++ [58; 123] ++ q "password" ++ [58] ++ q "inner" ++ [125; 44] ++ q "password" ++ [58] ++ q "outer" ++ [125])
    (str "password") = Some (str "inner").
Proof. vm_compute. reflexivity. Qed.

(** ** A reader of JSON (RFC 8259) *)

Unset Elimination Schemes.
(** Numbers by their value, strings decoded. *)
Inductive jvalue :=
| JNum (neg : bool) (m e : Z)
| JStr (s : bytes)
| JBool (b : bool)
| JArr (l : list jvalue)
| JObj (ms : list (bytes * jvalue)).
Set Elimination Schemes.

(** The contents of a string, up to its closing quote, and what follows. *)
Fixpoint read_string (s : bytes) : option (bytes * bytes) :=
  match s with
  | [] => None
  | c :: r =>
      if c =? 34 then Some ([], r)
      else if c <? 32 then None
      else if c =? 92 then
        match r with
        | [] => None
        | x :: r => '(t, r) ← read_string r; Some (c :: x :: t, r)
        end
      else '(t, r) ← read_string r; Some (c :: t, r)
  end.

Definition num_char (c : Z) : bool := is_digit c || (c =? 43) || (c =? 45) || (c =? 46) || (c =? 69) || (c =? 101).

Fixpoint read_value (fuel : nat) (s : bytes) : option (jvalue * bytes) :=
  match fuel with
  | O => None
  | S fuel =>
      match skip_while json_blank s with
      | [] => None
      | c :: r =>
          if c =? 34 then '(t, r) ← read_string r; Some (JStr (json_unescape t), r)
          else if c =? 91 then
            match skip_while json_blank r with
            | 93 :: r => Some (JArr [], r)
            | _ => '(l, r) ← read_elems fuel r; Some (JArr l, r)
            end
          else if c =? 123 then
            match skip_while json_blank r with
            | 125 :: r => Some (JObj [], r)
            | _ => '(l, r) ← read_members fuel r; Some (JObj l, r)
            end
          else if starts_with (str "true") (c :: r) then Some (JBool true, zdrop 4 (c :: r))
          else if starts_with (str "false") (c :: r) then Some (JBool false, zdrop 5 (c :: r))
          else
            '(neg, m, e) ← json_number (take_while num_char (c :: r));
            Some (JNum neg m e, skip_while num_char (c :: r))
      end
  end
with read_elems (fuel : nat) (s : bytes) : option (list jvalue * bytes) :=
  match fuel with
  | O => None
  | S fuel =>
      '(v, r) ← read_value fuel s;
      match skip_while json_blank r with
      | [] => None
      | c :: r => if c =? 44 then '(l, r) ← read_elems fuel r; Some (v :: l, r) else if c =? 93 then Some ([v], r) else None
      end
  end
with read_members (fuel : nat) (s : bytes) : option (list (bytes * jvalue) * bytes) :=
  match fuel with
  | O => None
  | S fuel =>
      match skip_while json_blank s with
      | [] => None
      | c :: r =>
          if c =? 34 then
            '(k, r) ← read_string r;
            match skip_while json_blank r with
            | [] => None
            | c :: r =>
                if c =? 58 then
                  '(v, r) ← read_value fuel r;
                  match skip_while json_blank r with
                  | [] => None
                  | c :: r =>
                      if c =? 44 then '(l, r) ← read_members fuel r; Some ((json_unescape k, v) :: l, r)
                      else if c =? 125 then Some ([(json_unescape k, v)], r) else None
                  end
                else None
            end
          else None
      end
  end.

(** A whole text: one value and blanks. *)
Definition read_json (s : bytes) : option jvalue :=
  '(v, r) ← read_value (S (length s)) s; if forallb json_blank r then Some v else None.

Example read_json_ex :
  read_json ([123] ++ q "a" ++ [58; 32; 91; 49; 44] ++ str "true" ++ [44; 32] ++ q "x" ++ [93; 44] ++ q "b" ++ [58; 123; 125; 125; 10]) =
    Some (JObj [(str "a", JArr [JNum false 1 0; JBool true; JStr (str "x")]); (str "b", JObj [])]) /\
  read_json ([91; 49; 44; 93]) = None /\ read_json (str "01") = None.
Proof. vm_compute. auto. Qed.

(** ** What the text of a value reads as *)

(** What may follow a value. *)
Definition ends (rest : bytes) : Prop := forall x, x ∈ take 1 rest -> x ∈ [44; 93; 125; 10].

(** [reads t v]: the text [t] reads as [v] wherever it stands. *)
Definition reads (t : bytes) (v : jvalue) : Prop :=
  t <> [] /\ json_blank (znth 0 t 0) = false /\ (znth 0 t 0 <> 93) /\
  forall fuel rest, (length t <= fuel)%nat -> ends rest -> read_value fuel (t ++ rest) = Some (v, rest).

Lemma content_byte c r s : c <> 34 -> 32 <= c -> c <> 92 -> read_string r = Some s -> read_string (c :: r) = Some (c :: s.1, s.2).
Proof.
  intros H1 H2 H3 Hr. cbn [read_string]. rewrite (proj2 (Z.eqb_neq c 34)), (proj2 (Z.ltb_ge c 32)), (proj2 (Z.eqb_neq c 92)), Hr by lia.
  by destruct s.
Qed.

Lemma read_content t r : json_content t -> read_string (t ++ 34 :: r) = Some (t, r).
Proof.
  induction 1 as [| c t Hc H32 Hq Hb _ IH | e t He _ IH | h1 h2 h3 h4 t H1 H2 H3 H4 _ IH].
  - done.
  - destruct (decide (c < 128)) as [Ha | Ha].
    + rewrite append_utf8_ascii by done. cbn [app]. unfold ch_quote, ch_backslash in *. by rewrite (content_byte c _ _ Hq H32 Hb IH).
    + destruct (append_utf8_bytes c Hc ltac:(lia)) as [Hf _]. rewrite <- app_assoc.
      induction Hf as [| b l Hl _ IHl]; [done |]. cbn [app]. by rewrite (content_byte b _ _ ltac:(lia) ltac:(lia) ltac:(lia) IHl).
  - cbn [app read_string]. change (ch_backslash =? 34) with false. change (ch_backslash <? 32) with false.
    change (ch_backslash =? 92) with true. cbv iota. by rewrite IH.
  - cbn [app]. assert (Hx : forall h, is_hex h -> h <> 34 /\ 32 <= h /\ h <> 92).
    { intros h [v Hv]. unfold hex_value, in_range in Hv. repeat (case_match; bool_facts; try done; try lia). }
    pose proof (content_byte h4 _ _ ltac:(by apply Hx) ltac:(by apply Hx) ltac:(by apply Hx) IH) as I4.
    pose proof (content_byte h3 _ _ ltac:(by apply Hx) ltac:(by apply Hx) ltac:(by apply Hx) I4) as I3.
    pose proof (content_byte h2 _ _ ltac:(by apply Hx) ltac:(by apply Hx) ltac:(by apply Hx) I3) as I2.
    pose proof (content_byte h1 _ _ ltac:(by apply Hx) ltac:(by apply Hx) ltac:(by apply Hx) I2) as I1.
    change (read_string (ch_backslash :: 117 :: h1 :: h2 :: h3 :: h4 :: t ++ 34 :: r)) with
      ('(t', r') ← read_string (h1 :: h2 :: h3 :: h4 :: t ++ 34 :: r); Some (ch_backslash :: 117 :: t', r')).
    rewrite I1. done.
Qed.

Lemma reads_content t : json_content t -> reads ([34] ++ t ++ [34]) (JStr (json_unescape t)).
Proof.
  intros Ht. split_and!; [done | done | done |]. intros fuel rest Hf _. destruct fuel as [| fuel]; [cbn in Hf; lia |].
  change (read_value (S fuel) (([34] ++ t ++ [34]) ++ rest)) with
    ('(t', r) ← read_string ((t ++ [34]) ++ rest); Some (JStr (json_unescape t'), r)).
  rewrite <- app_assoc. cbn [app]. by rewrite read_content.
Qed.

Lemma reads_str s : is_bytes s -> reads ([34] ++ json_escape s ++ [34]) (JStr (utf8_sanitize s)).
Proof. intros Hs. destruct (escaped_content s Hs) as [H <-]. by apply reads_content. Qed.

Lemma reads_plain s : plain s = true -> reads ([34] ++ s ++ [34]) (JStr s).
Proof. intros Hs. destruct (plain_text s Hs) as (_ & H & Hu & _). pose proof (reads_content s H) as Hr. by rewrite Hu in Hr. Qed.

Lemma reads_bool_value (b : bool) : reads (if b then str "true" else str "false") (JBool b).
Proof. destruct b; (split_and!; [done | done | done |]); intros [| fuel] rest Hf _; try (cbn in Hf; lia); done. Qed.

(** A JSON number, made of the characters of one. *)
Definition number_text (t : bytes) : Prop :=
  forallb num_char t = true /\ (is_digit (znth 0 t 0) = true \/ znth 0 t 0 = 45).

Lemma reads_num t neg m e : number_text t -> json_number t = Some (neg, m, e) -> reads t (JNum neg m e).
Proof.
  intros [Hc H0] Hj. destruct t as [| c t]; [by destruct H0 |]. change (znth 0 (c :: t) 0) with c in H0.
  assert (Hd : 48 <= c <= 57 \/ c = 45) by (destruct H0 as [H0 |]; [unfold is_digit in H0; bool_facts; lia | lia]).
  assert (Hb : json_blank c = false) by (unfold json_blank; rewrite !(proj2 (Z.eqb_neq c _)) by lia; done).
  split; [done |]. change (znth 0 (c :: t) 0) with c. split; [done |]. split; [lia |].
  intros [| fuel] rest Hf He; [cbn in Hf; lia |]. cbn [read_value].
  replace (skip_while json_blank ((c :: t) ++ rest)) with (c :: t ++ rest) by (cbn [app skip_while]; by rewrite Hb).
  rewrite !(proj2 (Z.eqb_neq c _)) by lia. change (str "true") with [116; 114; 117; 101]. change (str "false") with [102; 97; 108; 115; 101].
  cbn [starts_with]. rewrite (proj2 (Z.eqb_neq 116 c)), (proj2 (Z.eqb_neq 102 c)) by lia. cbn [andb].
  change (c :: t ++ rest) with ((c :: t) ++ rest).
  destruct (take_while_all num_char (c :: t) rest Hc) as [-> ->]; [| by rewrite Hj].
  intros x Hx. apply He in Hx. rewrite !elem_of_cons, elem_of_nil in Hx.
  destruct Hx as [-> | [-> | [-> | [-> | []]]]]; done.
Qed.

Lemma digits_num_chars ds : forallb is_digit ds = true -> forallb num_char ds = true.
Proof.
  rewrite !forallb_forall. intros H x Hx. apply H in Hx. unfold num_char. by rewrite Hx.
Qed.

Lemma num_int_some s ds r : num_int s = Some (ds, r) -> s = ds ++ r /\ forallb is_digit ds = true /\ ds <> [].
Proof.
  unfold num_int. destruct (take_skip_while is_digit s) as [Hs Hd]. destruct (take_while is_digit s) as [| c d] eqn:E; [done |].
  destruct (_ && _); [done |]. intros [= <- <-]. by rewrite <- Hs.
Qed.

Lemma num_frac_some s fs r : num_frac s = Some (fs, r) -> exists p, s = p ++ r /\ forallb num_char p = true.
Proof.
  unfold num_frac. destruct s as [| c s]; [intros [= <- <-]; by exists [] |].
  destruct (c =? 46) eqn:E; bool_facts; [| intros [= <- <-]; by exists []]. subst.
  destruct (take_skip_while is_digit s) as [Hs Hd]. destruct (take_while is_digit s) as [| d ds] eqn:Et; [done |].
  intros [= <- <-]. exists (46 :: d :: ds). split; [by rewrite Hs at 1 |]. cbn [forallb]. by apply digits_num_chars in Hd.
Qed.

Lemma num_digits_some r e : num_digits r = Some e -> forallb num_char r = true.
Proof. unfold num_digits. destruct r as [| c r]; [done |]. destruct (forallb is_digit (c :: r)) eqn:E; [| done]. intros _. by apply digits_num_chars. Qed.

Lemma num_expo_some s e : num_expo s = Some e -> forallb num_char s = true.
Proof.
  unfold num_expo. destruct s as [| c s]; [done |]. destruct ((c =? 101) || (c =? 69)) eqn:E; [| done].
  assert (Hc : num_char c = true) by (unfold num_char; apply orb_true_iff in E as [E | E]; rewrite E; by rewrite !orb_true_r).
  destruct s as [| x s]; [done |]. cbn [forallb]. rewrite Hc.
  destruct (x =? 45) eqn:E1; [| destruct (x =? 43) eqn:E2]; bool_facts; subst; intros H.
  - destruct (num_digits s) eqn:En; [| done]. by apply num_digits_some in En.
  - by apply num_digits_some in H.
  - by apply num_digits_some in H.
Qed.

Lemma json_number_chars t x : json_number t = Some x -> number_text t.
Proof.
  unfold json_number. intros H.
  assert (Hgo : forall b s y, ('(ds, s) ← num_int s; '(fs, s) ← num_frac s; e ← num_expo s; Some (b : bool, decimal (ds ++ fs), e - zlen fs)) = Some y ->
    forallb num_char s = true /\ is_digit (znth 0 s 0) = true).
  { intros b s y Hy. destruct (num_int s) as [[ds r] |] eqn:Ei; [| done]. cbn [mbind option_bind] in Hy.
    destruct (num_frac r) as [[fs r'] |] eqn:Ef; [| done]. cbn [mbind option_bind] in Hy.
    destruct (num_expo r') as [e |] eqn:Ee; [| done].
    destruct (num_int_some _ _ _ Ei) as (-> & Hd & Hne). destruct (num_frac_some _ _ _ Ef) as (p & -> & Hp).
    rewrite !forallb_app, Hp, (num_expo_some _ _ Ee), (digits_num_chars ds Hd). split; [done |].
    destruct ds as [| c ds]; [done |]. cbn in Hd. by apply andb_true_iff in Hd as [Hd _]. }
  destruct t as [| c t]; [by apply Hgo in H as [_ H] |]. destruct (c =? 45) eqn:E; bool_facts.
  - subst. apply Hgo in H as [H _]. split; [cbn [forallb]; by rewrite H | by right].
  - apply Hgo in H as [H1 H2]. split; [done | by left].
Qed.

Lemma json_number_reads t neg m e : json_number t = Some (neg, m, e) -> reads t (JNum neg m e).
Proof. intros H. apply reads_num; [by eapply json_number_chars | done]. Qed.

(** ** Arrays and objects *)

Lemma commas_cons x y l : commas (x :: y :: l) = x ++ [44] ++ commas (y :: l).
Proof. done. Qed.

Lemma skip_blank c s : json_blank c = false -> skip_while json_blank (c :: s) = c :: s.
Proof. intros H. cbn. by rewrite H. Qed.

Lemma ends_cons c r : c ∈ [44; 93; 125; 10] -> ends (c :: r).
Proof. intros H x Hx. apply list_elem_of_singleton in Hx. by subst. Qed.

Lemma read_elems_ok ts vs : Forall2 reads ts vs -> ts <> [] -> forall fuel rest, (length (commas ts) < fuel)%nat ->
  read_elems fuel (commas ts ++ 93 :: rest) = Some (vs, rest).
Proof.
  induction 1 as [| t v ts vs Ht Hts IH]; intros Hne fuel rest Hf; [done |]. destruct Ht as (Hn & Hb & H93 & Ht).
  destruct fuel as [| fuel]; [lia |]. cbn [read_elems]. destruct ts as [| t2 ts].
  - inversion Hts; subst. unfold commas in *. cbn [flat_map] in *. rewrite app_nil_r in *.
    rewrite Ht; [done | lia | apply ends_cons; by right; left].
  - rewrite commas_cons in *. rewrite !length_app in Hf. cbn [length] in Hf. rewrite <- app_assoc, Ht; [| lia | apply ends_cons; by left].
    cbn [mbind option_bind]. rewrite <- app_assoc. change ([44] ++ commas (t2 :: ts) ++ 93 :: rest) with (44 :: commas (t2 :: ts) ++ 93 :: rest).
    rewrite skip_blank by done. change (44 =? 44) with true. cbv iota. rewrite IH; [done | done | lia].
Qed.

Lemma reads_arr ts vs : Forall2 reads ts vs -> reads ([91] ++ commas ts ++ [93]) (JArr vs).
Proof.
  intros H. split_and!; [done | done | done |]. intros [| fuel] rest Hf He; [cbn in Hf; lia |].
  cbn [app length] in Hf. rewrite length_app in Hf. cbn [length] in Hf. rewrite <- !app_assoc.
  destruct H as [| t v ts vs Ht Hts]; [done |].
  pose proof (read_elems_ok (t :: ts) (v :: vs) ltac:(by constructor) ltac:(done) fuel rest ltac:(lia)) as Hr.
  cbn [read_value app]. rewrite skip_blank by done. change (91 =? 34) with false. change (91 =? 91) with true. cbv iota.
  assert (Hhead : skip_while json_blank (commas (t :: ts) ++ 93 :: rest) = commas (t :: ts) ++ 93 :: rest /\
    znth 0 (commas (t :: ts) ++ 93 :: rest) 0 <> 93 /\ commas (t :: ts) ++ 93 :: rest <> []).
  { destruct Ht as (Hn & Hb & H93 & _). destruct t as [| c t]; [done |]. cbn [commas app]. split_and!; [by apply skip_blank | done | done]. }
  destruct Hhead as (-> & H93 & Hne).
  rewrite Hr. destruct (commas (t :: ts) ++ 93 :: rest) as [| c s]; [done |]. change (znth 0 (c :: s) 0) with c in H93.
  repeat case_match; try done; lia.
Qed.

(** A member's text and what it reads as. *)
Definition member (k : string) (t : bytes) : bytes := key_text k ++ t.
Definition reads_member (m : bytes) (kv : bytes * jvalue) : Prop :=
  exists k t, m = member k t /\ kv.1 = str k /\ plain (str k) = true /\ reads t kv.2.

Lemma read_member_key k t : plain (str k) = true -> member k t = 34 :: str k ++ 34 :: 58 :: t.
Proof. intros _. unfold member, key_text. rewrite <- !app_assoc. done. Qed.

Lemma read_members_ok ms kvs : Forall2 reads_member ms kvs -> ms <> [] -> forall fuel rest, (length (commas ms) < fuel)%nat ->
  read_members fuel (commas ms ++ 125 :: rest) = Some (kvs, rest).
Proof.
  induction 1 as [| m [k' v] ms kvs Hm Hms IH]; intros Hne fuel rest Hf; [done |].
  destruct Hm as (k & t & -> & Hk & Hp & Ht). cbn [fst snd] in *. subst k'.
  destruct Ht as (Hn & _ & _ & Ht). destruct (plain_text (str k) Hp) as (_ & Hkc & Hku & _).
  destruct fuel as [| fuel]; [lia |]. rewrite (read_member_key k t Hp) in *.
  assert (Hkey : forall s, read_members (S fuel) ((34 :: str k ++ 34 :: 58 :: t) ++ s) =
    '(v, r) ← read_value fuel (t ++ s);
    match skip_while json_blank r with
    | [] => None
    | c :: r => if c =? 44 then '(l, r) ← read_members fuel r; Some ((str k, v) :: l, r) else if c =? 125 then Some ([(str k, v)], r) else None
    end).
  { intros s. cbn [read_members]. cbn [app]. rewrite skip_blank by done. change (34 =? 34) with true. cbv iota.
    rewrite <- app_assoc. cbn [app]. rewrite (read_content _ (58 :: t ++ s) Hkc). cbn [mbind option_bind].
    rewrite skip_blank by done. change (58 =? 58) with true. cbv iota. by rewrite Hku. }
  destruct ms as [| m2 ms].
  - inversion Hms; subst. unfold commas in *. cbn [flat_map] in *. rewrite app_nil_r in *. rewrite Hkey, Ht; [done | | apply ends_cons; by right; right; left].
    cbn [length] in Hf. rewrite length_app in Hf. cbn [length] in Hf. lia.
  - rewrite commas_cons in *. rewrite <- app_assoc, Hkey. rewrite !length_app in Hf. cbn [length] in Hf. rewrite length_app in Hf. cbn [length] in Hf.
    rewrite Ht; [| lia | apply ends_cons; by left]. cbn [mbind option_bind]. rewrite <- app_assoc.
    change ([44] ++ commas (m2 :: ms) ++ 125 :: rest) with (44 :: commas (m2 :: ms) ++ 125 :: rest).
    rewrite skip_blank by done. change (44 =? 44) with true. cbv iota. rewrite IH; [done | done | lia].
Qed.

Lemma reads_obj ms kvs : Forall2 reads_member ms kvs -> reads ([123] ++ commas ms ++ [125]) (JObj kvs).
Proof.
  intros H. split_and!; [done | done | done |]. intros [| fuel] rest Hf He; [cbn in Hf; lia |].
  cbn [app length] in Hf. rewrite length_app in Hf. cbn [length] in Hf. rewrite <- !app_assoc.
  destruct H as [| m kv ms kvs Hm Hms]; [done |].
  pose proof (read_members_ok (m :: ms) (kv :: kvs) ltac:(by constructor) ltac:(done) fuel rest ltac:(lia)) as Hr.
  cbn [read_value app]. rewrite skip_blank by done. change (123 =? 34) with false. change (123 =? 91) with false. change (123 =? 123) with true. cbv iota.
  destruct Hm as (k & t & -> & _ & Hp & _). rewrite (read_member_key k t Hp) in *.
  assert (Hc : exists s, commas ((34 :: str k ++ 34 :: 58 :: t) :: ms) ++ 125 :: rest = 34 :: s) by (by eexists).
  destruct Hc as [s Hs]. rewrite Hs in *. rewrite skip_blank by done. by rewrite Hr.
Qed.

(** ** The values written *)

Definition num_uint (v : Z) : jvalue := JNum false v 0.
Definition num_int (v : Z) : jvalue := JNum (v <? 0) (Z.abs v) 0.
(** The number append_double() writes, see append_double_value. *)
Definition num_double (v : f64) : jvalue :=
  match json_number (append_double v) with Some (neg, m, e) => JNum neg m e | None => JNum false 0 0 end.

Lemma json_number_digits neg v : 0 <= v < 2 ^ 64 -> json_number (minus_if neg ++ u64_text v) = Some (neg, v, 0).
Proof.
  intros Hv. destruct (Z.eq_dec v 0) as [-> | Hne]; [by destruct neg |].
  destruct (u64_text_head v ltac:(lia)) as (c & r & Hu & Hc & Hr).
  destruct (u64_text_spec v ltac:(unfold is_uint; lia)) as (_ & Hd & Hval & _). rewrite Hu in *.
  unfold json_number.
  assert (Hs : (match minus_if neg ++ c :: r with x :: s => if x =? 45 then (true, s) else (false, minus_if neg ++ c :: r) | [] => (false, []) end) =
    (neg, c :: r)) by (destruct neg; cbn [minus_if app]; [done | by rewrite (proj2 (Z.eqb_neq c 45)) by lia]).
  rewrite Hs. unfold NumText.num_int.
  destruct (take_while_all is_digit (c :: r) [] Hd) as [Ht Hk]; [intros x Hx; by apply elem_of_nil in Hx |]. rewrite app_nil_r in Ht, Hk.
  rewrite Ht, Hk, (proj2 (Z.eqb_neq c 48)) by lia. cbn [andb mbind option_bind num_frac num_expo]. rewrite app_nil_r, Hval. done.
Qed.

Lemma reads_uint v : is_uint 64 v -> reads (append_uint v) (num_uint v).
Proof. intros Hv. apply json_number_reads. by apply (json_number_digits false). Qed.

Lemma reads_int v : - 2 ^ 63 <= v < 2 ^ 63 -> reads (append_int v) (num_int v).
Proof. intros Hv. apply json_number_reads, json_number_digits. lia. Qed.

Lemma reads_double v : reads (append_double v) (num_double v).
Proof.
  pose proof (double_is_number v) as (neg & m & e & H). unfold num_double. rewrite H. by apply json_number_reads.
Qed.

(** A member of one of the flat objects. *)
Inductive field := FDouble (v : f64) | FUint (v : Z) | FInt (v : Z) | FBool (v : bool) | FStr (s : bytes).

Definition field_text (f : field) : bytes :=
  match f with
  | FDouble v => append_double v
  | FUint v => append_uint v
  | FInt v => append_int v
  | FBool v => if v then str "true" else str "false"
  | FStr s => [34] ++ json_escape (c_str s) ++ [34]
  end.
Definition field_value (f : field) : jvalue :=
  match f with
  | FDouble v => num_double v
  | FUint v => num_uint v
  | FInt v => num_int v
  | FBool v => JBool v
  | FStr s => JStr (utf8_sanitize (c_str s))
  end.
Definition field_ok (f : field) : Prop :=
  match f with
  | FUint v => is_uint 64 v
  | FInt v => - 2 ^ 63 <= v < 2 ^ 63
  | FStr s => is_bytes s
  | _ => True
  end.

Abbreviation fields := (list (string * field)).
Definition obj_text (fs : fields) : bytes := [123] ++ commas (map (fun kf => member kf.1 (field_text kf.2)) fs) ++ [125].
Definition obj_value (fs : fields) : jvalue := JObj (map (fun kf => (str kf.1, field_value kf.2)) fs).
Definition fields_ok (fs : fields) : Prop := Forall (fun kf => field_ok kf.2) fs.
Definition plain_keys (fs : fields) : bool := forallb (fun kf => plain (str kf.1)) fs.

Lemma c_str_bytes s : is_bytes s -> is_bytes (c_str s).
Proof. induction 1 as [| c s Hc _ IH]; [constructor |]. cbn. destruct (c =? 0); by constructor. Qed.

Lemma reads_field f : field_ok f -> reads (field_text f) (field_value f).
Proof.
  destruct f; cbn [field_ok field_text field_value]; intros H;
    [apply reads_double | by apply reads_uint | by apply reads_int | apply reads_bool_value | by apply reads_str, c_str_bytes].
Qed.

Lemma obj_reads fs : plain_keys fs = true -> fields_ok fs -> reads (obj_text fs) (obj_value fs).
Proof.
  intros Hp Hok. apply reads_obj. induction Hok as [| [k f] fs Hf _ IH]; [constructor |].
  cbn in Hp. apply andb_true_iff in Hp as [Hk Hp]. cbn [map]. constructor; [| by apply IH].
  exists k, (field_text f). split_and!; [done | done | done | by apply reads_field].
Qed.

(** The names of the bits of [bits], lowest first. *)
Definition bit_names (bits : Z) (name_of : Z -> option bytes) (width : Z) : list bytes :=
  flat_map (fun i => if Z.testbit bits i then match name_of (2 ^ i) with Some n => [n] | None => [] end else []) (seqZ 0 width).
Definition names_value (bits : Z) (name_of : Z -> option bytes) (width : Z) : jvalue := JArr (map JStr (bit_names bits name_of width)).

Lemma land_pow2 a i : 0 <= i -> (Z.land a (2 ^ i) =? 0) = negb (Z.testbit a i).
Proof.
  intros Hi. destruct (Z.testbit a i) eqn:E; cbn [negb].
  - apply Z.eqb_neq. intros H. assert (Ht : Z.testbit (Z.land a (2 ^ i)) i = true) by (by rewrite Z.land_spec, E, Z.pow2_bits_true).
    by rewrite H, Z.bits_0 in Ht.
  - apply Z.eqb_eq, Z.bits_inj'. intros n Hn. rewrite Z.land_spec, Z.bits_0. destruct (Z.eq_dec i n) as [-> | Hne]; [by rewrite E |].
    rewrite Z.pow2_bits_false by done. apply andb_false_r.
Qed.

(** The text of the names after the first [k] bits. *)
Definition quoted (n : bytes) : bytes := [34] ++ n ++ [34].
Lemma names_loop_spec n bits name_of width i first :
  0 <= i <= width -> width <= 31 -> (Z.to_nat (width - i) < n)%nat ->
  names_loop n bits (2 ^ i) (2 ^ width - 1) name_of first =
  let names := flat_map (fun i => if Z.testbit bits i then match name_of (2 ^ i) with Some n => [n] | None => [] end else []) (seqZ i (width - i)) in
  if first then commas (map quoted names) else flat_map (fun y => comma ++ y) (map quoted names).
Proof.
  revert i first. induction n as [| n IH]; intros i first Hi Hw Hn; [lia |]. cbn [names_loop].
  destruct (Z.eq_dec i width) as [-> | Hne].
  - rewrite (proj2 (Z.leb_gt _ _)) by lia. rewrite Z.sub_diag. cbn. by destruct first.
  - pose proof (Z.pow_lt_mono_r 2 i width ltac:(lia) ltac:(lia) ltac:(lia)) as Hp.
    assert (Hu : u32 (Z.shiftl (2 ^ i) 1) = 2 ^ (i + 1)).
    { rewrite Z.shiftl_mul_pow2, <- Z.pow_add_r by lia. unfold u32. apply wrap_small.
      pose proof (Z.pow_lt_mono_r 2 (i + 1) 32 ltac:(lia) ltac:(lia) ltac:(lia)). unfold is_uint.
      pose proof (Z.pow_pos_nonneg 2 (i + 1)). lia. }
    rewrite (proj2 (Z.leb_le _ _)) by lia. rewrite Hu, land_pow2 by lia. rewrite negb_involutive.
    rewrite (seqZ_cons i (width - i)) by lia. cbn [flat_map].
    replace (width - i - 1) with (width - (i + 1)) by lia. replace (Z.succ i) with (i + 1) by lia. replace (Z.pred (width - i)) with (width - (i + 1)) by lia.
    destruct (Z.testbit bits i); [destruct (name_of (2 ^ i)) as [nm |] |]; rewrite IH by lia; cbn [app map commas flat_map]; [| done | done].
    destruct first; unfold comma, quoted; cbn [app]; rewrite <- ?app_assoc; cbn [app]; rewrite <- ?app_assoc; reflexivity.
Qed.

Lemma names_text key bits name_of width :
  0 <= width <= 31 -> (forall b n, name_of b = Some n -> plain n = true) -> plain (str key) = true ->
  exists m, append_names key bits name_of (2 ^ width - 1) = m ++ comma /\ reads_member m (str key, names_value bits name_of width).
Proof.
  intros Hw Hn Hk. unfold append_names. pose proof (names_loop_spec 32 bits name_of width 0 true ltac:(lia) ltac:(lia) ltac:(lia)) as H.
  change (2 ^ 0) with 1 in H. rewrite H. clear H. cbv zeta. rewrite Z.sub_0_r. fold (bit_names bits name_of width).
  exists (member key ([91] ++ commas (map quoted (bit_names bits name_of width)) ++ [93])). split.
  - unfold member. rewrite <- !app_assoc. done.
  - eexists key, _. split_and!; [done | done | done |]. apply reads_arr. unfold bit_names.
    induction (seqZ 0 width) as [| i l IH]; [constructor |]. cbn [flat_map]. rewrite !map_app. apply Forall2_app; [| done].
    destruct (Z.testbit bits i); [| constructor]. destruct (name_of (2 ^ i)) as [nm |] eqn:E; [| constructor].
    constructor; [| constructor]. apply reads_plain. by eapply Hn.
Qed.

Lemma find_name_plain {A} (l : list A) (p : A -> bool) (name : A -> bytes) n :
  forallb (fun x => plain (name x)) l = true -> match List.find p l with Some x => Some (name x) | None => None end = Some n -> plain n = true.
Proof.
  intros Hl. destruct (List.find p l) as [x |] eqn:E; [| done]. intros [= <-]. apply find_some in E as [Hx _].
  rewrite forallb_forall in Hl. by apply Hl.
Qed.

Lemma group_names_plain b n : metric_group_name b = Some n -> plain n = true.
Proof. apply find_name_plain. reflexivity. Qed.
Lemma detail_names_plain b n : metric_detail_name b = Some n -> plain n = true.
Proof. apply find_name_plain. reflexivity. Qed.

(** ** The trees of a sample, a detail and the alerts *)

Local Open Scope string_scope.
Definition cpu_fields (c : CpuStats) : fields :=
  [("total_percent", FDouble (cpu_total_percent c));
   ("count", FUint (cpu_count c));
   ("user_percent", FDouble (cpu_user_percent c));
   ("system_percent", FDouble (cpu_system_percent c));
   ("iowait_percent", FDouble (cpu_iowait_percent c));
   ("irq_percent", FDouble (cpu_irq_percent c));
   ("steal_percent", FDouble (cpu_steal_percent c));
   ("idle_percent", FDouble (cpu_idle_percent c))].
Definition mem_fields (m : MemStats) : fields :=
  [("total", FUint (mem_total m));
   ("available", FUint (mem_available m));
   ("available_percent", FDouble (mem_available_percent m))].
Definition swap_fields (s : SwapStats) : fields :=
  [("total", FUint (swap_total s));
   ("used", FUint (swap_used s));
   ("used_percent", FDouble (swap_used_percent s))].
Definition load_fields (l : LoadStats) : fields :=
  [("avg_1m", FDouble (load_avg_1m l));
   ("avg_5m", FDouble (load_avg_5m l));
   ("avg_15m", FDouble (load_avg_15m l))].
Definition disk_fields (d : DiskStats) : fields :=
  [("read_bytes_per_sec", FUint (disk_read_bytes_per_sec d));
   ("write_bytes_per_sec", FUint (disk_write_bytes_per_sec d));
   ("device_count", FUint (disk_device_count d))].
Definition net_fields (n : NetStats) : fields :=
  [("rx_bytes_per_sec", FUint (net_rx_bytes_per_sec n));
   ("tx_bytes_per_sec", FUint (net_tx_bytes_per_sec n));
   ("interface_count", FUint (net_interface_count n))].
Definition proc_fields (p : ProcessStats) : fields :=
  [("total", FUint (proc_total p));
   ("running", FUint (proc_running p));
   ("sleeping", FUint (proc_sleeping p));
   ("blocked", FUint (proc_blocked p));
   ("stopped", FUint (proc_stopped p));
   ("zombie", FUint (proc_zombie p));
   ("threads", FUint (proc_threads p))].
Definition entropy_fields (e : EntropyStats) : fields :=
  [("available_bits", FUint (entropy_available_bits e));
   ("present", FBool (entropy_present e))].
Definition self_fields (s : SelfStats) : fields :=
  [("rss_bytes", FUint (self_rss_bytes s));
   ("peak_rss_bytes", FUint (self_peak_rss_bytes s));
   ("cpu_user_seconds", FDouble (self_cpu_user_seconds s));
   ("cpu_system_seconds", FDouble (self_cpu_system_seconds s))].
Definition thermal_fields (t : ThermalStats) : fields :=
  [("max_celsius", FDouble (thermal_max_celsius t));
   ("sensor_count", FUint (thermal_sensor_count t));
   ("present", FBool (thermal_present t))].
Definition file_watch_fields (f : FileWatchSample) : fields :=
  [("events_this_tick", FUint (file_watch_events_this_tick f));
   ("watched_count", FUint (file_watch_watched_count f));
   ("present", FBool (file_watch_present f))].
Definition tcp_fields (t : TcpStats) : fields :=
  [("established", FUint (tcp_established t));
   ("time_wait", FUint (tcp_time_wait t));
   ("active_opens_per_sec", FDouble (tcp_active_opens_per_sec t));
   ("passive_opens_per_sec", FDouble (tcp_passive_opens_per_sec t));
   ("retransmits_per_sec", FDouble (tcp_retransmits_per_sec t));
   ("in_segments_per_sec", FDouble (tcp_in_segments_per_sec t));
   ("out_segments_per_sec", FDouble (tcp_out_segments_per_sec t));
   ("in_errors_per_sec", FDouble (tcp_in_errors_per_sec t));
   ("present", FBool (tcp_present t))].
Definition udp_fields (u : UdpStats) : fields :=
  [("in_datagrams_per_sec", FDouble (udp_in_datagrams_per_sec u));
   ("out_datagrams_per_sec", FDouble (udp_out_datagrams_per_sec u));
   ("no_port_per_sec", FDouble (udp_no_port_per_sec u));
   ("in_errors_per_sec", FDouble (udp_in_errors_per_sec u));
   ("present", FBool (udp_present u))].
Definition icmp_fields (i : IcmpStats) : fields :=
  [("in_msgs_per_sec", FDouble (icmp_in_msgs_per_sec i));
   ("out_msgs_per_sec", FDouble (icmp_out_msgs_per_sec i));
   ("in_errors_per_sec", FDouble (icmp_in_errors_per_sec i));
   ("in_dest_unreachs_per_sec", FDouble (icmp_in_dest_unreachs_per_sec i));
   ("present", FBool (icmp_present i))].
Definition fs_fields (f : FsStats) : fields :=
  [("count", FUint (fs_count f));
   ("max_used_percent", FDouble (fs_max_used_percent f));
   ("max_inodes_used_percent", FDouble (fs_max_inodes_used_percent f));
   ("present", FBool (fs_present f))].
Definition clock_fields (c : ClockStats) : fields :=
  [("offset_ms", FDouble (clock_offset_ms c));
   ("max_error_ms", FDouble (clock_max_error_ms c));
   ("synced", FBool (clock_synced c));
   ("present", FBool (clock_present c))].
Definition core_fields (c : budyk_core_c) : fields :=
  [("id", FUint (co_id c));
   ("total_percent", FDouble (co_total_percent c));
   ("user_percent", FDouble (co_user_percent c));
   ("system_percent", FDouble (co_system_percent c));
   ("iowait_percent", FDouble (co_iowait_percent c));
   ("irq_percent", FDouble (co_irq_percent c));
   ("steal_percent", FDouble (co_steal_percent c));
   ("idle_percent", FDouble (co_idle_percent c))].
Definition disk_dev_fields (x : budyk_disk_dev_c) : fields :=
  [("name", FStr (dk_name x));
   ("read_bytes_per_sec", FUint (dk_read_bytes_per_sec x));
   ("write_bytes_per_sec", FUint (dk_write_bytes_per_sec x));
   ("reads_per_sec", FDouble (dk_reads_per_sec x));
   ("writes_per_sec", FDouble (dk_writes_per_sec x));
   ("busy_percent", FDouble (dk_busy_percent x))].
Definition iface_fields (x : budyk_iface_c) : fields :=
  [("name", FStr (if_name x));
   ("rx_bytes_per_sec", FUint (if_rx_bytes_per_sec x));
   ("tx_bytes_per_sec", FUint (if_tx_bytes_per_sec x));
   ("rx_packets_per_sec", FDouble (if_rx_packets_per_sec x));
   ("tx_packets_per_sec", FDouble (if_tx_packets_per_sec x));
   ("rx_errors_per_sec", FDouble (if_rx_errors_per_sec x));
   ("tx_errors_per_sec", FDouble (if_tx_errors_per_sec x));
   ("rx_drops_per_sec", FDouble (if_rx_drops_per_sec x));
   ("up", FBool (negb (if_up x =? 0)%Z))].
Definition mount_fields (x : budyk_mount_c) : fields :=
  [("mount", FStr (mo_mount x));
   ("type", FStr (mo_type x));
   ("device", FStr (mo_device x));
   ("total_bytes", FUint (mo_total_bytes x));
   ("used_bytes", FUint (mo_used_bytes x));
   ("avail_bytes", FUint (mo_avail_bytes x));
   ("used_percent", FDouble (mo_used_percent x));
   ("inodes_total", FUint (mo_inodes_total x));
   ("inodes_used", FUint (mo_inodes_used x));
   ("inodes_used_percent", FDouble (mo_inodes_used_percent x))].
Definition process_fields (p : budyk_process_c) : fields :=
  [("pid", FInt (pr_pid p));
   ("name", FStr (pr_name p));
   ("state", FStr [pr_state p]);
   ("threads", FUint (pr_threads p));
   ("cpu_percent", FDouble (pr_cpu_percent p));
   ("rss_bytes", FUint (pr_rss_bytes p))].
Definition alert_fields (a : AlertEvent) : fields :=
  [("ts", FUint (ts_ns a));
   ("severity", FStr (severity a));
   ("rule", FStr (rule a));
   ("message", FStr (message a))].
Local Close Scope string_scope.

Definition sample_value (s : Sample) : jvalue :=
  JObj (
    [(str "ts", num_uint (timestamp_nanos s)); (str "level", num_int (level s))] ++
    (if folded s then [(str "folded", JBool true)] else []) ++
    [(str "groups", names_value (groups s) metric_group_name 17)] ++
    (if baseline s =? 0 then [] else [(str "baseline", names_value (baseline s) metric_group_name 17)]) ++
    [(str "cpu", obj_value (cpu_fields (cpu s)));
     (str "mem", obj_value (mem_fields (mem s)));
     (str "swap", obj_value (swap_fields (swap s)));
     (str "load", obj_value (load_fields (load s)));
     (str "disk", obj_value (disk_fields (disk s)));
     (str "net", obj_value (net_fields (net s)));
     (str "proc", obj_value (proc_fields (proc s)));
     (str "entropy", obj_value (entropy_fields (entropy s)));
     (str "self", obj_value (self_fields (self_ s)));
     (str "thermal", obj_value (thermal_fields (thermal s)));
     (str "file_watch", obj_value (file_watch_fields (file_watch s)));
     (str "tcp", obj_value (tcp_fields (tcp s)));
     (str "udp", obj_value (udp_fields (udp s)));
     (str "icmp", obj_value (icmp_fields (icmp s)));
     (str "fs", obj_value (fs_fields (fs s)));
     (str "clock", obj_value (clock_fields (clock s)));
     (str "uptime_seconds", num_double (uptime_seconds s))]).

Definition detail_value (d : budyk_detail_c) : jvalue :=
  JObj (
    [(str "collected", names_value (collected d) metric_detail_name 5)] ++
    (if d_baseline d =? 0 then [] else [(str "baseline", names_value (d_baseline d) metric_detail_name 5)]) ++
    [(str "cores", JArr (map (fun x => obj_value (core_fields x)) (cores d)));
     (str "disks", JArr (map (fun x => obj_value (disk_dev_fields x)) (disks d)));
     (str "interfaces", JArr (map (fun x => obj_value (iface_fields x)) (ifaces d)));
     (str "filesystems", JArr (map (fun x => obj_value (mount_fields x)) (mounts d)));
     (str "processes", JArr (map (fun x => obj_value (process_fields x)) (procs d)))]).

Definition samples_value (ss : list Sample) (detail : option budyk_detail_c) : jvalue :=
  JObj ([(str "count", num_uint (zlen ss)); (str "samples", JArr (map sample_value ss))] ++
        match detail with Some d => [(str "detail", detail_value d)] | None => [] end).
Definition alerts_value (alerts : list AlertEvent) : jvalue :=
  JObj [(str "count", num_uint (zlen alerts)); (str "alerts", JArr (map (fun a => obj_value (alert_fields a)) alerts))].

(** [member_of t k v]: the text [t] is a member [k] that reads as [v], and a comma. *)
Definition member_of (t : bytes) (k : bytes) (v : jvalue) : Prop := exists m, t = m ++ comma /\ reads_member m (k, v).

Lemma obj_member (t : bytes) k fs :
  t = obj_open k ++ commas (map (fun kf => member kf.1 (field_text kf.2)) fs) ++ obj_close ->
  plain (str k) = true -> plain_keys fs = true -> fields_ok fs -> member_of t (str k) (obj_value fs).
Proof.
  intros -> Hk Hp Hok. exists (member k (obj_text fs)). split.
  - unfold member, obj_text, obj_open, obj_close. rewrite <- !app_assoc. done.
  - exists k, (obj_text fs). split_and!; [done | done | done | by apply obj_reads].
Qed.

(** The text of a flat object is the one of its fields, member by member. *)
Ltac flat_text :=
  unfold cpu_json, mem_json, swap_json, load_json, disk_json, net_json, proc_json, entropy_json, self_json, thermal_json, file_watch_json, tcp_json, udp_json, icmp_json, fs_json, clock_json, core_json, disk_dev_json, iface_json, mount_json, process_json, alert_json;
  unfold cpu_fields, mem_fields, swap_fields, load_fields, disk_fields, net_fields, proc_fields, entropy_fields, self_fields, thermal_fields, file_watch_fields, tcp_fields, udp_fields, icmp_fields, fs_fields, clock_fields, core_fields, disk_dev_fields, iface_fields, mount_fields, process_fields, alert_fields;
  unfold obj_text; cbn [map commas flat_map fst snd field_text]; unfold member, comma;
  unfold append_kv_double, append_kv_uint, append_kv_int, append_kv_bool, append_kv_str;
  rewrite ?app_nil_r; rewrite <- ?app_assoc; reflexivity.

Lemma uint_mono v : is_uint 32 v -> is_uint 64 v.
Proof. apply is_uint_mono. lia. Qed.

Ltac fields_fine :=
  repeat (constructor; [cbn [snd field_ok]; first [exact I | assumption | by apply uint_mono] |]); constructor.

Lemma sample_members s :
  sample_ok s ->
  member_of (cpu_json (cpu s)) (str "cpu") (obj_value (cpu_fields (cpu s))) /\
  member_of (mem_json (mem s)) (str "mem") (obj_value (mem_fields (mem s))) /\
  member_of (swap_json (swap s)) (str "swap") (obj_value (swap_fields (swap s))) /\
  member_of (load_json (load s)) (str "load") (obj_value (load_fields (load s))) /\
  member_of (disk_json (disk s)) (str "disk") (obj_value (disk_fields (disk s))) /\
  member_of (net_json (net s)) (str "net") (obj_value (net_fields (net s))) /\
  member_of (proc_json (proc s)) (str "proc") (obj_value (proc_fields (proc s))) /\
  member_of (entropy_json (entropy s)) (str "entropy") (obj_value (entropy_fields (entropy s))) /\
  member_of (self_json (self_ s)) (str "self") (obj_value (self_fields (self_ s))) /\
  member_of (thermal_json (thermal s)) (str "thermal") (obj_value (thermal_fields (thermal s))) /\
  member_of (file_watch_json (file_watch s)) (str "file_watch") (obj_value (file_watch_fields (file_watch s))) /\
  member_of (tcp_json (tcp s)) (str "tcp") (obj_value (tcp_fields (tcp s))) /\
  member_of (udp_json (udp s)) (str "udp") (obj_value (udp_fields (udp s))) /\
  member_of (icmp_json (icmp s)) (str "icmp") (obj_value (icmp_fields (icmp s))) /\
  member_of (fs_json (fs s)) (str "fs") (obj_value (fs_fields (fs s))) /\
  member_of (clock_json (clock s)) (str "clock") (obj_value (clock_fields (clock s))).
Proof.
  intros H. unfold_sample_ok. split_hyps.
  split_and!; (apply obj_member; [flat_text | reflexivity | reflexivity | fields_fine]).
Qed.

(** A run of members, each with its comma. *)
Definition members_of (t : bytes) (kvs : list (bytes * jvalue)) : Prop :=
  exists ms, t = flat_map (fun m => m ++ comma) ms /\ Forall2 reads_member ms kvs.

Lemma members_nil : members_of [] [].
Proof. by exists []. Qed.

Lemma members_one t k v : member_of t k v -> members_of t [(k, v)].
Proof. intros (m & -> & H). exists [m]. split; [cbn; by rewrite app_nil_r | by constructor]. Qed.

Lemma members_app t1 t2 k1 k2 : members_of t1 k1 -> members_of t2 k2 -> members_of (t1 ++ t2) (k1 ++ k2).
Proof. intros (m1 & -> & H1) (m2 & -> & H2). exists (m1 ++ m2). split; [by rewrite flat_map_app | by apply Forall2_app]. Qed.

Lemma commas_last ms m : commas (ms ++ [m]) = flat_map (fun m => m ++ comma) ms ++ m.
Proof.
  induction ms as [| x ms IH]; [cbn; by rewrite app_nil_r |]. cbn [app flat_map]. rewrite <- !app_assoc, <- IH.
  destruct ms as [| y ms]; cbn [app]; by rewrite commas_cons.
Qed.

Lemma obj_of_members t kvs m kv : members_of t kvs -> reads_member m kv -> reads ([123] ++ t ++ m ++ [125]) (JObj (kvs ++ [kv])).
Proof.
  intros (ms & -> & H) Hm. rewrite (app_assoc _ m), <- commas_last. apply reads_obj. apply Forall2_app; [done |]. by constructor.
Qed.

Lemma member_one k t v : plain (str k) = true -> reads t v -> reads_member (member k t) (str k, v).
Proof. intros Hk Ht. by exists k, t. Qed.

Lemma member_comma k t v : plain (str k) = true -> reads t v -> member_of (key_text k ++ t ++ comma) (str k) v.
Proof. intros Hk Ht. exists (member k t). split; [unfold member; by rewrite app_assoc | by apply member_one]. Qed.

Lemma group_names_of key bits : plain (str key) = true -> member_of (append_names key bits metric_group_name kGroupsAll) (str key) (names_value bits metric_group_name 17).
Proof. intros Hk. apply (names_text key bits metric_group_name 17); [lia | apply group_names_plain | done]. Qed.

Lemma detail_names_of key bits : plain (str key) = true -> member_of (append_names key bits metric_detail_name kDetailAll) (str key) (names_value bits metric_detail_name 5).
Proof. intros Hk. apply (names_text key bits metric_detail_name 5); [lia | apply detail_names_plain | done]. Qed.

Lemma reads_sample s : sample_ok s -> reads (sample_to_json s) (sample_value s).
Proof.
  intros Hok. pose proof (sample_members s Hok) as Hm. repeat (let H := fresh "G" in destruct Hm as [H Hm]; apply members_one in H).
  apply members_one in Hm. unfold_sample_ok. split_hyps.
  assert (Hts : members_of (append_kv_uint "ts" (timestamp_nanos s) ++ comma) [(str "ts", num_uint (timestamp_nanos s))]).
  { unfold append_kv_uint. rewrite <- app_assoc. apply members_one, member_comma; [done | by apply reads_uint]. }
  assert (Hlv : members_of (append_kv_int "level" (level s) ++ comma) [(str "level", num_int (level s))]).
  { unfold append_kv_int. rewrite <- app_assoc. apply members_one, member_comma; [done |]. apply reads_int. ranges. }
  assert (Hfo : members_of (if folded s then key_text "folded" ++ str "true," else []) (if folded s then [(str "folded", JBool true)] else [])).
  { destruct (folded s); [| apply members_nil]. apply members_one, (member_comma "folded" (str "true")); [done | apply (reads_bool_value true)]. }
  assert (Hgr : members_of (append_names "groups" (groups s) metric_group_name kGroupsAll) [(str "groups", names_value (groups s) metric_group_name 17)])
    by (by apply members_one, group_names_of).
  assert (Hba : members_of (if negb (baseline s =? 0) then append_names "baseline" (baseline s) metric_group_name kGroupsAll else [])
    (if baseline s =? 0 then [] else [(str "baseline", names_value (baseline s) metric_group_name 17)])).
  { destruct (baseline s =? 0); cbn [negb]; [apply members_nil | by apply members_one, group_names_of]. }
  assert (Hup : reads_member (append_kv_double "uptime_seconds" (uptime_seconds s)) (str "uptime_seconds", num_double (uptime_seconds s)))
    by (apply member_one; [done | apply reads_double]).
  pose proof (members_app _ _ _ _ Hts (members_app _ _ _ _ Hlv (members_app _ _ _ _ Hfo (members_app _ _ _ _ Hgr (members_app _ _ _ _ Hba
    (members_app _ _ _ _ G (members_app _ _ _ _ G0 (members_app _ _ _ _ G1 (members_app _ _ _ _ G2 (members_app _ _ _ _ G3
    (members_app _ _ _ _ G4 (members_app _ _ _ _ G5 (members_app _ _ _ _ G6 (members_app _ _ _ _ G7 (members_app _ _ _ _ G8
    (members_app _ _ _ _ G9 (members_app _ _ _ _ G10 (members_app _ _ _ _ G11 (members_app _ _ _ _ G12 (members_app _ _ _ _ G13 Hm)))))))))))))))))))) as Hall.
  pose proof (obj_of_members _ _ _ _ Hall Hup) as Hr. unfold sample_to_json. rewrite <- !app_assoc in Hr.
  unfold sample_value. destruct (folded s), (baseline s =? 0); exact Hr.
Qed.

Lemma arr_reads {A} (text : A -> bytes) (fs : A -> fields) (l : list A) :
  (forall x, text x = obj_text (fs x)) -> (forall x, plain_keys (fs x) = true) -> Forall (fun x => fields_ok (fs x)) l ->
  reads ([91] ++ commas (map text l) ++ [93]) (JArr (map (fun x => obj_value (fs x)) l)).
Proof.
  intros Ht Hp Hok. apply reads_arr. induction Hok as [| x l Hx _ IH]; [constructor |]. cbn [map].
  constructor; [rewrite Ht; by apply obj_reads | done].
Qed.

Lemma arr_member {A} key (text : A -> bytes) (fs : A -> fields) (l : list A) :
  plain (str key) = true -> (forall x, text x = obj_text (fs x)) -> (forall x, plain_keys (fs x) = true) ->
  Forall (fun x => fields_ok (fs x)) l ->
  members_of (arr_open key ++ commas (map text l) ++ arr_close) [(str key, JArr (map (fun x => obj_value (fs x)) l))].
Proof.
  intros Hk Ht Hp Hok. apply members_one. exists (member key ([91] ++ commas (map text l) ++ [93])). split.
  - unfold member, arr_open, arr_close. rewrite <- !app_assoc. done.
  - apply member_one; [done |]. by apply arr_reads.
Qed.

(** Every number of the detail in its width, every name bytes. *)
Definition detail_ok (d : budyk_detail_c) : Prop :=
  Forall (fun x => fields_ok (core_fields x)) (cores d) /\ Forall (fun x => fields_ok (disk_dev_fields x)) (disks d) /\
  Forall (fun x => fields_ok (iface_fields x)) (ifaces d) /\ Forall (fun x => fields_ok (mount_fields x)) (mounts d) /\
  Forall (fun x => fields_ok (process_fields x)) (procs d).
Definition alerts_ok (l : list AlertEvent) : Prop := Forall (fun x => fields_ok (alert_fields x)) l.

#[export] Instance field_ok_dec f : Decision (field_ok f).
Proof. destruct f; apply _. Defined.
#[export] Instance fields_ok_dec fs : Decision (fields_ok fs).
Proof. unfold fields_ok. apply _. Defined.
#[export] Instance detail_ok_dec d : Decision (detail_ok d).
Proof. unfold detail_ok. apply _. Defined.
#[export] Instance alerts_ok_dec l : Decision (alerts_ok l).
Proof. unfold alerts_ok. apply _. Defined.

Lemma reads_detail d : detail_ok d -> reads (detail_to_json d) (detail_value d).
Proof.
  intros (Hc & Hd & Hi & Hm & Hp).
  assert (G0 : members_of (append_names "collected" (collected d) metric_detail_name kDetailAll) [(str "collected", names_value (collected d) metric_detail_name 5)])
    by (by apply members_one, detail_names_of).
  assert (G1 : members_of (if negb (d_baseline d =? 0) then append_names "baseline" (d_baseline d) metric_detail_name kDetailAll else [])
    (if d_baseline d =? 0 then [] else [(str "baseline", names_value (d_baseline d) metric_detail_name 5)])).
  { destruct (d_baseline d =? 0); cbn [negb]; [apply members_nil | by apply members_one, detail_names_of]. }
  assert (G2 := arr_member "cores" core_json core_fields (cores d) eq_refl ltac:(intros; flat_text) ltac:(reflexivity) Hc).
  assert (G3 := arr_member "disks" disk_dev_json disk_dev_fields (disks d) eq_refl ltac:(intros; flat_text) ltac:(reflexivity) Hd).
  assert (G4 := arr_member "interfaces" iface_json iface_fields (ifaces d) eq_refl ltac:(intros; flat_text) ltac:(reflexivity) Hi).
  assert (G5 := arr_member "filesystems" mount_json mount_fields (mounts d) eq_refl ltac:(intros; flat_text) ltac:(reflexivity) Hm).
  assert (G6 := member_one "processes" _ _ eq_refl (arr_reads process_json process_fields (procs d) ltac:(intros; flat_text) ltac:(reflexivity) Hp)).
  pose proof (members_app _ _ _ _ G0 (members_app _ _ _ _ G1 (members_app _ _ _ _ G2 (members_app _ _ _ _ G3 (members_app _ _ _ _ G4 G5))))) as Hall.
  pose proof (obj_of_members _ _ _ _ Hall G6) as Hr. unfold detail_to_json. unfold member, arr_open in *. rewrite <- !app_assoc in Hr.
  unfold detail_value. destruct (d_baseline d =? 0); exact Hr.
Qed.

Lemma read_json_reads t v : reads t v -> read_json (t ++ [10]) = Some v.
Proof.
  intros (_ & _ & _ & H). unfold read_json. rewrite H; [done | rewrite length_app; lia | apply ends_cons; by right; right; right; left].
Qed.

Lemma reads_samples ss (d : option budyk_detail_c) :
  zlen ss < 2 ^ 64 -> Forall sample_ok ss -> match d with Some d => detail_ok d | None => True end ->
  read_json (samples_to_json ss (detail_to_json <$> d)) = Some (samples_value ss d).
Proof.
  intros Hl Hss Hd.
  assert (Ha : reads ([91] ++ commas (map sample_to_json ss) ++ [93]) (JArr (map sample_value ss))).
  { apply reads_arr. clear Hl. induction Hss as [| s ss Hs _ IH]; [constructor |]. constructor; [by apply reads_sample | done]. }
  assert (Hn : is_uint 64 (zlen ss)) by (pose proof (zlen_nonneg ss); unfold is_uint; lia).
  assert (G0 : members_of (append_kv_uint "count" (zlen ss) ++ comma) [(str "count", num_uint (zlen ss))]).
  { unfold append_kv_uint. rewrite <- app_assoc. apply members_one, member_comma; [done | by apply reads_uint]. }
  destruct d as [d |]; cbn [fmap option_fmap option_map].
  - assert (G1 := members_one _ _ _ (member_comma "samples" _ _ eq_refl Ha)).
    pose proof (obj_of_members _ _ _ _ (members_app _ _ _ _ G0 G1) (member_one "detail" _ _ eq_refl (reads_detail d Hd))) as Hr.
    apply read_json_reads in Hr. unfold samples_value. cbn [app] in *. rewrite <- Hr. f_equal. unfold samples_to_json, member.
    assert (He : exists x r, detail_to_json d = x :: r) by (by eexists _, _). destruct He as (x & r & He). rewrite He.
    repeat (rewrite <- ?app_assoc; cbn [app]). done.
  - pose proof (obj_of_members _ _ _ _ G0 (member_one "samples" _ _ eq_refl Ha)) as Hr.
    apply read_json_reads in Hr. unfold samples_value. cbn [app] in *. rewrite <- Hr. f_equal. unfold samples_to_json, member.
    repeat (rewrite <- ?app_assoc; cbn [app]). done.
Qed.

Lemma reads_alerts l : zlen l < 2 ^ 64 -> alerts_ok l -> read_json (alerts_to_json l) = Some (alerts_value l).
Proof.
  intros Hl Hok. assert (Hn : is_uint 64 (zlen l)) by (pose proof (zlen_nonneg l); unfold is_uint; lia).
  assert (G0 : members_of (append_kv_uint "count" (zlen l) ++ comma) [(str "count", num_uint (zlen l))]).
  { unfold append_kv_uint. rewrite <- app_assoc. apply members_one, member_comma; [done | by apply reads_uint]. }
  assert (G1 := member_one "alerts" _ _ eq_refl (arr_reads alert_json alert_fields l ltac:(intros; flat_text) ltac:(reflexivity) Hok)).
  pose proof (obj_of_members _ _ _ _ G0 G1) as Hr. apply read_json_reads in Hr. unfold alerts_value. cbn [app] in *. rewrite <- Hr. f_equal.
  unfold alerts_to_json, member. repeat (rewrite <- ?app_assoc; cbn [app]). done.
Qed.

(** C36: What the API sends is what a JSON reader gets.  The bodies of
    /api/samples (with or without the newest sample's detail), /api/range and
    /api/alerts are well-formed JSON, and a reader of RFC 8259 gets from them
    exactly the samples, details and alerts they were made from: every field
    under its key, integers exactly, strings with their bytes repaired to
    UTF-8, the names of exactly the groups whose bits are set. *)
Theorem bodies_read_back ss (d : option budyk_detail_c) alerts :
  zlen ss < 2 ^ 64 -> Forall sample_ok ss -> match d with Some d => detail_ok d | None => True end ->
  zlen alerts < 2 ^ 64 -> alerts_ok alerts ->
  read_json (samples_to_json ss (detail_to_json <$> d)) = Some (samples_value ss d) /\
  read_json (alerts_to_json alerts) = Some (alerts_value alerts).
Proof. intros. split; [by apply reads_samples | by apply reads_alerts]. Qed.

Lemma bodies_read_back_witness :
  let s := set_groups 3 (set_folded true (set_timestamp_nanos 1700000000000000001 zero_Sample)) in
  let d := mk_detail_c 3 1 [mk_core_c (f64_of_Z 50) 0 0 0 0 0 0 2] [mk_disk_dev_c (str "sda" ++ [0; 7]) 1 2 0 0 0] [] []
             [mk_process_c (-1) [34; 200; 9] 82 3 (f64_of_ratio 1 3) 4096] in
  let a := [mkAlertEvent 5 (str "warning") (str "cpu") [104; 92; 34; 10]] in
  read_json (samples_to_json [s; s] (Some (detail_to_json d))) = Some (samples_value [s; s] (Some d)) /\
  read_json (alerts_to_json a) = Some (alerts_value a).
Proof.
  set (s := set_groups 3 (set_folded true (set_timestamp_nanos 1700000000000000001 zero_Sample))).
  set (d := mk_detail_c 3 1 [mk_core_c (f64_of_Z 50) 0 0 0 0 0 0 2] [mk_disk_dev_c (str "sda" ++ [0; 7]) 1 2 0 0 0] [] []
             [mk_process_c (-1) [34; 200; 9] 82 3 (f64_of_ratio 1 3) 4096]).
  set (a := [mkAlertEvent 5 (str "warning") (str "cpu") [104; 92; 34; 10]]).
  apply (bodies_read_back [s; s] (Some d) a); apply (bool_decide_unpack _); vm_compute; exact I.
Defined.

(** ** The login form *)

Definition login_body (pw : bytes) : bytes := [123] ++ q "password" ++ [58] ++ [34] ++ json_escape pw ++ [34; 125].

(** The scan for the closing quote steps over a string's contents. *)
Lemma find_close_content t : json_content t -> forall pre r fuel, (length t < fuel)%nat ->
  find_close fuel (pre ++ t ++ 34 :: r) (zlen pre) = zlen pre + zlen t.
Proof.
  assert (Hstep : forall fuel pre c s, c <> 34 -> c <> 92 -> find_close (S fuel) (pre ++ c :: s) (zlen pre) = find_close fuel ((pre ++ [c]) ++ s) (zlen (pre ++ [c]))).
  { intros fuel pre c s H1 H2. cbn [find_close]. rewrite !zlen_app, zlen_cons. change (zlen [c]) with 1. pose proof (zlen_nonneg s).
    rewrite (proj2 (Z.ltb_lt (zlen pre) _)) by lia.
    assert (Hn : znth 0 (pre ++ c :: s) (zlen pre) = c) by (unfold znth, zlen; by rewrite Nat2Z.id, nth_middle).
    rewrite Hn, (proj2 (Z.eqb_neq c 92)), (proj2 (Z.eqb_neq c 34)), <- app_assoc by done. done. }
  assert (Hesc : forall fuel pre c s, find_close (S fuel) (pre ++ 92 :: c :: s) (zlen pre) = find_close fuel ((pre ++ [92; c]) ++ s) (zlen (pre ++ [92; c]))).
  { intros fuel pre c s. cbn [find_close]. rewrite !zlen_app, !zlen_cons. change (zlen []) with 0. pose proof (zlen_nonneg s).
    rewrite (proj2 (Z.ltb_lt (zlen pre) _)) by lia.
    assert (Hn : znth 0 (pre ++ 92 :: c :: s) (zlen pre) = 92) by (unfold znth, zlen; by rewrite Nat2Z.id, nth_middle).
    rewrite Hn, <- app_assoc. cbn [app]. change (92 =? 92) with true. cbv iota. f_equal. }
  assert (Hrun : forall l fuel pre s, Forall (fun c => c <> 34 /\ c <> 92) l ->
    find_close (length l + fuel) (pre ++ l ++ s) (zlen pre) = find_close fuel ((pre ++ l) ++ s) (zlen (pre ++ l))).
  { induction l as [| c l IH]; intros fuel pre s Hl; [by rewrite app_nil_r |]. apply Forall_cons in Hl as [[H1 H2] Hl].
    cbn [app length Nat.add]. rewrite Hstep by done. rewrite IH by done. by rewrite <- !app_assoc. }
  intros Ht. assert (Hgo : forall pre r fuel, (length t < fuel)%nat ->
    find_close fuel (pre ++ t ++ 34 :: r) (zlen pre) = zlen (pre ++ t)); [| intros; by rewrite Hgo, zlen_app].
  induction Ht as [| c t Hc H32 Hq Hb _ IH | e t He _ IH | h1 h2 h3 h4 t H1 H2 H3 H4 _ IH]; intros pre r fuel Hf.
  - destruct fuel as [| fuel]; [cbn in Hf; lia |]. cbn [app find_close]. rewrite zlen_app, zlen_cons, app_nil_r. pose proof (zlen_nonneg r).
    rewrite (proj2 (Z.ltb_lt (zlen pre) _)) by lia.
    assert (Hn : znth 0 (pre ++ 34 :: r) (zlen pre) = 34) by (unfold znth, zlen; by rewrite Nat2Z.id, nth_middle). by rewrite Hn.
  - assert (Hl : Forall (fun c => c <> 34 /\ c <> 92) (append_utf8 c)).
    { destruct (decide (c < 128)); [rewrite append_utf8_ascii by done; by constructor |].
      destruct (append_utf8_bytes c Hc ltac:(lia)) as [Hf' _]. eapply Forall_impl; [exact Hf' |]. cbn. lia. }
    rewrite length_app in Hf. rewrite <- app_assoc. replace fuel with (length (append_utf8 c) + (fuel - length (append_utf8 c)))%nat by lia.
    rewrite Hrun by done. rewrite IH by lia. by rewrite <- app_assoc.
  - destruct fuel as [| fuel]; [cbn in Hf; lia |]. cbn [length] in Hf. unfold ch_backslash. cbn [app]. rewrite Hesc.
    destruct fuel as [| fuel]; [lia |]. rewrite IH by lia. by rewrite <- app_assoc.
  - destruct fuel as [| fuel]; [cbn in Hf; lia |]. cbn [length] in Hf. unfold ch_backslash. cbn [app]. rewrite Hesc.
    assert (Hx : forall h, is_hex h -> h <> 34 /\ h <> 92).
    { intros h [v Hv]. unfold hex_value, in_range in Hv. repeat (case_match; bool_facts; try done; try lia). }
    change (h1 :: h2 :: h3 :: h4 :: t ++ 34 :: r) with ([h1; h2; h3; h4] ++ t ++ 34 :: r).
    replace fuel with (length [h1; h2; h3; h4] + (fuel - 4))%nat by (cbn; lia). rewrite Hrun by (repeat constructor; by apply Hx).
    rewrite IH by lia. by rewrite <- !app_assoc.
Qed.

(** The login form a client sends gives its password back, whatever bytes it
    has (repaired to UTF-8, as json_escape() sent them). *)
Lemma login_form_read pw : is_bytes pw -> json_get_string (login_body pw) (str "password") = Some (utf8_sanitize pw).
Proof.
  intros Hpw. destruct (escaped_content pw Hpw) as [Hc Hu]. unfold json_get_string, login_body.
  set (pre := [123] ++ q "password" ++ [58] ++ [34]).
  assert (Hbody : [123] ++ q "password" ++ [58] ++ [34] ++ json_escape pw ++ [34; 125] = pre ++ json_escape pw ++ 34 :: [125]) by done.
  rewrite Hbody. set (body := pre ++ json_escape pw ++ 34 :: [125]).
  assert (Hl : zlen body = 13 + zlen (json_escape pw) + 2) by (unfold body; rewrite !zlen_app, !zlen_cons; change (zlen pre) with 13; change (zlen []) with 0; lia).
  pose proof (zlen_nonneg (json_escape pw)) as Hn.
  assert (Hfuel : exists n, length body = S n) by (by eexists). destruct Hfuel as [n Hlen].
  assert (Hover : forall c, c < 13 -> json_blank (znth 0 body c) = false -> over_blanks (S n) body c = c).
  { intros c Hc1 Hb. cbn [over_blanks]. rewrite Hb, andb_false_r. done. }
  assert (Hback : back_over (S n) body 1 = 1) by done.
  assert (Hcolon : find_colon (S (length body)) body ([34] ++ c_str (str "password") ++ [34]) 0 = Some 11).
  { cbn [find_colon]. assert (Hf : find_sub ([34] ++ c_str (str "password") ++ [34]) (zdrop 0 body) = Some 1) by done.
    rewrite Hf. rewrite Hlen. change (0 + 1) with 1. rewrite Hback.
    change (1 + zlen ([34] ++ c_str (str "password") ++ [34])) with 11. rewrite Hover by done.
    change (znth 0 body (1 - 1)) with 123. change (znth 0 body 11) with 58. rewrite (proj2 (Z.ltb_lt 11 _)) by lia. done. }
  rewrite Hcolon, Hlen. change (11 + 1) with 12. rewrite Hover by (done || lia).
  change (znth 0 body 12) with 34. rewrite (proj2 (Z.leb_gt (zlen body) 12)) by lia. cbn [orb negb Z.eqb Pos.eqb].
  rewrite <- Hlen. change (12 + 1) with (zlen pre).
  assert (Hcl : find_close (length body) body (zlen pre) = 13 + zlen (json_escape pw)).
  { unfold body. rewrite find_close_content; [done | done |]. rewrite !length_app. cbn. lia. }
  rewrite Hcl, (proj2 (Z.leb_gt (zlen body) _)) by lia. f_equal. rewrite <- Hu. f_equal.
  change (zlen pre) with 13. replace (13 + zlen (json_escape pw) - 12 - 1) with (zlen (json_escape pw)) by lia.
  unfold slice, body. change 13 with (zlen pre). rewrite zdrop_app by done.
  unfold ztake, zlen. rewrite Nat2Z.id. apply take_app_length.
Qed.
