(* ===== verification/Router.v ===== *)
(** The daemon's HTTP routes (src/daemon/router.h, src/daemon/router.cpp): the
    one handler of the server, composed of the sessions, the login limiter, the
    hot buffer, the tier queries, the scheduler's level table, the JSON bodies
    and the WebSocket hub.  What the handler changes is [Router]; what it reads
    is [Deps]; the clocks, the random source and the outcome of a save are the
    request's [Env].  inet_pton, libargon2, the embedded page, the digest's
    uninitialised memory and the platform's long double are arguments.
    Theorems: a request without a live session learns nothing of the monitoring
    data; every session comes from a checked password; a login's cookie opens
    the API until it is left alone; no request can add a response header. *)
From Stdlib Require Import ZArith Lia List Bool.
From stdpp Require Import base numbers list gmap strings.
From S2P Require Import Prelude Float64 Sample MetricSet JsonText TextNum NumText HttpUtil Json.
From S2P Require Import TierManager TierQuery HotBuffer Scheduler LoginLimiter Sha1Base64 Session HttpServer WsHub.
Open Scope Z_scope.

(** ** Request data *)

(** The part of [Config] the routes read; a [char[]] up to its NUL. *)
Record Config := mkConfig {
  listen_addr : bytes;
  listen_port : Z;
  auth_enabled : bool;
  password_hash : bytes;
  web_allowed_hosts : list bytes
}.

Definition kCatchupSamples : Z := 300.

(** [s.resize(s.find(c))] when it is found. *)
Definition cut (c : Z) (s : bytes) : bytes := match find_char c s with Some i => ztake i s | None => s end.
Definition pop_blanks (s : bytes) : bytes := reverse (skip_while is_blank (reverse s)).

Definition media_type (req : HttpRequest) : bytes := map tolower (pop_blanks (cut 59 (header req (str "Content-Type")))).
Definition first_entry (v : bytes) : bytes := skip_while is_blank (pop_blanks (cut 44 v)).
Definition via_https (req : HttpRequest) : bool :=
  ascii_ieq (first_entry (header req (str "X-Forwarded-Proto"))) (str "https").

Definition same_origin (req : HttpRequest) : bool :=
  let origin := header req (str "Origin") in
  if zlen origin =? 0 then true
  else match find_sub (str "://") origin with
       | None => false
       | Some sep =>
           let authority := cut 47 (zdrop (sep + 3) origin) in
           if zlen authority =? 0 then false
           else existsb (fun h => let v := first_entry (header req h) in negb (zlen v =? 0) && ascii_ieq v authority)
                  [str "Host"; str "X-Forwarded-Host"]
       end.

Definition host_name (h : bytes) : bytes :=
  if znth 0 h 0 =? 91 then
    match find_char 93 h with None => [] | Some close => slice 1 (close - 1) h end
  else
    let h := cut 58 h in
    if negb (zlen h =? 0) && (znth 0 h (zlen h - 1) =? 46) then ztake (zlen h - 1) h else h.

Definition path_char (c : Z) : bool :=
  ((97 <=? c) && (c <=? 122)) || ((65 <=? c) && (c <=? 90)) || ((48 <=? c) && (c <=? 57)) ||
  (c =? 47) || (c =? 45) || (c =? 95) || (c =? 46) || (c =? 126).

Definition cookie_path (req : HttpRequest) : bytes :=
  let p := first_entry (header req (str "X-Forwarded-Prefix")) in
  if (zlen p =? 0) || negb (znth 0 p 0 =? 47) || (200 <? zlen p) then str "/"
  else if negb (forallb path_char p) then str "/"
  else if (1 <? zlen p) && (znth 0 p (zlen p - 1) =? 47) then ztake (zlen p - 1) p else p.

Definition cookie_attrs (req : HttpRequest) : bytes :=
  str "; HttpOnly; Path=" ++ cookie_path req ++ str "; SameSite=Strict" ++ (if via_https req then str "; Secure" else []).

(** FNV-1a of the name and the port, "%08x". *)
Definition fnv_step (h c : Z) : Z := u32 (Z.lxor h c * 16777619).
Definition hex8 (h : Z) : bytes := map (fun i => hex_digit (Z.land (Z.shiftr h (4 * (7 - i))) 15)) (seqZ 0 8).
Definition session_cookie_name (hostname : bytes) (port : Z) : bytes :=
  let key := hostname ++ [58] ++ append_int port in
  str "budyk_session_" ++ hex8 (fold_left fnv_step key 2166136261).

Section Router.

(** inet_pton() takes the C string as an IPv4 or an IPv6 address. *)
Context (is_address : bytes -> bool).
(** argon2id_verify(encoded, password) of libargon2, and its code for no hash. *)
Context (argon2id_verify : bytes -> bytes -> Z) (ARGON2_DECODING_FAIL : Z).
Context (kSpaIndexHtml : bytes).
Context (hash_state : Sha1).
Context (slice_of : Z -> Z -> Z -> Z -> Z).

Definition own_host (req : HttpRequest) (cfg : Config) (hostname : bytes) (login : bool) : bool :=
  if negb (bool_decide (ztake 4 (listen_addr cfg) = str "127.")) then true
  else if auth_enabled cfg && negb login then true
  else
    let raw := header req (str "Host") in
    if zlen raw =? 0 then true
    else
      let h := host_name raw in
      if zlen h =? 0 then false
      else if is_address (c_str h) then true
      else if ascii_ieq h (str "localhost") then true
      else if (10 <? zlen h) && ascii_ieq (zdrop (zlen h - 10) h) (str ".localhost") then true
      else if negb (zlen hostname =? 0) && ascii_ieq h hostname then true
      else existsb (fun allowed => ascii_ieq h allowed) (web_allowed_hosts cfg).

Definition argon2_verify (password encoded : bytes) : Z :=
  match encoded with [] => ARGON2_DECODING_FAIL | _ => argon2id_verify (c_str encoded) password end.

(** ** The state *)

Record Deps := mkDeps {
  cfg : Config;
  hostname : bytes;
  version : bytes;
  poller_window_ns : Z;
  hot : HotBuffer;
  latest_detail : option bytes;
  recent_alerts : option (list AlertEvent);
  tm : TierManager;
  tm_world : TierManager.World;
  ring_io : Z -> bool;
  ws : Hub;
  sched : SchedulerConfig
}.

Record Router := mkRouter {
  sessions : Session.World;
  limiter : LoginLimiter;
  last_poll_ns : Z;
  wakes : Z
}.

Record Env := mkEnv { now_session : Z; now_poll : Z; now_mono_ns : Z; random : option bytes; save_io : SaveIo }.

Definition set_sessions (w : Session.World) (st : Router) : Router := mkRouter w (limiter st) (last_poll_ns st) (wakes st).
Definition set_limiter (l : LoginLimiter) (st : Router) : Router := mkRouter (sessions st) l (last_poll_ns st) (wakes st).
Definition wake (st : Router) : Router := mkRouter (sessions st) (limiter st) (last_poll_ns st) (wakes st + 1).

(** ** Replies *)

Definition json_reply (status : Z) (text : bytes) : HttpResponse := response status (str "application/json") text.
Definition text_reply (status : Z) (text : bytes) : HttpResponse := response status (str "text/plain") (text ++ [10]).
Definition error_body (msg : string) : bytes := [123] ++ q "error" ++ [58] ++ q msg ++ [125; 10].
Definition unauthenticated : HttpResponse := json_reply 401 (error_body "unauthenticated").
Definition with_header (k v : bytes) (r : HttpResponse) : HttpResponse :=
  mkHttpResponse (status r) (content_type r) (rbody r) (extra_headers r ++ [(k, v)]) (hijack r).
Definition bool_text (b : bool) : bytes := if b then str "true" else str "false".
Definition ok_body : bytes := [123] ++ q "ok" ++ [58] ++ str "true" ++ [125; 10].

Definition health_reply (d : Deps) : HttpResponse :=
  json_reply 200 ([123] ++ q "status" ++ [58] ++ q "ok" ++ [44] ++ q "version" ++ [58; 34] ++ c_str (version d) ++ [34; 44] ++
    q "hostname" ++ [58; 34] ++ json_escape (hostname d) ++ [34; 44] ++ q "auth" ++ [58] ++ bool_text (auth_enabled (cfg d)) ++ [125; 10]).

Definition cookie_name (d : Deps) : bytes := session_cookie_name (hostname d) (listen_port (cfg d)).

(** The session token a request carries. *)
Definition request_token (d : Deps) (req : HttpRequest) : bytes :=
  match header req (str "Cookie") with [] => [] | c => cookie_value c (cookie_name d) end.

(** The lambda [authed]. *)
Definition authed (d : Deps) (e : Env) (req : HttpRequest) (st : Router) : bool * Router :=
  if negb (auth_enabled (cfg d)) then (true, st)
  else match request_token d req with
       | [] => (false, st)
       | tok => let '(ok, w) := touch tok (now_session e) (save_io e) (sessions st) in (ok, set_sessions w st)
       end.

(** ** The routes *)

Definition is_login (req : HttpRequest) : bool :=
  bool_decide (method req = str "POST") && bool_decide (path req = str "/api/auth/login").

(** The password of the body: none, wrong or right. *)
Definition password_check (d : Deps) (req : HttpRequest) : option bool :=
  match json_get_string (body req) (str "password") with
  | None | Some [] => None
  | Some pw => Some (argon2_verify pw (c_str (password_hash (cfg d))) =? 0)
  end.

Definition too_many (wait : Z) : HttpResponse :=
  with_header (str "Retry-After") (append_int wait)
    (json_reply 429 ([123] ++ q "error" ++ [58] ++ q "too many attempts" ++ [44] ++ q "retry_after" ++ [58] ++ append_int wait ++ [125; 10])).

Definition login_route (d : Deps) (e : Env) (req : HttpRequest) (st : Router) : HttpResponse * Router :=
  if negb (auth_enabled (cfg d)) || (zlen (c_str (password_hash (cfg d))) =? 0) then (text_reply 403 (str "auth disabled"), st)
  else if negb (same_origin req) then (json_reply 403 (error_body "cross-origin login"), st)
  else if negb (bool_decide (media_type req = str "application/json")) then
    (json_reply 415 (error_body "the login wants a JSON body (Content-Type: application/json)"), st)
  else
    let now_s := now_mono_ns e / 1000000000 in
    let '(o, l) := login_attempt (peer req) now_s (password_check d req) (limiter st) in
    let st := set_limiter l st in
    match o with
    | Refused wait => (too_many wait, st)
    | MissingPassword => (json_reply 400 (error_body "missing password"), st)
    | WrongPassword _ => (json_reply 401 (error_body "invalid credentials"), st)
    | LoggedIn =>
        let '(tok, w) := create (random e) (now_session e) (save_io e) (sessions st) in
        let st := set_sessions w st in
        match tok with
        | [] => (json_reply 500 (error_body "entropy unavailable"), st)
        | _ => (with_header (str "Set-Cookie") (cookie_name d ++ [61] ++ tok ++ cookie_attrs req) (json_reply 200 ok_body), st)
        end
    end.

Definition logout_route (d : Deps) (e : Env) (req : HttpRequest) (st : Router) : HttpResponse * Router :=
  let st := match request_token d req with
            | [] => st
            | tok => set_sessions (revoke tok (save_io e) (sessions st)) st
            end in
  (with_header (str "Set-Cookie") (cookie_name d ++ [61] ++ cookie_attrs req ++ str "; Max-Age=0") (json_reply 200 ok_body), st).

(** A poll notes the time, and wakes the loop after a quiet spell. *)
Definition note_poll (d : Deps) (e : Env) (st : Router) : Router :=
  let now := now_poll e in
  let prev := last_poll_ns st in
  let st := mkRouter (sessions st) (limiter st) now (wakes st) in
  if (prev =? 0) || (now <? prev) || (poller_window_ns d <? now - prev) then wake st else st.

Definition newest_samples (last : Z) (d : Deps) : list Sample :=
  let n := if last <? hb_size (hot d) then last else hb_size (hot d) in
  if n =? 0 then [] else dump_last (hot d) false n.

Definition samples_reply (d : Deps) (req : HttpRequest) : HttpResponse :=
  let last := query_u64 (query req) (str "last") 0 in
  let last := if last =? 0 then kCatchupSamples else last in
  json_reply 200 (samples_to_json (newest_samples last d) (Some (default [] (latest_detail d)))).

Definition kMaxLimit : Z := 5000.

(** The limit asked for, at most kMaxLimit. *)
Definition range_limit (req : HttpRequest) : Z :=
  let limit := query_u64 (query req) (str "limit") kMaxLimit in
  if (limit =? 0) || (kMaxLimit <? limit) then kMaxLimit else limit.

Definition range_reply (d : Deps) (req : HttpRequest) : HttpResponse :=
  let since := query_u64 (query req) (str "since") 0 in
  let until := query_u64 (query req) (str "until") 0 in
  let tier := query_u64 (query req) (str "tier") 1 in
  let tier := if (tier <? 1) || (3 <? tier) then 1 else tier in
  let limit := range_limit req in
  let level_name := query_str (query req) (str "level") in
  let answer n := match n with
                  | None => json_reply 400 (error_body "bad range query")
                  | Some out => json_reply 200 (samples_to_json out None)
                  end in
  if bool_decide (level_name = str "all") then answer (query_all slice_of (ring_io d) (tm d) (tm_world d) since until limit false)
  else if negb (zlen level_name =? 0) then
    match level_by_name (sched d) level_name with
    | None => json_reply 404 (error_body "unknown level")
    | Some lv => answer (query_level (ring_io d) (tm d) (tm_world d) lv since until limit false)
    end
  else answer (TierQuery.query (ring_io d) (tm d) (tm_world d) tier since until limit false).

Definition alerts_reply (d : Deps) : HttpResponse := json_reply 200 (alerts_to_json (default [] (recent_alerts d))).

(** One entry of the level table; snprintf's buffer has 256 bytes. *)
Definition level_entry (s : SchedulerConfig) (lv : Level) (builtin : bool) : bytes :=
  ztake 255 ([123] ++ q "id" ++ [58] ++ append_uint lv ++ [44] ++ q "name" ++ [58; 34] ++ level_name s lv ++ [34; 44] ++
    q "interval_ms" ++ [58] ++ append_int (interval_ms s lv) ++ [44] ++ q "priority" ++ [58] ++ append_int (priority s lv) ++ [44] ++
    q "builtin" ++ [58] ++ bool_text builtin ++ [44] ++ q "collects" ++ [58] ++ bool_text (collects s lv) ++ [44] ++ q "metrics" ++ [58; 91]) ++
  commas (map quoted (metric_set_names (metrics s lv))) ++ [93; 125].

Definition levels_reply (d : Deps) : HttpResponse :=
  json_reply 200 ([91] ++
    commas (map (fun lv => level_entry (sched d) lv true) [L1; L2; L3] ++
            map (fun c => level_entry (sched d) (u8 (cl_id c)) false) (custom_levels (sched d))) ++ [93; 10]).

Definition hijack_reply : HttpResponse := mkHttpResponse 200 [] [] [] true.

Definition ws_route (d : Deps) (e : Env) (req : HttpRequest) (st : Router) : HttpResponse * Router :=
  if negb (is_websocket_upgrade req) then (text_reply 400 (str "expected websocket upgrade"), st)
  else if negb (same_origin req) then (text_reply 403 (str "cross-origin websocket refused"), st)
  else
    let '(ok, st) := authed d e req st in
    if negb ok then (text_reply 401 (str "unauthenticated"), st)
    else if kMaxClients <=? hub_size (ws d) then (text_reply 503 (str "too many websocket clients"), st)
    else (hijack_reply, st).

(** What the hijack does with the socket: the handshake within the server's
    bounds ([hs_outs]), the hub's client with its catch-up frame, the wake, and
    the wait for what is owed ([waits]). *)
Definition ws_hijack (d : Deps) (req : HttpRequest) (fd : Z) (hs_outs : list send_res) (s : Socket) (waits : list wait_res) (h : Hub)
    (st : Router) : Hub * Router :=
  let session := if auth_enabled (cfg d) then cookie_value (header req (str "Cookie")) (cookie_name d) else [] in
  let handshake := ws_handshake_response hash_state (header req (str "Sec-WebSocket-Key")) in
  let '(sent, _, _) := send_all handshake hs_outs in
  if negb sent then (h, st)
  else
    let h := add_with_frame fd session (ws_text_frame (samples_to_json (newest_samples kCatchupSamples d) None)) s h in
    ((flush_owed fd waits h).2, wake st).

(** Behind a session: [reply] for a request that has one. *)
Definition protected (d : Deps) (e : Env) (req : HttpRequest) (st : Router) (reply : Router -> HttpResponse * Router) : HttpResponse * Router :=
  let '(ok, st) := authed d e req st in if negb ok then (unauthenticated, st) else reply st.

Definition is_get (req : HttpRequest) (p : string) : bool := bool_decide (method req = str "GET") && bool_decide (path req = str p).

Definition route (d : Deps) (e : Env) (req : HttpRequest) (st : Router) : HttpResponse * Router :=
  let login := is_login req in
  if negb (own_host req (cfg d) (hostname d) login) then
    (text_reply 403 (str "budyk: this Host is not one of budyk's names; add it to web.allowed_hosts"), st)
  else if is_get req "/" || is_get req "/index.html" then (response 200 (str "text/html; charset=utf-8") kSpaIndexHtml, st)
  else if is_get req "/api/health" then (health_reply d, st)
  else if login then login_route d e req st
  else if bool_decide (method req = str "POST") && bool_decide (path req = str "/api/auth/logout") then logout_route d e req st
  else if is_get req "/api/samples" then protected d e req st (fun st => (samples_reply d req, note_poll d e st))
  else if is_get req "/api/range" then protected d e req st (fun st => (range_reply d req, st))
  else if is_get req "/api/alerts" then protected d e req st (fun st => (alerts_reply d, st))
  else if is_get req "/api/levels" then protected d e req st (fun st => (levels_reply d, st))
  else if bool_decide (path req = str "/api/ws") then ws_route d e req st
  else (text_reply 404 (str "not found"), st).


(** ** What stays fixed *)

Definition public (d : Deps) : Config * bytes * bytes := (cfg d, hostname d, version d).

(** The request carries the token of a session that has not ended. *)
Definition has_session (d : Deps) (e : Env) (req : HttpRequest) (st : Router) : bool :=
  match request_token d req with
  | [] => false
  | tok => match deadline_ (Session.store (sessions st)) !! tok with Some dl => now_session e <? dl | None => false end
  end.

Lemma touch_result token now io w :
  (touch token now io w).1 =
  match token with [] => false | _ => match deadline_ (Session.store w) !! token with Some d => now <? d | None => false end end.
Proof.
  unfold touch. destruct token; [done |]. destruct (_ !! _) as [d |]; [| done].
  destruct (d <=? now) eqn:E; bool_facts; [by rewrite (proj2 (Z.ltb_ge now d)) by lia |].
  rewrite (proj2 (Z.ltb_lt now d)) by lia. by destruct (_ || _).
Qed.

Lemma authed_result d e req st : auth_enabled (cfg d) = true -> (authed d e req st).1 = has_session d e req st.
Proof.
  intros Ha. unfold authed, has_session. rewrite Ha. cbn [negb]. destruct (request_token d req) as [| x tok]; [done |].
  pose proof (touch_result (x :: tok) (now_session e) (save_io e) (sessions st)) as H. destruct (touch _ _ _ _) as [ok w]. cbn [fst] in *. exact H.
Qed.

Lemma protected_refused d e req st reply : auth_enabled (cfg d) = true -> has_session d e req st = false ->
  protected d e req st reply = (unauthenticated, (authed d e req st).2).
Proof.
  intros Ha Hs. unfold protected. pose proof (authed_result d e req st Ha) as H. rewrite Hs in H.
  destruct (authed d e req st) as [ok st']. cbn [fst] in H. by subst.
Qed.

(** C37: With a password set, a request without a live session learns nothing.
    Two daemons with the same configuration, name and sessions, but whatever
    else in the hot buffer, the rings, the alerts, the level table and the
    hub, give it the same response, byte for byte, on every path, and change
    their state in the same way. *)
Theorem unauthenticated_learns_nothing d1 d2 e req st :
  public d1 = public d2 -> auth_enabled (cfg d1) = true -> has_session d1 e req st = false ->
  route d1 e req st = route d2 e req st.
Proof.
  intros Hp Ha Hs. injection Hp as Hc Hh Hv. assert (Hn : cookie_name d1 = cookie_name d2) by (unfold cookie_name; congruence).
  assert (Ht : request_token d1 req = request_token d2 req) by (unfold request_token; by rewrite Hn).
  assert (Hs2 : has_session d2 e req st = false) by (unfold has_session in *; by rewrite <- Ht).
  assert (Ha2 : auth_enabled (cfg d2) = true) by congruence.
  assert (Hau : authed d1 e req st = authed d2 e req st) by (unfold authed; by rewrite Hc, Ht).
  unfold route. rewrite !(protected_refused d1), !(protected_refused d2), Hau, Hc, Hh by done.
  assert (Hl : health_reply d1 = health_reply d2) by (unfold health_reply; congruence).
  assert (Hlg : login_route d1 e req st = login_route d2 e req st) by (unfold login_route, password_check; by rewrite Hc, Hn).
  assert (Hlo : logout_route d1 e req st = logout_route d2 e req st) by (unfold logout_route; by rewrite Ht, Hn).
  assert (Hws : ws_route d1 e req st = ws_route d2 e req st).
  { unfold ws_route. rewrite Hau. pose proof (authed_result d2 e req st Ha2) as H. rewrite Hs2 in H.
    destruct (authed d2 e req st) as [ok st']. cbn [fst] in H. by subst. }
  by rewrite Hl, Hlg, Hlo, Hws.
Qed.

(** ** Where sessions come from *)

Definition is_logout (req : HttpRequest) : bool :=
  bool_decide (method req = str "POST") && bool_decide (path req = str "/api/auth/logout").

(** Everything the login asks for, the right password last. *)
Record login_passed (d : Deps) (e : Env) (req : HttpRequest) (st : Router) : Prop := {
  lp_login : is_login req = true;
  lp_host : own_host req (cfg d) (hostname d) true = true;
  lp_enabled : auth_enabled (cfg d) = true;
  lp_hash : c_str (password_hash (cfg d)) <> [];
  lp_origin : same_origin req = true;
  lp_json : media_type req = str "application/json";
  lp_free : (retry_after (peer req) (now_mono_ns e / 1000000000) (limiter st)).1 <= 0;
  lp_password : exists pw, json_get_string (body req) (str "password") = Some pw /\ pw <> [] /\
                  argon2_verify pw (c_str (password_hash (cfg d))) = 0
}.

(** What one request does to the sessions, as operations of the store. *)
Definition session_effect (d : Deps) (e : Env) (req : HttpRequest) (st : Router) (es : list Session.event) : Prop :=
  es = [] \/
  es = [mkEvent (OTouch (request_token d req)) (now_session e) (save_io e)] \/
  (is_logout req = true /\ es = [mkEvent (ORevoke (request_token d req)) (now_session e) (save_io e)]) \/
  (login_passed d e req st /\ es = [mkEvent (OCreate (random e)) (now_session e) (save_io e)]).

Lemma authed_sessions d e req st :
  exists es, session_effect d e req st es /\ sessions (authed d e req st).2 = Session.run es (sessions st) /\
    limiter (authed d e req st).2 = limiter st.
Proof.
  unfold authed. destruct (negb _); [exists []; by split_and!; [left | |] |].
  destruct (request_token d req) as [| x tok] eqn:Et; [exists []; by split_and!; [left | |] |].
  exists [mkEvent (OTouch (x :: tok)) (now_session e) (save_io e)]. split; [right; left; by rewrite Et |].
  change (Session.run _ _) with ((touch (x :: tok) (now_session e) (save_io e) (sessions st)).2).
  by destruct (touch _ _ _ _).
Qed.

Lemma login_sessions d e req st :
  is_login req = true -> own_host req (cfg d) (hostname d) true = true ->
  exists es, session_effect d e req st es /\ sessions (login_route d e req st).2 = Session.run es (sessions st) /\
    (status (login_route d e req st).1 = 200 -> login_passed d e req st /\ es = [mkEvent (OCreate (random e)) (now_session e) (save_io e)] /\
       new_session_token (random e) <> [] /\
       extra_headers (login_route d e req st).1 = [(str "Set-Cookie", cookie_name d ++ [61] ++ new_session_token (random e) ++ cookie_attrs req)]).
Proof.
  intros Hl Hh. unfold login_route. destruct (_ || _) eqn:E1; [exists []; by split_and!; [left | |] |].
  apply orb_false_iff in E1 as [E1 E1']. bool_facts.
  destruct (same_origin req) eqn:E2; cbn [negb]; [| exists []; by split_and!; [left | |]].
  destruct (bool_decide_reflect (media_type req = str "application/json")) as [E3 |]; cbn [negb]; [| exists []; by split_and!; [left | |]].
  unfold login_attempt. destruct (retry_after _ _ _) as [wait l] eqn:Er. destruct (0 <? wait) eqn:E4; bool_facts; [exists []; by split_and!; [left | |] |].
  destruct (password_check d req) as [[] |] eqn:Ep; [| | exists []; by split_and!; [left | |]].
  - assert (Hpass : login_passed d e req st).
    { unfold password_check in Ep. destruct (json_get_string (body req) (str "password")) as [pw |] eqn:Ej; [| done].
      destruct pw as [| x pw]; [done |]. injection Ep as Ep. bool_facts. constructor; try done.
      - intros H. rewrite H in E1'. done.
      - by rewrite Er.
      - by exists (x :: pw). }
    exists [mkEvent (OCreate (random e)) (now_session e) (save_io e)].
    split; [by right; right; right |]. unfold Session.run. cbn [fold_left]. unfold step. cbn [ev_op ev_now ev_io].
    assert (Htok : (create (random e) (now_session e) (save_io e) (sessions st)).1 = new_session_token (random e)).
    { unfold create. by destruct (new_session_token (random e)) eqn:En. }
    cbn [set_limiter sessions]. destruct (create _ _ _ _) as [tok w]. cbn [fst snd] in *. subst tok.
    destruct (new_session_token (random e)) eqn:En; cbn [fst snd]; (split; [done |]); [done |]. intros _. done.
  - destruct (record_failure _ _ _). exists []. by split_and!; [left | |].
Qed.

Lemma protected_sessions d e req st reply :
  (forall st', sessions (reply st').2 = sessions st') ->
  exists es, session_effect d e req st es /\ sessions (protected d e req st reply).2 = Session.run es (sessions st).
Proof.
  intros Hr. destruct (authed_sessions d e req st) as (es & He & Hs & _). exists es. split; [done |].
  unfold protected. destruct (authed d e req st) as [ok st']. cbn [snd] in Hs. destruct ok; cbn [negb]; [by rewrite Hr | done].
Qed.

Lemma route_sessions d e req st :
  exists es, session_effect d e req st es /\ sessions (route d e req st).2 = Session.run es (sessions st).
Proof.
  assert (Hnone : exists es, session_effect d e req st es /\ sessions st = Session.run es (sessions st)) by (exists []; by split; [left |]).
  unfold route. destruct (own_host _ _ _ _) eqn:Eo; cbn [negb]; [| done].
  destruct (_ || _); [done |]. destruct (is_get req "/api/health"); [done |].
  destruct (is_login req) eqn:El; [destruct (login_sessions d e req st El Eo) as (es & H1 & H2 & _); by exists es |].
  fold (is_logout req). destruct (is_logout req) eqn:Elo.
  { unfold logout_route. cbn [snd]. destruct (request_token d req) as [| x tok] eqn:Et; [done |].
    exists [mkEvent (ORevoke (x :: tok)) (now_session e) (save_io e)]. split; [right; right; left; by rewrite Et | done]. }
  destruct (is_get req "/api/samples"); [apply protected_sessions; intros st'; unfold note_poll; by destruct (_ || _) |].
  do 3 (destruct (is_get req _); [by apply protected_sessions |]).
  destruct (bool_decide _); [| done]. unfold ws_route. destruct (negb _); [done |]. destruct (negb _); [done |].
  destruct (authed_sessions d e req st) as (es & He & Hs & _). exists es. split; [done |].
  destruct (authed d e req st) as [ok st']. cbn [snd] in Hs. destruct ok; cbn [negb]; [by destruct (_ <=? _) | done].
Qed.

(** ** Runs of requests *)

Record visit := mkVisit { v_deps : Deps; v_env : Env; v_req : HttpRequest }.
Definition serve (st : Router) (v : visit) : Router := (route (v_deps v) (v_env v) (v_req v) st).2.
Definition served_all (vs : list visit) (st : Router) : Router := fold_left serve vs st.

Definition tokens (st : Router) : table := deadline_ (Session.store (sessions st)).

(** One request's effect on the table. *)
Lemma serve_table v st :
  exists es, session_effect (v_deps v) (v_env v) (v_req v) st es /\
    tokens (serve st v) = fold_left (fun t ev => step_table (ttl_ns_ (Session.store (sessions st))) (ev_op ev) (ev_now ev) t) es (tokens st) /\
    ttl_ns_ (Session.store (sessions (serve st v))) = ttl_ns_ (Session.store (sessions st)).
Proof.
  destruct (route_sessions (v_deps v) (v_env v) (v_req v) st) as (es & He & Hs). exists es. split; [done |].
  unfold tokens, serve. rewrite Hs. split; [| apply run_params].
  destruct He as [-> | [-> | [[_ ->] | [_ ->]]]]; [done | | |]; apply (step_store (mkEvent _ _ _)).
Qed.

Lemma step_table_new ttl o now t tok : is_Some (step_table ttl o now t !! tok) -> is_Some (t !! tok) \/
  (exists r, o = OCreate r /\ tok = new_session_token r /\ tok <> []).
Proof.
  destruct o as [r | tk | tk | tk |]; cbn [step_table].
  - destruct (new_session_token r) as [| x l] eqn:E; [by left |]. destruct (decide (x :: l = tok)) as [<- | Hne].
    + intros _. right. exists r. by rewrite E.
    + rewrite lookup_insert_ne by done. by left.
  - destruct tk as [| x tk]; [by left |]. destruct (t !! (x :: tk)) as [d |] eqn:E; [| by left]. intros H. left.
    destruct (decide (x :: tk = tok)) as [<- | Hne]; [by rewrite E |].
    destruct (d <=? now); [by rewrite lookup_delete_ne in H | by rewrite lookup_insert_ne in H].
  - destruct tk as [| x tk]; [by left |]. destruct (t !! (x :: tk)) as [d |] eqn:E; [| by left]. intros H. left.
    destruct (decide (x :: tk = tok)) as [<- | Hne]; [by rewrite E |].
    destruct (d <=? now); [by rewrite lookup_delete_ne in H | by rewrite lookup_insert_ne in H].
  - intros H. left. destruct (decide (tk = tok)) as [<- | Hne]; [by rewrite lookup_delete_eq in H; destruct H | by rewrite lookup_delete_ne in H].
  - intros [d Hd]. left. apply live_lookup in Hd as [Hd _]. by exists d.
Qed.

(** C38: Every session comes from a checked password.  Over any requests, by
    any clients, with whatever the clocks, the saves and the monitoring data
    do: a token that is in the table at the end and was not at the start was
    made by one of them, a POST of the login that reached the daemon under its
    own name, from its own page, with a JSON body, from an address not
    throttled, whose password argon2 took for the configured hash. *)
Theorem sessions_only_from_logins vs st tok :
  is_Some (tokens (served_all vs st) !! tok) -> tokens st !! tok = None ->
  exists before v after, vs = before ++ v :: after /\
    login_passed (v_deps v) (v_env v) (v_req v) (served_all before st) /\ tok = new_session_token (random (v_env v)) /\ tok <> [].
Proof.
  intros Hin Hout. induction vs as [| v vs IH] using rev_ind; [change (is_Some (tokens st !! tok)) in Hin; rewrite Hout in Hin; by destruct Hin |].
  unfold served_all in *. rewrite fold_left_app in Hin. cbn [fold_left] in Hin.
  set (st' := fold_left serve vs st) in *. destruct (serve_table v st') as (es & He & Ht & _). rewrite Ht in Hin.
  assert (Hold : is_Some (tokens st' !! tok) -> exists before v0 after, vs ++ [v] = before ++ v0 :: after /\
    login_passed (v_deps v0) (v_env v0) (v_req v0) (fold_left serve before st) /\ tok = new_session_token (random (v_env v0)) /\ tok <> []).
  { intros H. destruct (IH H) as (b & v0 & a & -> & Hp). exists b, v0, (a ++ [v]). split; [by rewrite <- app_assoc | done]. }
  destruct He as [-> | [-> | [[_ ->] | [Hp ->]]]]; cbn [fold_left] in Hin; [by apply Hold | | |];
    apply step_table_new in Hin as [Hin | (r & Hr & Htok & Hne)]; try (by apply Hold); try done.
  injection Hr as <-. by exists vs, v, [].
Qed.

(** ** From the login to the API *)

(** The requests served between: the clock runs on, no one logs out with the
    token, and the random source does not repeat it. *)
Fixpoint undisturbed (now : Z) (tok : bytes) (vs : list visit) : Prop :=
  match vs with
  | [] => True
  | v :: vs =>
      now <= now_session (v_env v) < 2 ^ 62 /\ (is_logout (v_req v) = true -> request_token (v_deps v) (v_req v) <> tok) /\
      new_session_token (random (v_env v)) <> tok /\ undisturbed (now_session (v_env v)) tok vs
  end.

(** A deadline that is never before [B]. *)
Lemma step_table_keeps ttl o now t tok B d :
  t !! tok = Some d -> B <= d -> now < B -> 0 <= now < 2 ^ 62 -> 0 < ttl < 2 ^ 62 -> B <= now + ttl ->
  (forall r, o = OCreate r -> new_session_token r <> tok) -> o <> ORevoke tok ->
  exists d', step_table ttl o now t !! tok = Some d' /\ B <= d'.
Proof.
  intros Hd HB Hlt Hn Httl HB2 Hc Hr. assert (Hf : u64 (now + ttl) = now + ttl) by (apply u64_small; lia).
  destruct o as [r | tk | tk | tk |]; cbn [step_table].
  - specialize (Hc r eq_refl). destruct (new_session_token r); [by exists d | rewrite lookup_insert_ne by done; by exists d].
  - destruct tk as [| x tk]; [by exists d |]. destruct (decide (x :: tk = tok)) as [<- | Hne].
    + rewrite Hd, (proj2 (Z.leb_gt d now)), lookup_insert_eq, Hf by lia. eexists. split; [done | lia].
    + destruct (t !! (x :: tk)) as [d' |]; [| by exists d].
      destruct (d' <=? now); [rewrite lookup_delete_ne by done | rewrite lookup_insert_ne by done]; by exists d.
  - destruct tk as [| x tk]; [by exists d |]. destruct (decide (x :: tk = tok)) as [<- | Hne].
    + rewrite Hd, (proj2 (Z.leb_gt d now)), lookup_insert_eq by lia. unfold touched. rewrite Hf.
      destruct (_ || _); eexists; (split; [done | lia]).
    + destruct (t !! (x :: tk)) as [d' |]; [| by exists d].
      destruct (d' <=? now); [rewrite lookup_delete_ne by done | rewrite lookup_insert_ne by done]; by exists d.
  - rewrite lookup_delete_ne by congruence. by exists d.
  - exists d. split; [apply live_lookup; split; [done | lia] | done].
Qed.

Lemma served_keeps vs : forall now st tok B d,
  tokens st !! tok = Some d -> B <= d -> 0 <= now -> B <= now + ttl_ns_ (Session.store (sessions st)) ->
  0 < ttl_ns_ (Session.store (sessions st)) < 2 ^ 62 -> undisturbed now tok vs ->
  Forall (fun v => now_session (v_env v) < B) vs ->
  exists d', tokens (served_all vs st) !! tok = Some d' /\ B <= d'.
Proof.
  induction vs as [| v vs IH]; intros now st tok B d Hd HB Hn HB2 Httl Hu Hlt; [by exists d |].
  cbn [undisturbed] in Hu. destruct Hu as (Hnow & Hlo & Hne & Hu). apply Forall_cons in Hlt as [Hlt1 Hlt].
  destruct (serve_table v st) as (es & He & Ht & Httl').
  assert (Hstep : exists d', tokens (serve st v) !! tok = Some d' /\ B <= d').
  { rewrite Ht. destruct He as [-> | [-> | [[Hl ->] | [_ ->]]]]; cbn [fold_left ev_op ev_now]; [by exists d | | |];
      (apply (step_table_keeps _ _ _ _ _ B d); [done | done | done | lia | done | lia | |]); try done.
    - intros [= H]. by apply (Hlo Hl).
    - intros r [= <-]. done. }
  destruct Hstep as (d' & Hd' & HB'). apply (IH (now_session (v_env v)) (serve st v) tok B d'); rewrite ?Httl'; done || lia.
Qed.

Lemma fields_one c s : c ∉ s -> HttpUtil.fields c s = [s].
Proof.
  induction s as [| x s IH]; intros H; [done |]. rewrite not_elem_of_cons in H. destruct H as [H1 H2]. cbn.
  by rewrite (proj2 (Z.eqb_neq x c)), IH by congruence.
Qed.

Lemma after_prefix_app_self needle f : after_prefix needle (needle ++ f) = Some f.
Proof. induction needle as [| x n IH]; [done |]. cbn. by rewrite Z.eqb_refl. Qed.

Definition cookie_char (c : Z) : Prop := 33 <= c <= 126 /\ c <> 59 /\ c <> 44.

Lemma hex_digit_cookie v : cookie_char (hex_digit (Z.land v 15)).
Proof.
  change 15 with (Z.ones 4). rewrite Z.land_ones by lia. pose proof (Z.mod_pos_bound v (2 ^ 4) ltac:(lia)) as H. change (2 ^ 4) with 16 in *.
  unfold cookie_char, hex_digit. destruct (_ <? 10) eqn:E; bool_facts; lia.
Qed.

Lemma kHex_cookie v : cookie_char (znth 0 kHex (Z.land v 15)).
Proof.
  change 15 with (Z.ones 4). rewrite Z.land_ones by lia. pose proof (Z.mod_pos_bound v (2 ^ 4) ltac:(lia)) as H. change (2 ^ 4) with 16 in *.
  set (x := v mod 16) in *. clearbody x.
  assert (Hx : forallb (fun i => bool_decide (33 <= znth 0 kHex i <= 126) && bool_decide (znth 0 kHex i <> 59) && bool_decide (znth 0 kHex i <> 44)) (seqZ 0 16) = true)
    by (vm_compute; reflexivity).
  rewrite forallb_forall in Hx. specialize (Hx x). rewrite !andb_true_iff, !bool_decide_eq_true in Hx. unfold cookie_char.
  destruct Hx as [[H1 H2] H3]; [apply list_elem_of_In, elem_of_seqZ; lia | done].
Qed.

Lemma token_chars r : Forall cookie_char (new_session_token r).
Proof.
  destruct r as [buf |]; [| constructor]. cbn [new_session_token]. induction buf as [| b buf IH]; [constructor |]. cbn [flat_map].
  apply Forall_app. split; [| done]. repeat constructor; apply kHex_cookie.
Qed.

Lemma cookie_name_chars d : Forall cookie_char (cookie_name d) /\ zlen (cookie_name d) = 22.
Proof.
  unfold cookie_name, session_cookie_name. set (h := fold_left fnv_step _ _). clearbody h. split; [| done].
  apply Forall_app. split.
  - apply (bool_decide_unpack (Forall (fun c => 33 <= c <= 126 /\ c <> 59 /\ c <> 44) (str "budyk_session_"))). vm_compute. exact I.
  - unfold hex8. apply Forall_fmap. apply Forall_forall. intros i _. apply hex_digit_cookie.
Qed.

Lemma c_str_no_nul s : Forall (fun c => c <> 0) s -> c_str s = s.
Proof. induction 1 as [| c s Hc _ IH]; [done |]. cbn. by rewrite (proj2 (Z.eqb_neq c 0)), IH. Qed.

(** The cookie a browser sends back is read as the token. *)
Lemma own_cookie_read d tok :
  Forall cookie_char tok -> zlen tok < 2 ^ 32 -> cookie_value (cookie_name d ++ [61] ++ tok) (cookie_name d) = tok.
Proof.
  intros Htok Hl. destruct (cookie_name_chars d) as [Hn Hnl]. set (name := cookie_name d) in *. clearbody name.
  assert (Hc : c_str name = name) by (apply c_str_no_nul; eapply Forall_impl; [exact Hn |]; intros c (? & ? & ?); lia).
  assert (H59 : (59 ∉ name) /\ (59 ∉ tok)) by (split; intros H; [rewrite Forall_forall in Hn; apply Hn in H | rewrite Forall_forall in Htok; apply Htok in H]; destruct H as (_ & H & _); done).
  unfold cookie_value. rewrite Hc. rewrite cookie_loop_fields; [| lia | | | | ].
  - rewrite (proj2 (Z.leb_le 0 _)) by apply zlen_nonneg. change (zdrop 0 (name ++ [61] ++ tok)) with (name ++ [61] ++ tok).
    rewrite fields_one.
    + assert (Ht : trim_left (name ++ [61] ++ tok) = (name ++ [61]) ++ tok).
      { rewrite <- app_assoc. destruct name as [| c n]; [done |]. apply Forall_cons in Hn as [(Hc1 & _) _]. cbn [app trim_left].
        unfold is_blank. rewrite (proj2 (Z.eqb_neq c 32)), (proj2 (Z.eqb_neq c 9)) by lia. done. }
      cbn [first_sel]. rewrite Ht, after_prefix_app_self. done.
    + rewrite !elem_of_app, list_elem_of_singleton. intros [H | [H | H]]; [exact (proj1 H59 H) | done | exact (proj2 H59 H)].
  - rewrite !zlen_app, Hnl. change (zlen [61]) with 1. lia.
  - rewrite elem_of_app, list_elem_of_singleton. intros [H | H]; [exact (proj1 H59 H) | done].
  - by intros [_ ?]%app_nil.
  - unfold zlen. rewrite Z.sub_0_r. lia.
Qed.

Lemma token_length r : zlen (new_session_token r) = match r with Some b => 2 * zlen b | None => 0 end.
Proof.
  destruct r as [b |]; [| done]. cbn [new_session_token]. induction b as [| x b IH]; [done |]. cbn [flat_map].
  rewrite zlen_app, IH, !zlen_cons. change (@zlen Z []) with 0. lia.
Qed.

(** C39: A login opens the API, and keeps it open.  When a login is answered
    with 200, the response sets a cookie holding the new token, and for a whole
    TTL from then, whatever other requests the daemon serves meanwhile (short
    of a logout with that token), a request that sends the cookie back passes
    the session check and gets the samples it asks for. *)
Theorem login_opens_api d e req st vs d' e' req' :
  is_login req = true -> own_host req (cfg d) (hostname d) true = true ->
  let '(r, st0) := route d e req st in
  let tok := new_session_token (random e) in
  let ttl := ttl_ns_ (Session.store (sessions st)) in
  status r = 200 -> 0 < ttl < 2 ^ 62 -> 0 <= now_session e < 2 ^ 62 -> match random e with Some b => zlen b = 32 | None => True end ->
  undisturbed (now_session e) tok vs -> Forall (fun v => now_session (v_env v) < now_session e + ttl) vs ->
  now_session e' < now_session e + ttl -> public d' = public d ->
  is_get req' "/api/samples" = true -> header req' (str "Cookie") = cookie_name d ++ [61] ++ tok ->
  extra_headers r = [(str "Set-Cookie", cookie_name d ++ [61] ++ tok ++ cookie_attrs req)] /\
  (route d' e' req' (served_all vs st0)).1 = samples_reply d' req'.
Proof.
  intros Hl Hh.
  assert (Hroute : is_get req "/" || is_get req "/index.html" = false /\ is_get req "/api/health" = false).
  { unfold is_login, is_get in *. apply andb_true_iff in Hl as [Hm Hp]. apply bool_decide_eq_true in Hm, Hp. by rewrite Hm. }
  unfold route at 1. rewrite Hl, Hh. cbn [negb]. rewrite (proj1 Hroute), (proj2 Hroute).
  destruct (login_sessions d e req st Hl Hh) as (es & He & Hs & H200).
  destruct (login_route d e req st) as [r st0]. cbn [fst snd] in *. intros Hst Httl Hn Hr Hu Hlt Hlt' Hp Hg Hck.
  destruct (H200 Hst) as (Hpass & -> & Hne & Hx). split; [done |]. clear H200 He.
  set (tok := new_session_token (random e)) in *. set (ttl := ttl_ns_ (Session.store (sessions st))) in *.
  pose proof (step_store (mkEvent (OCreate (random e)) (now_session e) (save_io e)) (sessions st)) as (Ht & Httl0 & _).
  cbn [ev_op ev_now step_table] in Ht. fold tok ttl in Ht.
  assert (Htab : tokens st0 !! tok = Some (now_session e + ttl)).
  { unfold tokens. rewrite Hs. change (Session.run [?x] ?w) with (step x w). rewrite Ht. destruct tok; [done |].
    rewrite lookup_insert_eq. f_equal. apply u64_small. lia. }
  assert (Httl1 : ttl_ns_ (Session.store (sessions st0)) = ttl) by (rewrite Hs; exact Httl0).
  destruct (served_keeps vs (now_session e) st0 tok (now_session e + ttl) (now_session e + ttl)) as (dl & Hdl & HB);
    rewrite ?Httl1; try done; try lia.
  injection Hp as Hc Hhn _. assert (Hname : cookie_name d' = cookie_name d) by (unfold cookie_name; congruence).
  assert (Htok' : request_token d' req' = tok).
  { unfold request_token. rewrite Hck, Hname. rewrite <- (own_cookie_read d tok) at 2.
    - destruct (cookie_name_chars d) as [_ H22]. destruct (cookie_name d); [done | done].
    - apply token_chars.
    - unfold tok. rewrite token_length. destruct (random e); lia. }
  destruct Hpass as [_ _ Hen _ _ _ _ _].
  assert (Hen' : auth_enabled (cfg d') = true) by congruence.
  assert (Hau : (authed d' e' req' (served_all vs st0)).1 = true).
  { rewrite authed_result by done. unfold has_session. rewrite Htok'. destruct tok as [| x tk]; [done |].
    unfold tokens in Hdl. rewrite Hdl. apply Z.ltb_lt. lia. }
  assert (Hget : method req' = str "GET" /\ path req' = str "/api/samples").
  { unfold is_get in Hg. apply andb_true_iff in Hg as [Hm Hpp]. by apply bool_decide_eq_true in Hm, Hpp. }
  destruct Hget as [Hm Hpp]. assert (Hlog : is_login req' = false) by (unfold is_login; by rewrite Hm).
  unfold route. rewrite Hlog. assert (Hown : own_host req' (cfg d') (hostname d') false = true).
  { unfold own_host. destruct (negb _); [done |]. by rewrite Hen'. }
  rewrite Hown. unfold is_get. rewrite Hm, Hpp. cbn [negb]. change (bool_decide (str "GET" = str "GET")) with true.
  change (bool_decide (str "GET" = str "POST")) with false. cbn [andb].
  change (bool_decide (str "/api/samples" = str "/")) with false. change (bool_decide (str "/api/samples" = str "/index.html")) with false.
  change (bool_decide (str "/api/samples" = str "/api/health")) with false. change (bool_decide (str "/api/samples" = str "/api/samples")) with true.
  cbn [orb]. unfold protected. destruct (authed d' e' req' (served_all vs st0)) as [ok st']. cbn [fst] in Hau. by subst.
Qed.

(** ** What a response's head is made of *)

Definition printable (c : Z) : Prop := 32 <= c <= 126.
Definition header_text (r : HttpResponse) : Prop :=
  Forall printable (content_type r) /\ Forall (fun kv => Forall printable kv.1 /\ Forall printable kv.2) (extra_headers r).

#[local] Instance printable_dec c : Decision (printable c) := ltac:(unfold printable; apply _).

Ltac text_printable := apply (bool_decide_unpack _); vm_compute; exact I.

Lemma cookie_char_printable s : Forall cookie_char s -> Forall printable s.
Proof. intros H. eapply Forall_impl; [exact H |]. intros c [? _]. unfold printable. lia. Qed.

Lemma digits_printable fuel v acc : Forall printable acc -> Forall printable (digits_of fuel v acc).
Proof.
  revert v acc. induction fuel as [| fuel IH]; intros v acc H; [done |]. cbn [digits_of].
  assert (Hc : Forall printable ((48 + v mod 10) :: acc)).
  { constructor; [| done]. pose proof (Z.mod_pos_bound v 10 ltac:(lia)). unfold printable. lia. }
  destruct (v <? 10); [done | by apply IH].
Qed.

Lemma append_int_printable v : Forall printable (append_int v).
Proof.
  unfold append_int, minus_if. apply Forall_app. split; [destruct (v <? 0); text_printable |].
  apply digits_printable. constructor.
Qed.

Lemma cookie_path_printable req : Forall printable (cookie_path req).
Proof.
  unfold cookie_path. set (p := first_entry _). clearbody p. destruct (_ || _); [text_printable |].
  destruct (forallb path_char p) eqn:E; cbn [negb]; [| text_printable].
  assert (Hp : Forall printable p).
  { apply List.Forall_forall. intros c Hc. rewrite forallb_forall in E. specialize (E c Hc).
    unfold path_char, printable in *. repeat (apply orb_true_iff in E as [E | E]); bool_facts; lia. }
  destruct (_ && _); [by apply Forall_take | done].
Qed.

Lemma cookie_attrs_printable req : Forall printable (cookie_attrs req).
Proof.
  unfold cookie_attrs. rewrite !Forall_app. split_and!.
  - text_printable.
  - apply cookie_path_printable.
  - text_printable.
  - destruct (via_https req); text_printable.
Qed.

Lemma plain_header_text s type text : Forall printable type -> header_text (response s type text).
Proof. intros H. split; [exact H | constructor]. Qed.

Lemma with_header_text k v r : header_text r -> Forall printable k -> Forall printable v -> header_text (with_header k v r).
Proof. intros [H1 H2] Hk Hv. split; [done |]. cbn. apply Forall_app. split; [done |]. by repeat constructor. Qed.

Lemma json_reply_text s text : header_text (json_reply s text).
Proof. apply plain_header_text. text_printable. Qed.
Lemma text_reply_text s text : header_text (text_reply s text).
Proof. apply plain_header_text. text_printable. Qed.

Ltac head_auto := cbn [fst]; first [apply json_reply_text | apply text_reply_text | apply append_int_printable].

Lemma login_route_text d e req st : header_text (login_route d e req st).1.
Proof.
  unfold login_route. destruct (_ || _); [head_auto |]. do 2 (destruct (negb _); [head_auto |]).
  destruct (login_attempt _ _ _ _) as [[wait | | b |] l]; cbn [fst]; [| head_auto.. |].
  - apply with_header_text; [head_auto | text_printable | head_auto].
  - destruct (create _ _ _ _) as [tok w] eqn:E. destruct tok as [| x tok]; cbn [fst]; [head_auto |].
    apply with_header_text; [head_auto | text_printable |]. rewrite !Forall_app. split_and!.
    + apply cookie_char_printable, cookie_name_chars.
    + text_printable.
    + apply cookie_char_printable. unfold create in E. destruct (new_session_token (random e)) eqn:En; [done |].
      injection E as <- <- _. rewrite <- En. apply token_chars.
    + apply cookie_attrs_printable.
Qed.

Lemma logout_route_text d e req st : header_text (logout_route d e req st).1.
Proof.
  apply with_header_text; [head_auto | text_printable |]. rewrite !Forall_app. split_and!.
  - apply cookie_char_printable, cookie_name_chars.
  - text_printable.
  - apply cookie_attrs_printable.
  - text_printable.
Qed.

Lemma range_reply_text d req : header_text (range_reply d req).
Proof.
  assert (Ha : forall n, header_text match n with None => json_reply 400 (error_body "bad range query")
    | Some out => json_reply 200 (samples_to_json out None) end) by (intros [n |]; head_auto).
  unfold range_reply. destruct (bool_decide _); [apply Ha |]. destruct (negb _); [| apply Ha].
  destruct (level_by_name _ _); [apply Ha | head_auto].
Qed.

Lemma protected_text d e req st reply :
  (forall st', header_text (reply st').1) -> header_text (protected d e req st reply).1.
Proof. intros H. unfold protected. destruct (authed d e req st) as [[] st']; cbn [negb]; [apply H | apply json_reply_text]. Qed.

(** C40: No request can add a response header.  The content type and every
    header a route adds are made of printable ASCII characters, without a CR
    or an LF, whatever the request's headers, target and body hold (the
    X-Forwarded-Prefix that goes into the cookie's path included), whatever
    the random source gives and whatever the state is. *)
Theorem no_header_injection d e req st : header_text (route d e req st).1.
Proof.
  unfold route. destruct (negb _); [apply text_reply_text |]. destruct (_ || _); [apply plain_header_text; text_printable |].
  destruct (is_get req "/api/health"); [apply json_reply_text |]. destruct (is_login req); [apply login_route_text |].
  destruct (_ && _); [apply logout_route_text |].
  destruct (is_get req "/api/samples"); [apply protected_text; intros st'; apply json_reply_text |].
  destruct (is_get req "/api/range"); [apply protected_text; intros st'; apply range_reply_text |].
  do 2 (destruct (is_get req _); [apply protected_text; intros st'; apply json_reply_text |]).
  destruct (bool_decide _); [| apply text_reply_text]. unfold ws_route. do 2 (destruct (negb _); [apply text_reply_text |]).
  destruct (authed d e req st) as [ok st']. destruct (negb ok); [apply text_reply_text |].
  destruct (_ <=? _); [apply text_reply_text | split; constructor].
Qed.

End Router.

(** ** A concrete daemon *)

(** argon2 that knows one password. *)
Definition knows_secret (encoded password : bytes) : Z := if bool_decide (password = str "secret") then 0 else -35.
Definition demo_config : Config := mkConfig (str "127.0.0.1") 8080 true (str "$argon2id$x") [].
Definition demo_sched : SchedulerConfig :=
  mkSchedulerConfig Adaptive 300 30 1 300 60 false 300 0 0 0 0 0 0 metric_set_standard metric_set_full metric_set_full [].
Definition demo_deps (alerts : list AlertEvent) : Deps :=
  mkDeps demo_config (str "h") (str "1") 5 (new_HotBuffer (fun _ => zero_Sample) 4) None (Some alerts)
    new_TierManager (TierManager.mkWorld ∅ []) (fun _ => true) new_Hub demo_sched.
Definition demo_router : Router := mkRouter (Session.mkWorld (new_SessionStore 100) ∅ []) (new_LoginLimiter 5 60 50) 0 0.
Definition demo_env (now : Z) : Env := mkEnv now now now (Some (replicate 32 171)) save_ok.
Definition demo_login : HttpRequest :=
  mkHttpRequest (str "POST") (str "/api/auth/login") [] (str "127.0.0.1") [(str "Content-Type", str "application/json")]
    ([123] ++ q "password" ++ [58] ++ q "secret" ++ [125]).
Definition demo_get (path : string) (cookie : bytes) : HttpRequest :=
  mkHttpRequest (str "GET") (str path) [] (str "127.0.0.1") [(str "Cookie", cookie)] [].
Definition demo_route := route (fun _ => false) knows_secret (-32) (str "<html>") (fun _ _ _ _ => 0).
Definition demo_served := served_all (fun _ => false) knows_secret (-32) (str "<html>") (fun _ _ _ _ => 0).
Definition demo_cookie : bytes := cookie_name (demo_deps []) ++ [61] ++ new_session_token (random (demo_env 5)).

Lemma unauthenticated_learns_nothing_witness :
  let a := mkAlertEvent 1 (str "critical") (str "disk full") (str "/data at 99%") in
  demo_route (demo_deps [a]) (demo_env 5) (demo_get "/api/alerts" demo_cookie) demo_router =
  demo_route (demo_deps []) (demo_env 5) (demo_get "/api/alerts" demo_cookie) demo_router.
Proof. apply unauthenticated_learns_nothing; [reflexivity | reflexivity | vm_compute; reflexivity]. Defined.

Lemma sessions_only_from_logins_witness :
  exists before v after,
    [mkVisit (demo_deps []) (demo_env 5) demo_login] = before ++ v :: after /\
    login_passed (fun _ => false) knows_secret (-32) (v_deps v) (v_env v) (v_req v) (demo_served before demo_router) /\
    new_session_token (random (demo_env 5)) = new_session_token (random (v_env v)) /\ new_session_token (random (demo_env 5)) <> [].
Proof.
  apply (sessions_only_from_logins (fun _ => false) knows_secret (-32) (str "<html>") (fun _ _ _ _ => 0)).
  - vm_compute. by eexists.
  - vm_compute. reflexivity.
Defined.

Lemma login_opens_api_witness :
  let '(r, st0) := demo_route (demo_deps []) (demo_env 5) demo_login demo_router in
  let vs := [mkVisit (demo_deps []) (mkEnv 50000000000 0 0 (Some [1]) save_ok) (demo_get "/api/alerts" demo_cookie)] in
  extra_headers r = [(str "Set-Cookie", demo_cookie ++ cookie_attrs demo_login)] /\
  (demo_route (demo_deps []) (demo_env 99000000000) (demo_get "/api/samples" demo_cookie) (demo_served vs st0)).1 =
  samples_reply (demo_deps []) (demo_get "/api/samples" demo_cookie).
Proof.
  set (vs := [mkVisit (demo_deps []) (mkEnv 50000000000 0 0 (Some [1]) save_ok) (demo_get "/api/alerts" demo_cookie)]).
  pose proof (login_opens_api (fun _ => false) knows_secret (-32) (str "<html>") (fun _ _ _ _ => 0) (demo_deps []) (demo_env 5) demo_login
    demo_router vs (demo_deps []) (demo_env 99000000000) (demo_get "/api/samples" demo_cookie) eq_refl eq_refl) as H.
  fold demo_route in H. assert (Hs : status (demo_route (demo_deps []) (demo_env 5) demo_login demo_router).1 = 200) by (vm_compute; reflexivity).
  destruct (demo_route (demo_deps []) (demo_env 5) demo_login demo_router) as [r st0].
  apply H; [exact Hs | vm_compute; split; reflexivity | vm_compute; split; [discriminate | reflexivity] | reflexivity | | | | | |];
    try reflexivity.
  - vm_compute. repeat split; discriminate.
  - repeat constructor.
Defined.
